(* ===== verification/_CoqProject ===== *)
-Q . S2P
Prelude.v
Bytes.v
Text.v
Reader.v
Effects.v
Domain.v
Policy.v
Crypto.v
Format.v
VPath.v
Fs.v
Store.v
Toy.v
Durability.v
Namespace.v
NamespaceInv.v
NamespacePersist.v
NamespaceOps.v
Wildmatch.v
Drive.v
DriveProps.v
Protocol.v
ConfigCache.v
Pipe.v
Session.v
Fingerprint.v
Credential.v
Calendar.v
Tls.v
Directory.v
Ledger.v
Authority.v
Enrollment.v
Client.v
Agent.v
Issuance.v
Service.v
RouteStore.v
Routes.v
Server.v
ServerToy.v
Production.v
Admission.v
EndToEnd.v
Dlpctl.v
LogDebug.v
Win32.v
Launcher.v
Endpoint.v
Vault.v
Logon.v
Hardware.v
Smoke.v
SmokeProps.v
Station.v
Mount.v
Lifetime.v
