(* ===== verification/Prelude.v ===== *)
(** * Verification of the DLP endpoint and its server

    The program is an endpoint data-loss-prevention system.  A Windows service
    launches, for every logged-on user, a drive host that mounts an encrypted
    store as a drive; the agent enrolls with a server, keeps the signed
    configurations it sends and decides on file operations by policy; administrators
    provision devices from a command line and read logs through a separate service.
    This library models the parts below as executable definitions and proves what
    makes them correct.

    ** Parts, sources (under src/crates/) and files

    - Vocabulary and policy.  dlp-domain/src/lib.rs is Domain, dlp-policy/src/lib.rs
      is Policy: identifiers are the byte strings their [parse] accepts, the
      evaluator is a fold over the rules.
    - Cryptography.  dlp-crypto is Crypto.  AES-GCM, Ed25519 and SHA-256 are
      third-party: classes [Aead], [Ed25519], [Sha256], with their documented
      behaviour in [AeadLaws], [Ed25519Laws], [Sha256Laws].  Toy instantiates them
      for concrete runs.
    - Encrypted store.  dlp-storage/src/format.rs is Format, path.rs is VPath; the
      file half of store.rs and recovery.rs is Store, the namespace half is
      Namespace.  The store runs in the world of Fs: a disk, process counters, a
      random stream and a clock, where a plan decides for every disk operation
      whether it succeeds, fails, or fails part-way.
    - Drive.  dlp-windows-drive/src/wildmatch.rs is Wildmatch; filesystem.rs,
      status.rs and the parts of bin/dlp-drive-host.rs up to the choice of a letter
      are Drive, with WinFsp as the class [WinFsp]; the whole of the host's [main]
      and host.rs are Mount.
    - Protocol and cache.  dlp-protocol/src/lib.rs is Protocol; config_cache.rs and
      the in-memory set of lib.rs in dlp-agent-core are ConfigCache.
    - Agent.  dlp-agent-core/src/client.rs is Client, enrollment.rs and health.rs
      are Agent; HTTP, JSON and certificate crates are classes.
    - Windows service.  dlp-windows-service/src/service.rs is Service, part by part,
      and Lifetime, with its threads interleaved; session.rs is Session (the monitor
      over the class [Providers]), Launcher (sessions, tokens, the launch of a host)
      and Logon ([session_logon] over the Windows providers); pipe.rs is Pipe (both
      sides over the bytes exchanged, class [PipeJson] for serde_json) and Endpoint
      (the server end as calls to Windows); credential.rs is Credential (class
      [Custody]) and, with the store keys of session.rs, Vault (DPAPI and access
      lists call by call); fingerprint.rs is Fingerprint and Hardware (the
      collection).  Win32 is the interface these call: an oracle decides for each
      call whether it succeeds and what it reports, and the state records the calls,
      the objects handed out, impersonation and security descriptors.
    - Server.  In dlp-server/src: pki.rs is Calendar and Enrollment, tls.rs is Tls,
      ad.rs is Directory, repository.rs with the migrations is Ledger, Authority and
      RouteStore, enrollment.rs is Enrollment, routes.rs is Routes, lib.rs, health.rs
      and main.rs are Server; Production is the server as deployed, over a database
      whose exchanges may fail; ServerToy has concrete stand-ins.
    - Log debug service.  dlp-log-debug-service is LogDebug.
    - Command line.  dlpctl/src is Dlpctl (commands, station, provisioning), Smoke
      (the smoke and hardening runs) and Station ([main]).

    The shared files are this one (results, bytes, slices, tactics), Bytes (integer
    encodings, ASCII, UTF-8), Text (splitting, decimal, hexadecimal, ordered maps),
    Reader (bounds-checked readers) and Effects (the state and error monad in which
    an error keeps the state reached, as [?] on [&mut self] does, and its triples).

    The components meet where the code's do: Drive calls Namespace and Store, which
    call Format, Crypto and Fs; Mount composes Drive, Pipe and Win32 into the host
    process and meets Endpoint at the other end of the pipe; Logon composes Launcher,
    Endpoint and Vault; Lifetime composes the threads of Service over Session;
    ConfigCache verifies with Crypto what Protocol encodes and writes through Fs;
    EndToEnd and Station put agent and command line before the server of Production.

    ** What is shown

    - Durability: a flush, whatever fails, leaves the old or the new content
      readable, a successful one the new, as long as the process runs that published
      the old one; reads return only authenticated data of the right store, file,
      generation and position; two scenarios in which a restart or an interrupted
      recovery loses data.
    - NamespaceInv, NamespacePersist, NamespaceOps: every sequence of operations
      keeps the namespace well formed; its record on disk is replaced atomically and
      reloads to the same names; renames, deletions and listings do what they say;
      and the cases in which they destroy or alias files.
    - DriveProps: a write callback that succeeds is durable and read back; the
      callbacks' behaviour on unwritten files, collisions and stale contexts.
    - Format, VPath, Crypto, Protocol, ConfigCache, Credential: decoders accept
      exactly the encodings of well-formed values, or round trips through the disk;
      the associated data of a record determines its header; parsed paths are
      confined.
    - Wildmatch: the matching loop terminates, accepts only matches, and all of them
      when the name has no literal star.
      Policy: the decision is an unbeaten matching rule, in any order of the rules.
    - ConfigCache: the durable cache refines the in-memory set of current and
      last-known-good configurations, and makes progress on a healthy disk.
    - Pipe, Endpoint: a key is sent only to the launched host; the handshake
      completes; the Windows end gives its answer and writes its bytes, whatever calls
      fail, unless a write fails, and then a prefix of them.
    - Mount: the drive host exits with a known code or leaves nothing behind, and
      when the service holds a letter the host has shown that store there.
    - Session: the monitor's invariant over all event sequences, the bounds of the
      retry delay, and that an actor without a drive never regains one.
    - Launcher, Logon, Vault, Hardware: every kernel object is accounted for, also
      those a failure leaves, by the calls that made them and that failed; the
      arguments of a launched host are those its parser reads, the check of access
      lists is exact, credentials and store keys are read back.
    - Service, Lifetime: the loop never goes back to an older configuration; every
      interleaved run is the loop and the session thread on the events that were sent
      and the mounts that were published at each point; a stop ends it in bounded
      steps, and it reports so only when everything has ended.
    - Fingerprint: the SMBIOS walk terminates and finds the structure, and loses the
      last string of it.
    - Client, Agent, Issuance: what chain the agent accepts, and that a leaf from
      before 1970 escapes the bound on its validity; which chains the server issues, and that the private key stays on the endpoint.
    - Authority, Production, Routes, Admission: the invariant of the ledger, one
      certificate per provisioning, revocation for good, guarded device routes, and
      that an open token is admitted.  EndToEnd: agent and server agree on an
      enrollment.  Station: the token a command line hands over opens one; the
      station's fingerprint is never the endpoint's.
    - Calendar: the date arithmetic is the Gregorian calendar.  Tls: who a
      connection is.  LogDebug: what the log endpoint may serve, and that it is the
      newest lines.
    - Smoke, SmokeProps: the search for a marker ends and is exact, a smoke run that
      reports has read the bytes it wrote and left its marker in none of the trees, the hardening race ends with the newest configuration.

    ** Fuel and bounds

    Loops that are not structural carry fuel that is enough for every round:
    [chunks] the length of the slice; [match_loop] a product of the lengths, with
    the termination part of [wildcard_matches]; [control_loop] one more than the
    input, with [run_control_loop_total]; [find_structure] one more than the table;
    [strip_leading], [remove_whitespace] and [read_string_from] the length of the
    string, as each round removes a byte; [dec_go] the number of binary digits;
    [scan_pending] two more than the directories of the disk, with the first part of
    [tree_scan_exact].  Integers are [N] or [Z] with the source's checks, saturation
    or wrap-around written out; the counter of mount generations wraps at 2^64,
    below which the session theorems hold.

    ** What is not modelled

    Loss of unsynced pages; poisoned locks and panics of a thread; the service's log
    file, lines printed for a person, and the Debug and Display text, which carry no
    state; clearing of secrets from memory.  Windows, WinFsp, DPAPI, JSON, HTTP,
    LDAP, certificates and cryptography are parameters.  The registration with the
    service manager, the server's listening sockets and its development tracer, and
    the stubs for systems other than Windows are left out: they only hand control to
    code outside the repository.

    This file itself holds results and their monad, bytes and machine integers,
    and the list lemmas and tactics the component files use. *)

From Stdlib Require Export Strings.Byte NArith Lia.
From stdpp Require Export base tactics option list numbers gmap sets sorting.
From stdpp Require Export strings.

#[global] Open Scope N_scope.
#[global] Set Default Goal Selector "!".

(** ** Results *)

(** [Result<A, E>] of the standard library. *)
Inductive result (E A : Type) : Type :=
| Ok (a : A)
| Err (e : E).
Arguments Ok {E A} a.
Arguments Err {E A} e.

Declare Scope result_scope.
Delimit Scope result_scope with result.

#[export] Instance result_ret {E} : MRet (result E) := fun A a => Ok a.
#[export] Instance result_bind {E} : MBind (result E) :=
  fun A B f r => match r with Ok a => f a | Err e => Err e end.
#[export] Instance result_fmap {E} : FMap (result E) :=
  fun A B f r => match r with Ok a => Ok (f a) | Err e => Err e end.

#[export] Instance result_eq_dec {E A} `{EqDecision E, EqDecision A} :
  EqDecision (result E A).
Proof. solve_decision. Defined.

Lemma Ok_inj {E A} (a b : A) : @Ok E A a = Ok b -> a = b.
Proof. by intros [= ->]. Qed.

Lemma result_bind_ext {E A B} (r : result E A) (f g : A -> result E B) :
  (forall a, f a = g a) -> (r ≫= f) = (r ≫= g).
Proof. intros H. destruct r; [apply H|done]. Qed.

Lemma result_bind_Ok {E A B} (m : result E A) (k : A -> result E B) b :
  m ≫= k = Ok b -> exists a, m = Ok a /\ k a = Ok b.
Proof. destruct m as [a|]; [|done]. cbn. eauto. Qed.

(** [Option::ok_or]. *)
Definition ok_or {E A} (e : E) (o : option A) : result E A :=
  match o with Some a => Ok a | None => Err e end.

Lemma ok_or_Ok {E A} (e : E) (o : option A) a : ok_or e o = Ok a <-> o = Some a.
Proof. destruct o; cbn; split; intros [= ->] || done; done. Qed.

(** [Result::map_err]. *)
Definition map_err {E F A} (f : E -> F) (r : result E A) : result F A :=
  match r with Ok a => Ok a | Err e => Err (f e) end.

Lemma map_err_Ok {E F A} (f : E -> F) (r : result E A) a : map_err f r = Ok a -> r = Ok a.
Proof. by destruct r; cbn; intros [= ->]. Qed.

(** [Result::ok]. *)
Definition result_ok {E A} (r : result E A) : option A :=
  match r with Ok a => Some a | Err _ => None end.

(** [Result::unwrap_or]. *)
Definition unwrap_or {E A} (r : result E A) (d : A) : A :=
  match r with Ok a => a | Err _ => d end.

Definition is_ok {E A} (r : result E A) : bool :=
  match r with Ok _ => true | Err _ => false end.

(** An early return: [if c { return Err(e) }]. *)
Notation "'guard!' c 'else' e ; k" := (if c then k else Err e)
  (at level 10, c at level 100, e at level 100, k at level 200,
   format "'guard!'  c  'else'  e ; '//' k") : result_scope.

#[global] Open Scope result_scope.

(** ** Bytes *)

Notation byte := Byte.byte.
(** A byte string; a Rust [String] is one that is valid UTF-8. *)
Notation bytes := (list Byte.byte).

#[export] Instance byte_eq_dec : EqDecision byte := Byte.byte_eq_dec.
#[export, program] Instance byte_countable : Countable byte :=
  inj_countable Byte.to_N Byte.of_N _.
Next Obligation. intros x. apply Byte.of_to_N. Qed.

(** The bytes of an ASCII literal. *)
Definition lit (s : string) : bytes := String.list_byte_of_string s.

(** [b as u8] of an integer: the low eight bits. *)
Definition byte_of (n : N) : byte :=
  match Byte.of_N (n mod 256) with Some b => b | None => x00 end.

Lemma to_N_byte_of n : Byte.to_N (byte_of n) = n mod 256.
Proof.
  unfold byte_of. destruct (Byte.of_N (n mod 256)) eqn:E.
  - by apply Byte.to_of_N.
  - apply Byte.of_N_None_iff in E. pose proof (N.mod_lt n 256). lia.
Qed.

Lemma byte_of_to_N b : byte_of (Byte.to_N b) = b.
Proof.
  unfold byte_of. pose proof (Byte.to_N_bounded b).
  rewrite N.mod_small by lia. by rewrite Byte.of_to_N.
Qed.

Lemma byte_to_N_inj a b : Byte.to_N a = Byte.to_N b -> a = b.
Proof. intros H. by rewrite <- (byte_of_to_N a), H, byte_of_to_N. Qed.

Lemma byte_lt b : Byte.to_N b < 256.
Proof. pose proof (Byte.to_N_bounded b). lia. Qed.

(** The length of a slice, as a [usize] value. *)
Definition len {A} (l : list A) : N := N.of_nat (length l).

Lemma len_app {A} (l k : list A) : len (l ++ k) = len l + len k.
Proof. unfold len. rewrite length_app. lia. Qed.

Lemma len_nil {A} : len (@nil A) = 0.
Proof. done. Qed.

Lemma len_cons {A} (x : A) l : len (x :: l) = 1 + len l.
Proof. unfold len. simpl. lia. Qed.

Lemma len_0 {A} (l : list A) : len l = 0 -> l = [].
Proof. destruct l; [done|]. rewrite len_cons. lia. Qed.

Lemma len_app_same {A} (l k : list A) : len (l ++ k) = len l -> k = [].
Proof. rewrite len_app. intros. apply len_0. lia. Qed.

Definition u8_max : N := 0xFF.
Definition u16_max : N := 0xFFFF.
Definition u32_max : N := 0xFFFFFFFF.
Definition u64_max : N := 0xFFFFFFFFFFFFFFFF.

(** [checked_add] on [u64]. *)
Definition checked_add64 (a b : N) : option N :=
  if a + b <=? u64_max then Some (a + b) else None.

(** [saturating_add] on [u64]. *)
Definition saturating_add64 (a b : N) : N := N.min (a + b) u64_max.

(** [wrapping_add] on [u64], which is what [fetch_add] of an [AtomicU64] does. *)
Definition wrapping_add64 (a b : N) : N := (a + b) mod 2 ^ 64.

(** ** Slices *)

(** [slice.split_at(n)], total: what is beyond the end is empty.  The index is
    binary, so that large chunk sizes evaluate. *)
Fixpoint split_at {A} (n : N) (l : list A) : list A * list A :=
  match l with
  | [] => ([], [])
  | x :: l' =>
      if n =? 0 then ([], l)
      else let '(a, b) := split_at (n - 1) l' in (x :: a, b)
  end.

Lemma split_at_spec {A} n (l : list A) :
  split_at n l = (take (N.to_nat n) l, drop (N.to_nat n) l).
Proof.
  revert n; induction l as [|x l IH]; intros n; simpl.
  - by rewrite take_nil, drop_nil.
  - destruct (N.eqb_spec n 0) as [->|Hn]; [done|].
    rewrite IH. replace (N.to_nat n) with (S (N.to_nat (n - 1))) by lia. done.
Qed.

Lemma split_at_app {A} (l k : list A) : split_at (len l) (l ++ k) = (l, k).
Proof.
  rewrite split_at_spec. unfold len. rewrite Nat2N.id.
  by rewrite take_app_length, drop_app_length.
Qed.

(** The sub-slice of [n] bytes from [off], when it is in range. *)
Definition slice_get {A} (off n : N) (l : list A) : option (list A) :=
  if off + n <=? len l then Some (fst (split_at n (snd (split_at off l)))) else None.

(** [slice.chunks(size)]. *)
Fixpoint chunks_fuel {A} (fuel : nat) (size : N) (l : list A) : list (list A) :=
  match fuel, l with
  | O, _ | _, [] => []
  | S f, _ => let '(a, b) := split_at size l in a :: chunks_fuel f size b
  end.

Definition chunks {A} (size : N) (l : list A) : list (list A) :=
  chunks_fuel (length l) size l.

Lemma chunks_fuel_concat {A} fuel size (l : list A) :
  0 < size -> (length l <= fuel)%nat -> concat (chunks_fuel fuel size l) = l.
Proof.
  intros Hs. revert l; induction fuel as [|f IH]; intros l Hl.
  - destruct l; simpl in *; [done|lia].
  - destruct l as [|x l]; [done|]. cbn [chunks_fuel].
    rewrite split_at_spec. cbn [concat]. rewrite IH.
    + apply take_drop.
    + rewrite length_drop. simpl in *. lia.
Qed.

Lemma chunks_concat {A} size (l : list A) : 0 < size -> concat (chunks size l) = l.
Proof. intros. by apply chunks_fuel_concat. Qed.

Lemma chunks_fuel_sizes {A} fuel size (l c : list A) :
  0 < size -> c ∈ chunks_fuel fuel size l -> 0 < len c <= size.
Proof.
  intros Hs. revert l; induction fuel as [|f IH]; intros [|x l]; cbn [chunks_fuel];
    try by intros ?%elem_of_nil.
  rewrite split_at_spec. intros [->|Hc]%elem_of_cons; [|by eapply IH].
  unfold len. rewrite length_take. simpl. lia.
Qed.

Lemma chunks_sizes {A} size (l c : list A) :
  0 < size -> c ∈ chunks size l -> 0 < len c <= size.
Proof. apply chunks_fuel_sizes. Qed.

Lemma chunks_fuel_count {A} fuel size (l : list A) :
  0 < size -> len (chunks_fuel fuel size l) <= len l.
Proof.
  intros Hs. revert l; induction fuel as [|f IH]; intros [|x l]; cbn [chunks_fuel];
    rewrite ?len_nil; try lia.
  destruct (split_at size (x :: l)) as [a c] eqn:E. rewrite split_at_spec in E.
  injection E as <- <-. rewrite len_cons. specialize (IH (drop (N.to_nat size) (x :: l))).
  unfold len in *. rewrite length_drop in IH. simpl length in *. lia.
Qed.

Lemma chunks_count {A} size (l : list A) : 0 < size -> len (chunks size l) <= len l.
Proof. apply chunks_fuel_count. Qed.

Lemma existsb_false {A} (f : A -> bool) l :
  existsb f l = false -> forall x, x ∈ l -> f x = false.
Proof.
  induction l as [|y l IH]; [by intros _ x ?%elem_of_nil|]. simpl.
  intros [Hy Hl]%orb_false_iff x [->|Hx]%elem_of_cons; [done|by apply IH].
Qed.

(** ** Tactics and hints *)

Create HintDb dlp discriminated.
Create Rewrite HintDb dlp.
#[export] Hint Rewrite @len_app @len_nil @len_cons : dlp.
#[export] Hint Resolve byte_lt : dlp.

(** Case analysis on the first conditional of the goal or of a hypothesis. *)
Ltac cases :=
  repeat (case_match; simplify_eq/=; try done).

(** Invert an equation between results built with [mbind]. *)
Ltac inv_result :=
  repeat match goal with
  | H : mbind _ ?r = Ok _ |- _ => unfold mbind, result_bind in H
  | H : (match ?r with Ok _ => _ | Err _ => _ end) = Ok _ |- _ =>
      let E := fresh "E" in destruct r eqn:E; [|discriminate H]
  | H : (if ?c then _ else Err _) = Ok _ |- _ =>
      let E := fresh "E" in destruct c eqn:E; [|discriminate H]
  | H : (if ?c then Err _ else _) = Ok _ |- _ =>
      let E := fresh "E" in destruct c eqn:E; [discriminate H|]
  | H : Ok _ = Ok _ |- _ => injection H as H; try subst
  end.
