(* ===== verification/Bytes.v ===== *)
(** * Bytes

    The byte-level part of the standard library the sources use: fixed-width
    integer encodings, ASCII classes, UTF-8 validity and decoding, splitting
    and searching of strings, decimal and hexadecimal text. *)

From S2P Require Import Prelude.

(** ** Fixed-width integers *)

(** [to_le_bytes] of a [w]-byte integer. *)
Fixpoint to_le (w : nat) (n : N) : bytes :=
  match w with
  | O => []
  | S w' => byte_of n :: to_le w' (n / 256)
  end.

(** [from_le_bytes]. *)
Fixpoint from_le (l : bytes) : N :=
  match l with
  | [] => 0
  | b :: l' => Byte.to_N b + 256 * from_le l'
  end.

(** [to_be_bytes] and [from_be_bytes]. *)
Definition to_be (w : nat) (n : N) : bytes := rev (to_le w n).
Definition from_be (l : bytes) : N := from_le (rev l).

Lemma length_to_le w n : length (to_le w n) = w.
Proof. revert n; induction w as [|w IH]; intros n; simpl; [done|by rewrite IH]. Qed.

Lemma length_to_be w n : length (to_be w n) = w.
Proof. unfold to_be. by rewrite length_rev, length_to_le. Qed.

Lemma len_to_le w n : len (to_le w n) = N.of_nat w.
Proof. unfold len. by rewrite length_to_le. Qed.

Lemma len_to_be w n : len (to_be w n) = N.of_nat w.
Proof. unfold len. by rewrite length_to_be. Qed.

Lemma from_to_le w n : n < 256 ^ N.of_nat w -> from_le (to_le w n) = n.
Proof.
  revert n; induction w as [|w IH]; intros n Hn; simpl.
  - simpl in Hn. lia.
  - rewrite to_N_byte_of, IH.
    + pose proof (N.div_mod n 256). lia.
    + apply N.Div0.div_lt_upper_bound.
      rewrite Nat2N.inj_succ, N.pow_succ_r' in Hn. done.
Qed.

Lemma from_to_be w n : n < 256 ^ N.of_nat w -> from_be (to_be w n) = n.
Proof. intros. unfold from_be, to_be. rewrite rev_involutive. by apply from_to_le. Qed.

Lemma from_le_bound l : from_le l < 256 ^ len l.
Proof.
  induction l as [|b l IH]; [done|]. cbn [from_le]. rewrite len_cons, N.pow_add_r.
  pose proof (byte_lt b). change (256 ^ 1) with 256. lia.
Qed.

Lemma to_from_le l : to_le (length l) (from_le l) = l.
Proof.
  induction l as [|b l IH]; [done|]. cbn [from_le length to_le]. f_equal.
  - rewrite <- (byte_of_to_N b) at 2. unfold byte_of.
    replace ((Byte.to_N b + 256 * from_le l) mod 256) with (Byte.to_N b mod 256); [done|].
    rewrite N.mul_comm, N.Div0.mod_add. done.
  - rewrite N.mul_comm, N.div_add by lia.
    rewrite N.div_small by apply byte_lt. rewrite N.add_0_l. apply IH.
Qed.

Lemma to_le_inj w a b :
  a < 256 ^ N.of_nat w -> b < 256 ^ N.of_nat w -> to_le w a = to_le w b -> a = b.
Proof. intros Ha Hb E. rewrite <- (from_to_le w a), E; [by apply from_to_le|done]. Qed.

Lemma to_be_inj w a b :
  a < 256 ^ N.of_nat w -> b < 256 ^ N.of_nat w -> to_be w a = to_be w b -> a = b.
Proof. intros Ha Hb E. rewrite <- (from_to_be w a), E; [by apply from_to_be|done]. Qed.

#[export] Hint Rewrite len_to_le len_to_be : dlp.

(** Two concatenations whose heads have the same length agree piecewise. *)
Lemma app_inj_len {A} (a b c d : list A) :
  len a = len c -> a ++ b = c ++ d -> a = c /\ b = d.
Proof. intros Hl. apply app_inj_1. unfold len in Hl. lia. Qed.

Lemma cons_inj {A} (x y : A) l k : x :: l = y :: k -> x = y /\ l = k.
Proof. by intros [= -> ->]. Qed.

(** ** ASCII *)

Definition in_range (lo hi : N) (b : byte) : bool :=
  (lo <=? Byte.to_N b) && (Byte.to_N b <=? hi).

Definition is_ascii (b : byte) : bool := Byte.to_N b <? 128.
Definition is_ascii_digit : byte -> bool := in_range 48 57.
Definition is_ascii_uppercase : byte -> bool := in_range 65 90.
Definition is_ascii_lowercase : byte -> bool := in_range 97 122.
Definition is_ascii_alphabetic (b : byte) : bool :=
  is_ascii_uppercase b || is_ascii_lowercase b.
Definition is_ascii_alphanumeric (b : byte) : bool :=
  is_ascii_alphabetic b || is_ascii_digit b.
Definition is_ascii_hexdigit (b : byte) : bool :=
  is_ascii_digit b || in_range 65 70 b || in_range 97 102 b.

(** [u8::to_ascii_lowercase]; on a string it leaves the bytes of non-ASCII
    characters alone. *)
Definition byte_lower (b : byte) : byte :=
  if is_ascii_uppercase b then byte_of (Byte.to_N b + 32) else b.
Definition byte_upper (b : byte) : byte :=
  if is_ascii_lowercase b then byte_of (Byte.to_N b - 32) else b.
Definition to_ascii_lowercase (s : bytes) : bytes := map byte_lower s.
Definition to_ascii_uppercase (s : bytes) : bytes := map byte_upper s.
Definition eq_ignore_ascii_case (a b : bytes) : bool :=
  bool_decide (to_ascii_lowercase a = to_ascii_lowercase b).

(** A boolean fact about every byte, by enumeration. *)
Definition all_bytes : bytes := map (fun n => byte_of (N.of_nat n)) (seq 0 256).

Lemma all_bytes_spec b : b ∈ all_bytes.
Proof.
  rewrite <- (byte_of_to_N b). apply list_elem_of_In. unfold all_bytes.
  apply in_map_iff. exists (N.to_nat (Byte.to_N b)).
  rewrite N2Nat.id. split; [done|]. apply in_seq. pose proof (byte_lt b). lia.
Qed.

Lemma byte_forall (f : byte -> bool) : forallb f all_bytes = true -> forall b, f b = true.
Proof.
  intros H b. rewrite forallb_forall in H. apply H, list_elem_of_In, all_bytes_spec.
Qed.

Lemma byte_lower_idemp b : byte_lower (byte_lower b) = byte_lower b.
Proof.
  apply Byte.byte_dec_bl.
  apply (byte_forall (fun b => Byte.eqb (byte_lower (byte_lower b)) (byte_lower b))).
  vm_compute. reflexivity.
Qed.

Lemma to_ascii_lowercase_idemp s :
  to_ascii_lowercase (to_ascii_lowercase s) = to_ascii_lowercase s.
Proof.
  unfold to_ascii_lowercase. rewrite map_map. apply map_ext, byte_lower_idemp.
Qed.

Lemma to_ascii_lowercase_app a b :
  to_ascii_lowercase (a ++ b) = to_ascii_lowercase a ++ to_ascii_lowercase b.
Proof. apply map_app. Qed.

(** Lowercasing neither makes nor removes a byte outside the letters. *)
Lemma byte_lower_other c b :
  is_ascii_alphabetic c = false -> byte_lower b = c <-> b = c.
Proof.
  intros Hc. pose proof (byte_forall (fun b => implb (is_ascii_uppercase b)
    (is_ascii_alphabetic (byte_lower b))) ltac:(vm_compute; reflexivity) b) as Hb.
  unfold byte_lower in *. destruct (is_ascii_uppercase b) eqn:E; [|done].
  simpl in Hb. split; intros <-; [congruence|].
  unfold is_ascii_alphabetic in Hc. rewrite E in Hc. discriminate.
Qed.

(** ** UTF-8 *)

Definition is_cont : byte -> bool := in_range 128 191.

(** The second byte a three- or four-byte lead admits. *)
Definition second3 (b0 b1 : byte) : bool :=
  match Byte.to_N b0 with
  | 224 => in_range 160 191 b1
  | 237 => in_range 128 159 b1
  | _ => is_cont b1
  end.
Definition second4 (b0 b1 : byte) : bool :=
  match Byte.to_N b0 with
  | 240 => in_range 144 191 b1
  | 244 => in_range 128 143 b1
  | _ => is_cont b1
  end.

(** [str::from_utf8] succeeds. *)
Fixpoint utf8_valid (s : bytes) : bool :=
  match s with
  | [] => true
  | b0 :: s1 =>
      if is_ascii b0 then utf8_valid s1
      else match s1 with
      | [] => false
      | b1 :: s2 =>
          if in_range 194 223 b0 then is_cont b1 && utf8_valid s2
          else match s2 with
          | [] => false
          | b2 :: s3 =>
              if in_range 224 239 b0 then second3 b0 b1 && is_cont b2 && utf8_valid s3
              else match s3 with
              | [] => false
              | b3 :: s4 =>
                  in_range 240 244 b0 && second4 b0 b1 && is_cont b2 && is_cont b3
                  && utf8_valid s4
              end
          end
      end
  end.

(** [String::from_utf8_lossy]: each maximal prefix of a sequence that cannot be
    completed becomes one U+FFFD. *)
Definition replacement : bytes := [xef; xbf; xbd].

Fixpoint utf8_lossy (s : bytes) : bytes :=
  match s with
  | [] => []
  | b0 :: s1 =>
      if is_ascii b0 then b0 :: utf8_lossy s1
      else match s1 with
      | [] => replacement
      | b1 :: s2 =>
          if in_range 194 223 b0 then
            if is_cont b1 then b0 :: b1 :: utf8_lossy s2 else replacement ++ utf8_lossy s1
          else if (in_range 224 239 b0 && second3 b0 b1) || (in_range 240 244 b0 && second4 b0 b1) then
            match s2 with
            | [] => replacement
            | b2 :: s3 =>
                if negb (is_cont b2) then replacement ++ utf8_lossy s2
                else if in_range 224 239 b0 then b0 :: b1 :: b2 :: utf8_lossy s3
                else match s3 with
                | [] => replacement
                | b3 :: s4 =>
                    if is_cont b3 then b0 :: b1 :: b2 :: b3 :: utf8_lossy s4
                    else replacement ++ utf8_lossy s3
                end
            end
          else replacement ++ utf8_lossy s1
      end
  end.

(** [str::chars], as scalar values; on a string that is not valid UTF-8 (which
    no [str] is) it stops. *)
Fixpoint chars (s : bytes) : list N :=
  let v := Byte.to_N in
  match s with
  | [] => []
  | b0 :: s1 =>
      if is_ascii b0 then v b0 :: chars s1
      else match s1 with
      | [] => []
      | b1 :: s2 =>
          if in_range 194 223 b0 then ((v b0 - 192) * 64 + (v b1 - 128)) :: chars s2
          else match s2 with
          | [] => []
          | b2 :: s3 =>
              if in_range 224 239 b0
              then ((v b0 - 224) * 4096 + (v b1 - 128) * 64 + (v b2 - 128)) :: chars s3
              else match s3 with
              | [] => []
              | b3 :: s4 =>
                  ((v b0 - 240) * 262144 + (v b1 - 128) * 4096 + (v b2 - 128) * 64
                   + (v b3 - 128)) :: chars s4
              end
          end
      end
  end.

(** [char::is_control]: the Unicode category Cc. *)
Definition is_control (c : N) : bool := (c <? 32) || ((127 <=? c) && (c <=? 159)).

Lemma utf8_valid_app a b :
  utf8_valid a = true -> utf8_valid (a ++ b) = utf8_valid b.
Proof.
  remember (length a) as n eqn:Hn. revert a Hn.
  induction n as [n IH] using lt_wf_ind; intros a ->.
  destruct a as [|b0 s1]; [done|]. cbn [utf8_valid app].
  destruct (is_ascii b0); [intros; by eapply IH; [|reflexivity|]; simpl; [lia|]|].
  destruct s1 as [|b1 s2]; [done|]. cbn [app].
  destruct (in_range 194 223 b0).
  { intros [-> H]%andb_prop. simpl. eapply IH; [|reflexivity|done]. simpl. lia. }
  destruct s2 as [|b2 s3]; [done|]. cbn [app].
  destruct (in_range 224 239 b0).
  { intros [[-> ->]%andb_prop H]%andb_prop. simpl. eapply IH; [|reflexivity|done]. simpl. lia. }
  destruct s3 as [|b3 s4]; [done|]. cbn [app].
  intros [[[[-> ->]%andb_prop ->]%andb_prop ->]%andb_prop H]%andb_prop. simpl.
  eapply IH; [|reflexivity|done]. simpl. lia.
Qed.

Lemma utf8_lossy_valid s : utf8_valid s = true -> utf8_lossy s = s.
Proof.
  remember (length s) as n eqn:Hn. revert s Hn.
  induction n as [n IH] using lt_wf_ind; intros s ->.
  assert (IH' : forall t, (length t < length s)%nat -> utf8_valid t = true -> utf8_lossy t = t)
    by (intros t Ht; by eapply IH).
  destruct s as [|b0 s1]; [done|]. cbn [utf8_valid utf8_lossy].
  destruct (is_ascii b0); [intros Hv; by rewrite IH' by (done || simpl; lia)|].
  destruct s1 as [|b1 s2]; [done|]. destruct (in_range 194 223 b0).
  { intros [-> Hv]%andb_prop. by rewrite IH' by (done || simpl; lia). }
  destruct s2 as [|b2 s3]; [done|]. destruct (in_range 224 239 b0).
  { intros [[-> ->]%andb_prop Hv]%andb_prop. cbn [negb andb orb].
    by rewrite IH' by (done || simpl; lia). }
  destruct s3 as [|b3 s4]; [done|].
  intros [[[[-> ->]%andb_prop ->]%andb_prop ->]%andb_prop Hv]%andb_prop. cbn [negb andb orb].
  by rewrite IH' by (done || simpl; lia).
Qed.

Lemma utf8_valid_ascii s : forallb is_ascii s = true -> utf8_valid s = true.
Proof.
  induction s as [|b s IH]; [done|]. simpl. intros [-> H]%andb_prop. by apply IH.
Qed.

(** A multi-byte character at the head of a valid string: none of its bytes is
    ASCII, and it contributes one scalar value beyond ASCII. *)
Definition multibyte (c : bytes) : Prop :=
  c <> [] /\ Forall (fun b => is_ascii b = false) c /\ utf8_valid c = true /\
  exists v, 128 <= v /\ forall s, chars (c ++ s) = v :: chars s.

Lemma in_range_spec lo hi b : in_range lo hi b = true <-> lo <= Byte.to_N b <= hi.
Proof. unfold in_range. rewrite andb_true_iff, !N.leb_le. done. Qed.

Lemma not_ascii b : is_ascii b = false <-> 128 <= Byte.to_N b.
Proof. apply N.ltb_ge. Qed.

Lemma second3_range b0 b1 : second3 b0 b1 = true -> 128 <= Byte.to_N b1 /\
  (Byte.to_N b0 = 224 -> 160 <= Byte.to_N b1).
Proof.
  unfold second3, is_cont. intros H.
  destruct (N.eq_dec (Byte.to_N b0) 224) as [E|E]; [rewrite E in *|];
    repeat case_match; rewrite ?in_range_spec in *; lia.
Qed.

Lemma second4_range b0 b1 : second4 b0 b1 = true -> 128 <= Byte.to_N b1 /\
  (Byte.to_N b0 = 240 -> 144 <= Byte.to_N b1).
Proof.
  unfold second4, is_cont. intros H.
  destruct (N.eq_dec (Byte.to_N b0) 240) as [E|E]; [rewrite E in *|];
    repeat case_match; rewrite ?in_range_spec in *; lia.
Qed.

(** Induction over the characters of a valid string. *)
Lemma utf8_ind (P : bytes -> Prop) :
  P [] ->
  (forall b s, is_ascii b = true -> utf8_valid s = true -> P s -> P (b :: s)) ->
  (forall c s, multibyte c -> utf8_valid s = true -> P s -> P (c ++ s)) ->
  forall s, utf8_valid s = true -> P s.
Proof.
  intros P0 Pa Pm s. remember (length s) as n eqn:Hn. revert s Hn.
  induction n as [n IH] using lt_wf_ind; intros s ->.
  destruct s as [|b0 s1]; [done|]. cbn [utf8_valid].
  destruct (is_ascii b0) eqn:E0.
  { intros H. apply Pa; [done..|]. by eapply IH; [|reflexivity|]; simpl; [lia|]. }
  destruct s1 as [|b1 s2]; [done|].
  destruct (in_range 194 223 b0) eqn:E1.
  { intros [Hc H]%andb_prop. apply (Pm [b0; b1] s2); [|done|eapply IH; [|reflexivity|done]; simpl; lia].
    unfold is_cont in Hc. apply in_range_spec in E1 as R1, Hc as R2.
    split; [done|]. split; [repeat constructor; apply not_ascii; lia|].
    split; [cbn [utf8_valid]; rewrite E0, E1; unfold is_cont; by rewrite Hc|].
    eexists. split; [|intros s; cbn [chars app]; by rewrite E0, E1]. lia. }
  destruct s2 as [|b2 s3]; [done|].
  destruct (in_range 224 239 b0) eqn:E2.
  { intros [[H3 Hc]%andb_prop H]%andb_prop.
    apply (Pm [b0; b1; b2] s3); [|done|eapply IH; [|reflexivity|done]; simpl; lia].
    apply in_range_spec in E2 as R1. unfold is_cont in Hc. apply in_range_spec in Hc as R2.
    apply second3_range in H3 as R3.
    split; [done|]. split; [repeat constructor; apply not_ascii; lia|].
    split; [cbn [utf8_valid]; rewrite E0, E1, E2, H3; unfold is_cont; by rewrite Hc|].
    eexists. split; [|intros s; cbn [chars app]; by rewrite E0, E1, E2]. lia. }
  destruct s3 as [|b3 s4]; [done|].
  intros [[[[H4 H5]%andb_prop Hc2]%andb_prop Hc3]%andb_prop H]%andb_prop.
  apply (Pm [b0; b1; b2; b3] s4); [|done|eapply IH; [|reflexivity|done]; simpl; lia].
  apply in_range_spec in H4 as R1. unfold is_cont in *.
  apply in_range_spec in Hc2 as R2, Hc3 as R4. apply second4_range in H5 as R3.
  split; [done|]. split; [repeat constructor; apply not_ascii; lia|].
  split; [cbn [utf8_valid]; rewrite E0, E1, E2, H4, H5; unfold is_cont; by rewrite Hc2, Hc3|].
  eexists. split; [|intros s; cbn [chars app]; by rewrite E0, E1, E2]. lia.
Qed.

(** An ASCII byte of a valid string is a character of it. *)
Lemma ascii_byte_char s b :
  utf8_valid s = true -> b ∈ s -> is_ascii b = true -> Byte.to_N b ∈ chars s.
Proof.
  intros Hs. revert b. pattern s. apply utf8_ind; [| | |done]; clear s Hs.
  - by intros b ?%elem_of_nil.
  - intros a s Ha _ IH b [->|Hb]%elem_of_cons Hasc; cbn [chars]; rewrite Ha; [left|].
    right. by apply IH.
  - intros c s (_ & Hna & _ & v & _ & Hc) _ IH b [Hb|Hb]%elem_of_app Hasc.
    + rewrite Forall_forall in Hna. apply Hna in Hb. congruence.
    + rewrite Hc. right. by apply IH.
Qed.

Lemma is_ascii_lower b : is_ascii (byte_lower b) = is_ascii b.
Proof.
  apply eqb_prop. revert b.
  apply (byte_forall (fun b => Bool.eqb (is_ascii (byte_lower b)) (is_ascii b))).
  vm_compute. reflexivity.
Qed.

Lemma byte_lower_not_ascii b : is_ascii b = false -> byte_lower b = b.
Proof.
  rewrite not_ascii. intros H. unfold byte_lower, is_ascii_uppercase, in_range.
  rewrite (proj2 (N.leb_gt _ 90)) by lia. by rewrite andb_false_r.
Qed.

Lemma lower_multibyte c : multibyte c -> to_ascii_lowercase c = c.
Proof.
  intros (_ & H & _). unfold to_ascii_lowercase.
  induction H as [|b c Hb H IH]; [done|]. simpl. by rewrite byte_lower_not_ascii, IH.
Qed.

Lemma utf8_valid_lower s : utf8_valid s = true -> utf8_valid (to_ascii_lowercase s) = true.
Proof.
  revert s. apply (utf8_ind (fun s => utf8_valid (to_ascii_lowercase s) = true)); [done| |].
  - intros b s Hb _ IH. cbn [to_ascii_lowercase map utf8_valid].
    rewrite is_ascii_lower, Hb. done.
  - intros c s Hc _ IH. rewrite to_ascii_lowercase_app, lower_multibyte by done.
    destruct Hc as (_ & _ & Hc & _). by rewrite utf8_valid_app.
Qed.
