(* ===== verification/Text.v ===== *)
(** * Text

    Splitting, joining and comparing of strings, and decimal and hexadecimal
    numbers in text, as the standard library does them. *)

From S2P Require Import Prelude Bytes.

(** ** Searching *)

(** [str::starts_with]. *)
Fixpoint starts_with (p s : bytes) : bool :=
  match p, s with
  | [], _ => true
  | a :: p', b :: s' => Byte.eqb a b && starts_with p' s'
  | _ :: _, [] => false
  end.

(** [str::strip_prefix]. *)
Definition strip_prefix (p s : bytes) : option bytes :=
  if starts_with p s then Some (drop (length p) s) else None.

Definition ends_with (p s : bytes) : bool := starts_with (rev p) (rev s).

(** [str::contains] of a substring. *)
Fixpoint contains (p s : bytes) : bool :=
  starts_with p s ||
  match s with [] => false | _ :: s' => contains p s' end.

Lemma byte_eqb_spec a b : reflect (a = b) (Byte.eqb a b).
Proof.
  destruct (Byte.eqb a b) eqn:E; constructor.
  - by apply Byte.byte_dec_bl.
  - intros ->. by rewrite (Byte.byte_dec_lb (eq_refl b)) in E.
Qed.

Lemma starts_with_app p s : starts_with p (p ++ s) = true.
Proof. induction p as [|a p IH]; [done|]. simpl. by rewrite Byte.byte_dec_lb. Qed.

Lemma starts_with_spec p s : starts_with p s = true <-> exists t, s = p ++ t.
Proof.
  split; [|intros [t ->]; apply starts_with_app].
  revert s; induction p as [|a p IH]; intros [|b s]; simpl; try done.
  - by exists [].
  - by exists (b :: s).
  - destruct (byte_eqb_spec a b) as [->|]; [|done]. intros [t ->]%IH. by exists t.
Qed.

Lemma strip_prefix_app p s : strip_prefix p (p ++ s) = Some s.
Proof. unfold strip_prefix. by rewrite starts_with_app, drop_app_length. Qed.

Lemma strip_prefix_Some p s t : strip_prefix p s = Some t <-> s = p ++ t.
Proof.
  unfold strip_prefix. split; [|intros ->; apply strip_prefix_app].
  destruct (starts_with p s) eqn:E; [|done].
  apply starts_with_spec in E as [u ->]. rewrite drop_app_length. by intros [= ->].
Qed.

Lemma contains_app_l p a b : contains p a = true -> contains p (a ++ b) = true.
Proof.
  induction a as [|x a IH]; cbn.
  - destruct (starts_with p []) eqn:E; [|done]. intros _. destruct p; [by destruct b|done].
  - intros [Hs|Hc]%orb_prop; apply orb_true_iff; [left|right; by apply IH].
    apply starts_with_spec in Hs as [t Ht]. apply starts_with_spec. exists (t ++ b).
    change (x :: a ++ b) with ((x :: a) ++ b). by rewrite Ht, <- (assoc_L (++)).
Qed.

(** ** Splitting and joining *)

(** [str::split] at every byte of a class: at least one piece. *)
Fixpoint split_pred (f : byte -> bool) (s : bytes) : list bytes :=
  match s with
  | [] => [[]]
  | b :: s' =>
      if f b then [] :: split_pred f s'
      else match split_pred f s' with
           | [] => [[b]]
           | p :: ps => (b :: p) :: ps
           end
  end.

Definition split_byte (c : byte) : bytes -> list bytes := split_pred (Byte.eqb c).

(** [slice.join(sep)]. *)
Fixpoint join (sep : bytes) (l : list bytes) : bytes :=
  match l with
  | [] => []
  | [p] => p
  | p :: ps => p ++ sep ++ join sep ps
  end.

(** [str::split_once] at a byte. *)
Fixpoint split_once (c : byte) (s : bytes) : option (bytes * bytes) :=
  match s with
  | [] => None
  | b :: s' =>
      if Byte.eqb c b then Some ([], s')
      else match split_once c s' with
           | None => None
           | Some (p, q) => Some (b :: p, q)
           end
  end.

(** [str::rsplit_once] at a byte. *)
Definition rsplit_once (c : byte) (s : bytes) : option (bytes * bytes) :=
  match split_once c (rev s) with
  | None => None
  | Some (p, q) => Some (rev q, rev p)
  end.

(** [str::lines]: split at newlines, a last empty piece dropped, one carriage
    return before the newline stripped. *)
Definition strip_cr (s : bytes) : bytes :=
  match rev s with x0d :: r => rev r | _ => s end.

Fixpoint lines_of (ps : list bytes) : list bytes :=
  match ps with
  | [] => []
  | [p] => if bool_decide (p = []) then [] else [p]
  | p :: ps' => strip_cr p :: lines_of ps'
  end.

Definition lines (s : bytes) : list bytes := lines_of (split_byte x0a s).

Definition free_of (f : byte -> bool) (s : bytes) : Prop :=
  Forall (fun b => f b = false) s.

Lemma split_pred_app f p s :
  free_of f p -> split_pred f s <> [] ->
  split_pred f (p ++ s) =
    match split_pred f s with [] => [] | q :: qs => (p ++ q) :: qs end.
Proof.
  intros Hp Hs. induction Hp as [|b p Hb Hp IH]; simpl.
  - by destruct (split_pred f s).
  - rewrite Hb, IH. by destruct (split_pred f s).
Qed.

Lemma split_pred_nonnil f s : split_pred f s <> [].
Proof. destruct s as [|b s]; simpl; [done|]. by repeat case_match. Qed.

Lemma split_pred_free f s : free_of f s -> split_pred f s = [s].
Proof.
  intros H. rewrite <- (app_nil_r s) at 1. rewrite split_pred_app; [|done|done].
  simpl. by rewrite app_nil_r.
Qed.

Lemma split_pred_sep f p c s :
  free_of f p -> f c = true -> split_pred f (p ++ c :: s) = p :: split_pred f s.
Proof.
  intros Hp Hc. rewrite split_pred_app; [|done|apply split_pred_nonnil].
  simpl. rewrite Hc. by rewrite app_nil_r.
Qed.

Lemma split_pred_at f a c b :
  f c = true -> split_pred f (a ++ c :: b) = split_pred f a ++ split_pred f b.
Proof.
  intros Hc. induction a as [|x a IH]; simpl; [by rewrite Hc|]. rewrite IH.
  destruct (f x); [done|]. destruct (split_pred f a) eqn:E; [|done]. by apply split_pred_nonnil in E.
Qed.

Lemma byte_eqb_refl c : Byte.eqb c c = true.
Proof. by apply Byte.byte_dec_lb. Qed.

(** Splitting a join of pieces free of the separators gives the pieces back. *)
Lemma split_pred_join f c l :
  f c = true -> l <> [] -> Forall (free_of f) l -> split_pred f (join [c] l) = l.
Proof.
  intros Hc Hl H. induction H as [|p l Hp H IH]; [done|].
  destruct l as [|q l]; [by apply split_pred_free|].
  cbn [join app]. rewrite split_pred_sep by done. f_equal. by apply IH.
Qed.

Lemma split_join c l :
  l <> [] -> Forall (free_of (Byte.eqb c)) l -> split_byte c (join [c] l) = l.
Proof. apply split_pred_join, byte_eqb_refl. Qed.

(** Pieces are free of the separator, and joining them gives the string back. *)
Lemma split_pred_pieces f s : Forall (free_of f) (split_pred f s).
Proof.
  induction s as [|b s IH]; simpl.
  { repeat constructor. }
  destruct (f b) eqn:Hb; [constructor; [constructor|done]|].
  destruct (split_pred f s) as [|p ps] eqn:E; [by apply split_pred_nonnil in E|].
  inversion IH; subst. constructor; [|done]. by constructor.
Qed.

(** The bytes of a list of pieces, counting one separator per piece. *)
Fixpoint pieces_len (l : list bytes) : N :=
  match l with [] => 0 | p :: l' => len p + 1 + pieces_len l' end.

Lemma pieces_len_split f s : pieces_len (split_pred f s) = len s + 1.
Proof.
  induction s as [|b s IH]; [done|]. simpl.
  destruct (f b); [simpl; rewrite IH, len_cons; rewrite len_nil; lia|].
  destruct (split_pred f s) as [|p ps] eqn:E; [by apply split_pred_nonnil in E|].
  simpl in *. rewrite !len_cons. lia.
Qed.

Lemma pieces_len_filter P `{forall x, Decision (P x)} l :
  pieces_len (filter P l) <= pieces_len l.
Proof.
  induction l as [|p l IH]; [done|]. rewrite filter_cons.
  case_decide; simpl; lia.
Qed.

Lemma len_join c l : l <> [] -> len (join [c] l) + 1 = pieces_len l.
Proof.
  induction l as [|p [|q l] IH]; [done|simpl; lia|]. intros _.
  change (join [c] (p :: q :: l)) with (p ++ [c] ++ join [c] (q :: l)).
  rewrite !len_app. change (pieces_len (p :: q :: l)) with (len p + 1 + pieces_len (q :: l)).
  rewrite <- IH by done. rewrite len_cons, len_nil. lia.
Qed.

Lemma elem_of_join b c l : b ∈ join [c] l -> b = c \/ exists p, p ∈ l /\ b ∈ p.
Proof.
  induction l as [|p [|q l] IH]; [by intros ?%elem_of_nil| |].
  - intros H. right. exists p. split; [left|done].
  - change (join [c] (p :: q :: l)) with (p ++ c :: join [c] (q :: l)).
    intros [H|[->|H]%elem_of_cons]%elem_of_app.
    + right. exists p. split; [left|done].
    + by left.
    + destruct (IH H) as [|(r & Hr & Hb)]; [by left|]. right. exists r. split; [by right|done].
Qed.

Lemma elem_of_split b f s p : p ∈ split_pred f s -> b ∈ p -> b ∈ s.
Proof.
  revert p; induction s as [|a s IH]; intros p; simpl.
  { intros ->%list_elem_of_singleton. done. }
  destruct (f a).
  - intros [->|Hp]%elem_of_cons Hb; [by apply elem_of_nil in Hb|]. right. by eapply IH.
  - destruct (split_pred f s) as [|q qs] eqn:E; [by apply split_pred_nonnil in E|].
    intros [->|Hp]%elem_of_cons Hb.
    + apply elem_of_cons in Hb as [->|Hb]; [left|right]. eapply IH; [left|done].
    + right. eapply IH; [by right|done].
Qed.

Lemma join_cons sep p q l : join sep (p :: q :: l) = p ++ sep ++ join sep (q :: l).
Proof. done. Qed.

Lemma join_split c s : join [c] (split_byte c s) = s.
Proof.
  unfold split_byte. induction s as [|b s IH]; [done|]. simpl.
  destruct (split_pred (Byte.eqb c) s) as [|p ps] eqn:E; [by apply split_pred_nonnil in E|].
  destruct (byte_eqb_spec c b) as [->|Hb].
  - rewrite join_cons, IH. done.
  - destruct ps; simpl in *; by rewrite IH.
Qed.

Lemma split_once_Some c s p q :
  split_once c s = Some (p, q) <-> s = p ++ c :: q /\ free_of (Byte.eqb c) p.
Proof.
  revert p; induction s as [|b s IH]; intros p; simpl.
  { split; [done|]. intros [H _]. by destruct p. }
  destruct (byte_eqb_spec c b) as [->|Hb].
  - split.
    + intros [= <- <-]. split; [done|constructor].
    + intros [H Hp]. destruct p as [|a p]; simplify_eq/=; [done|].
      inversion Hp; subst. by rewrite byte_eqb_refl in *.
  - split.
    + destruct (split_once c s) as [[p' q']|] eqn:E; intros; simplify_eq.
      destruct (IH p') as [H1 _]. destruct (H1 eq_refl) as [-> Hp].
      split; [done|]. constructor; [|done].
      by destruct (byte_eqb_spec c b).
    + intros [H Hp]. destruct p as [|a p]; simplify_eq/=.
      inversion Hp; subst.
      assert (split_once c (p ++ c :: q) = Some (p, q)) as -> by (apply IH; done). done.
Qed.

Lemma split_once_None c s : split_once c s = None <-> free_of (Byte.eqb c) s.
Proof.
  induction s as [|b s IH]; simpl; [split; [constructor|done]|].
  destruct (Byte.eqb c b) eqn:Hb.
  - split; [done|]. intros H; inversion H; congruence.
  - destruct (split_once c s) as [[p q]|].
    + split; [done|]. intros H; inversion H; subst. by apply IH in H3.
    + split; [|done]. intros _. constructor; [done|by apply IH].
Qed.

Lemma rsplit_once_Some c s p q :
  rsplit_once c s = Some (p, q) <-> s = p ++ c :: q /\ free_of (Byte.eqb c) q.
Proof.
  unfold rsplit_once, free_of. split.
  - destruct (split_once c (rev s)) as [[a b]|] eqn:E; intros; simplify_eq.
    apply split_once_Some in E as [E H]. split; [|by apply Forall_rev].
    apply (f_equal (@rev _)) in E. rewrite rev_involutive in E. rewrite E.
    rewrite rev_app_distr. simpl. by rewrite <- app_assoc.
  - intros [-> H]. rewrite rev_app_distr. simpl.
    assert (split_once c ((rev q ++ [c]) ++ rev p) = Some (rev q, rev p)) as ->.
    { apply split_once_Some. rewrite <- app_assoc. split; [done|by apply Forall_rev]. }
    by rewrite !rev_involutive.
Qed.

Lemma rsplit_once_None c s : rsplit_once c s = None <-> free_of (Byte.eqb c) s.
Proof.
  unfold rsplit_once. destruct (split_once c (rev s)) as [[a b]|] eqn:E.
  - split; [done|]. intros H. apply Forall_rev in H.
    apply (split_once_None c (rev s)) in H. congruence.
  - split; [|done]. intros _. apply split_once_None in E. apply Forall_rev in E.
    by rewrite rev_involutive in E.
Qed.

(** Splitting a valid string at ASCII bytes gives valid strings, and joining
    valid strings gives a valid string. *)
Lemma utf8_valid_split f s :
  (forall b, is_ascii b = false -> f b = false) -> utf8_valid s = true ->
  Forall (fun p => utf8_valid p = true) (split_pred f s).
Proof.
  intros Hf. revert s. apply (utf8_ind (fun s => Forall (fun p => utf8_valid p = true) (split_pred f s))).
  - by repeat constructor.
  - intros b s Hb _ IH. simpl. destruct (f b); [by constructor|].
    destruct (split_pred f s) as [|p ps]; inversion IH; subst; (constructor; [|done]);
      simpl; by rewrite Hb.
  - intros c s (_ & Hna & Hc & _) _ IH.
    rewrite split_pred_app; [|eapply Forall_impl; [exact Hna|apply Hf]|apply split_pred_nonnil].
    destruct (split_pred f s) as [|p ps]; [done|]. inversion IH; subst.
    constructor; [|done]. by rewrite utf8_valid_app.
Qed.

Lemma utf8_valid_join c l :
  is_ascii c = true -> Forall (fun p => utf8_valid p = true) l -> utf8_valid (join [c] l) = true.
Proof.
  intros Hc H. induction H as [|p l Hp H IH]; [done|].
  destruct l as [|q l]; [done|].
  change (join [c] (p :: q :: l)) with (p ++ c :: join [c] (q :: l)).
  rewrite utf8_valid_app by done. cbn [utf8_valid]. by rewrite Hc.
Qed.

(** ** Decimal numbers *)

Definition digit (d : N) : byte := byte_of (48 + d).
Definition digit_value (b : byte) : option N :=
  if is_ascii_digit b then Some (Byte.to_N b - 48) else None.

(** [Display] of an unsigned integer.  The fuel is the bit length, which bounds
    the number of decimal digits. *)
Fixpoint dec_go (fuel : nat) (n : N) (acc : bytes) : bytes :=
  match fuel with
  | O => acc
  | S f =>
      let acc' := digit (n mod 10) :: acc in
      if n / 10 =? 0 then acc' else dec_go f (n / 10) acc'
  end.

Definition dec (n : N) : bytes := dec_go (S (N.size_nat n)) n [].

(** [format!("{n:0width}")]. *)
Definition dec_pad (width : nat) (n : N) : bytes :=
  replicate (width - length (dec n)) x30 ++ dec n.

(** [str::parse] of an unsigned integer with maximum [max]: an optional plus
    sign, at least one digit, every step checked for overflow. *)
Fixpoint parse_digits (max : N) (acc : N) (s : bytes) : option N :=
  match s with
  | [] => Some acc
  | b :: s' =>
      match digit_value b with
      | None => None
      | Some d =>
          if acc * 10 + d <=? max then parse_digits max (acc * 10 + d) s' else None
      end
  end.

Definition parse_uint (max : N) (s : bytes) : option N :=
  match s with
  | [] => None
  | x2b :: [] => None
  | x2b :: s' => parse_digits max 0 s'
  | _ => parse_digits max 0 s
  end.

Lemma digit_value_digit d : d < 10 -> digit_value (digit d) = Some d.
Proof.
  intros Hd. unfold digit_value, digit, is_ascii_digit, in_range.
  rewrite to_N_byte_of, N.mod_small by lia.
  replace (48 <=? 48 + d) with true by (symmetry; apply N.leb_le; lia).
  replace (48 + d <=? 57) with true by (symmetry; apply N.leb_le; lia).
  simpl. f_equal. lia.
Qed.

(** The value of a digit string, most significant digit first. *)
Fixpoint digits_value (acc : N) (s : bytes) : N :=
  match s with
  | [] => acc
  | b :: s' => digits_value (acc * 10 + (Byte.to_N b - 48)) s'
  end.

Lemma digits_value_acc_le s acc : acc <= digits_value acc s.
Proof.
  revert acc; induction s as [|b s IH]; intros acc; simpl; [lia|].
  etransitivity; [|apply IH]. lia.
Qed.

Lemma parse_digits_value max acc s :
  Forall (fun b => is_ascii_digit b = true) s -> digits_value acc s <= max ->
  parse_digits max acc s = Some (digits_value acc s).
Proof.
  intros H. revert acc; induction H as [|b s Hb H IH]; intros acc Hm; [done|].
  simpl in *. unfold digit_value. rewrite Hb.
  pose proof (digits_value_acc_le s (acc * 10 + (Byte.to_N b - 48))).
  rewrite (proj2 (N.leb_le _ _)) by lia. by apply IH.
Qed.

Lemma digits_value_app acc s t :
  digits_value acc (s ++ t) = digits_value (digits_value acc s) t.
Proof. revert acc; induction s as [|b s IH]; intros acc; simpl; [done|apply IH]. Qed.

Lemma digit_is_digit d : d < 10 -> is_ascii_digit (digit d) = true /\ Byte.to_N (digit d) - 48 = d.
Proof.
  intros Hd. pose proof (digit_value_digit d Hd) as H. unfold digit_value in H.
  destruct (is_ascii_digit (digit d)); by simplify_eq.
Qed.

Lemma size_nat_bound n : n < 2 ^ N.of_nat (N.size_nat n).
Proof.
  replace (N.of_nat (N.size_nat n)) with (N.size n); [apply N.size_gt|].
  destruct n as [|p]; [done|]. simpl.
  induction p as [p IH|p IH|]; cbn [Pos.size Pos.size_nat]; [lia..|done].
Qed.

Lemma dec_go_spec fuel n acc :
  n < 2 ^ N.of_nat fuel -> (0 < fuel)%nat ->
  exists ds, dec_go fuel n acc = ds ++ acc /\ ds <> [] /\
    Forall (fun b => is_ascii_digit b = true) ds /\ digits_value 0 ds = n.
Proof.
  revert n acc; induction fuel as [|f IH]; intros n acc Hf Hpos; [lia|]. cbn [dec_go].
  pose proof (N.mod_lt n 10 ltac:(lia)) as Hm.
  destruct (digit_is_digit (n mod 10) Hm) as [Hd Hv].
  pose proof (N.div_mod n 10 ltac:(lia)) as Hdm.
  destruct (N.eqb_spec (n / 10) 0) as [E|E].
  - exists [digit (n mod 10)]. repeat split; [done|by repeat constructor|].
    cbn [digits_value]. rewrite Hv. lia.
  - rewrite Nat2N.inj_succ, N.pow_succ_r' in Hf.
    destruct (IH (n / 10) (digit (n mod 10) :: acc)) as (ds & -> & Hne & Hds & Hval).
    + lia.
    + destruct f; [simpl in Hf; lia|lia].
    + exists (ds ++ [digit (n mod 10)]). split; [by rewrite <- app_assoc|].
      split; [by destruct ds|]. split.
      * apply Forall_app. by repeat constructor.
      * rewrite digits_value_app, Hval. cbn [digits_value]. rewrite Hv. lia.
Qed.

Lemma dec_spec n :
  dec n <> [] /\ Forall (fun b => is_ascii_digit b = true) (dec n) /\
  digits_value 0 (dec n) = n.
Proof.
  unfold dec. destruct (dec_go_spec (S (N.size_nat n)) n []) as (ds & -> & H).
  - rewrite Nat2N.inj_succ, N.pow_succ_r'. pose proof (size_nat_bound n). lia.
  - lia.
  - by rewrite app_nil_r.
Qed.

Lemma dec_pad_spec w n :
  dec_pad w n <> [] /\ Forall (fun b => is_ascii_digit b = true) (dec_pad w n) /\
  digits_value 0 (dec_pad w n) = n.
Proof.
  destruct (dec_spec n) as (Hne & Hd & Hv). unfold dec_pad. split.
  { destruct (replicate _ _); [done|done]. }
  split.
  - apply Forall_app. split; [|done]. by apply Forall_replicate.
  - rewrite digits_value_app. rewrite <- Hv at 3. f_equal.
    induction (w - length (dec n))%nat as [|k IH]; [done|apply IH].
Qed.

Lemma parse_uint_digits max s :
  s <> [] -> Forall (fun b => is_ascii_digit b = true) s -> digits_value 0 s <= max ->
  parse_uint max s = Some (digits_value 0 s).
Proof.
  intros Hne Hd Hm. pose proof (parse_digits_value max 0 s Hd Hm) as H.
  destruct s as [|b s]; [done|]. inversion Hd; subst. unfold parse_uint.
  destruct b; try exact H. discriminate.
Qed.

(** Printing a number and parsing the text gives the number back. *)
Lemma parse_dec max n : n <= max -> parse_uint max (dec n) = Some n.
Proof.
  intros. destruct (dec_spec n) as (Hne & Hd & Hv).
  rewrite parse_uint_digits; [by rewrite Hv|done|done|by rewrite Hv].
Qed.

Lemma dec_inj m n : dec m = dec n -> m = n.
Proof.
  intros E. pose proof (dec_spec m) as (_ & _ & <-). rewrite E. apply dec_spec.
Qed.

Lemma dec_pad_inj w m n : dec_pad w m = dec_pad w n -> m = n.
Proof.
  intros E. pose proof (dec_pad_spec w m) as (_ & _ & <-). rewrite E. apply dec_pad_spec.
Qed.

Lemma digits_free_of f s :
  Forall (fun b => is_ascii_digit b = true) s ->
  forallb (fun b => implb (is_ascii_digit b) (negb (f b))) all_bytes = true ->
  free_of f s.
Proof.
  intros Hs Hf. eapply Forall_impl; [exact Hs|]. intros b Hb. cbv beta in Hb.
  pose proof (byte_forall _ Hf b) as H. cbv beta in H. rewrite Hb in H. by destruct (f b).
Qed.

(** ** Hexadecimal numbers *)

Definition hex_digit (d : N) : byte :=
  if d <? 10 then byte_of (48 + d) else byte_of (87 + d).

(** [format!("{byte:02x}")] over a slice. *)
Definition hex_of_byte (b : byte) : bytes :=
  [hex_digit (Byte.to_N b / 16); hex_digit (Byte.to_N b mod 16)].
Definition to_hex (s : bytes) : bytes := concat (map hex_of_byte s).

(** [char::to_digit(16)]. *)
Definition hex_value (b : byte) : option N :=
  if is_ascii_digit b then Some (Byte.to_N b - 48)
  else if in_range 97 102 b then Some (Byte.to_N b - 87)
  else if in_range 65 70 b then Some (Byte.to_N b - 55)
  else None.

(** [u8::from_str_radix(s, 16)] on a two-byte string, which accepts a leading
    plus sign. *)
Definition parse_hex_u8 (a b : byte) : option byte :=
  if Byte.eqb a x2b then byte_of <$> hex_value b
  else x ← hex_value a; y ← hex_value b; Some (byte_of (x * 16 + y)).

Lemma parse_hex_of_byte b :
  parse_hex_u8 (hex_digit (Byte.to_N b / 16)) (hex_digit (Byte.to_N b mod 16)) = Some b.
Proof.
  pose proof (byte_forall (fun b => match parse_hex_u8 (hex_digit (Byte.to_N b / 16))
    (hex_digit (Byte.to_N b mod 16)) with Some c => Byte.eqb b c | None => false end)
    ltac:(vm_compute; reflexivity) b) as H. cbv beta in H.
  destruct (parse_hex_u8 _ _) as [c|]; [|done].
  by destruct (byte_eqb_spec b c) as [->|].
Qed.

(** The bytes of a text in pairs of digits, each pair read as [from_str_radix]
    reads it; a pair that is not text has no hexadecimal digit. *)
Fixpoint hex_pairs (s : bytes) : option bytes :=
  match s with
  | a :: b :: s' => x ← parse_hex_u8 a b; l ← hex_pairs s'; Some (x :: l)
  | _ => Some []
  end.

Lemma hex_pairs_to_hex d : hex_pairs (to_hex d) = Some d.
Proof.
  induction d as [|b d IH]; [done|].
  change (to_hex (b :: d)) with (hex_of_byte b ++ to_hex d).
  unfold hex_of_byte. cbn [hex_pairs app]. rewrite parse_hex_of_byte. cbn. by rewrite IH.
Qed.

Lemma to_hex_inj a b : to_hex a = to_hex b -> a = b.
Proof. intros E. apply (f_equal hex_pairs) in E. rewrite !hex_pairs_to_hex in E. by injection E. Qed.

Lemma len_to_hex s : len (to_hex s) = 2 * len s.
Proof.
  unfold to_hex. induction s as [|b s IH]; [done|]. cbn [map concat hex_of_byte app].
  rewrite !len_cons, IH. lia.
Qed.

(** ** The order of [BTreeMap] keys *)

(** Lexicographic order on bytes, as [Ord] for [str]. *)
Fixpoint bytes_leb (a b : bytes) : bool :=
  match a, b with
  | [], _ => true
  | _ :: _, [] => false
  | x :: a', y :: b' =>
      if Byte.to_N x =? Byte.to_N y then bytes_leb a' b' else Byte.to_N x <? Byte.to_N y
  end.

Definition bytes_le (a b : bytes) : Prop := bytes_leb a b = true.

#[export] Instance bytes_le_dec : RelDecision bytes_le.
Proof. intros a b. unfold bytes_le. apply _. Defined.

#[export] Instance bytes_le_total : Total bytes_le.
Proof.
  unfold bytes_le. intros a. induction a as [|x a IH]; intros [|y b]; simpl; auto.
  rewrite (N.eqb_sym (Byte.to_N y)). destruct (N.eqb_spec (Byte.to_N x) (Byte.to_N y)).
  - apply IH.
  - rewrite !N.ltb_lt. lia.
Qed.

#[export] Instance bytes_le_trans : Transitive bytes_le.
Proof.
  unfold bytes_le. intros a. induction a as [|x a IH]; intros [|y b] [|z c]; simpl; auto; [done|].
  destruct (N.eqb_spec (Byte.to_N x) (Byte.to_N y)) as [E1|E1];
    destruct (N.eqb_spec (Byte.to_N y) (Byte.to_N z)) as [E2|E2];
    destruct (N.eqb_spec (Byte.to_N x) (Byte.to_N z)) as [E3|E3];
    rewrite ?N.ltb_lt; try lia; eauto.
Qed.

#[export] Instance bytes_le_antisymm : AntiSymm (=) bytes_le.
Proof.
  unfold bytes_le. intros a. induction a as [|x a IH]; intros [|y b]; simpl; try done.
  rewrite (N.eqb_sym (Byte.to_N y)). destruct (N.eqb_spec (Byte.to_N x) (Byte.to_N y)) as [E|E].
  - apply byte_to_N_inj in E as ->. intros. f_equal. by apply IH.
  - rewrite !N.ltb_lt. lia.
Qed.

(** The entries of a [BTreeMap<String, V>] in iteration order. *)
Definition key_le {V} (a b : bytes * V) : Prop := bytes_le a.1 b.1.

#[export] Instance key_le_dec {V} : RelDecision (@key_le V).
Proof. intros a b. unfold key_le. apply _. Defined.

Definition btree_iter {V} (m : gmap bytes V) : list (bytes * V) :=
  merge_sort key_le (map_to_list m).

Lemma btree_iter_perm {V} (m : gmap bytes V) : btree_iter m ≡ₚ map_to_list m.
Proof. apply merge_sort_Permutation. Qed.

Lemma list_to_map_btree_iter {V} (m : gmap bytes V) : list_to_map (btree_iter m) = m.
Proof.
  rewrite <- (list_to_map_to_list m) at 2. apply list_to_map_proper.
  - rewrite (btree_iter_perm m). apply NoDup_fst_map_to_list.
  - apply btree_iter_perm.
Qed.

Lemma elem_of_btree_iter {V} (m : gmap bytes V) k v :
  (k, v) ∈ btree_iter m <-> m !! k = Some v.
Proof. rewrite (btree_iter_perm m). apply elem_of_map_to_list. Qed.
