(* ===== verification/Reader.v ===== *)
(** * Reader

    Bounds-checked byte readers.  The sources have several ([Cursor] in
    dlp-storage, [CanonicalReader] in dlp-protocol, [ByteReader] in
    dlp-agent-core), each a slice and an offset into it, each failing with its
    own error when a read goes past the end.  A reader's state here is the
    suffix of the slice from the offset.  The sources compute the end of a read
    with [checked_add]; a slice is never longer than [usize::MAX], so a sum that
    overflows is also past the end, and both failures are the same error. *)

From S2P Require Import Prelude Bytes.

Definition reader (E A : Type) : Type := bytes -> result E (A * bytes).

#[export] Instance reader_ret {E} : MRet (reader E) := fun A a s => Ok (a, s).
#[export] Instance reader_bind {E} : MBind (reader E) :=
  fun A B f m s => match m s with Ok (a, s') => f a s' | Err e => Err e end.

Section Readers.
Context {E : Type} (e : E).

Definition read_fail {A} : reader E A := fun _ => Err e.

(** A check between reads. *)
Definition read_guard (c : bool) : reader E unit :=
  fun s => if c then Ok (tt, s) else Err e.

Definition read_remaining : reader E N := fun s => Ok (len s, s).

Definition read_take (n : N) : reader E bytes :=
  fun s => if n <=? len s then Ok (split_at n s) else Err e.

Definition read_byte : reader E byte :=
  fun s => match s with b :: s' => Ok (b, s') | [] => Err e end.

Definition read_le (w : nat) : reader E N :=
  b ← read_take (N.of_nat w); mret (from_le b).

Definition read_be (w : nat) : reader E N :=
  b ← read_take (N.of_nat w); mret (from_be b).

(** A loop that reads [count] values. *)
Fixpoint read_many {A} (count : nat) (m : reader E A) : reader E (list A) :=
  match count with
  | O => mret []
  | S c => x ← m; xs ← read_many c m; mret (x :: xs)
  end.

Lemma read_bind_Ok {A B} (m : reader E A) (f : A -> reader E B) s b r :
  (mbind f m : reader E B) s = Ok (b, r) <->
  exists a s', m s = Ok (a, s') /\ f a s' = Ok (b, r).
Proof.
  unfold mbind, reader_bind. destruct (m s) as [[a s']|x].
  - split; [by exists a, s'|]. by intros (? & ? & [= <- <-] & ?).
  - split; [done|]. by intros (? & ? & ? & ?).
Qed.

Lemma read_ret_Ok {A} (a b : A) s r :
  (mret a : reader E A) s = Ok (b, r) <-> b = a /\ r = s.
Proof. unfold mret, reader_ret. split; [by intros [= <- <-]|by intros [-> ->]]. Qed.

Lemma read_guard_Ok c u s r : read_guard c s = Ok (u, r) <-> c = true /\ r = s.
Proof.
  unfold read_guard. destruct c, u; split; try done; [by intros [= <-]|by intros [_ ->]|].
  by intros [? _].
Qed.

Lemma read_remaining_Ok n s r : read_remaining s = Ok (n, r) <-> n = len s /\ r = s.
Proof. unfold read_remaining. split; [by intros [= <- <-]|by intros [-> ->]]. Qed.

Lemma read_take_Ok n s a r : read_take n s = Ok (a, r) <-> s = a ++ r /\ len a = n.
Proof.
  unfold read_take. split.
  - destruct (N.leb_spec n (len s)); [|done]. rewrite split_at_spec. intros [= <- <-].
    rewrite take_drop. split; [done|]. unfold len in *. rewrite length_take. lia.
  - intros [-> <-]. rewrite len_app, (proj2 (N.leb_le _ _)) by lia. by rewrite split_at_app.
Qed.

Lemma read_byte_Ok b s r : read_byte s = Ok (b, r) <-> s = b :: r.
Proof. unfold read_byte. destruct s; naive_solver. Qed.

Lemma read_le_Ok w n s r :
  read_le w s = Ok (n, r) <-> s = to_le w n ++ r /\ n < 256 ^ N.of_nat w.
Proof.
  unfold read_le. rewrite read_bind_Ok. split.
  - intros (a & s' & [-> Hl]%read_take_Ok & [-> ->]%read_ret_Ok).
    rewrite <- Hl. split; [|apply from_le_bound]. unfold len in Hl.
    assert (w = length a) as -> by lia. by rewrite to_from_le.
  - intros [-> Hn]. exists (to_le w n), r.
    rewrite read_take_Ok, read_ret_Ok, len_to_le, from_to_le by done. done.
Qed.

Lemma read_be_Ok w n s r :
  read_be w s = Ok (n, r) <-> s = to_be w n ++ r /\ n < 256 ^ N.of_nat w.
Proof.
  unfold read_be. rewrite read_bind_Ok. split.
  - intros (a & s' & [-> Hl]%read_take_Ok & [-> ->]%read_ret_Ok). unfold from_be, to_be.
    rewrite <- Hl. split.
    + unfold len in Hl. assert (w = length (rev a)) as -> by (rewrite length_rev; lia).
      by rewrite to_from_le, rev_involutive.
    + pose proof (from_le_bound (rev a)). unfold len in *. by rewrite length_rev in *.
  - intros [-> Hn]. exists (to_be w n), r.
    rewrite read_take_Ok, read_ret_Ok, len_to_be, from_to_be by done. done.
Qed.

Lemma read_many_Ok {A} (m : reader E A) (enc : A -> bytes) (P : A -> Prop) count l s r :
  (forall a s r, m s = Ok (a, r) <-> s = enc a ++ r /\ P a) ->
  read_many count m s = Ok (l, r) <->
  s = concat (map enc l) ++ r /\ length l = count /\ Forall P l.
Proof.
  intros Hm. revert l s; induction count as [|c IH]; intros l s; cbn [read_many].
  - rewrite read_ret_Ok. split.
    + intros [-> ->]. by repeat constructor.
    + intros (-> & Hl & _). by destruct l.
  - rewrite read_bind_Ok. split.
    + intros (a & s' & [-> Ha]%Hm & Hr). apply read_bind_Ok in Hr as (xs & s2 & Hxs & Hr).
      apply read_ret_Ok in Hr as [-> ->]. apply IH in Hxs as (-> & <- & Hall).
      simpl. rewrite <- app_assoc. by repeat constructor.
    + intros (-> & Hl & Hall). destruct l as [|a l]; [done|]. inversion Hall; subst.
      exists a, (concat (map enc l) ++ r). split.
      * apply Hm. simpl. by rewrite <- app_assoc.
      * apply read_bind_Ok. exists l, r. rewrite read_ret_Ok. split; [|done].
        apply IH. by injection Hl as <-.
Qed.

End Readers.

(** Run a sequence of reads backwards: from a successful result to the bytes. *)
Ltac inv_reader :=
  repeat match goal with
  | H : mbind _ _ _ = Ok (_, _) |- _ => apply read_bind_Ok in H as (? & ? & ? & H)
  | H : mret _ _ = Ok (_, _) |- _ => apply read_ret_Ok in H as [? ?]; subst
  | H : read_guard _ _ _ = Ok (_, _) |- _ => apply read_guard_Ok in H as [? ?]; subst
  | H : read_remaining _ = Ok (_, _) |- _ => apply read_remaining_Ok in H as [? ?]; subst
  | H : read_take _ _ _ = Ok (_, _) |- _ => apply read_take_Ok in H as [? ?]; subst
  | H : read_byte _ _ = Ok (_, _) |- _ => apply read_byte_Ok in H; subst
  | H : read_le _ _ _ = Ok (_, _) |- _ => apply read_le_Ok in H as [? ?]; subst
  | H : read_be _ _ _ = Ok (_, _) |- _ => apply read_be_Ok in H as [? ?]; subst
  end.

(** Run one read forwards over an encoding. *)
Ltac read_step :=
  first
  [ apply read_bind_Ok; eexists tt, _; split;
    [apply read_guard_Ok; split; [|reflexivity]|]
  | apply read_bind_Ok; eexists _, _; split;
    [first
     [ apply read_take_Ok; split; [reflexivity|]
     | apply read_le_Ok; split; [reflexivity|]
     | apply read_be_Ok; split; [reflexivity|]
     | apply read_byte_Ok; reflexivity
     | apply read_remaining_Ok; split; reflexivity ]|]
  | apply read_ret_Ok; split; reflexivity ].
