(* ===== verification/Effects.v ===== *)
(** * Effects

    Stateful code that may fail: a state and error monad in which a failure
    keeps the state reached so far (as a [?] in a method on [&mut self] does),
    and the partial-correctness triples the storage proofs use. *)

From S2P Require Import Prelude.

Definition M (S E A : Type) : Type := S -> result E A * S.

#[export] Instance M_ret {S E} : MRet (M S E) := fun A a s => (Ok a, s).
#[export] Instance M_bind {S E} : MBind (M S E) :=
  fun A B k m s =>
    match m s with
    | (Ok a, s') => k a s'
    | (Err e, s') => (Err e, s')
    end.

Section Operations.
Context {S E : Type}.

Definition throw {A} (e : E) : M S E A := fun s => (Err e, s).
Definition gets {A} (f : S -> A) : M S E A := fun s => (Ok (f s), s).
Definition modify (f : S -> S) : M S E unit := fun s => (Ok tt, f s).
Definition lift {A} (r : result E A) : M S E A := fun s => (r, s).

(** A check that returns early. *)
Definition ensure (c : bool) (e : E) : M S E unit :=
  fun s => if c then (Ok tt, s) else (Err e, s).

(** Run [m] and hand its result to the caller as a value. *)
Definition try {A} (m : M S E A) : M S E (result E A) :=
  fun s => let '(r, s') := m s in (Ok r, s').

(** A [for] loop over a list with a loop-carried value. *)
Fixpoint fold_m {A B} (f : B -> A -> M S E B) (acc : B) (l : list A) : M S E B :=
  match l with
  | [] => mret acc
  | x :: l' => acc' ← f acc x; fold_m f acc' l'
  end.

(** ** Triples *)

(** From [P], [m] returns a value with [Q] or an error with [R]. *)
Definition triple {A} (P : S -> Prop) (m : M S E A) (Q : A -> S -> Prop)
    (R : E -> S -> Prop) : Prop :=
  forall s, P s ->
    match m s with
    | (Ok a, s') => Q a s'
    | (Err e, s') => R e s'
    end.

Lemma triple_ret {A} (a : A) (P : S -> Prop) (Q : A -> S -> Prop) R :
  (forall s, P s -> Q a s) -> triple P (mret a) Q R.
Proof. intros H s Hs. by apply H. Qed.

Lemma triple_bind {A B} P (m : M S E A) (k : A -> M S E B) Q T R :
  triple P m Q R -> (forall a, triple (Q a) (k a) T R) -> triple P (m ≫= k) T R.
Proof.
  intros Hm Hk s Hs. specialize (Hm s Hs). unfold mbind, M_bind.
  destruct (m s) as [[a|e] s']; [by apply Hk|done].
Qed.

Lemma triple_conseq {A} P P' (m : M S E A) Q Q' R R' :
  triple P' m Q' R' -> (forall s, P s -> P' s) ->
  (forall a s, Q' a s -> Q a s) -> (forall e s, R' e s -> R e s) -> triple P m Q R.
Proof.
  intros Hm HP HQ HR s Hs. specialize (Hm s (HP s Hs)).
  destruct (m s) as [[a|e] s']; auto.
Qed.

Lemma triple_throw {A} (e : E) P (Q : A -> S -> Prop) (R : E -> S -> Prop) :
  (forall s, P s -> R e s) -> triple P (throw e) Q R.
Proof. intros H s Hs. by apply H. Qed.

Lemma triple_lift {A} (r : result E A) P Q (R : E -> S -> Prop) :
  (forall s a, P s -> r = Ok a -> Q a s) -> (forall s e, P s -> r = Err e -> R e s) ->
  triple P (lift r) Q R.
Proof. intros HQ HR s Hs. unfold lift. destruct r; auto. Qed.

Lemma triple_ensure c e P (Q : unit -> S -> Prop) (R : E -> S -> Prop) :
  (forall s, P s -> c = true -> Q tt s) -> (forall s, P s -> c = false -> R e s) ->
  triple P (ensure c e) Q R.
Proof. intros HQ HR s Hs. unfold ensure. destruct c; auto. Qed.

Lemma triple_modify f P (Q : unit -> S -> Prop) R :
  (forall s, P s -> Q tt (f s)) -> triple P (modify f) Q R.
Proof. intros H s Hs. by apply H. Qed.

Lemma triple_gets {A} (f : S -> A) P (Q : A -> S -> Prop) R :
  (forall s, P s -> Q (f s) s) -> triple P (gets f) Q R.
Proof. intros H s Hs. by apply H. Qed.

(** Read a component of the state and continue with its value known. *)
Lemma triple_gets_bind {A B} (f : S -> A) P (k : A -> M S E B) Q R :
  (forall a, triple (fun s => P s /\ f s = a) (k a) Q R) -> triple P (gets f ≫= k) Q R.
Proof. intros H s Hs. apply (H (f s) s). done. Qed.

(** A loop with an invariant on the carried value and the part already done. *)
Lemma triple_fold {A B} (f : B -> A -> M S E B) (I : list A -> B -> S -> Prop) R l :
  (forall done x acc, triple (I done acc) (f acc x) (I (done ++ [x])) R) ->
  forall done acc, triple (I done acc) (fold_m f acc l) (I (done ++ l)) R.
Proof.
  intros Hf. induction l as [|x l IH]; intros d acc; cbn [fold_m].
  - apply triple_ret. intros s. by rewrite app_nil_r.
  - eapply triple_bind; [apply Hf|]. intros a.
    replace (d ++ x :: l) with ((d ++ [x]) ++ l) by by rewrite <- app_assoc. apply IH.
Qed.

(** What a run of a sequence was. *)
Lemma bind_Ok {A B} (m : M S E A) (k : A -> M S E B) s b s' :
  (m ≫= k) s = (Ok b, s') <-> exists a s1, m s = (Ok a, s1) /\ k a s1 = (Ok b, s').
Proof.
  unfold mbind, M_bind. destruct (m s) as [[a|e] s1]; split.
  - intros. by exists a, s1.
  - by intros (? & ? & [= <- <-] & ?).
  - done.
  - by intros (? & ? & ? & ?).
Qed.

Lemma bind_run {A B} (m : M S E A) (k : A -> M S E B) s r s' :
  (m ≫= k) s = (r, s') ->
  (exists a s1, m s = (Ok a, s1) /\ k a s1 = (r, s')) \/
  (exists e, m s = (Err e, s') /\ r = Err e).
Proof.
  unfold mbind, M_bind. destruct (m s) as [[a|e] s1].
  - intros H. left. by exists a, s1.
  - intros [= <- <-]. right. by exists e.
Qed.

Lemma bind_step {A B} (m : M S E A) (k : A -> M S E B) s a s1 :
  m s = (Ok a, s1) -> (m ≫= k) s = k a s1.
Proof. unfold mbind, M_bind. by intros ->. Qed.

Lemma bind_ensure {B} c e (k : unit -> M S E B) s :
  (ensure c e ≫= k) s = if c then k tt s else (Err e, s).
Proof. unfold mbind, M_bind, ensure. by destruct c. Qed.

Lemma bind_lift {A B} (r : result E A) (k : A -> M S E B) s :
  (lift r ≫= k) s = match r with Ok a => k a s | Err e => (Err e, s) end.
Proof. unfold mbind, M_bind, lift. by destruct r. Qed.

Lemma fold_m_app {A B} (f : B -> A -> M S E B) acc l k s :
  fold_m f acc (l ++ k) s = (acc' ← fold_m f acc l; fold_m f acc' k) s.
Proof.
  revert acc s. induction l as [|x l IH]; intros acc s; [done|].
  cbn [fold_m app]. unfold mbind, M_bind in *. destruct (f acc x s) as [[a|e] s1]; [apply IH|done].
Qed.

(** Three steps in sequence, grouped. *)
Lemma bind_group {B} (m1 m2 m3 : M S E unit) (k : M S E B) s :
  (_ ← m1; _ ← m2; _ ← m3; k) s = (_ ← (_ ← m1; _ ← m2; m3); k) s.
Proof.
  unfold mbind, M_bind. destruct (m1 s) as [[] s1]; [|done].
  by destruct (m2 s1) as [[] s2].
Qed.

(** ** Components a computation leaves alone *)

Definition keeps {X A} (f : S -> X) (m : M S E A) : Prop := forall s, f (snd (m s)) = f s.

Section Keeps.
Context {X : Type} (f : S -> X).

Lemma keeps_ret {A} (a : A) : keeps f (mret a).
Proof. done. Qed.
Lemma keeps_gets {A} (g : S -> A) : keeps f (gets g).
Proof. done. Qed.
Lemma keeps_lift {A} (r : result E A) : keeps f (lift r).
Proof. done. Qed.
Lemma keeps_throw {A} (e : E) : keeps f (throw (A := A) e).
Proof. done. Qed.
Lemma keeps_ensure c (e : E) : keeps f (ensure c e).
Proof. intros s. by destruct c. Qed.

Lemma keeps_bind {A B} (m : M S E A) (k : A -> M S E B) :
  keeps f m -> (forall a, keeps f (k a)) -> keeps f (m ≫= k).
Proof.
  intros Hm Hk s. specialize (Hm s). unfold mbind, M_bind.
  destruct (m s) as [[a|e] s1]; [|done]. simpl in *. rewrite <- Hm. apply Hk.
Qed.

Lemma keeps_try {A} (m : M S E A) : keeps f m -> keeps f (try m).
Proof. intros Hm s. specialize (Hm s). unfold try. by destruct (m s). Qed.

Lemma keeps_fold {A B} (g : B -> A -> M S E B) acc l :
  (forall acc x, keeps f (g acc x)) -> keeps f (fold_m g acc l).
Proof.
  intros Hg. revert acc. induction l as [|x l IH]; intros acc; cbn [fold_m]; [done|].
  apply keeps_bind; [apply Hg|apply IH].
Qed.

Lemma keeps_run {A} (m : M S E A) s r s' : keeps f m -> m s = (r, s') -> f s' = f s.
Proof. intros Hm E1. specialize (Hm s). by rewrite E1 in Hm. Qed.
End Keeps.
End Operations.

(** [map_err] on a computation. *)
Definition with_error {S E F A} (f : E -> F) (m : M S E A) : M S F A := fun s =>
  let '(r, s') := m s in (map_err f r, s').

Lemma bind_with_error {S E F A B} (f : E -> F) (m : M S E A) (k : A -> M S F B) s :
  (with_error f m ≫= k) s = match m s with (Ok a, s') => k a s' | (Err e, s') => (Err (f e), s') end.
Proof. unfold mbind, M_bind, with_error. by destruct (m s) as [[] ?]. Qed.

(** A fact known of the state before may be used in the proof. *)
Lemma triple_pure {S E A} (P : S -> Prop) (X : Prop) (m : M S E A) Q R :
  (X -> triple P m Q R) -> triple (fun s => P s /\ X) m Q R.
Proof. intros H s [Hs HX]. by apply H. Qed.

(** A failure is turned into another one. *)
Lemma triple_with_error {S E F A} (f : E -> F) P (m : M S E A) Q (R : F -> S -> Prop) :
  triple P m Q (fun e => R (f e)) -> triple P (with_error f m) Q R.
Proof. intros Hm s Hs. specialize (Hm s Hs). unfold with_error. by destruct (m s) as [[] ?]. Qed.

(** What a caller that keeps the result as a value knows of it. *)
Lemma triple_try {S E A} P (m : M S E A) Q R (T : E -> S -> Prop) :
  triple P m Q R ->
  triple P (try m) (fun r s => match r with Ok a => Q a s | Err e => R e s end) T.
Proof. intros Hm s Hs. specialize (Hm s Hs). unfold try. by destruct (m s) as [[] ?]. Qed.

#[export] Hint Resolve keeps_ret keeps_gets keeps_lift keeps_throw keeps_ensure : dlp.
