(* ===== verification/Domain.v ===== *)
(** * Domain

    The shared vocabulary of the workspace (crates/dlp-domain/src/lib.rs): typed
    identifiers, policy inputs, enforcement actions and decisions.  An identifier
    is the byte string its [parse] accepts. *)

From S2P Require Import Prelude Bytes Text.

Inductive DomainErrorKind :=
| EmptyValue
| InvalidIdentifier
| InvalidPolicyInput.

#[export] Instance DomainErrorKind_eq_dec : EqDecision DomainErrorKind.
Proof. solve_decision. Defined.

(** The characters the macro [typed_identifier!] admits. *)
Definition identifier_byte (allow_dot : bool) (b : byte) : bool :=
  is_ascii_alphanumeric b || Byte.eqb b x2d || Byte.eqb b x5f
  || (allow_dot && Byte.eqb b x2e).

(** [parse] of the macro [typed_identifier!]. *)
Definition parse_identifier (allow_dot : bool) (value : bytes) :
    result DomainErrorKind bytes :=
  if bool_decide (value = []) then Err EmptyValue
  else if (128 <? len value)
    || negb (forallb (identifier_byte allow_dot) value)
    || (allow_dot && (starts_with (lit ".") value || ends_with (lit ".") value
                      || contains (lit "..") value))
  then Err InvalidIdentifier
  else Ok value.

Definition DeviceId_parse : bytes -> result DomainErrorKind bytes := parse_identifier true.
Definition UserSid_parse : bytes -> result DomainErrorKind bytes := parse_identifier false.
Definition StoreId_parse : bytes -> result DomainErrorKind bytes := parse_identifier false.
Definition FileId_parse : bytes -> result DomainErrorKind bytes := parse_identifier false.
Definition BundleVersion_parse : bytes -> result DomainErrorKind bytes :=
  parse_identifier false.

(** The values of an identifier type: what its [parse] returns. *)
Definition identifier (allow_dot : bool) (s : bytes) : Prop :=
  parse_identifier allow_dot s = Ok s.

Record PolicyInput := mkPolicyInput {
  pi_file_name : bytes;
  pi_extension : bytes;
  pi_path : bytes;
  pi_owner : bytes;
  pi_size_bytes : N;
}.

Definition PolicyInput_new (file_name extension path owner : bytes) (size_bytes : N) :
    result DomainErrorKind PolicyInput :=
  if bool_decide (file_name = []) || bool_decide (extension = []) || bool_decide (path = [])
  then Err InvalidPolicyInput
  else Ok (mkPolicyInput file_name extension path owner size_bytes).

Definition PolicyInput_canonical_bytes (i : PolicyInput) : bytes :=
  lit "file_name=" ++ pi_file_name i ++ lit ";extension=" ++ pi_extension i
  ++ lit ";path=" ++ pi_path i ++ lit ";owner=" ++ pi_owner i
  ++ lit ";size_bytes=" ++ dec (pi_size_bytes i).

Inductive EnforcementAction :=
| Allow
| Block
| AllowAndAudit
| Warn
| RequireJustification.

#[export] Instance EnforcementAction_eq_dec : EqDecision EnforcementAction.
Proof. solve_decision. Defined.

Definition action_as_str (a : EnforcementAction) : bytes :=
  match a with
  | Allow => lit "allow"
  | Block => lit "block"
  | AllowAndAudit => lit "allow_and_audit"
  | Warn => lit "warn"
  | RequireJustification => lit "require_justification"
  end.

Definition restrictiveness (a : EnforcementAction) : N :=
  match a with
  | Allow => 0
  | AllowAndAudit => 1
  | Warn => 2
  | RequireJustification => 3
  | Block => 4
  end.

Inductive DecisionReason :=
| MatchedRule
| EqualPriorityConflict
| DefaultAction
| EmptyPolicy.

#[export] Instance DecisionReason_eq_dec : EqDecision DecisionReason.
Proof. solve_decision. Defined.

Definition reason_as_str (r : DecisionReason) : bytes :=
  match r with
  | MatchedRule => lit "matched_rule"
  | EqualPriorityConflict => lit "equal_priority_conflict"
  | DefaultAction => lit "default_action"
  | EmptyPolicy => lit "empty_policy"
  end.

Record PolicyDecision := mkPolicyDecision {
  pd_action : EnforcementAction;
  pd_reason : DecisionReason;
  pd_rule_id : option bytes;
}.

#[export] Instance PolicyDecision_eq_dec : EqDecision PolicyDecision.
Proof. solve_decision. Defined.

Definition PolicyDecision_canonical_bytes (d : PolicyDecision) : bytes :=
  lit "action=" ++ action_as_str (pd_action d) ++ lit ";reason=" ++ reason_as_str (pd_reason d)
  ++ lit ";rule_id=" ++ default [] (pd_rule_id d).

(** ** Facts shared by the components that handle identifiers *)

Lemma identifier_spec d s :
  identifier d s ->
  s <> [] /\ len s <= 128 /\ forallb (identifier_byte d) s = true.
Proof.
  unfold identifier, parse_identifier. case_bool_decide as Hs; [done|].
  destruct (_ || _) eqn:E; [done|]. intros _.
  apply orb_false_elim in E as [E _]. apply orb_false_elim in E as [E1 E2].
  apply N.ltb_ge in E1. apply negb_false_iff in E2. done.
Qed.

Lemma parse_identifier_Ok d s t : parse_identifier d s = Ok t -> t = s /\ identifier d s.
Proof.
  unfold identifier. intros H. assert (t = s) as ->; [|done].
  unfold parse_identifier in H. by repeat case_match; simplify_eq.
Qed.

Lemma identifier_intro s :
  s <> [] -> len s <= 128 -> forallb (identifier_byte false) s = true -> identifier false s.
Proof.
  intros Hs Hl Hb. unfold identifier, parse_identifier.
  rewrite bool_decide_eq_false_2, Hb by done.
  by rewrite (proj2 (N.ltb_ge _ _)).
Qed.

Lemma restrictiveness_inj a b : restrictiveness a = restrictiveness b -> a = b.
Proof. by destruct a, b. Qed.

(** The bytes of an identifier are ASCII, and none is a separator. *)
Lemma identifier_bytes_ascii d s :
  forallb (identifier_byte d) s = true -> forallb is_ascii s = true.
Proof.
  rewrite !forallb_forall. intros H b Hb. specialize (H b Hb).
  pose proof (byte_forall (fun b => implb (identifier_byte true b) (is_ascii b))
    ltac:(vm_compute; reflexivity) b) as Ha. cbv beta in Ha.
  destruct (identifier_byte true b) eqn:E; [done|].
  destruct d; [congruence|]. unfold identifier_byte in *. simpl in *.
  rewrite orb_false_r in H. rewrite H in E. done.
Qed.
