(* ===== verification/Policy.v ===== *)
(** * Policy

    Deterministic rule selection (crates/dlp-policy/src/lib.rs): the evaluator
    picks, among the rules that match the input, the one of highest priority,
    then of highest restrictiveness, then of least identifier. *)

From S2P Require Import Prelude Bytes Text Domain.

Module Policy.

Record PolicyRule := mkPolicyRule {
  r_rule_id : bytes;
  r_extension : bytes;
  r_priority : N;
  r_action : EnforcementAction;
}.

#[export] Instance PolicyRule_eq_dec : EqDecision PolicyRule.
Proof. solve_decision. Defined.

Definition matches (rule : PolicyRule) (input : PolicyInput) : bool :=
  bool_decide (r_extension rule = pi_extension input).

(** [Ord::cmp] of strings. *)
Definition bytes_cmp (a b : bytes) : comparison :=
  if bytes_leb a b then if bytes_leb b a then Eq else Lt else Gt.

(** [Ordering::then_with]. *)
Definition then_with (c d : comparison) : comparison :=
  match c with Eq => d | _ => c end.

(** The comparison of the evaluator's sort. *)
Definition rule_cmp (left right : PolicyRule) : comparison :=
  then_with (N.compare (r_priority right) (r_priority left))
    (then_with
       (N.compare (restrictiveness (r_action right)) (restrictiveness (r_action left)))
       (bytes_cmp (r_rule_id left) (r_rule_id right))).

Definition rule_le (a b : PolicyRule) : Prop := rule_cmp a b <> Gt.

#[export] Instance rule_le_dec : RelDecision rule_le.
Proof. intros a b. unfold rule_le. apply _. Defined.

(** [sort_unstable_by]: the rules in an order the comparison admits.  Rules the
    comparison identifies give the same decision, so the choice among the
    admitted orders does not show (see [evaluate_perm]). *)
Definition sort_candidates (l : list PolicyRule) : list PolicyRule := merge_sort rule_le l.

Definition evaluate (default_action : EnforcementAction) (input : PolicyInput)
    (rules : list PolicyRule) : PolicyDecision :=
  let candidates := filter (fun r => matches r input = true) rules in
  match sort_candidates candidates with
  | [] =>
      mkPolicyDecision default_action
        (match rules with [] => EmptyPolicy | _ => DefaultAction end) None
  | selected :: rest =>
      let equal_priority_conflict :=
        existsb (fun c => r_priority c =? r_priority selected) rest in
      mkPolicyDecision (r_action selected)
        (if equal_priority_conflict then EqualPriorityConflict else MatchedRule)
        (Some (r_rule_id selected))
  end.

(** ** The order is a total preorder *)

Lemma bytes_cmp_Gt a b : bytes_cmp a b <> Gt <-> bytes_le a b.
Proof. unfold bytes_cmp, bytes_le. by repeat case_match. Qed.

Lemma rule_le_iff a b :
  rule_le a b <->
  r_priority b < r_priority a \/
  r_priority b = r_priority a /\
    (restrictiveness (r_action b) < restrictiveness (r_action a) \/
     r_action b = r_action a /\ bytes_le (r_rule_id a) (r_rule_id b)).
Proof.
  unfold rule_le, rule_cmp, then_with.
  destruct (N.compare_spec (r_priority b) (r_priority a)) as [E|E|E];
    [|split; [by left|done]|split; [done|intros [|[]]; lia]].
  destruct (N.compare_spec (restrictiveness (r_action b)) (restrictiveness (r_action a)))
    as [F|F|F]; [|split; [by right; split; [|left]|done]
                 |split; [done|intros [|[_ [|[H _]]]]; [lia..|rewrite H in F; lia]]].
  apply restrictiveness_inj in F. rewrite bytes_cmp_Gt. rewrite E, F.
  split; [by intros; right; split; [|right]|]. intros [|[_ [|[_ ]]]]; [lia..|done].
Qed.

#[export] Instance rule_le_trans : Transitive rule_le.
Proof.
  intros a b c. rewrite !rule_le_iff.
  intros [H1|[H1 [H2|[H2 H3]]]] [H4|[H4 [H5|[H5 H6]]]];
    first [left; lia|right; split; [lia|]]; try (left; congruence || lia);
    try (left; rewrite <- ?H2, ?H5 in *; lia).
  right. split; [congruence|]. by etransitivity.
Qed.

#[export] Instance rule_le_total : Total rule_le.
Proof.
  intros a b. rewrite !rule_le_iff.
  destruct (N.lt_total (r_priority a) (r_priority b)) as [|[E|]]; [by right; left| |by left; left].
  destruct (N.lt_total (restrictiveness (r_action a)) (restrictiveness (r_action b)))
    as [|[F%restrictiveness_inj|]].
  - right; right. split; [done|by left].
  - destruct (total bytes_le (r_rule_id a) (r_rule_id b)); [left|right]; right;
      (split; [done|right; split; done]).
  - left; right. split; [done|by left].
Qed.

(** ** What [evaluate] selects *)

Definition candidates (input : PolicyInput) (rules : list PolicyRule) : list PolicyRule :=
  filter (fun r => matches r input = true) rules.

(** How many candidates share the priority of [sel]. *)
Definition peers (input : PolicyInput) (rules : list PolicyRule) (sel : PolicyRule) : nat :=
  length (filter (fun r => r_priority r = r_priority sel) (candidates input rules)).

Lemma existsb_peers sel rest :
  existsb (fun c => r_priority c =? r_priority sel) rest =
  bool_decide (1 <= length (filter (fun r => r_priority r = r_priority sel) rest))%nat.
Proof.
  induction rest as [|c rest IH]; [done|]. simpl. rewrite filter_cons.
  destruct (decide (r_priority c = r_priority sel)) as [E|E].
  - rewrite E, N.eqb_refl. symmetry. apply bool_decide_eq_true_2. simpl. lia.
  - by rewrite (proj2 (N.eqb_neq _ _)).
Qed.

(** The whole behaviour on the branch where a rule matches. *)
Lemma evaluate_selected d input rules :
  candidates input rules <> [] ->
  exists sel, sel ∈ candidates input rules /\
    (forall r, r ∈ candidates input rules -> rule_le sel r) /\
    evaluate d input rules =
      mkPolicyDecision (r_action sel)
        (if bool_decide (2 <= peers input rules sel)%nat
         then EqualPriorityConflict else MatchedRule) (Some (r_rule_id sel)).
Proof.
  intros Hne. unfold evaluate. fold (candidates input rules).
  pose proof (merge_sort_Permutation rule_le (candidates input rules)) as Hp.
  pose proof (StronglySorted_merge_sort rule_le (candidates input rules)) as Hs.
  fold (sort_candidates (candidates input rules)) in *.
  destruct (sort_candidates (candidates input rules)) as [|sel rest].
  { by apply Permutation_nil_l in Hp. }
  exists sel. split; [rewrite <- Hp; by left|]. split.
  - intros r Hr. rewrite <- Hp in Hr. apply elem_of_cons in Hr as [->|Hr].
    + destruct (total rule_le sel sel); done.
    + inversion Hs as [|? ? _ Hall]; subst. rewrite Forall_forall in Hall. by apply Hall.
  - assert (peers input rules sel =
      S (length (filter (fun r => r_priority r = r_priority sel) rest))) as ->.
    { unfold peers. rewrite <- Hp, filter_cons, decide_True by done. done. }
    rewrite existsb_peers. repeat case_bool_decide; done || lia.
Qed.

Lemma evaluate_default d input rules :
  candidates input rules = [] ->
  evaluate d input rules =
    mkPolicyDecision d (if bool_decide (rules = []) then EmptyPolicy else DefaultAction) None.
Proof.
  unfold evaluate, candidates. intros ->. unfold sort_candidates. cbn.
  destruct rules; [done|]. by rewrite bool_decide_eq_false_2.
Qed.

Lemma rule_le_antisym a b :
  rule_le a b -> rule_le b a ->
  r_priority a = r_priority b /\ r_action a = r_action b /\ r_rule_id a = r_rule_id b.
Proof.
  rewrite !rule_le_iff. intros [H1|[H1 [H2|[H2 H3]]]] [H4|[H4 [H5|[H5 H6]]]];
    try lia; try (rewrite ?H2, ?H5 in *; lia).
  split; [done|]. split; [done|]. by apply (anti_symm bytes_le).
Qed.

(** ** Properties *)

(** C40.  The decision is the default exactly when no rule matches; otherwise it
    carries the action and identifier of a matching rule that no matching rule
    beats: none has higher priority, and among those of its priority none is
    more restrictive, and among those of its priority and action none has a
    smaller identifier.  The reason reports a conflict exactly when at least two
    matching rules share that priority. *)
Theorem evaluate_spec d input rules :
  match filter (fun r => matches r input = true) rules with
  | [] => evaluate d input rules =
      mkPolicyDecision d (if bool_decide (rules = []) then EmptyPolicy else DefaultAction) None
  | _ :: _ =>
      exists sel, sel ∈ rules /\ matches sel input = true /\
        (forall r, r ∈ rules -> matches r input = true ->
           r_priority r <= r_priority sel /\
           (r_priority r = r_priority sel ->
              restrictiveness (r_action r) <= restrictiveness (r_action sel) /\
              (r_action r = r_action sel -> bytes_leb (r_rule_id sel) (r_rule_id r) = true))) /\
        evaluate d input rules =
          mkPolicyDecision (r_action sel)
            (if bool_decide (2 <= peers input rules sel)%nat
             then EqualPriorityConflict else MatchedRule) (Some (r_rule_id sel))
  end.
Proof.
  fold (candidates input rules). destruct (candidates input rules) as [|c cs] eqn:E.
  { by apply evaluate_default. }
  destruct (evaluate_selected d input rules) as (sel & Hin & Hle & Hev); [by rewrite E|].
  exists sel. apply list_elem_of_filter in Hin as [Hm Hin]. repeat split; try done.
  all: intros; destruct (proj1 (rule_le_iff sel r)) as [|[? [|[? ?]]]];
    try (apply Hle, list_elem_of_filter; done); try lia; try done;
    match goal with H : r_action _ = r_action _ |- _ => rewrite H in *; lia || done end.
Qed.

(** The decision does not depend on the order of the rules. *)
Theorem evaluate_perm d input rules rules' :
  rules ≡ₚ rules' -> evaluate d input rules = evaluate d input rules'.
Proof.
  intros Hp. assert (candidates input rules ≡ₚ candidates input rules') as Hc
    by (unfold candidates; by rewrite Hp).
  destruct (decide (candidates input rules = [])) as [E|E].
  - rewrite !evaluate_default; [|rewrite E in Hc; by apply Permutation_nil_l in Hc|done].
    do 2 f_equal. case_bool_decide as H1; case_bool_decide as H2; [done| | |done].
    + subst. by apply Permutation_nil_l in Hp.
    + subst. by apply Permutation_nil_r in Hp.
  - destruct (evaluate_selected d input rules) as (s & Hin & Hle & ->); [done|].
    destruct (evaluate_selected d input rules') as (s' & Hin' & Hle' & ->).
    { intros E'. rewrite E' in Hc. by apply Permutation_nil_r in Hc. }
    destruct (rule_le_antisym s s') as (Hpr & -> & ->).
    + apply Hle. by rewrite Hc.
    + apply Hle'. by rewrite <- Hc.
    + assert (peers input rules s = peers input rules' s') as ->; [|done].
      unfold peers. rewrite Hc. do 2 f_equal. by rewrite Hpr.
Qed.

Lemma evaluate_perm_witness :
  evaluate Allow (mkPolicyInput (lit "a") (lit "txt") (lit "/a") (lit "S-1") 1)
    [mkPolicyRule (lit "r1") (lit "txt") 5 Warn; mkPolicyRule (lit "r2") (lit "txt") 5 Block] =
  evaluate Allow (mkPolicyInput (lit "a") (lit "txt") (lit "/a") (lit "S-1") 1)
    [mkPolicyRule (lit "r2") (lit "txt") 5 Block; mkPolicyRule (lit "r1") (lit "txt") 5 Warn] /\
  evaluate Allow (mkPolicyInput (lit "a") (lit "txt") (lit "/a") (lit "S-1") 1)
    [mkPolicyRule (lit "r1") (lit "txt") 5 Warn; mkPolicyRule (lit "r2") (lit "txt") 5 Block] =
  mkPolicyDecision Block EqualPriorityConflict (Some (lit "r2")).
Proof.
  split; [apply evaluate_perm; constructor | vm_compute; reflexivity].
Defined.

End Policy.
