(* ===== verification/Crypto.v ===== *)
(** * Crypto

    The record encryption and configuration signatures of crates/dlp-crypto.
    AES-256-GCM, Ed25519 and the random generator are third-party code: the
    operations the crate calls are the members of the classes [Aead] and
    [Ed25519], and what the crate relies on is stated by [AeadLaws] and
    [Ed25519Laws].  A generated nonce is an argument. *)

From S2P Require Import Prelude Bytes.

(** ** Third-party primitives *)

(** The calls to crate aes-gcm: key, nonce, associated data, message. *)
Class Aead := {
  aead_encrypt : bytes -> bytes -> bytes -> bytes -> option bytes;
  aead_decrypt : bytes -> bytes -> bytes -> bytes -> option bytes;
}.

(** What AES-256-GCM documents: decryption inverts encryption, and the
    ciphertext is the plaintext's length plus a 16-byte tag. *)
Class AeadLaws (A : Aead) := {
  aead_decrypt_encrypt k n a p c :
    aead_encrypt k n a p = Some c -> aead_decrypt k n a c = Some p;
  aead_tag_length k n a p c :
    aead_encrypt k n a p = Some c -> len c = len p + 16;
}.

(** The calls to crate ed25519-dalek. *)
Class Ed25519 := {
  verifying_key : Type;
  verifying_key_from_bytes : bytes -> option verifying_key;
  is_weak : verifying_key -> bool;
  verify_strict : verifying_key -> bytes -> bytes -> bool;
  public_of_seed : bytes -> bytes;
  sign_with_seed : bytes -> bytes -> bytes;
}.

(** What Ed25519 documents: a signature is 64 bytes, and the public key of the
    signer verifies it. *)
Class Ed25519Laws (S : Ed25519) := {
  signature_length seed m : len (sign_with_seed seed m) = 64;
  verify_strict_sign seed m vk :
    verifying_key_from_bytes (public_of_seed seed) = Some vk -> is_weak vk = false ->
    verify_strict vk m (sign_with_seed seed m) = true;
}.

(** The calls to crate sha2. *)
Class Sha256 := sha256 : bytes -> bytes.

(** A SHA-256 digest is 32 bytes. *)
Class Sha256Laws (S : Sha256) := {
  sha256_length m : len (sha256 m) = 32;
}.

(** ** aead.rs *)

Definition FORMAT_ID_V1 : bytes := lit "dlp-store/aes256gcm-4m/v1".
Definition NONCE_LENGTH : N := 12.

Inductive RecordKind :=
| Chunk
| Manifest
| Commit.

#[export] Instance RecordKind_eq_dec : EqDecision RecordKind.
Proof. solve_decision. Defined.

Definition as_byte (k : RecordKind) : byte :=
  match k with
  | Chunk => x01
  | Manifest => x02
  | Commit => x03
  end.

Record RecordAad := mkRecordAad {
  a_format_version : N;
  a_store_id : bytes;
  a_file_id : bytes;
  a_generation : N;
  a_record_kind : RecordKind;
  a_chunk_index : N;
  a_plaintext_length : N;
}.

#[export] Instance RecordAad_eq_dec : EqDecision RecordAad.
Proof. solve_decision. Defined.

(** [RecordAad::canonical_bytes]; [to_le 2] keeps the low sixteen bits, as the
    cast [as u16] does. *)
Definition canonical_bytes (a : RecordAad) : bytes :=
  FORMAT_ID_V1 ++ to_le 2 (a_format_version a)
  ++ (to_le 2 (len (a_store_id a)) ++ a_store_id a)
  ++ (to_le 2 (len (a_file_id a)) ++ a_file_id a)
  ++ to_le 8 (a_generation a) ++ [as_byte (a_record_kind a)]
  ++ to_le 8 (a_chunk_index a) ++ to_le 8 (a_plaintext_length a).

Inductive CryptoError :=
| InvalidKeyId
| InvalidPublicKey
| InvalidSignatureLength
| KeyIdMismatch
| UnsupportedSchema (received : N)
| WeakKey
| SignatureInvalid
| EncryptionFailed
| CryptoIntegrityFailure
| DuplicateNonce.

#[export] Instance CryptoError_eq_dec : EqDecision CryptoError.
Proof. solve_decision. Defined.

Section Cipher.
Context `{Aead}.

(** [RecordCipher::encrypt] with the generated nonce. *)
Definition encrypt (key nonce : bytes) (aad : RecordAad) (plaintext : bytes) :
    result CryptoError (bytes * bytes) :=
  match aead_encrypt key nonce (canonical_bytes aad) plaintext with
  | Some ciphertext => Ok (nonce, ciphertext)
  | None => Err EncryptionFailed
  end.

Definition decrypt (key : bytes) (aad : RecordAad) (nonce ciphertext : bytes) :
    result CryptoError bytes :=
  ok_or CryptoIntegrityFailure (aead_decrypt key nonce (canonical_bytes aad) ciphertext).
End Cipher.

(** [NonceTracker]: the nonces seen so far. *)
Definition NonceTracker : Type := list bytes.

Definition nonce_insert (nonce : bytes) (t : NonceTracker) :
    result CryptoError NonceTracker :=
  if bool_decide (nonce ∈ t) then Err DuplicateNonce else Ok (nonce :: t).

(** ** lib.rs *)

Definition CONFIGURATION_SCHEMA_VERSION_V1 : N := 1.
Definition ED25519_SIGNATURE_LENGTH : N := 64.

Section Signatures.
Context `{Ed25519}.

Record ConfigurationSigner := mkSigner { s_key_id : bytes; s_seed : bytes }.

Definition signer_public_key_bytes (s : ConfigurationSigner) : bytes :=
  public_of_seed (s_seed s).
Definition signer_sign (s : ConfigurationSigner) (m : bytes) : bytes :=
  sign_with_seed (s_seed s) m.

Record ConfigurationVerifier := mkVerifier {
  v_key_id : bytes;
  v_verifying_key : verifying_key;
}.

Definition from_public_key_bytes (key_id pk : bytes) :
    result CryptoError ConfigurationVerifier :=
  if bool_decide (key_id = []) || (128 <? len key_id) then Err InvalidKeyId
  else vk ← ok_or InvalidPublicKey (verifying_key_from_bytes pk);
       if is_weak vk then Err WeakKey else Ok (mkVerifier key_id vk).

Definition verify (v : ConfigurationVerifier) (schema_version : N)
    (key_id m signature : bytes) : result CryptoError unit :=
  if negb (schema_version =? CONFIGURATION_SCHEMA_VERSION_V1)
  then Err (UnsupportedSchema schema_version)
  else if negb (bool_decide (key_id = v_key_id v)) then Err KeyIdMismatch
  else if negb (len signature =? ED25519_SIGNATURE_LENGTH) then Err InvalidSignatureLength
  else if verify_strict (v_verifying_key v) m signature then Ok tt else Err SignatureInvalid.

(** [verify_before_activation] with the activation as a state change. *)
Definition verify_before_activation {S} (v : ConfigurationVerifier) (schema_version : N)
    (key_id m signature : bytes) (activate : S -> S) (st : S) : result CryptoError unit * S :=
  match verify v schema_version key_id m signature with
  | Ok _ => (Ok tt, activate st)
  | Err e => (Err e, st)
  end.
End Signatures.

(** ** Lemmas *)

(** The values the fields of an [aad] have in the sources: the integers at
    their widths, the identifiers no longer than [u16::MAX]. *)
Definition aad_wf (a : RecordAad) : Prop :=
  a_format_version a <= u16_max /\ len (a_store_id a) <= u16_max /\
  len (a_file_id a) <= u16_max /\ a_generation a <= u64_max /\
  a_chunk_index a <= u64_max /\ a_plaintext_length a <= u64_max.

Lemma as_byte_inj k l : as_byte k = as_byte l -> k = l.
Proof. by destruct k, l. Qed.

(** Peel the next fixed-width or length-prefixed field off two equal encodings. *)
Lemma le_field_inj w m n a b :
  m < 256 ^ N.of_nat w -> n < 256 ^ N.of_nat w ->
  to_le w m ++ a = to_le w n ++ b -> m = n /\ a = b.
Proof.
  intros Hm Hn E. apply app_inj_len in E as [E ->]; [|by rewrite !len_to_le].
  split; [|done]. by eapply to_le_inj.
Qed.

Lemma text_field_inj w (s t a b : bytes) :
  len s < 256 ^ N.of_nat w -> len t < 256 ^ N.of_nat w ->
  (to_le w (len s) ++ s) ++ a = (to_le w (len t) ++ t) ++ b -> s = t /\ a = b.
Proof.
  intros Hs Ht E. rewrite <- !app_assoc in E.
  apply le_field_inj in E as [El E]; [|done..]. by apply app_inj_len.
Qed.

(** The associated data binds the record header: two well-formed headers
    with the same canonical bytes are the same header, so a record sealed for one
    store, file, generation, kind, index or length never carries the associated
    data of another. *)
Theorem canonical_bytes_inj a b :
  aad_wf a -> aad_wf b -> canonical_bytes a = canonical_bytes b -> a = b.
Proof.
  unfold aad_wf, u16_max, u64_max. intros Ha Hb E.
  destruct a as [v s f g k i p], b as [v' s' f' g' k' i' p']. simpl in *.
  unfold canonical_bytes in E. cbn -[to_le FORMAT_ID_V1] in E.
  apply app_inv_head in E.
  apply le_field_inj in E as [-> E]; [|simpl; lia..].
  apply text_field_inj in E as [-> E]; [|simpl; lia..].
  apply text_field_inj in E as [-> E]; [|simpl; lia..].
  apply le_field_inj in E as [-> E]; [|simpl; lia..].
  apply cons_inj in E as [Ek E]. apply as_byte_inj in Ek as ->.
  apply le_field_inj in E as [-> E]; [|simpl; lia..].
  apply to_le_inj in E as ->; [|simpl; lia..]. done.
Qed.

Lemma canonical_bytes_inj_witness :
  let a := mkRecordAad 1 (lit "store") (lit "f") 7 Chunk 0 3 in
  aad_wf a /\ a = mkRecordAad 1 (lit "store") (lit "f") 7 Chunk 0 3.
Proof.
  cbv zeta. assert (aad_wf (mkRecordAad 1 (lit "store") (lit "f") 7 Chunk 0 3)) as Hw
    by (repeat split; vm_compute; discriminate).
  split; [exact Hw|]. apply canonical_bytes_inj; [exact Hw|exact Hw|reflexivity].
Defined.
