(* ===== verification/Format.v ===== *)
(** * Format

    The persisted record format of crates/dlp-storage/src/format.rs: the AEAD
    record, the manifest and the commit record, their encoders and decoders, and
    the bounds-checked cursor the decoders use. *)

From S2P Require Import Prelude Bytes Reader Domain Crypto.

(** [StorageError] (crates/dlp-storage/src/lib.rs). *)
Inductive StorageError :=
| FlushNotDurable
| CloseNotDurable
| IntegrityFailure
| RecoveryRequired
| NoSpace
| Unavailable
| NotFound
| IoFailure
| AlreadyExists
| SharingViolation
| DeletePending.

#[export] Instance StorageError_eq_dec : EqDecision StorageError.
Proof. solve_decision. Defined.

Definition FORMAT_VERSION_V1 : N := 1.
Definition MAGIC : bytes := lit "DLP1".
Definition MAX_CIPHERTEXT : N := 4 * 1024 * 1024 + 64 * 1024.
Definition CHUNK_SIZE : N := 4 * 1024 * 1024.

(** ** Cursor *)

(** [Cursor]: every read past the end fails with [IntegrityFailure]. *)
Definition cursor_take : N -> reader StorageError bytes := read_take IntegrityFailure.
Definition cursor_byte : reader StorageError byte := read_byte IntegrityFailure.
Definition cursor_u16 : reader StorageError N := read_le IntegrityFailure 2.
Definition cursor_u32 : reader StorageError N := read_le IntegrityFailure 4.
Definition cursor_u64 : reader StorageError N := read_le IntegrityFailure 8.

(** The check [Cursor::text] makes on the bytes it takes. *)
Definition text_ok (raw : bytes) : bool :=
  utf8_valid raw && negb (bool_decide (raw = [])) && (len raw <=? 128)
  && forallb (identifier_byte false) raw.

Definition cursor_text (count : N) : reader StorageError bytes :=
  raw ← cursor_take count;
  _ ← read_guard IntegrityFailure (text_ok raw);
  mret raw.

(** A decoder runs on the whole slice; what it leaves unread is dropped. *)
Definition run_reader {A} (m : reader StorageError A) (s : bytes) : result StorageError A :=
  match m s with Ok (a, _) => Ok a | Err e => Err e end.

(** ** Records *)

Record EncryptedRecordV1 := mkRecord {
  format_version : N;
  store_id : bytes;
  file_id : bytes;
  generation : N;
  record_kind : RecordKind;
  chunk_index : N;
  plaintext_length : N;
  nonce : bytes;
  ciphertext : bytes;
}.

#[export] Instance EncryptedRecordV1_eq_dec : EqDecision EncryptedRecordV1.
Proof. solve_decision. Defined.

Definition aad (r : EncryptedRecordV1) : RecordAad :=
  mkRecordAad (format_version r) (store_id r) (file_id r) (generation r)
    (record_kind r) (chunk_index r) (plaintext_length r).

Section Sealing.
Context `{Aead}.

(** [EncryptedRecordV1::seal] with the generated nonce; it also returns the
    tracker it updates. *)
Definition record_seal (key gen_nonce : bytes) (a : RecordAad) (plaintext : bytes)
    (nonces : NonceTracker) : result StorageError (EncryptedRecordV1 * NonceTracker) :=
  '(n, c) ← map_err (fun _ => IntegrityFailure) (encrypt key gen_nonce a plaintext);
  nonces' ← map_err (fun _ => IntegrityFailure) (nonce_insert n nonces);
  Ok (mkRecord (a_format_version a) (a_store_id a) (a_file_id a) (a_generation a)
        (a_record_kind a) (a_chunk_index a) (a_plaintext_length a) n c, nonces').

(** [usize::MAX] is [u64::MAX], so the length comparison of [open] is with it. *)
Definition record_open (key : bytes) (r : EncryptedRecordV1) : result StorageError bytes :=
  if negb (format_version r =? FORMAT_VERSION_V1) || (u64_max <? plaintext_length r)
  then Err IntegrityFailure
  else plaintext ← map_err (fun _ => IntegrityFailure)
                     (decrypt key (aad r) (nonce r) (ciphertext r));
       if negb (len plaintext =? plaintext_length r) then Err IntegrityFailure
       else Ok plaintext.
End Sealing.

Definition record_encode (r : EncryptedRecordV1) : result StorageError bytes :=
  if (u16_max <? len (store_id r)) || (u16_max <? len (file_id r))
     || (MAX_CIPHERTEXT <? len (ciphertext r))
  then Err IntegrityFailure
  else Ok (MAGIC ++ to_le 2 (format_version r)
    ++ to_le 2 (len (store_id r)) ++ store_id r
    ++ to_le 2 (len (file_id r)) ++ file_id r
    ++ to_le 8 (generation r) ++ [as_byte (record_kind r)]
    ++ to_le 8 (chunk_index r) ++ to_le 8 (plaintext_length r)
    ++ nonce r ++ to_le 8 (len (ciphertext r)) ++ ciphertext r).

(** The [match cursor.byte()?] of [decode]. *)
Definition kind_of_byte (b : byte) : option RecordKind :=
  match b with
  | x01 => Some Chunk
  | x02 => Some Manifest
  | x03 => Some Commit
  | _ => None
  end.

Definition record_reader : reader StorageError EncryptedRecordV1 :=
  magic ← cursor_take 4;
  _ ← read_guard IntegrityFailure (bool_decide (magic = MAGIC));
  format_version ← cursor_u16;
  store_length ← cursor_u16;
  store_id ← cursor_text store_length;
  file_length ← cursor_u16;
  file_id ← cursor_text file_length;
  generation ← cursor_u64;
  kind ← cursor_byte;
  match kind_of_byte kind with
  | None => read_fail IntegrityFailure
  | Some record_kind =>
      chunk_index ← cursor_u64;
      plaintext_length ← cursor_u64;
      nonce ← cursor_take NONCE_LENGTH;
      ciphertext_len ← cursor_u64;
      remaining ← read_remaining;
      _ ← read_guard IntegrityFailure
            ((ciphertext_len <=? MAX_CIPHERTEXT) && (remaining =? ciphertext_len));
      ciphertext ← cursor_take ciphertext_len;
      mret (mkRecord format_version store_id file_id generation record_kind
              chunk_index plaintext_length nonce ciphertext)
  end.

Definition record_decode : bytes -> result StorageError EncryptedRecordV1 :=
  run_reader record_reader.

(** ** Manifest *)

Record EncryptedManifestV1 := mkManifest {
  m_generation : N;
  m_file_id : bytes;
  m_logical_length : N;
  m_chunk_lengths : list N;
}.

#[export] Instance EncryptedManifestV1_eq_dec : EqDecision EncryptedManifestV1.
Proof. solve_decision. Defined.

Definition manifest_prefix : bytes := FORMAT_ID_V1 ++ [x00].

Definition manifest_encode (m : EncryptedManifestV1) : result StorageError bytes :=
  if (u16_max <? len (m_file_id m)) || (u32_max <? len (m_chunk_lengths m))
  then Err IntegrityFailure
  else Ok (manifest_prefix ++ to_le 8 (m_generation m)
    ++ to_le 2 (len (m_file_id m)) ++ m_file_id m
    ++ to_le 8 (m_logical_length m)
    ++ to_le 4 (len (m_chunk_lengths m))
    ++ concat (map (to_le 8) (m_chunk_lengths m))).

Definition manifest_reader : reader StorageError EncryptedManifestV1 :=
  generation ← cursor_u64;
  file_length ← cursor_u16;
  file_id ← cursor_text file_length;
  logical_length ← cursor_u64;
  count ← cursor_u32;
  remaining ← read_remaining;
  _ ← read_guard IntegrityFailure
        ((count <=? 1000000) && (remaining =? count * 8));
  chunk_lengths ← read_many (N.to_nat count) cursor_u64;
  mret (mkManifest generation file_id logical_length chunk_lengths).

Definition manifest_decode (s : bytes) : result StorageError EncryptedManifestV1 :=
  match read_take IntegrityFailure (len manifest_prefix) s with
  | Ok (p, rest) =>
      if bool_decide (p = manifest_prefix) then run_reader manifest_reader rest
      else Err IntegrityFailure
  | Err e => Err e
  end.

(** ** Commit record *)

Record CommitRecordV1 := mkCommit {
  c_generation : N;
  c_file_id : bytes;
}.

#[export] Instance CommitRecordV1_eq_dec : EqDecision CommitRecordV1.
Proof. solve_decision. Defined.

Definition commit_encode (c : CommitRecordV1) : result StorageError bytes :=
  if u16_max <? len (c_file_id c) then Err IntegrityFailure
  else Ok (to_le 8 (c_generation c) ++ to_le 2 (len (c_file_id c)) ++ c_file_id c).

Definition commit_reader : reader StorageError CommitRecordV1 :=
  generation ← cursor_u64;
  file_length ← cursor_u16;
  file_id ← cursor_text file_length;
  remaining ← read_remaining;
  _ ← read_guard IntegrityFailure (remaining =? 0);
  mret (mkCommit generation file_id).

Definition commit_decode : bytes -> result StorageError CommitRecordV1 :=
  run_reader commit_reader.

(** ** Well-formedness: the values the sources build *)

Definition record_wf (r : EncryptedRecordV1) : Prop :=
  format_version r <= u16_max /\ identifier false (store_id r) /\
  identifier false (file_id r) /\ generation r <= u64_max /\
  chunk_index r <= u64_max /\ plaintext_length r <= u64_max /\
  len (nonce r) = NONCE_LENGTH /\ len (ciphertext r) <= MAX_CIPHERTEXT.

Definition manifest_wf (m : EncryptedManifestV1) : Prop :=
  m_generation m <= u64_max /\ identifier false (m_file_id m) /\
  m_logical_length m <= u64_max /\ len (m_chunk_lengths m) <= 1000000 /\
  Forall (fun n => n <= u64_max) (m_chunk_lengths m).

Definition commit_wf (c : CommitRecordV1) : Prop :=
  c_generation c <= u64_max /\ identifier false (c_file_id c).

(** ** Lemmas *)

(** [Cursor::text] admits exactly the identifiers. *)
Lemma text_ok_identifier s : text_ok s = true <-> identifier false s.
Proof.
  unfold text_ok. split.
  - intros [[[_ H1]%andb_prop H2]%andb_prop H3]%andb_prop.
    apply identifier_intro; [|by apply N.leb_le|done].
    apply negb_true_iff, bool_decide_eq_false in H1. done.
  - intros (H1 & H2 & H3)%identifier_spec.
    rewrite H3, bool_decide_eq_false_2, (proj2 (N.leb_le _ _)) by done.
    rewrite utf8_valid_ascii; [done|]. by eapply identifier_bytes_ascii.
Qed.

Lemma cursor_text_Ok n s t r :
  cursor_text n s = Ok (t, r) <-> s = t ++ r /\ len t = n /\ identifier false t.
Proof.
  unfold cursor_text, cursor_take. rewrite read_bind_Ok. split.
  - intros (a & s' & H & Hr). inv_reader. by rewrite text_ok_identifier in *.
  - intros (-> & <- & Ht). exists t, r. rewrite read_take_Ok. split; [done|].
    read_step; [by apply text_ok_identifier|]. read_step.
Qed.

Lemma kind_of_byte_Some b k : kind_of_byte b = Some k <-> b = as_byte k.
Proof. split; [by destruct b, k|]. intros ->. by destruct k. Qed.

Lemma identifier_len16 d s : identifier d s -> len s <= 128.
Proof. intros (_ & ? & _)%identifier_spec. done. Qed.

(** One read of an identifier, backwards and forwards. *)
Ltac inv_cursor :=
  unfold cursor_take, cursor_byte, cursor_u16, cursor_u32, cursor_u64 in *;
  inv_reader;
  repeat match goal with
  | H : cursor_text _ _ = Ok (_, _) |- _ =>
      apply cursor_text_Ok in H as (? & ? & ?); subst; inv_reader
  end.

Ltac cursor_step :=
  unfold cursor_take, cursor_byte, cursor_u16, cursor_u32, cursor_u64;
  first
  [ apply read_bind_Ok; eexists _, _; split;
    [apply cursor_text_Ok; split; [reflexivity|]; split; [reflexivity|]|]
  | read_step ].

Lemma run_reader_Ok {A} (m : reader StorageError A) s a :
  run_reader m s = Ok a <-> exists r, m s = Ok (a, r).
Proof.
  unfold run_reader. destruct (m s) as [[b r]|]; split.
  - intros [= ->]. by exists r.
  - by intros [r' [= -> ->]].
  - done.
  - by intros [r' ?].
Qed.

(** A byte string decodes to a record exactly when it is the encoding of that
    record and the record is well formed. *)
Lemma record_decode_iff s r :
  record_decode s = Ok r <-> record_wf r /\ record_encode r = Ok s.
Proof.
  unfold record_decode. rewrite run_reader_Ok. unfold record_reader. split.
  - intros [rest H]. inv_cursor.
    destruct (kind_of_byte _) as [k|] eqn:Ek; [|done]. apply kind_of_byte_Some in Ek.
    inv_cursor. apply bool_decide_eq_true in H1. subst.
    match goal with Hc : (_ <=? _) && _ = true |- _ =>
      apply andb_prop in Hc as [Hc1%N.leb_le Hc2%N.eqb_eq] end.
    apply len_app_same in Hc2. subst.
    split.
    + unfold record_wf; simpl; unfold u16_max, u64_max. simpl in *. repeat split; try done; lia.
    + unfold record_encode; simpl. repeat match goal with
      H : identifier false _ |- _ => apply identifier_len16 in H end.
      unfold u16_max. rewrite !(proj2 (N.ltb_ge _ _)) by lia. simpl.
      by rewrite ?app_nil_r.
  - intros [(Hv & Hs & Hf & Hg & Hi & Hp & Hn & Hc) He]. exists [].
    unfold record_encode in He. destruct (_ || _); [done|]. apply Ok_inj in He as <-.
    apply identifier_len16 in Hs as Hs', Hf as Hf'. unfold u16_max, u64_max in *.
    assert (MAX_CIPHERTEXT < 2 ^ 64) by done.
    apply read_bind_Ok. exists MAGIC. eexists. split; [by apply read_take_Ok|].
    read_step; [by apply bool_decide_eq_true|].
    cursor_step; [simpl; lia|]. cursor_step; [simpl; lia|].
    cursor_step; [done|]. cursor_step; [simpl; lia|]. cursor_step; [done|].
    cursor_step; [simpl; lia|]. cursor_step.
    rewrite (proj2 (kind_of_byte_Some _ _) eq_refl).
    cursor_step; [simpl; lia|]. cursor_step; [simpl; lia|]. cursor_step; [done|].
    cursor_step; [simpl; lia|]. cursor_step. cursor_step.
    { rewrite N.eqb_refl, (proj2 (N.leb_le _ _)) by lia. done. }
    apply read_bind_Ok. exists (ciphertext r), []. split.
    + apply read_take_Ok. by rewrite app_nil_r.
    + destruct r. by apply read_ret_Ok.
Qed.

Lemma u64_list_Ok count l s r :
  read_many count cursor_u64 s = Ok (l, r) <->
  s = concat (map (to_le 8) l) ++ r /\ length l = count /\
  Forall (fun n => n < 256 ^ N.of_nat 8) l.
Proof. apply read_many_Ok. intros. apply read_le_Ok. Qed.

Lemma len_concat_u64 l : len (concat (map (to_le 8) l)) = len l * 8.
Proof.
  induction l as [|n l IH]; [done|]. cbn [map concat].
  rewrite len_app, len_cons, IH, len_to_le. lia.
Qed.

Lemma u64_lt n : n < 256 ^ N.of_nat 8 <-> n <= u64_max.
Proof. unfold u64_max. change (256 ^ N.of_nat 8) with 18446744073709551616. lia. Qed.

Lemma manifest_decode_iff s m :
  manifest_decode s = Ok m <-> manifest_wf m /\ manifest_encode m = Ok s.
Proof.
  unfold manifest_decode. split.
  - destruct (read_take _ _ _) as [[p rest]|] eqn:Ep; [|done].
    apply read_take_Ok in Ep as [-> Hp]. case_bool_decide as Hpe; [|done]. subst p.
    rewrite run_reader_Ok. intros [r H]. unfold manifest_reader in H.
    inv_cursor.
    match goal with Hm : read_many (N.to_nat ?n) _ _ = Ok (?l, ?r) |- _ =>
      apply u64_list_Ok in Hm as (-> & Hlen & Hall);
      assert (len l = n) as <- by (unfold len; lia);
      assert (len (concat (map (to_le 8) l) ++ r) = len l * 8 -> r = []) as Hr
        by (rewrite len_app, len_concat_u64; intros; apply len_0; lia) end.
    match goal with Hc : (_ <=? _) && _ = true |- _ =>
      apply andb_prop in Hc as [Hc1%N.leb_le ->%N.eqb_eq%Hr] end.
    match goal with Hi : identifier _ _ |- _ => apply identifier_len16 in Hi as Hf end. split.
    + repeat split; simpl; try done; [by apply u64_lt..|].
      eapply Forall_impl; [done|]. intros n. apply u64_lt.
    + unfold manifest_encode, u16_max, u32_max. simpl.
      rewrite !(proj2 (N.ltb_ge _ _)) by lia. simpl. by rewrite app_nil_r.
  - intros [(Hg & Hf & Hl & Hc & Hall) He]. unfold manifest_encode in He.
    destruct (_ || _); [done|]. apply Ok_inj in He as <-.
    rewrite (proj2 (read_take_Ok _ _ _ _ _) (conj eq_refl eq_refl)).
    rewrite bool_decide_eq_true_2 by done. apply run_reader_Ok. exists [].
    unfold manifest_reader. apply identifier_len16 in Hf as Hf'.
    cursor_step; [by apply u64_lt|]. cursor_step; [simpl; lia|]. cursor_step; [done|].
    cursor_step; [by apply u64_lt|]. cursor_step; [simpl; lia|]. cursor_step. cursor_step.
    { rewrite len_concat_u64, N.eqb_refl, (proj2 (N.leb_le _ _)) by lia. done. }
    apply read_bind_Ok. exists (m_chunk_lengths m), []. split.
    + apply u64_list_Ok. rewrite app_nil_r. unfold len. rewrite Nat2N.id.
      split; [done|]. split; [done|]. eapply Forall_impl; [done|]. intros n. apply u64_lt.
    + destruct m. by apply read_ret_Ok.
Qed.

Lemma commit_decode_iff s c :
  commit_decode s = Ok c <-> commit_wf c /\ commit_encode c = Ok s.
Proof.
  unfold commit_decode. rewrite run_reader_Ok. unfold commit_reader. split.
  - intros [r H]. inv_cursor.
    match goal with Hc : (len ?r =? 0) = true |- _ =>
      apply N.eqb_eq, len_0 in Hc; subst r end.
    match goal with Hi : identifier _ _ |- _ => apply identifier_len16 in Hi as Hf end. split.
    + split; [by apply u64_lt|done].
    + unfold commit_encode, u16_max. simpl. rewrite (proj2 (N.ltb_ge _ _)) by lia.
      by rewrite app_nil_r.
  - intros [[Hg Hf] He]. unfold commit_encode in He. destruct (_ <? _); [done|].
    apply Ok_inj in He as <-. exists []. apply identifier_len16 in Hf as Hf'.
    cursor_step; [by apply u64_lt|]. cursor_step; [simpl; lia|].
    rewrite <- (app_nil_r (c_file_id c)) at 2.
    cursor_step; [done|]. cursor_step. cursor_step; [done|].
    destruct c. by apply read_ret_Ok.
Qed.

(** ** Properties *)

(** C39.  The record codec is exact: [decode] accepts a byte string exactly when it
    is the encoding of a well-formed record, and then returns that record. *)
Theorem record_codec s r :
  record_decode s = Ok r <-> record_wf r /\ record_encode r = Ok s.
Proof. apply record_decode_iff. Qed.

(** The manifest and commit codecs are exact in the same sense, and every
    well-formed manifest and commit has an encoding. *)
Theorem payload_codec s m c :
  (manifest_decode s = Ok m <-> manifest_wf m /\ manifest_encode m = Ok s) /\
  (commit_decode s = Ok c <-> commit_wf c /\ commit_encode c = Ok s) /\
  (manifest_wf m -> exists b, manifest_encode m = Ok b) /\
  (commit_wf c -> exists b, commit_encode c = Ok b).
Proof.
  split; [apply manifest_decode_iff|]. split; [apply commit_decode_iff|]. split.
  - intros (_ & Hf%identifier_len16 & _ & Hc & _). unfold manifest_encode, u16_max, u32_max.
    rewrite !(proj2 (N.ltb_ge _ _)) by lia. by eexists.
  - intros [_ Hf%identifier_len16]. unfold commit_encode, u16_max.
    rewrite (proj2 (N.ltb_ge _ _)) by lia. by eexists.
Qed.
