(* ===== verification/VPath.v ===== *)
(** * VPath

    Virtual paths (crates/dlp-storage/src/path.rs): bounded Windows-style paths
    with a display form and a canonical, case-folded lookup key. *)

From S2P Require Import Prelude Bytes Text.

Inductive PathError := InvalidPath.

Definition MAX_PATH_LENGTH : N := 260.
Definition MAX_COMPONENT_LENGTH : N := 128.
Definition MAX_COMPONENTS : N := 64.

Record VirtualPath := mkPath {
  display : list bytes;
  lookup : bytes;
}.

#[export] Instance VirtualPath_eq_dec : EqDecision VirtualPath.
Proof. solve_decision. Defined.

Definition root : VirtualPath := mkPath [] [].

Definition has_byte (b : byte) (s : bytes) : bool := existsb (Byte.eqb b) s.

(** A backslash or a slash. *)
Definition is_separator (b : byte) : bool := Byte.eqb b x5c || Byte.eqb b x2f.

Definition starts_with_separator (s : bytes) : bool :=
  match s with b :: _ => is_separator b | [] => false end.

Definition is_device_or_unc (input : bytes) : bool :=
  let upper := to_ascii_uppercase input in
  starts_with (lit "\\") upper || starts_with (lit "\DEVICE\") upper
  || starts_with (lit "\?\") upper.

Definition reserved_stems : list bytes :=
  map lit ["CON"; "PRN"; "AUX"; "NUL";
    "COM1"; "COM2"; "COM3"; "COM4"; "COM5"; "COM6"; "COM7"; "COM8"; "COM9";
    "LPT1"; "LPT2"; "LPT3"; "LPT4"; "LPT5"; "LPT6"; "LPT7"; "LPT8"; "LPT9"]%string.

(** The characters a component may not have: controls, and less-than,
    greater-than, quotation mark, bar, question mark and asterisk. *)
Definition forbidden_char (c : N) : bool :=
  is_control c || existsb (N.eqb c) [60; 62; 34; 124; 63; 42].

Definition valid_component (component : bytes) : bool :=
  if bool_decide (component = [])
     || (MAX_COMPONENT_LENGTH <? len component)
     || bool_decide (component = lit ".")
     || bool_decide (component = lit "..")
     || (ends_with (lit ".") component || ends_with (lit " ") component)
     || existsb forbidden_char (chars component)
  then false
  else
    let stem := to_ascii_uppercase (hd [] (split_byte x2e component)) in
    negb (bool_decide (stem ∈ reserved_stems)).

(** The lookup key of a list of display components. *)
Definition lookup_of (display : list bytes) : bytes :=
  join (lit "/") (map to_ascii_lowercase display).

Definition parse (input : bytes) : result PathError VirtualPath :=
  if bool_decide (input = [])
     || (MAX_PATH_LENGTH <? len input)
     || has_byte x00 input
     || starts_with_separator input
     || has_byte x3a input
     || is_device_or_unc input
  then Err InvalidPath
  else
    let display := filter (fun part => part <> []) (split_pred is_separator input) in
    if bool_decide (display = [])
       || (MAX_COMPONENTS <? len display)
       || existsb (fun part => negb (valid_component part)) display
    then Err InvalidPath
    else Ok (mkPath display (lookup_of display)).

Definition lookup_key (p : VirtualPath) : bytes := lookup p.
Definition display_name (p : VirtualPath) : option bytes := last (display p).
Definition display_path (p : VirtualPath) : bytes := join (lit "\") (display p).

Definition parent_key_of (key : bytes) : option bytes :=
  match removelast (split_byte x2f key) with
  | [] => None
  | pieces => Some (join (lit "/") pieces)
  end.

Definition parent_key (p : VirtualPath) : option bytes := parent_key_of (lookup p).

(** ** Lemmas *)

Lemma has_byte_false c s : has_byte c s = false <-> free_of (Byte.eqb c) s.
Proof.
  unfold has_byte, free_of. induction s as [|b s IH]; simpl; [split; [constructor|done]|].
  rewrite orb_false_iff, Forall_cons, IH. done.
Qed.

(** The conditions [parse] leaves a successful result with. *)
Lemma parse_Ok input p :
  parse input = Ok p ->
  input <> [] /\ len input <= MAX_PATH_LENGTH /\
  has_byte x00 input = false /\ has_byte x3a input = false /\
  display p = filter (fun part => part <> []) (split_pred is_separator input) /\
  display p <> [] /\ len (display p) <= MAX_COMPONENTS /\
  Forall (fun c => valid_component c = true) (display p) /\
  lookup p = lookup_of (display p).
Proof.
  unfold parse. set (d := filter _ _). cbv zeta.
  case_match eqn:E1; [done|]. case_match eqn:E2; [done|]. intros [= <-]. simpl.
  repeat rewrite ?orb_false_iff, ?bool_decide_eq_false, ?N.ltb_ge in *.
  destruct_and!. repeat split; try done.
  apply Forall_forall. intros c Hc. apply negb_false_iff.
  by eapply (existsb_false (fun part => negb (valid_component part))).
Qed.

(** A component that came from a split has no separator. *)
Lemma display_free input p :
  parse input = Ok p -> Forall (free_of is_separator) (display p).
Proof.
  intros (_ & _ & _ & _ & -> & _)%parse_Ok.
  apply Forall_forall. intros c [_ Hc]%list_elem_of_filter. revert c Hc.
  apply Forall_forall, split_pred_pieces.
Qed.

Lemma byte_lower_sep b : is_separator (byte_lower b) = is_separator b.
Proof.
  apply eqb_prop. revert b.
  apply (byte_forall (fun b => Bool.eqb (is_separator (byte_lower b)) (is_separator b))).
  vm_compute. reflexivity.
Qed.

Lemma free_of_impl (f g : byte -> bool) s :
  (forall b, f b = false -> g b = false) -> free_of f s -> free_of g s.
Proof. intros H Hs. eapply Forall_impl; [exact Hs|]. done. Qed.

Lemma is_separator_slash b : is_separator b = false -> Byte.eqb x2f b = false.
Proof. unfold is_separator. destruct (byte_eqb_spec x2f b) as [<-|]; done. Qed.

Lemma is_separator_backslash b : is_separator b = false -> Byte.eqb x5c b = false.
Proof. unfold is_separator. destruct (byte_eqb_spec x5c b) as [<-|]; done. Qed.

Lemma lower_free s : free_of is_separator s -> free_of (Byte.eqb x2f) (to_ascii_lowercase s).
Proof.
  intros H. apply Forall_map. eapply Forall_impl; [exact H|]. intros b Hb. simpl.
  apply is_separator_slash. by rewrite byte_lower_sep.
Qed.

(** The pieces of a lookup key are the folded components. *)
Lemma split_lookup_of d :
  d <> [] -> Forall (free_of is_separator) d ->
  split_byte x2f (lookup_of d) = map to_ascii_lowercase d.
Proof.
  intros Hne Hd. apply split_join.
  - by destruct d.
  - apply Forall_map. eapply Forall_impl; [exact Hd|]. apply lower_free.
Qed.

Lemma parent_key_spec input p :
  parse input = Ok p ->
  parent_key p = match removelast (display p) with [] => None | d => Some (lookup_of d) end.
Proof.
  intros Hp. pose proof (parse_Ok _ _ Hp) as (_ & _ & _ & _ & _ & Hne & _ & _ & Hl).
  pose proof (display_free _ _ Hp) as Hf.
  unfold parent_key, parent_key_of. rewrite Hl, split_lookup_of by done.
  unfold lookup_of.
  destruct (display p) as [|c d]; [done|].
  assert (forall l, removelast (map to_ascii_lowercase l) = map to_ascii_lowercase (removelast l)) as ->.
  { intros l. induction l as [|x [|y l] IH]; [done..|].
    change (removelast (x :: y :: l)) with (x :: removelast (y :: l)).
    cbn [map]. cbn [map] in IH. rewrite <- IH. done. }
  by destruct (removelast (c :: d)).
Qed.

Lemma valid_component_nonempty c : valid_component c = true -> c <> [].
Proof. intros H ->. done. Qed.

Lemma byte_upper_backslash b : byte_upper b = x5c <-> b = x5c.
Proof.
  split; [|by intros ->].
  pose proof (byte_forall (fun b => implb (Byte.eqb (byte_upper b) x5c) (Byte.eqb b x5c))
    ltac:(vm_compute; reflexivity) b) as H. cbv beta in H. intros E. rewrite E in H.
  by destruct (byte_eqb_spec b x5c).
Qed.

(** Device and UNC forms start with a separator. *)
Lemma device_or_unc_separator s : starts_with_separator s = false -> is_device_or_unc s = false.
Proof.
  destruct s as [|b s]; [done|]. simpl. intros H. unfold is_device_or_unc.
  assert (Byte.eqb x5c (byte_upper b) = false) as Hb.
  { destruct (byte_eqb_spec x5c (byte_upper b)) as [E|]; [|done].
    symmetry in E. apply byte_upper_backslash in E as ->. done. }
  cbn -[Byte.eqb byte_upper]. rewrite Hb. done.
Qed.

Lemma free_of_elem f s : free_of f s <-> forall b, b ∈ s -> f b = false.
Proof. unfold free_of. apply Forall_forall. Qed.

(** [parse] on a path that is already a join of valid components. *)
Lemma parse_join d :
  d <> [] -> len d <= MAX_COMPONENTS -> len (join (lit "\") d) <= MAX_PATH_LENGTH ->
  Forall (fun c => valid_component c = true) d -> Forall (free_of is_separator) d ->
  Forall (fun c => has_byte x00 c = false /\ has_byte x3a c = false) d ->
  parse (join (lit "\") d) = Ok (mkPath d (lookup_of d)).
Proof.
  intros Hne Hcnt Hlen Hv Hf Hb. unfold parse.
  change (lit "\") with [x5c] in *. rewrite split_pred_join by done.
  assert (filter (fun part : bytes => part <> []) d = d) as ->.
  { clear -Hv. induction Hv as [|c d Hc Hv IH]; [done|].
    rewrite filter_cons, decide_True, IH; [done|]. by apply valid_component_nonempty. }
  assert (starts_with_separator (join [x5c] d) = false) as Hs.
  { destruct d as [|c d]; [done|]. inversion Hv as [|? ? Hc _]; subst.
    apply valid_component_nonempty in Hc. inversion Hf as [|? ? Hc' _]; subst.
    destruct c as [|b c]; [done|]. inversion Hc'; subst. by destruct d. }
  assert (forall x, x <> x5c -> Forall (fun c => has_byte x c = false) d ->
    has_byte x (join [x5c] d) = false) as Hx.
  { intros x Hx Hall. apply has_byte_false, free_of_elem. intros b Hin.
    destruct (byte_eqb_spec x b) as [<-|]; [|done].
    apply elem_of_join in Hin as [->|(q & Hq & Hin)]; [done|].
    rewrite Forall_forall in Hall. apply Hall, has_byte_false in Hq.
    rewrite free_of_elem in Hq. apply Hq in Hin. by rewrite byte_eqb_refl in Hin. }
  rewrite (bool_decide_eq_false_2 (join [x5c] d = [])) by
    (destruct d as [|[|b c] [|]]; [done|by inversion Hv..|done|done]).
  rewrite !(proj2 (N.ltb_ge _ _)) by done.
  rewrite (Hx x00), (Hx x3a), Hs, device_or_unc_separator by
    (done || (eapply Forall_impl; [exact Hb|by intros ? []])). simpl.
  rewrite bool_decide_eq_false_2 by done. simpl.
  destruct (existsb _ d) eqn:Ex; [|done]. apply existsb_exists in Ex as (c & Hc & Hn).
  rewrite Forall_forall in Hv. rewrite Hv in Hn by (by apply list_elem_of_In). done.
Qed.

(** Round trip: the display form of a parsed path parses to the same path,
    components and lookup key included. *)
Theorem parse_display_path input p : parse input = Ok p -> parse (display_path p) = Ok p.
Proof.
  intros Hp. pose proof (display_free _ _ Hp) as Hf.
  destruct (parse_Ok _ _ Hp) as (_ & Hlen & H0 & H1 & Hd & Hne & Hcnt & Hv & Hl).
  unfold display_path. rewrite parse_join; try done.
  - destruct p; simpl in *. by rewrite Hl.
  - pose proof (len_join x5c (display p) Hne) as Hj. change [x5c] with (lit "\") in Hj.
    pose proof (pieces_len_filter (fun part => part <> []) (split_pred is_separator input)).
    rewrite pieces_len_split in *. rewrite Hd in *. lia.
  - apply Forall_forall. intros c Hc. rewrite Hd in Hc.
    apply list_elem_of_filter in Hc as [_ Hc].
    apply has_byte_false in H0, H1. rewrite free_of_elem in H0, H1.
    split; apply has_byte_false, free_of_elem; intros b Hb; eauto using elem_of_split.
Qed.

Lemma not_ascii_separator b : is_ascii b = false -> is_separator b = false.
Proof.
  rewrite not_ascii. unfold is_separator. intros.
  destruct (byte_eqb_spec b x5c) as [->|]; [done|].
  by destruct (byte_eqb_spec b x2f) as [->|].
Qed.

Lemma display_utf8 input p :
  utf8_valid input = true -> parse input = Ok p ->
  Forall (fun c => utf8_valid c = true) (display p).
Proof.
  intros Hu (_ & _ & _ & _ & -> & _)%parse_Ok. apply Forall_forall.
  intros c [_ Hc]%list_elem_of_filter. revert c Hc. apply Forall_forall.
  by apply utf8_valid_split; [apply not_ascii_separator|].
Qed.

Lemma valid_component_chars c :
  valid_component c = true -> forall x, x ∈ chars c -> forbidden_char x = false.
Proof.
  unfold valid_component. case_match eqn:E; [done|]. intros _ x Hx.
  repeat rewrite ?orb_false_iff in E. destruct_and!.
  by eapply existsb_false.
Qed.

(** A byte below the space. *)
Definition is_ctl (b : byte) : bool := Byte.to_N b <? 32.

Lemma component_no_ctl c :
  utf8_valid c = true -> valid_component c = true -> free_of is_ctl c.
Proof.
  intros Hu Hv. apply free_of_elem. intros b Hb. destruct (is_ctl b) eqn:E; [|done].
  unfold is_ctl in E. apply N.ltb_lt in E.
  assert (is_ascii b = true) as Ha by (apply N.ltb_lt; lia).
  pose proof (valid_component_chars c Hv _ (ascii_byte_char c b Hu Hb Ha)) as Hf.
  unfold forbidden_char, is_control in Hf. by rewrite (proj2 (N.ltb_lt _ _)) in Hf.
Qed.

Lemma byte_lower_ctl b : is_ctl (byte_lower b) = is_ctl b.
Proof.
  apply eqb_prop. revert b.
  apply (byte_forall (fun b => Bool.eqb (is_ctl (byte_lower b)) (is_ctl b))).
  vm_compute. reflexivity.
Qed.

Lemma lower_no_ctl c : free_of is_ctl c -> free_of is_ctl (to_ascii_lowercase c).
Proof.
  intros H. apply Forall_map. eapply Forall_impl; [exact H|].
  intros b Hb. simpl. by rewrite byte_lower_ctl.
Qed.

Lemma join_free f c l : f c = false -> Forall (free_of f) l -> free_of f (join [c] l).
Proof.
  intros Hc Hl. apply free_of_elem. intros b [->|(q & Hq & Hb)]%elem_of_join; [done|].
  rewrite Forall_forall in Hl. apply Hl in Hq. rewrite free_of_elem in Hq. by apply Hq.
Qed.

(** ** The keys of the namespace *)

(** A key: the lookup form of a path some string parses to. *)
Definition path_ok (p : VirtualPath) : Prop :=
  exists input, utf8_valid input = true /\ parse input = Ok p.

Record key_facts (k : bytes) : Prop := {
  kf_utf8 : utf8_valid k = true;
  kf_ctl : free_of is_ctl k;
  kf_nonempty : k <> [];
}.

Lemma join_nonempty c l : Forall (fun p => p <> []) l -> l <> [] -> join [c] l <> [].
Proof. intros H Hl. destruct H as [|[|] [|]]; done. Qed.

Lemma path_ok_facts p :
  path_ok p ->
  key_facts (lookup p) /\ exists n, display_name p = Some n /\ key_facts n.
Proof.
  intros (input & Hu & Hp). pose proof (display_utf8 _ _ Hu Hp) as Hd.
  destruct (parse_Ok _ _ Hp) as (_ & _ & _ & _ & _ & Hne & _ & Hv & Hl).
  assert (Forall (fun c => key_facts c) (display p)) as Hf.
  { apply Forall_forall. intros c Hc. rewrite Forall_forall in Hd, Hv.
    split; [by apply Hd|apply component_no_ctl; auto|].
    by apply valid_component_nonempty, Hv. }
  split.
  - rewrite Hl. unfold lookup_of. change (lit "/") with [x2f]. split.
    + apply utf8_valid_join; [done|]. apply Forall_map. eapply Forall_impl; [exact Hf|].
      intros c [Hc _ _]. by apply utf8_valid_lower.
    + apply join_free; [done|]. apply Forall_map. eapply Forall_impl; [exact Hf|].
      intros c [_ Hc _]. by apply lower_no_ctl.
    + apply join_nonempty; [|by destruct (display p)]. apply Forall_map.
      eapply Forall_impl; [exact Hf|]. intros c [_ _ Hc]. by destruct c.
  - unfold display_name. destruct (last (display p)) as [n|] eqn:En.
    + exists n. split; [done|]. rewrite Forall_forall in Hf. by apply Hf, last_Some_elem_of.
    + by apply last_None in En.
Qed.

Lemma lower_split f s :
  (forall b, f (byte_lower b) = f b) ->
  map to_ascii_lowercase (split_pred f s) = split_pred f (to_ascii_lowercase s).
Proof.
  intros Hf. induction s as [|b s IH]; [done|]. simpl. rewrite Hf.
  destruct (f b); simpl; [by rewrite IH|]. rewrite <- IH.
  by destruct (split_pred f s).
Qed.

Lemma lookup_folded input p :
  parse input = Ok p ->
  lookup p = join (lit "/")
    (filter (fun c => c <> []) (split_pred is_separator (to_ascii_lowercase input))).
Proof.
  intros (_ & _ & _ & _ & Hd & _ & _ & _ & ->)%parse_Ok. unfold lookup_of. f_equal.
  rewrite Hd, <- lower_split by apply byte_lower_sep. clear.
  induction (split_pred is_separator input) as [|c l IH]; [done|].
  cbn [map]. rewrite !filter_cons. destruct (decide (c <> [])) as [Hc|Hc].
  - rewrite decide_True by (by destruct c). cbn [map]. by rewrite IH.
  - rewrite decide_False by (destruct c; naive_solver). done.
Qed.

(** ** Properties *)

Lemma parse_display_path_witness :
  parse (lit "Docs//Report.TXT") = Ok (mkPath [lit "Docs"; lit "Report.TXT"] (lit "docs/report.txt")) /\
  parse (display_path (mkPath [lit "Docs"; lit "Report.TXT"] (lit "docs/report.txt"))) =
  Ok (mkPath [lit "Docs"; lit "Report.TXT"] (lit "docs/report.txt")).
Proof.
  split; [vm_compute; reflexivity|].
  apply (parse_display_path (lit "Docs//Report.TXT")). vm_compute; reflexivity.
Defined.

(** Lookup ignores ASCII case and repeated or mixed separators: inputs that
    split into the same non-empty components up to case have the same key. *)
Theorem lookup_case_insensitive a b p q :
  parse a = Ok p -> parse b = Ok q ->
  filter (fun c => c <> []) (split_pred is_separator (to_ascii_lowercase a)) =
  filter (fun c => c <> []) (split_pred is_separator (to_ascii_lowercase b)) ->
  lookup_key p = lookup_key q.
Proof.
  intros Hp Hq E. unfold lookup_key. by rewrite (lookup_folded _ _ Hp), (lookup_folded _ _ Hq), E.
Qed.

Lemma lookup_case_insensitive_witness :
  lookup_key (mkPath [lit "Docs"; lit "A.txt"] (lit "docs/a.txt")) =
  lookup_key (mkPath [lit "dOCS"; lit "a.TXT"] (lit "docs/a.txt")).
Proof.
  apply (lookup_case_insensitive (lit "Docs\A.txt") (lit "dOCS//a.TXT"));
    vm_compute; reflexivity.
Defined.

(** Confinement: a parsed path never names anything outside the store's
    root.  It has between one and 64 components; each is non-empty, is not a dot
    or a double dot, has no slash, backslash, colon or control byte, and fits
    128 bytes; and the pieces of its lookup key are those components in lower
    case. *)
Theorem parse_confined input p :
  utf8_valid input = true -> parse input = Ok p ->
  1 <= len (display p) <= 64 /\
  split_byte x2f (lookup_key p) = map to_ascii_lowercase (display p) /\
  Forall (fun c => c <> [] /\ c <> lit "." /\ c <> lit ".." /\ len c <= 128 /\
            free_of is_separator c /\ free_of is_ctl c /\ has_byte x3a c = false) (display p).
Proof.
  intros Hu Hp. pose proof (display_utf8 _ _ Hu Hp) as Hd8. pose proof (display_free _ _ Hp) as Hf.
  destruct (parse_Ok _ _ Hp) as (_ & _ & _ & Hcol & Hd & Hne & Hcnt & Hv & Hl).
  split; [|split].
  - unfold MAX_COMPONENTS in Hcnt. destruct (display p) as [|x l]; [done|]. rewrite len_cons in *. lia.
  - unfold lookup_key. rewrite Hl. by apply split_lookup_of.
  - apply Forall_forall. intros c Hc. rewrite Forall_forall in Hd8, Hf, Hv.
    pose proof (Hv c Hc) as Hvc. pose proof (component_no_ctl c (Hd8 c Hc) Hvc) as Hctl.
    unfold valid_component in Hvc. case_match eqn:E; [done|].
    repeat rewrite ?orb_false_iff, ?bool_decide_eq_false, ?N.ltb_ge in E. destruct_and!.
    repeat split; try done; [by apply Hf|].
    rewrite Hd in Hc. apply list_elem_of_filter in Hc as [_ Hc].
    apply has_byte_false in Hcol. rewrite free_of_elem in Hcol.
    apply has_byte_false, free_of_elem. intros b Hb. eauto using elem_of_split.
Qed.

Lemma parse_confined_witness :
  1 <= len [lit "a"; lit "b c.txt"] <= 64 /\
  split_byte x2f (lit "a/b c.txt") = map to_ascii_lowercase [lit "a"; lit "b c.txt"] /\
  Forall (fun c => c <> [] /\ c <> lit "." /\ c <> lit ".." /\ len c <= 128 /\
            free_of is_separator c /\ free_of is_ctl c /\ has_byte x3a c = false)
    [lit "a"; lit "b c.txt"].
Proof.
  apply (parse_confined (lit "a/b c.txt") (mkPath [lit "a"; lit "b c.txt"] (lit "a/b c.txt")));
    vm_compute; reflexivity.
Defined.
