(* ===== verification/Fs.v ===== *)
(** * Fs

    The world the storage code runs in: the part of [std::fs] it calls, the
    process-wide counters, the random generator and the clock.

    Reads are functions of the disk.  Every operation that changes the disk
    first consults a plan, which makes it succeed or fail with an error kind and
    possibly a partial effect; a proof about every plan covers every failure of
    every operation.  As the callers return at the first failure, the states
    they leave are also the states a crash between two operations leaves.  A
    write that was made is visible; loss of unsynced pages is not modelled. *)

From S2P Require Import Prelude Bytes Text.

(** A path, as its components. *)
Notation fspath := (list bytes).

Record Disk := mkDisk {
  dk_files : gmap fspath bytes;
  dk_dirs : gset fspath;
  (** files whose open or read fails *)
  dk_unreadable : gset fspath;
}.

(** The [io::ErrorKind]s the sources tell apart. *)
Inductive IoKind :=
| KNotFound
| KAlreadyExists
| KWriteZero
| KStorageFull
| KOther.

#[export] Instance IoKind_eq_dec : EqDecision IoKind.
Proof. solve_decision. Defined.

(** The fate of one disk operation.  [Fail k None] has no effect; [Fail k (Some n)]
    has the first [n] units (bytes, directories or files) of the effect. *)
Inductive outcome :=
| Done
| Fail (k : IoKind) (partial : option N).

Record World := mkWorld {
  w_disk : Disk;
  w_plan : N -> outcome;
  w_step : N;
  w_rng : N -> bytes;
  w_draws : N;
  w_clock : N -> N;
  w_ticks : N;
  w_next_generation : N;
  w_next_file : N;
  w_next_handle : N;
  w_next_evidence : N;
}.

Definition set_disk (d : Disk) (w : World) : World :=
  mkWorld d (w_plan w) (w_step w) (w_rng w) (w_draws w) (w_clock w) (w_ticks w)
    (w_next_generation w) (w_next_file w) (w_next_handle w) (w_next_evidence w).
Definition set_step (n : N) (w : World) : World :=
  mkWorld (w_disk w) (w_plan w) n (w_rng w) (w_draws w) (w_clock w) (w_ticks w)
    (w_next_generation w) (w_next_file w) (w_next_handle w) (w_next_evidence w).
Definition set_draws (n : N) (w : World) : World :=
  mkWorld (w_disk w) (w_plan w) (w_step w) (w_rng w) n (w_clock w) (w_ticks w)
    (w_next_generation w) (w_next_file w) (w_next_handle w) (w_next_evidence w).
Definition set_ticks (n : N) (w : World) : World :=
  mkWorld (w_disk w) (w_plan w) (w_step w) (w_rng w) (w_draws w) (w_clock w) n
    (w_next_generation w) (w_next_file w) (w_next_handle w) (w_next_evidence w).
Definition set_next_generation (n : N) (w : World) : World :=
  mkWorld (w_disk w) (w_plan w) (w_step w) (w_rng w) (w_draws w) (w_clock w) (w_ticks w)
    n (w_next_file w) (w_next_handle w) (w_next_evidence w).
Definition set_next_file (n : N) (w : World) : World :=
  mkWorld (w_disk w) (w_plan w) (w_step w) (w_rng w) (w_draws w) (w_clock w) (w_ticks w)
    (w_next_generation w) n (w_next_handle w) (w_next_evidence w).
Definition set_next_handle (n : N) (w : World) : World :=
  mkWorld (w_disk w) (w_plan w) (w_step w) (w_rng w) (w_draws w) (w_clock w) (w_ticks w)
    (w_next_generation w) (w_next_file w) n (w_next_evidence w).
Definition set_next_evidence (n : N) (w : World) : World :=
  mkWorld (w_disk w) (w_plan w) (w_step w) (w_rng w) (w_draws w) (w_clock w) (w_ticks w)
    (w_next_generation w) (w_next_file w) (w_next_handle w) n.

(** ** Reads *)

Definition dir_exists (d : Disk) (p : fspath) : bool :=
  bool_decide (p = [] \/ p ∈ dk_dirs d).

(** [Path::exists] and [Path::is_dir]. *)
Definition fs_exists (d : Disk) (p : fspath) : bool :=
  bool_decide (is_Some (dk_files d !! p)) || dir_exists d p.
Definition fs_is_dir : Disk -> fspath -> bool := dir_exists.

(** [File::open] followed by [read_to_end], and [fs::read]. *)
Definition fs_read (d : Disk) (p : fspath) : result IoKind bytes :=
  if bool_decide (p ∈ dk_unreadable d) || dir_exists d p then Err KOther
  else match dk_files d !! p with
       | Some b => Ok b
       | None => Err KNotFound
       end.

(** The names of the entries directly under [p], in key order. *)
Definition child_name (p q : fspath) : option bytes :=
  match drop (length p) q with
  | [n] => if bool_decide (take (length p) q = p) then Some n else None
  | _ => None
  end.

Definition child_names (d : Disk) (p : fspath) : list bytes :=
  merge_sort bytes_le
    (remove_dups (omap (child_name p)
       ((map_to_list (dk_files d)).*1 ++ elements (dk_dirs d)))).

(** [fs::read_dir]: the paths of the entries.  The order the platform lists
    them in is not specified; here it is the order of the names. *)
Definition fs_read_dir (d : Disk) (p : fspath) : result IoKind (list fspath) :=
  if bool_decide (p ∈ dk_unreadable d) then Err KOther
  else if dir_exists d p then Ok (map (fun n => p ++ [n]) (child_names d p))
  else Err KNotFound.

(** ** Writes *)

(** The state after consulting the plan, and the fate of the operation. *)
Definition consult (w : World) : outcome * World :=
  (w_plan w (w_step w), set_step (w_step w + 1) w).

Definition put_file (p : fspath) (b : bytes) (w : World) : World :=
  let d := w_disk w in
  set_disk (mkDisk (<[p := b]> (dk_files d)) (dk_dirs d) (dk_unreadable d)) w.
Definition del_file (p : fspath) (w : World) : World :=
  let d := w_disk w in
  set_disk (mkDisk (delete p (dk_files d)) (dk_dirs d) (dk_unreadable d)) w.
Definition add_dirs (ps : list fspath) (w : World) : World :=
  let d := w_disk w in
  set_disk (mkDisk (dk_files d) (list_to_set ps ∪ dk_dirs d) (dk_unreadable d)) w.

Definition file_of (w : World) (p : fspath) : bytes := default [] (dk_files (w_disk w) !! p).

Definition io (A : Type) : Type := World -> result IoKind A * World.

(** Why an operation that makes an entry at [p] cannot: its parent is missing,
    or [p] is a directory. *)
Definition entry_error (d : Disk) (p : fspath) : option IoKind :=
  if negb (dir_exists d (removelast p)) then Some KNotFound
  else if dir_exists d p then Some KOther else None.

(** [File::create]. *)
Definition fs_create (p : fspath) : io unit := fun w =>
  match entry_error (w_disk w) p with
  | Some k => (Err k, w)
  | None =>
      match consult w with
      | (Done, w') => (Ok tt, put_file p [] w')
      | (Fail k _, w') => (Err k, w')
      end
  end.

(** [File::write_all] at the end of the open file at [p]. *)
Definition fs_write_all (p : fspath) (b : bytes) : io unit := fun w =>
  match consult w with
  | (Done, w') => (Ok tt, put_file p (file_of w p ++ b) w')
  | (Fail k None, w') => (Err k, w')
  | (Fail k (Some n), w') => (Err k, put_file p (file_of w p ++ fst (split_at n b)) w')
  end.

(** [File::sync_all] and [File::sync_data]. *)
Definition fs_sync (p : fspath) : io unit := fun w =>
  match consult w with
  | (Done, w') => (Ok tt, w')
  | (Fail k _, w') => (Err k, w')
  end.

(** [OpenOptions::new().create(true).append(true).open(p)]. *)
Definition fs_open_append (p : fspath) : io unit := fun w =>
  match entry_error (w_disk w) p with
  | Some k => (Err k, w)
  | None =>
      match consult w with
      | (Done, w') => (Ok tt, put_file p (file_of w p) w')
      | (Fail k _, w') => (Err k, w')
      end
  end.

(** [fs::copy]. *)
Definition fs_copy (src dst : fspath) : io unit := fun w =>
  match fs_read (w_disk w) src with
  | Err k => (Err k, w)
  | Ok b =>
      match entry_error (w_disk w) dst with
      | Some k => (Err k, w)
      | None =>
          match consult w with
          | (Done, w') => (Ok tt, put_file dst b w')
          | (Fail k None, w') => (Err k, w')
          | (Fail k (Some n), w') => (Err k, put_file dst (fst (split_at n b)) w')
          end
      end
  end.

(** [fs::remove_file]. *)
Definition fs_remove_file (p : fspath) : io unit := fun w =>
  match dk_files (w_disk w) !! p with
  | None => (Err KNotFound, w)
  | Some _ =>
      match consult w with
      | (Done, w') => (Ok tt, del_file p w')
      | (Fail k _, w') => (Err k, w')
      end
  end.

(** [fs::rename] of a file: it replaces the target. *)
Definition fs_rename (src dst : fspath) : io unit := fun w =>
  match dk_files (w_disk w) !! src with
  | None => (Err KNotFound, w)
  | Some b =>
      match entry_error (w_disk w) dst with
      | Some k => (Err k, w)
      | None =>
          match consult w with
          | (Done, w') => (Ok tt, put_file dst b (del_file src w'))
          | (Fail k _, w') => (Err k, w')
          end
      end
  end.

(** The non-empty prefixes of a path, shortest first. *)
Definition prefixes (p : fspath) : list fspath :=
  map (fun n => take n p) (seq 1 (length p)).

(** [fs::create_dir_all]. *)
Definition fs_create_dir_all (p : fspath) : io unit := fun w =>
  if existsb (fun q => bool_decide (is_Some (dk_files (w_disk w) !! q))) (prefixes p)
  then (Err KAlreadyExists, w)
  else match consult w with
       | (Done, w') => (Ok tt, add_dirs (prefixes p) w')
       | (Fail k None, w') => (Err k, w')
       | (Fail k (Some n), w') => (Err k, add_dirs (fst (split_at n (prefixes p))) w')
       end.

(** [fs::create_dir]. *)
Definition fs_create_dir (p : fspath) : io unit := fun w =>
  if fs_exists (w_disk w) p then (Err KAlreadyExists, w)
  else if negb (dir_exists (w_disk w) (removelast p)) then (Err KNotFound, w)
  else match consult w with
       | (Done, w') => (Ok tt, add_dirs [p] w')
       | (Fail k _, w') => (Err k, w')
       end.

(** Whether [q] is [p] or under it. *)
Definition under (p q : fspath) : bool := bool_decide (take (length p) q = p).

(** [fs::remove_dir_all]; a failure part-way has removed some of the files. *)
Definition fs_remove_dir_all (p : fspath) : io unit := fun w =>
  let d := w_disk w in
  let inside := filter (fun q => under p q = true) (map_to_list (dk_files d)).*1 in
  if negb (dir_exists d p) then (Err KNotFound, w)
  else match consult w with
       | (Done, w') =>
           (Ok tt, set_disk (mkDisk (foldr delete (dk_files d) inside)
              (filter (fun q => under p q = false) (dk_dirs d)) (dk_unreadable d)) w')
       | (Fail k None, w') => (Err k, w')
       | (Fail k (Some n), w') =>
           (Err k, set_disk (mkDisk (foldr delete (dk_files d) (fst (split_at n inside)))
              (dk_dirs d) (dk_unreadable d)) w')
       end.

(** ** What an operation leaves alone *)

(** The disks look the same at every path outside [W]. *)
Definition agree_off (W : fspath -> Prop) (d d' : Disk) : Prop :=
  forall q, ~ W q -> fs_read d' q = fs_read d q /\ fs_exists d' q = fs_exists d q.

(** A world step that touches only the paths in [W]: nothing else changes but
    the position in the plan. *)
Record touches (W : fspath -> Prop) (w w' : World) : Prop := {
  to_agree : agree_off W (w_disk w) (w_disk w');
  to_unreadable : dk_unreadable (w_disk w') = dk_unreadable (w_disk w);
  to_generation : w_next_generation w' = w_next_generation w;
  to_rng : w_rng w' = w_rng w;
}.

Lemma touches_refl W w : touches W w w.
Proof. by split. Qed.

Lemma touches_trans W w1 w2 w3 : touches W w1 w2 -> touches W w2 w3 -> touches W w1 w3.
Proof.
  intros [A1 U1 G1 R1] [A2 U2 G2 R2]. split; try congruence.
  intros q Hq. destruct (A1 q Hq), (A2 q Hq). split; congruence.
Qed.

Lemma touches_mono (W W' : fspath -> Prop) w w' :
  (forall q, W q -> W' q) -> touches W w w' -> touches W' w w'.
Proof. intros HW [A U G R]. split; try done. intros q Hq. apply A. naive_solver. Qed.

Lemma touches_step W w n : touches W w (set_step n w).
Proof. by split. Qed.

Lemma touches_put p b w : touches (eq p) w (put_file p b w).
Proof.
  split; try done. intros q Hq. unfold put_file, fs_read, fs_exists, dir_exists. simpl.
  by rewrite lookup_insert_ne.
Qed.

Lemma touches_del p w : touches (eq p) w (del_file p w).
Proof.
  split; try done. intros q Hq. unfold del_file, fs_read, fs_exists, dir_exists. simpl.
  by rewrite lookup_delete_ne.
Qed.

Lemma touches_add_dirs ps w : touches (fun q => q ∈ ps) w (add_dirs ps w).
Proof.
  split; try done. intros q Hq.
  unfold add_dirs, fs_read, fs_exists, dir_exists. simpl.
  assert (q = [] \/ q ∈ list_to_set ps ∪ dk_dirs (w_disk w) <->
          q = [] \/ q ∈ dk_dirs (w_disk w)) as Hd by set_solver.
  by rewrite !(bool_decide_ext _ _ Hd).
Qed.

(** A disk operation stays within [W]. *)
Definition io_within {A} (W : fspath -> Prop) (m : io A) : Prop :=
  forall w, touches W w (snd (m w)).

Ltac io_cases :=
  repeat case_match; simplify_eq/=; try apply touches_refl; try apply touches_step.

Lemma touches_step_then (W : fspath -> Prop) w n f :
  (forall w, touches W w (f w)) -> touches W w (f (set_step n w)).
Proof. intros H. eapply touches_trans; [apply touches_step|apply H]. Qed.

Lemma fs_create_within p : io_within (eq p) (fs_create p).
Proof.
  intros w. unfold fs_create, consult. io_cases. apply touches_step_then, touches_put.
Qed.

Lemma fs_write_all_within p b : io_within (eq p) (fs_write_all p b).
Proof.
  intros w. unfold fs_write_all, consult. io_cases;
    apply (touches_step_then _ _ _ (put_file _ _)), touches_put.
Qed.

Lemma fs_sync_within p W : io_within W (fs_sync p).
Proof. intros w. unfold fs_sync, consult. io_cases. Qed.

Lemma fs_open_append_within p : io_within (eq p) (fs_open_append p).
Proof.
  intros w. unfold fs_open_append, consult. io_cases.
  apply (touches_step_then _ _ _ (put_file _ _)), touches_put.
Qed.

Lemma fs_copy_within src dst : io_within (eq dst) (fs_copy src dst).
Proof.
  intros w. unfold fs_copy, consult. io_cases;
    apply (touches_step_then _ _ _ (put_file _ _)), touches_put.
Qed.

Lemma fs_remove_file_within p : io_within (eq p) (fs_remove_file p).
Proof.
  intros w. unfold fs_remove_file, consult. io_cases. apply touches_step_then, touches_del.
Qed.

Lemma fs_rename_within src dst : io_within (fun q => q = src \/ q = dst) (fs_rename src dst).
Proof.
  intros w. unfold fs_rename, consult. io_cases.
  apply (touches_step_then _ _ _ (fun w => put_file _ _ (del_file _ w))). intros w'.
  eapply touches_trans.
  - eapply touches_mono; [|apply touches_del]. intros q <-. by left.
  - eapply touches_mono; [|apply touches_put]. intros q <-. by right.
Qed.

Lemma elem_of_split_at {A} (x : A) n l : x ∈ fst (split_at n l) -> x ∈ l.
Proof.
  rewrite split_at_spec. simpl. intros H. rewrite <- (take_drop (N.to_nat n) l).
  apply elem_of_app. by left.
Qed.

Lemma fs_create_dir_all_within p : io_within (fun q => q ∈ prefixes p) (fs_create_dir_all p).
Proof.
  intros w. unfold fs_create_dir_all, consult. io_cases.
  - apply (touches_step_then _ _ _ (add_dirs _)), touches_add_dirs.
  - apply (touches_step_then _ _ _ (add_dirs _)). intros w'.
    eapply touches_mono; [|apply touches_add_dirs]. intros q. apply elem_of_split_at.
Qed.

Lemma fs_create_dir_within p : io_within (eq p) (fs_create_dir p).
Proof.
  intros w. unfold fs_create_dir, consult. io_cases.
  apply (touches_step_then _ _ _ (add_dirs _)). intros w'.
  eapply touches_mono; [|apply touches_add_dirs].
  by intros q ->%list_elem_of_singleton.
Qed.

(** The entries of [prefixes]. *)
Lemma elem_of_prefixes q p : q ∈ prefixes p -> exists n, q = take n p.
Proof.
  unfold prefixes. intros Hq. apply list_elem_of_In, in_map_iff in Hq as (n & <- & _).
  by exists n.
Qed.

(** A file that was created, written and synchronised holds what was written. *)
Lemma fs_stage_Ok p b w w1 w2 w3 u1 u2 u3 :
  fs_create p w = (Ok u1, w1) -> fs_write_all p b w1 = (Ok u2, w2) -> fs_sync p w2 = (Ok u3, w3) ->
  dk_files (w_disk w3) !! p = Some b.
Proof.
  unfold fs_create, fs_write_all, fs_sync, consult. intros H1 H2 H3.
  repeat case_match; simplify_eq/=. unfold file_of. cbn. by rewrite !lookup_insert_eq.
Qed.

(** A renamed file is at its target. *)
Lemma fs_rename_Ok src dst b w u w' :
  dk_files (w_disk w) !! src = Some b -> fs_rename src dst w = (Ok u, w') ->
  dk_files (w_disk w') !! dst = Some b.
Proof.
  unfold fs_rename, consult. intros -> H1. repeat case_match; simplify_eq/=.
  by rewrite lookup_insert_eq.
Qed.

Lemma fs_read_exists d q b : fs_read d q = Ok b -> fs_exists d q = true.
Proof.
  unfold fs_read, fs_exists. intros E. repeat case_match; simplify_eq.
  by rewrite bool_decide_eq_true_2.
Qed.
