(* ===== verification/Store.v ===== *)
(** * Store

    The file half of [LocalEncryptedStore] (crates/dlp-storage/src/store.rs and
    recovery.rs): staging, the multi-step durable publication of a generation,
    authenticated reads, recovery from the prior pointer and the preservation of
    evidence.  The namespace half is in Namespace.

    A method on [&mut self] is a computation over the store and the world it
    runs in; a method that only reads is a function of the store and the disk. *)

From S2P Require Import Prelude Bytes Text Effects Domain Crypto Format VPath Fs.

(** ** State *)

Record EntryMetadata := mkMetadata {
  creation_time : N;
  last_access_time : N;
  last_write_time : N;
  change_time : N;
}.

Record FileEntry := mkFileEntry {
  fe_file_id : bytes;
  fe_display : bytes;
  fe_delete_pending : bool;
  fe_metadata : EntryMetadata;
}.

Record DirectoryEntry := mkDirectoryEntry {
  de_display : bytes;
  de_metadata : EntryMetadata;
}.

Record HandleState := mkHandleState {
  hs_path_key : bytes;
  hs_allow_delete : bool;
}.

#[export] Instance EntryMetadata_eq_dec : EqDecision EntryMetadata.
Proof. solve_decision. Defined.
#[export] Instance FileEntry_eq_dec : EqDecision FileEntry.
Proof. solve_decision. Defined.
#[export] Instance DirectoryEntry_eq_dec : EqDecision DirectoryEntry.
Proof. solve_decision. Defined.
#[export] Instance HandleState_eq_dec : EqDecision HandleState.
Proof. solve_decision. Defined.

Inductive DurabilityFaultPoint :=
| BeforeRecordWrite
| AfterRecordFlush
| BeforeManifestWrite
| AfterManifestFlush
| BeforeCommitWrite
| AfterCommitFlush
| BeforePointerReplace
| AfterPointerReplace
| BeforeDirectoryFlush
| AfterDirectoryFlush.

#[export] Instance DurabilityFaultPoint_eq_dec : EqDecision DurabilityFaultPoint.
Proof. solve_decision. Defined.

Record FaultInjectingIo := mkFaultIo {
  fi_fault : option DurabilityFaultPoint;
  fi_error : StorageError;
}.

Definition fault_default : FaultInjectingIo := mkFaultIo None IoFailure.
Definition fail_at (p : DurabilityFaultPoint) : FaultInjectingIo := mkFaultIo (Some p) IoFailure.
Definition no_space_at (p : DurabilityFaultPoint) : FaultInjectingIo := mkFaultIo (Some p) NoSpace.

(** [FaultInjectingIo::hit]: a fault fires once. *)
Definition fault_hit (p : DurabilityFaultPoint) (f : FaultInjectingIo) :
    result StorageError unit * FaultInjectingIo :=
  if bool_decide (fi_fault f = Some p) then (Err (fi_error f), mkFaultIo None (fi_error f))
  else (Ok tt, f).

Record CapturedStoreIdentity := mkIdentity {
  ci_user_sid : bytes;
  ci_store_id : bytes;
}.

Record LocalEncryptedStore := mkStore {
  st_root : fspath;
  st_identity : CapturedStoreIdentity;
  st_key : bytes;
  st_staged : gmap bytes bytes;
  st_forced_duplicate : gset bytes;
  st_directories : gmap bytes DirectoryEntry;
  st_files : gmap bytes FileEntry;
  st_handles : gmap N HandleState;
  st_namespace_generation : N;
  st_fail_next_write : bool;
  st_fault_io : FaultInjectingIo;
}.

(** The store and the world a method runs in. *)
Record St := mkSt {
  s_store : LocalEncryptedStore;
  s_world : World;
}.

Definition s_disk (s : St) : Disk := w_disk (s_world s).

Definition set_staged (m : gmap bytes bytes) (t : LocalEncryptedStore) : LocalEncryptedStore :=
  mkStore (st_root t) (st_identity t) (st_key t) m (st_forced_duplicate t)
    (st_directories t) (st_files t) (st_handles t) (st_namespace_generation t)
    (st_fail_next_write t) (st_fault_io t).
Definition set_forced_duplicate (m : gset bytes) (t : LocalEncryptedStore) : LocalEncryptedStore :=
  mkStore (st_root t) (st_identity t) (st_key t) (st_staged t) m
    (st_directories t) (st_files t) (st_handles t) (st_namespace_generation t)
    (st_fail_next_write t) (st_fault_io t).
Definition set_directories (m : gmap bytes DirectoryEntry) (t : LocalEncryptedStore) :
    LocalEncryptedStore :=
  mkStore (st_root t) (st_identity t) (st_key t) (st_staged t) (st_forced_duplicate t)
    m (st_files t) (st_handles t) (st_namespace_generation t)
    (st_fail_next_write t) (st_fault_io t).
Definition set_files (m : gmap bytes FileEntry) (t : LocalEncryptedStore) : LocalEncryptedStore :=
  mkStore (st_root t) (st_identity t) (st_key t) (st_staged t) (st_forced_duplicate t)
    (st_directories t) m (st_handles t) (st_namespace_generation t)
    (st_fail_next_write t) (st_fault_io t).
Definition set_handles (m : gmap N HandleState) (t : LocalEncryptedStore) : LocalEncryptedStore :=
  mkStore (st_root t) (st_identity t) (st_key t) (st_staged t) (st_forced_duplicate t)
    (st_directories t) (st_files t) m (st_namespace_generation t)
    (st_fail_next_write t) (st_fault_io t).
Definition set_namespace_generation (n : N) (t : LocalEncryptedStore) : LocalEncryptedStore :=
  mkStore (st_root t) (st_identity t) (st_key t) (st_staged t) (st_forced_duplicate t)
    (st_directories t) (st_files t) (st_handles t) n
    (st_fail_next_write t) (st_fault_io t).
Definition set_fail_next_write (b : bool) (t : LocalEncryptedStore) : LocalEncryptedStore :=
  mkStore (st_root t) (st_identity t) (st_key t) (st_staged t) (st_forced_duplicate t)
    (st_directories t) (st_files t) (st_handles t) (st_namespace_generation t)
    b (st_fault_io t).
Definition set_fault_io (f : FaultInjectingIo) (t : LocalEncryptedStore) : LocalEncryptedStore :=
  mkStore (st_root t) (st_identity t) (st_key t) (st_staged t) (st_forced_duplicate t)
    (st_directories t) (st_files t) (st_handles t) (st_namespace_generation t)
    (st_fail_next_write t) f.

Notation store_m := (M St StorageError).

Definition update (f : LocalEncryptedStore -> LocalEncryptedStore) : store_m unit :=
  modify (fun s => mkSt (f (s_store s)) (s_world s)).
Definition update_world (f : World -> World) : store_m unit :=
  modify (fun s => mkSt (s_store s) (f (s_world s))).

Definition map_io (k : IoKind) : StorageError :=
  match k with
  | KWriteZero | KStorageFull => NoSpace
  | _ => IoFailure
  end.

(** A disk operation with [.map_err(map_io)?]. *)
Definition lift_io {A} (m : io A) : store_m A := fun s =>
  let '(r, w') := m (s_world s) in (map_err map_io r, mkSt (s_store s) w').

(** [fetch_add(1)] on the statics: the old value, the counter wrapping at 64 bits. *)
Definition fetch_generation : store_m N := fun s =>
  let n := w_next_generation (s_world s) in
  (Ok n, mkSt (s_store s) (set_next_generation (wrapping_add64 n 1) (s_world s))).
Definition fetch_file : store_m N := fun s =>
  let n := w_next_file (s_world s) in
  (Ok n, mkSt (s_store s) (set_next_file (wrapping_add64 n 1) (s_world s))).
Definition fetch_handle : store_m N := fun s =>
  let n := w_next_handle (s_world s) in
  (Ok n, mkSt (s_store s) (set_next_handle (wrapping_add64 n 1) (s_world s))).
Definition fetch_evidence : store_m N := fun s =>
  let n := w_next_evidence (s_world s) in
  (Ok n, mkSt (s_store s) (set_next_evidence (wrapping_add64 n 1) (s_world s))).

(** The counters of a process that has just started. *)
Definition fresh_process (w : World) : World :=
  set_next_generation 1 (set_next_file 1 (set_next_handle 1 (set_next_evidence 1 w))).

(** [Nonce::generate()]. *)
Definition draw_nonce : store_m bytes := fun s =>
  let w := s_world s in
  (Ok (w_rng w (w_draws w)), mkSt (s_store s) (set_draws (w_draws w + 1) w)).

(** [current_filetime], from the clock's nanoseconds since 1970. *)
Definition filetime (nanos : N) : N :=
  (nanos mod 2 ^ 64) / 100 + 11644473600 * 10000000.
Definition current_filetime : store_m N := fun s =>
  let w := s_world s in
  (Ok (filetime (w_clock w (w_ticks w))), mkSt (s_store s) (set_ticks (w_ticks w + 1) w)).

(** [self.fault_io.hit(point)?]. *)
Definition hit (p : DurabilityFaultPoint) : store_m unit := fun s =>
  let '(r, f') := fault_hit p (st_fault_io (s_store s)) in
  (r, mkSt (set_fault_io f' (s_store s)) (s_world s)).

(** ** Traces *)

Definition expected_steps : list string :=
  ["chunk-flush"; "manifest-flush"; "commit-flush"; "pointer-publish"; "directory-flush"]%string.

(** The loop of [is_durably_published]: the position in the expected steps. *)
Definition durable_position (steps : list string) : nat :=
  fold_left (fun position step =>
    if bool_decide (expected_steps !! position = Some step) then S position else position)
    steps 0%nat.

Definition is_durably_published (steps : list string) : bool :=
  (durable_position steps =? length expected_steps)%nat.

Record CommitOutcome := mkOutcome {
  co_generation : N;
  co_chunk_count : N;
  co_nonces : list bytes;
  co_trace : list string;
}.

(** ** Paths and records *)

Definition store_wire_id (t : LocalEncryptedStore) : bytes := ci_store_id (st_identity t).

Definition store_dir (t : LocalEncryptedStore) : fspath :=
  st_root t ++ [lit "stores"; store_wire_id t].
Definition file_dir (t : LocalEncryptedStore) (file : bytes) : fspath :=
  store_dir t ++ [lit "files"; file].
Definition generation_name (generation : N) : bytes := lit "g-" ++ dec_pad 20 generation.
Definition generation_dir (t : LocalEncryptedStore) (file : bytes) (generation : N) : fspath :=
  file_dir t file ++ [lit "generations"; generation_name generation].
Definition chunk_name (index : N) : bytes := lit "chunk-" ++ dec_pad 8 index ++ lit ".rec".
Definition selected_path (t : LocalEncryptedStore) (file : bytes) : fspath :=
  file_dir t file ++ [lit "selected.commit"].
Definition prior_path (t : LocalEncryptedStore) (file : bytes) : fspath :=
  file_dir t file ++ [lit "previous.commit"].
Definition selected_tmp_path (t : LocalEncryptedStore) (file : bytes) (generation : N) : fspath :=
  file_dir t file ++ [lit "selected-" ++ dec generation ++ lit ".tmp"].
Definition marker_path (dir : fspath) : fspath := dir ++ [lit ".directory-flush"].

(** [LocalEncryptedStore::aad]. *)
Definition store_aad (t : LocalEncryptedStore) (file : bytes) (generation : N)
    (kind : RecordKind) (index plaintext_length : N) : RecordAad :=
  mkRecordAad FORMAT_VERSION_V1 (store_wire_id t) file generation kind index plaintext_length.

Definition ensure_identity (t : LocalEncryptedStore) (r : EncryptedRecordV1) (file : bytes)
    (kind : RecordKind) (index : N) : result StorageError unit :=
  if negb (format_version r =? FORMAT_VERSION_V1)
     || negb (bool_decide (store_id r = store_wire_id t))
     || negb (bool_decide (file_id r = file))
     || negb (bool_decide (record_kind r = kind))
     || negb (chunk_index r =? index)
  then Err IntegrityFailure else Ok tt.

Definition write_record (path : fspath) (r : EncryptedRecordV1) : store_m unit :=
  b ← lift (record_encode r);
  _ ← lift_io (fs_create path);
  _ ← lift_io (fs_write_all path b);
  lift_io (fs_sync path).

Definition read_record (d : Disk) (path : fspath) : result StorageError EncryptedRecordV1 :=
  b ← map_err (fun k => match k with KNotFound => NotFound | _ => map_io k end) (fs_read d path);
  record_decode b.

Definition flush_directory_marker (directory : fspath) : store_m unit :=
  _ ← lift_io (fs_create (marker_path directory));
  _ ← lift_io (fs_write_all (marker_path directory) (lit "v1"));
  lift_io (fs_sync (marker_path directory)).

Section Store.
Context `{Aead} `{Sha256}.

Definition seal (nonces : NonceTracker) (file : bytes) (a : RecordAad) (plaintext : bytes) :
    store_m (EncryptedRecordV1 * NonceTracker) :=
  key ← gets (fun s => st_key (s_store s));
  n ← draw_nonce;
  sealed ← lift (record_seal key n a plaintext nonces);
  forced ← gets (fun s => st_forced_duplicate (s_store s));
  _ ← ensure (negb (bool_decide (file ∈ forced))) IntegrityFailure;
  mret sealed.

(** ** Staging *)

Definition write (file : bytes) (b : bytes) : store_m unit :=
  update (fun t => set_staged (<[file := b]> (st_staged t)) t).

(** ** flush_file *)

(** The loop-carried values of the chunk loop. *)
Record flush_acc := mkAcc {
  fa_nonces : NonceTracker;
  fa_nonce_list : list bytes;
  fa_lengths : list N;
  fa_chunk_count : N;
  fa_trace : list string;
}.

(** One iteration: seal, write and flush the record of one chunk. *)
Definition flush_chunk (file : bytes) (generation : N) (acc : flush_acc)
    (ic : N * bytes) : store_m flush_acc :=
  let '(index, chunk) := ic in
  t ← gets s_store;
  '(record, nonces) ←
    seal (fa_nonces acc) file (store_aad t file generation Chunk index (len chunk)) chunk;
  _ ← hit BeforeRecordWrite;
  _ ← write_record (generation_dir t file generation ++ [chunk_name index]) record;
  _ ← hit AfterRecordFlush;
  mret (mkAcc nonces (fa_nonce_list acc ++ [nonce record]) (fa_lengths acc ++ [len chunk])
          (fa_chunk_count acc + 1) (fa_trace acc ++ ["chunk-flush"%string])).

(** [iter().enumerate()]. *)
Fixpoint enumerate_from {A} (i : N) (l : list A) : list (N * A) :=
  match l with
  | [] => []
  | x :: l' => (i, x) :: enumerate_from (i + 1) l'
  end.

Definition flush_chunks (file : bytes) (generation : N) (data : bytes) : store_m flush_acc :=
  fold_m (flush_chunk file generation) (mkAcc [] [] [] 0 []) (enumerate_from 0 (chunks CHUNK_SIZE data)).

Definition flush_manifest (file : bytes) (generation : N) (data : bytes) (acc : flush_acc) :
    store_m flush_acc :=
  t ← gets s_store;
  let manifest := mkManifest generation file (len data) (fa_lengths acc) in
  manifest_bytes ← lift (manifest_encode manifest);
  '(record, nonces) ← seal (fa_nonces acc) file
    (store_aad t file generation Manifest 0 (len manifest_bytes)) manifest_bytes;
  _ ← hit BeforeManifestWrite;
  _ ← write_record (generation_dir t file generation ++ [lit "manifest.rec"]) record;
  _ ← hit AfterManifestFlush;
  mret (mkAcc nonces (fa_nonce_list acc ++ [nonce record]) (fa_lengths acc)
          (fa_chunk_count acc) (fa_trace acc ++ ["manifest-flush"%string])).

Definition flush_commit (file : bytes) (generation : N) (acc : flush_acc) :
    store_m (EncryptedRecordV1 * flush_acc) :=
  t ← gets s_store;
  commit_bytes ← lift (commit_encode (mkCommit generation file));
  '(record, nonces) ← seal (fa_nonces acc) file
    (store_aad t file generation Commit 0 (len commit_bytes)) commit_bytes;
  _ ← hit BeforeCommitWrite;
  _ ← write_record (generation_dir t file generation ++ [lit "commit.rec"]) record;
  _ ← hit AfterCommitFlush;
  mret (record, mkAcc nonces (fa_nonce_list acc ++ [nonce record]) (fa_lengths acc)
          (fa_chunk_count acc) (fa_trace acc ++ ["commit-flush"%string])).

(** Keep the selected pointer as the prior one before it is replaced. *)
Definition retain_prior (file : bytes) : store_m unit :=
  s ← gets (fun s => s);
  let t := s_store s in
  if fs_exists (s_disk s) (selected_path t file) then
    _ ← lift_io (fs_copy (selected_path t file) (prior_path t file));
    flush_directory_marker (file_dir t file)
  else mret tt.

(** Replace the selected pointer by the new commit record. *)
Definition replace_pointer (file : bytes) (generation : N) (record : EncryptedRecordV1) :
    store_m unit :=
  t ← gets s_store;
  _ ← hit BeforePointerReplace;
  _ ← write_record (selected_tmp_path t file generation) record;
  s ← gets (fun s => s);
  _ ← (if fs_exists (s_disk s) (selected_path t file)
       then lift_io (fs_remove_file (selected_path t file)) else mret tt);
  _ ← lift_io (fs_rename (selected_tmp_path t file generation) (selected_path t file));
  hit AfterPointerReplace.

Definition flush_file (file : bytes) : store_m CommitOutcome :=
  t ← gets s_store;
  _ ← (if st_fail_next_write t
       then _ ← update (set_fail_next_write false); throw IoFailure else mret tt);
  data ← lift (ok_or NotFound (st_staged t !! file));
  generation ← fetch_generation;
  _ ← lift_io (fs_create_dir_all (generation_dir t file generation));
  acc ← flush_chunks file generation data;
  let trace := if bool_decide ("chunk-flush"%string ∈ fa_trace acc) then fa_trace acc
               else fa_trace acc ++ ["chunk-flush"%string] in
  acc ← flush_manifest file generation data
          (mkAcc (fa_nonces acc) (fa_nonce_list acc) (fa_lengths acc)
             (fa_chunk_count acc) trace);
  '(record, acc) ← flush_commit file generation acc;
  _ ← retain_prior file;
  _ ← replace_pointer file generation record;
  _ ← hit BeforeDirectoryFlush;
  _ ← flush_directory_marker (file_dir t file);
  _ ← hit AfterDirectoryFlush;
  _ ← update (fun t => set_staged (delete file (st_staged t)) t);
  mret (mkOutcome generation (fa_chunk_count acc) (fa_nonce_list acc)
          (fa_trace acc ++ ["pointer-publish"%string; "directory-flush"%string])).

(** ** Reads *)

Definition commit_generation (t : LocalEncryptedStore) (d : Disk) (pointer : fspath)
    (file : bytes) : result StorageError N :=
  selected ← read_record d pointer;
  _ ← ensure_identity t selected file Commit 0;
  plain ← record_open (st_key t) selected;
  commit ← commit_decode plain;
  if negb (bool_decide (c_file_id commit = file)) then Err IntegrityFailure
  else Ok (c_generation commit).

(** The chunk loop of [read_from_pointer] from chunk [index] on. *)
Fixpoint read_chunks (t : LocalEncryptedStore) (d : Disk) (file : bytes) (generation : N)
    (index : N) (lengths : list N) (nonces : NonceTracker) (out : bytes) :
    result StorageError bytes :=
  match lengths with
  | [] => Ok out
  | length :: lengths' =>
      if CHUNK_SIZE <? length then Err IntegrityFailure
      else
        record ← read_record d (generation_dir t file generation ++ [chunk_name index]);
        _ ← ensure_identity t record file Chunk index;
        if negb (Format.generation record =? generation)
           || negb (plaintext_length record =? length)
        then Err IntegrityFailure
        else
          nonces' ← map_err (fun _ => IntegrityFailure) (nonce_insert (nonce record) nonces);
          plain ← record_open (st_key t) record;
          read_chunks t d file generation (index + 1) lengths' nonces' (out ++ plain)
  end.

Definition read_from_pointer (t : LocalEncryptedStore) (d : Disk) (pointer : fspath)
    (file : bytes) : result StorageError bytes :=
  selected ← read_record d pointer;
  _ ← ensure_identity t selected file Commit 0;
  plain ← record_open (st_key t) selected;
  commit ← commit_decode plain;
  if negb (bool_decide (c_file_id commit = file)) then Err IntegrityFailure
  else
    let dir := generation_dir t file (c_generation commit) in
    committed_record ← read_record d (dir ++ [lit "commit.rec"]);
    _ ← ensure_identity t committed_record file Commit 0;
    if negb (generation committed_record =? c_generation commit) then Err IntegrityFailure
    else
      plain ← record_open (st_key t) committed_record;
      committed ← commit_decode plain;
      if negb (bool_decide (committed = commit)) then Err IntegrityFailure
      else
        manifest_record ← read_record d (dir ++ [lit "manifest.rec"]);
        _ ← ensure_identity t manifest_record file Manifest 0;
        if negb (generation manifest_record =? c_generation commit) then Err IntegrityFailure
        else
          plain ← record_open (st_key t) manifest_record;
          manifest ← manifest_decode plain;
          if negb (bool_decide (m_file_id manifest = file))
             || negb (m_generation manifest =? c_generation commit)
          then Err IntegrityFailure
          else
            nonces ← map_err (fun _ => IntegrityFailure) (nonce_insert (nonce selected) []);
            nonces ← map_err (fun _ => IntegrityFailure)
                       (nonce_insert (nonce manifest_record) nonces);
            out ← read_chunks t d file (c_generation commit) 0 (m_chunk_lengths manifest)
                    nonces [];
            if negb (len out =? m_logical_length manifest) then Err IntegrityFailure
            else Ok out.

Definition read (t : LocalEncryptedStore) (d : Disk) (file : bytes) : result StorageError bytes :=
  read_from_pointer t d (selected_path t file) file.

(** [Vec::resize] with zeroes. *)
Definition resize (n : N) (b : bytes) : bytes :=
  if n <=? len b then fst (split_at n b) else b ++ replicate (N.to_nat (n - len b)) x00.

(** [entry[offset..end].copy_from_slice(bytes)]. *)
Definition overwrite (offset : N) (b : bytes) (entry : bytes) : bytes :=
  fst (split_at offset entry) ++ b ++ snd (split_at (offset + len b) entry).

Definition write_at (file : bytes) (offset : N) (b : bytes) : store_m unit :=
  s ← gets (fun s => s);
  let existing := unwrap_or (read (s_store s) (s_disk s) file) [] in
  let entry := default existing (st_staged (s_store s) !! file) in
  _ ← write file entry;
  end_ ← lift (ok_or IoFailure (checked_add64 offset (len b)));
  let entry := if len entry <? end_ then resize end_ entry else entry in
  write file (overwrite offset b entry).

(** ** Evidence *)

Definition evidence_root (t : LocalEncryptedStore) : fspath := st_root t ++ [lit "evidence"].
Definition evidence_name (n : N) : bytes := lit "e-" ++ dec_pad 20 n.
Definition evidence_line (evidence_id digest code : bytes) : bytes :=
  lit "integrity opaque=" ++ evidence_id ++ lit " record=encrypted digest=" ++ to_hex digest
  ++ lit " code=" ++ code ++ [x0a].

(** [fs::write]. *)
Definition fs_write (p : fspath) (b : bytes) : store_m unit :=
  _ ← lift_io (fs_create p); lift_io (fs_write_all p b).

(** [copy_evidence_files]: the recursion is over the directory tree, so the
    number of directories bounds its depth. *)
Fixpoint copy_evidence_files (fuel : nat) (source destination log : fspath)
    (evidence_id code : bytes) (next_record : N) : store_m N :=
  match fuel with
  | O => throw IoFailure
  | S fuel' =>
      s ← gets (fun s => s);
      entries ← lift (map_err map_io (fs_read_dir (s_disk s) source));
      fold_m (fun next path =>
        s ← gets (fun s => s);
        if fs_is_dir (s_disk s) path then
          copy_evidence_files fuel' path destination log evidence_id code next
        else
          let target := destination ++ [lit "r-" ++ dec_pad 20 next] in
          next' ← lift (ok_or IoFailure (checked_add64 next 1));
          b ← lift (map_err map_io (fs_read (s_disk s) path));
          _ ← lift_io (fs_write_all log (evidence_line evidence_id (sha256 b) code));
          _ ← lift_io (fs_sync log);
          _ ← fs_write target b;
          mret next') next_record entries
  end.

Definition preserve_evidence_directory (source : fspath) (code : bytes) : store_m unit :=
  t ← gets s_store;
  _ ← lift_io (fs_create_dir_all (evidence_root t));
  n ← fetch_evidence;
  let dir := evidence_root t ++ [evidence_name n] in
  _ ← lift_io (fs_create_dir dir);
  let log := evidence_root t ++ [lit "diagnostics.log"] in
  _ ← lift_io (fs_open_append log);
  d ← gets s_disk;
  _ ← copy_evidence_files (S (size (dk_dirs d))) source dir log (evidence_name n) code 1;
  lift_io (fs_sync log).

Definition preserve_integrity_evidence (file : bytes) : store_m unit :=
  t ← gets s_store;
  preserve_evidence_directory (file_dir t file) (lit "IntegrityFailure").

(** ** Recovery *)

Record RecoveryReport := mkReport {
  rr_selected_generation : N;
  rr_recovered_from_prior_pointer : bool;
}.

Definition cleanup_unreferenced_staging (file : bytes) (selected_generation : N) :
    store_m unit :=
  s ← gets (fun s => s);
  let t := s_store s in
  let d := s_disk s in
  let generations := file_dir t file ++ [lit "generations"] in
  if negb (fs_exists d generations) then mret tt
  else
    let referenced :=
      generation_dir t file selected_generation ::
      (if fs_exists d (prior_path t file) then
         match commit_generation t d (prior_path t file) file with
         | Ok g => [generation_dir t file g]
         | Err _ => []
         end
       else []) in
    entries ← lift (map_err map_io (fs_read_dir d generations));
    fold_m (fun _ path =>
      d ← gets s_disk;
      if fs_is_dir d path && negb (bool_decide (path ∈ referenced)) then
        _ ← preserve_evidence_directory path (lit "RecoveryQuarantine");
        lift_io (fs_remove_dir_all path)
      else mret tt) tt entries.

Definition recover_from_prior_pointer (file : bytes) : store_m RecoveryReport :=
  s ← gets (fun s => s);
  let t := s_store s in
  match read_from_pointer t (s_disk s) (prior_path t file) file with
  | Err NotFound => throw RecoveryRequired
  | Err e => throw e
  | Ok _ =>
      generation ← lift (commit_generation t (s_disk s) (prior_path t file) file);
      _ ← lift_io (fs_copy (prior_path t file) (selected_path t file));
      _ ← flush_directory_marker (file_dir t file);
      _ ← cleanup_unreferenced_staging file generation;
      mret (mkReport generation true)
  end.

Definition recover_selected_from_prior (file : bytes) : store_m RecoveryReport :=
  s ← gets (fun s => s);
  let t := s_store s in
  if negb (fs_exists (s_disk s) (selected_path t file)) then recover_from_prior_pointer file
  else
    match read_from_pointer t (s_disk s) (selected_path t file) file with
    | Ok _ =>
        generation ← lift (commit_generation t (s_disk s) (selected_path t file) file);
        _ ← cleanup_unreferenced_staging file generation;
        mret (mkReport generation false)
    | Err NotFound => throw IntegrityFailure
    | Err e => throw e
    end.

Definition recover_store (file : bytes) : store_m RecoveryReport :=
  r ← try (recover_selected_from_prior file);
  match r with
  | Err IntegrityFailure =>
      _ ← preserve_integrity_evidence file;
      throw IntegrityFailure
  | r => lift r
  end.

(** ** Test seams *)

Definition inject_duplicate_nonce_for_test (file : bytes) : store_m unit :=
  update (fun t => set_forced_duplicate ({[file]} ∪ st_forced_duplicate t) t).
Definition inject_write_failure_for_test : store_m unit := update (set_fail_next_write true).
Definition inject_fault_at_for_test (p : DurabilityFaultPoint) : store_m unit :=
  update (set_fault_io (fail_at p)).
Definition inject_no_space_at_for_test (p : DurabilityFaultPoint) : store_m unit :=
  update (set_fault_io (no_space_at p)).

(** [tamper_selected_record_for_test]: rewrite one field of the selected record. *)
Definition tamper (field : string) (r : EncryptedRecordV1) :
    result StorageError EncryptedRecordV1 :=
  let 'mkRecord v s f g k i p n c := r in
  if String.eqb field "store" then Ok (mkRecord v (lit "other-store") f g k i p n c)
  else if String.eqb field "file" then Ok (mkRecord v s (lit "other-file") g k i p n c)
  else if String.eqb field "generation" then Ok (mkRecord v s f (wrapping_add64 g 1) k i p n c)
  else if String.eqb field "chunk" then Ok (mkRecord v s f g k (wrapping_add64 i 1) p n c)
  else if String.eqb field "length" then Ok (mkRecord v s f g k i (wrapping_add64 p 1) n c)
  else if String.eqb field "version" then Ok (mkRecord ((v + 1) mod 2 ^ 16) s f g k i p n c)
  else if String.eqb field "tag" then
    match rev c with
    | [] => Err IntegrityFailure
    | b :: r => Ok (mkRecord v s f g k i p n (rev (byte_of (N.lxor (Byte.to_N b) 1) :: r)))
    end
  else Err IntegrityFailure.

Definition tamper_selected_record_for_test (file : bytes) (field : string) : store_m unit :=
  s ← gets (fun s => s);
  record ← lift (read_record (s_disk s) (selected_path (s_store s) file));
  record ← lift (tamper field record);
  write_record (selected_path (s_store s) file) record.

End Store.
