(* ===== verification/Toy.v ===== *)
(** * Toy

    Concrete stand-ins for the third-party primitives, with which the theorems
    that assume their documented behaviour are run on concrete inputs.  They are
    not cryptography: a tag is a polynomial checksum. *)

From S2P Require Import Prelude Bytes Crypto Store.

Definition checksum (modulus : N) (s : bytes) : N :=
  foldl (fun acc c => (acc * 257 + Byte.to_N c + 1) mod modulus) 7 s.

Definition toy_tag (k n a p : bytes) : bytes := to_le 16 (checksum (2 ^ 128) (k ++ n ++ a ++ p)).

Lemma len_toy_tag k n a p : len (toy_tag k n a p) = 16.
Proof. unfold toy_tag. by rewrite len_to_le. Qed.

#[export] Instance toy_aead : Aead := {|
  aead_encrypt k n a p := Some (p ++ toy_tag k n a p);
  aead_decrypt k n a c :=
    let p := fst (split_at (len c - 16) c) in
    if bool_decide (c = p ++ toy_tag k n a p) then Some p else None;
|}.

#[export] Instance toy_aead_laws : AeadLaws toy_aead.
Proof.
  split; simpl; intros k n a p c [= <-].
  - rewrite len_app, len_toy_tag. replace (len p + 16 - 16) with (len p) by lia.
    rewrite split_at_app. simpl. by rewrite bool_decide_eq_true_2.
  - by rewrite len_app, len_toy_tag.
Qed.

#[export] Instance toy_sha256 : Sha256 := fun s => to_le 32 (checksum (2 ^ 256) s).

#[export] Instance toy_sha256_laws : Sha256Laws toy_sha256.
Proof. split. intros m. unfold sha256, toy_sha256. by rewrite len_to_le. Qed.

Definition toy_public (seed : bytes) : bytes := to_le 32 (checksum (2 ^ 256) seed).
Definition toy_signature (vk m : bytes) : bytes := to_le 64 (checksum (2 ^ 512) (vk ++ m)).

Lemma len_toy_public seed : len (toy_public seed) = 32.
Proof. unfold toy_public. rewrite len_to_le. done. Qed.

Lemma len_toy_signature vk m : len (toy_signature vk m) = 64.
Proof. unfold toy_signature. rewrite len_to_le. done. Qed.

#[export] Instance toy_ed25519 : Ed25519 := {|
  verifying_key := bytes;
  verifying_key_from_bytes b := if len b =? 32 then Some b else None;
  is_weak _ := false;
  verify_strict vk m s := bool_decide (s = toy_signature vk m);
  public_of_seed := toy_public;
  sign_with_seed seed m := toy_signature (toy_public seed) m;
|}.

Lemma toy_verify seed m vk :
  (if len (toy_public seed) =? 32 then Some (toy_public seed) else None) = Some vk ->
  bool_decide (toy_signature (toy_public seed) m = toy_signature vk m) = true.
Proof. rewrite len_toy_public. intros [= <-]. by apply bool_decide_eq_true. Qed.

#[export] Instance toy_ed25519_laws : Ed25519Laws toy_ed25519 := {|
  signature_length seed m := len_toy_signature (toy_public seed) m;
  verify_strict_sign seed m vk H _ := toy_verify seed m vk H;
|}.
