(* ===== verification/Durability.v ===== *)
(** * Durability

    Proofs about the file half of the store (Store): what each step of
    publication may touch, that a published file reads back, that a failed or
    interrupted flush leaves the old or the new content recoverable, and that a
    read returns only authenticated data. *)

From S2P Require Import Prelude Bytes Text Effects Domain Crypto Format VPath Fs Store Toy.

(** ** Frames of store computations *)

(** The store without its fault seam, which the steps of a flush may consume. *)
Definition base (t : LocalEncryptedStore) : LocalEncryptedStore := set_fault_io fault_default t.

Record step_rel (W : fspath -> Prop) (s s' : St) : Prop := {
  sr_base : base (s_store s') = base (s_store s);
  sr_world : touches W (s_world s) (s_world s');
}.

Lemma step_rel_refl W s : step_rel W s s.
Proof. split; [done|apply touches_refl]. Qed.

Lemma step_rel_trans W s1 s2 s3 : step_rel W s1 s2 -> step_rel W s2 s3 -> step_rel W s1 s3.
Proof. intros [B1 T1] [B2 T2]. split; [congruence|by eapply touches_trans]. Qed.

Lemma step_rel_mono (W W' : fspath -> Prop) s s' :
  (forall q, W q -> W' q) -> step_rel W s s' -> step_rel W' s s'.
Proof. intros HW [B T]. split; [done|by eapply touches_mono]. Qed.

(** A computation on a store with base [b] touches only [W]. *)
Definition within {A} (b : LocalEncryptedStore) (W : fspath -> Prop) (m : store_m A) : Prop :=
  forall s, base (s_store s) = b -> step_rel W s (snd (m s)).

Section Frames.
Context (b : LocalEncryptedStore) (W : fspath -> Prop).

Lemma within_ret {A} (a : A) : within b W (mret a).
Proof. intros s _. apply step_rel_refl. Qed.

Lemma within_bind {A B} (m : store_m A) (k : A -> store_m B) :
  within b W m -> (forall a, within b W (k a)) -> within b W (m ≫= k).
Proof.
  intros Hm Hk s Hs. specialize (Hm s Hs). unfold mbind, M_bind.
  destruct (m s) as [[a|e] s1]; [|done]. simpl in *.
  eapply step_rel_trans; [done|]. apply Hk. by rewrite (sr_base _ _ _ Hm).
Qed.

Lemma within_lift {A} (r : result StorageError A) : within b W (lift r).
Proof. intros s _. apply step_rel_refl. Qed.

Lemma within_throw {A} e : within b W (throw (A := A) e).
Proof. intros s _. apply step_rel_refl. Qed.

Lemma within_ensure c e : within b W (ensure c e).
Proof. intros s _. unfold ensure. destruct c; apply step_rel_refl. Qed.

Lemma within_gets {A} (f : St -> A) : within b W (gets f).
Proof. intros s _. apply step_rel_refl. Qed.

Lemma within_gets_store {B} (k : LocalEncryptedStore -> store_m B) :
  (forall t, base t = b -> within b W (k t)) -> within b W (gets s_store ≫= k).
Proof. intros H s Hs. by apply (H (s_store s) Hs s). Qed.

Lemma within_gets_state {B} (k : St -> store_m B) :
  (forall s, base (s_store s) = b -> within b W (k s)) -> within b W (gets (fun s => s) ≫= k).
Proof. intros H s Hs. by apply (H s Hs s). Qed.

Lemma within_io {A} (m : io A) V :
  io_within V m -> (forall q, V q -> W q) -> within b W (lift_io m).
Proof.
  intros Hm HV s _. specialize (Hm (s_world s)). unfold lift_io.
  destruct (m (s_world s)) as [r w]. simpl in *. split; [done|]. by eapply touches_mono.
Qed.

Lemma within_hit p : within b W (hit p).
Proof.
  intros s _. unfold hit, fault_hit. case_bool_decide; (split; [done|apply touches_refl]).
Qed.

Lemma within_draw : within b W draw_nonce.
Proof. intros s _. split; [done|]. by split. Qed.

Lemma within_tick : within b W current_filetime.
Proof. intros s _. split; [done|]. by split. Qed.

Lemma within_write_record p r : W p -> within b W (write_record p r).
Proof.
  intros Hp. unfold write_record. apply within_bind; [apply within_lift|intros c].
  apply within_bind; [eapply within_io; [apply fs_create_within|by intros q <-]|intros _].
  apply within_bind; [eapply within_io; [apply fs_write_all_within|by intros q <-]|intros _].
  eapply within_io; [apply (fs_sync_within _ (eq p))|by intros q <-].
Qed.

Lemma within_marker dir : W (marker_path dir) -> within b W (flush_directory_marker dir).
Proof.
  intros Hp. unfold flush_directory_marker.
  apply within_bind; [eapply within_io; [apply fs_create_within|by intros q <-]|intros _].
  apply within_bind; [eapply within_io; [apply fs_write_all_within|by intros q <-]|intros _].
  eapply within_io; [apply (fs_sync_within _ W)|done].
Qed.

Lemma within_seal `{Aead} nonces file a p : within b W (seal nonces file a p).
Proof.
  unfold seal. apply within_bind; [apply within_gets|intros key].
  apply within_bind; [apply within_draw|intros n].
  apply within_bind; [apply within_lift|intros sealed].
  apply within_bind; [apply within_gets|intros forced].
  apply within_bind; [apply within_ensure|intros _]. apply within_ret.
Qed.

Lemma within_fold {A B} (f : B -> A -> store_m B) acc l :
  (forall acc x, x ∈ l -> within b W (f acc x)) -> within b W (fold_m f acc l).
Proof.
  revert acc; induction l as [|x l IH]; intros acc Hf; cbn [fold_m]; [apply within_ret|].
  apply within_bind; [apply Hf; left|]. intros a. apply IH. intros. apply Hf. by right.
Qed.
End Frames.

Lemma within_mono {A} b (W W' : fspath -> Prop) (m : store_m A) :
  (forall q, W q -> W' q) -> within b W m -> within b W' m.
Proof. intros HW Hm s Hs. eapply step_rel_mono; [done|by apply Hm]. Qed.

#[export] Hint Resolve within_ret within_lift within_throw within_ensure within_gets
  within_hit within_draw within_tick within_seal : dlp.

(** Run through a sequence of framed steps. *)
Ltac within_step :=
  first
  [ apply within_gets_store; intros ? <-
  | apply within_gets_state; intros ? <-
  | apply within_bind; [solve [auto with dlp]|intros ?]
  | solve [auto with dlp] ].

(** ** Records on disk *)

(** What the caller of [write_record] and [read_record] relies on. *)
Definition readable (d : Disk) : Prop := dk_unreadable d = ∅.

Lemma record_encode_bound r b : record_encode r = Ok b -> len (ciphertext r) <= MAX_CIPHERTEXT.
Proof.
  unfold record_encode. destruct (_ || _) eqn:E; [done|]. intros _.
  apply orb_false_iff in E as [_ E]. by apply N.ltb_ge.
Qed.

Lemma io_create_Ok p w w' :
  fs_create p w = (Ok tt, w') ->
  dk_files (w_disk w') !! p = Some [] /\ dk_dirs (w_disk w') = dk_dirs (w_disk w) /\
  dir_exists (w_disk w') p = false.
Proof.
  unfold fs_create, entry_error, consult. repeat case_match; intros; simplify_eq/=.
  repeat split; [apply lookup_insert_eq|done].
Qed.

Lemma io_write_all_Ok p c w w' :
  fs_write_all p c w = (Ok tt, w') ->
  dk_files (w_disk w') !! p = Some (file_of w p ++ c) /\
  dk_dirs (w_disk w') = dk_dirs (w_disk w).
Proof.
  unfold fs_write_all, consult. repeat case_match; intros; simplify_eq/=.
  by rewrite lookup_insert_eq.
Qed.

Lemma io_sync_Ok p w w' : fs_sync p w = (Ok tt, w') -> w_disk w' = w_disk w.
Proof. unfold fs_sync, consult. by repeat case_match; intros; simplify_eq/=. Qed.

Lemma lift_io_Ok {A} (m : io A) s a s' :
  lift_io m s = (Ok a, s') ->
  exists w', m (s_world s) = (Ok a, w') /\ s' = mkSt (s_store s) w'.
Proof.
  unfold lift_io. destruct (m (s_world s)) as [[x|k] w]; intros; simplify_eq/=. by exists w.
Qed.

Lemma write_record_Ok p r s s' :
  write_record p r s = (Ok tt, s') ->
  record_encode r = Ok (default [] (result_ok (record_encode r))) /\
  fs_read (s_disk s') p =
    if bool_decide (p ∈ dk_unreadable (s_disk s')) then Err KOther
    else Ok (default [] (result_ok (record_encode r))).
Proof.
  unfold write_record. intros H. apply bind_Ok in H as (c & s0 & Hl & H).
  unfold lift in Hl. destruct (record_encode r) as [c'|]; [|done]. simplify_eq/=.
  split; [done|].
  apply bind_Ok in H as ([] & s1 & (w1 & H1 & ->)%lift_io_Ok & H).
  apply bind_Ok in H as ([] & s2 & (w2 & H2 & ->)%lift_io_Ok & H).
  apply lift_io_Ok in H as (w3 & H3 & ->). simpl in *.
  apply io_create_Ok in H1 as (F1 & D1 & E1). apply io_write_all_Ok in H2 as (F2 & D2).
  apply io_sync_Ok in H3. unfold s_disk, fs_read. simpl. rewrite H3, F2.
  unfold dir_exists in *. rewrite D2, E1. rewrite orb_false_r.
  unfold file_of. by rewrite F1.
Qed.

(** ** Sealed records *)

Section Seals.
Context `{HA : Aead, !AeadLaws HA}.

(** [r] is a record of store [b] for [file]: its header is the one named, and
    it opens to [plain]. *)
Record seals (b : LocalEncryptedStore) (file : bytes) (g : N) (kind : RecordKind) (index : N)
    (plain : bytes) (r : EncryptedRecordV1) : Prop := {
  se_identity : ensure_identity b r file kind index = Ok tt;
  se_generation : generation r = g;
  se_length : plaintext_length r = len plain;
  se_open : record_open (st_key b) r = Ok plain;
  se_nonce : len (nonce r) = NONCE_LENGTH;
  se_ciphertext : len (ciphertext r) = len plain + 16;
}.

Lemma ensure_identity_Ok t r file kind index :
  ensure_identity t r file kind index = Ok tt <->
  format_version r = FORMAT_VERSION_V1 /\ store_id r = store_wire_id t /\
  file_id r = file /\ record_kind r = kind /\ chunk_index r = index.
Proof.
  unfold ensure_identity. split.
  - case_match eqn:E; [done|]. intros _.
    repeat rewrite ?orb_false_iff, ?negb_false_iff, ?bool_decide_eq_true, ?N.eqb_eq in E.
    by destruct_and!.
  - intros (-> & -> & -> & -> & ->).
    rewrite !N.eqb_refl, !bool_decide_eq_true_2 by done. done.
Qed.

Lemma record_open_sealed key n a p c :
  a_format_version a = FORMAT_VERSION_V1 -> a_plaintext_length a = len p ->
  len p <= u64_max -> aead_encrypt key n (canonical_bytes a) p = Some c ->
  record_open key (mkRecord (a_format_version a) (a_store_id a) (a_file_id a)
    (a_generation a) (a_record_kind a) (a_chunk_index a) (a_plaintext_length a) n c) = Ok p.
Proof.
  intros Hv Hl Hp Hc. unfold record_open. simpl. rewrite Hv, Hl, N.eqb_refl.
  rewrite (proj2 (N.ltb_ge _ _)) by done. simpl.
  unfold decrypt, aad. simpl. rewrite <- Hv, <- Hl.
  replace (mkRecordAad _ _ _ _ _ _ _) with a by by destruct a.
  rewrite (aead_decrypt_encrypt _ _ _ _ _ Hc). simpl. by rewrite Hl, N.eqb_refl.
Qed.

Lemma seal_Ok b nonces file g kind index p s r nonces' s' :
  seal nonces file (store_aad b file g kind index (len p)) p s = (Ok (r, nonces'), s') ->
  base (s_store s) = b -> len p <= u64_max ->
  (forall i, len (w_rng (s_world s) i) = NONCE_LENGTH) ->
  seals b file g kind index p r /\ nonces' = nonce r :: nonces /\ nonce r ∉ nonces.
Proof.
  unfold seal. intros H Hb Hp Hr.
  apply bind_Ok in H as (key & s0 & Hk & H). unfold gets in Hk. simplify_eq.
  apply bind_Ok in H as (n & s1 & Hn & H). unfold draw_nonce in Hn. simplify_eq.
  apply bind_Ok in H as ([r1 n1] & s2 & Hl & H). apply pair_eq in Hl as [Hl <-].
  apply bind_Ok in H as (forced & s3 & _ & H).
  apply bind_Ok in H as ([] & s4 & _ & H). unfold mret, M_ret in H. simplify_eq.
  unfold record_seal, encrypt in Hl.
  destruct (aead_encrypt _ _ _ _) as [c|] eqn:Hc; [|done]. simpl in Hl.
  unfold nonce_insert in Hl. case_bool_decide as Hin; [done|]. simpl in Hl. simplify_eq.
  split; [|done]. split; simpl; try done.
  - by apply ensure_identity_Ok.
  - by apply (record_open_sealed _ _ (store_aad (base (s_store s0)) file g kind index (len p))).
  - exact (aead_tag_length _ _ _ _ _ Hc).
Qed.

(** A record that was sealed and written reads back. *)
Lemma write_sealed_Ok b file g kind index p r path s s' :
  write_record path r s = (Ok tt, s') -> readable (s_disk s') ->
  identifier false (store_wire_id b) -> identifier false file ->
  g <= u64_max -> index <= u64_max -> len p <= u64_max ->
  seals b file g kind index p r -> read_record (s_disk s') path = Ok r.
Proof.
  intros H Hro Hs Hf Hg Hi Hp [Hid Hgen Hlen Hop Hn Hc].
  apply write_record_Ok in H as [He Hrd]. rewrite Hro, bool_decide_eq_false_2 in Hrd by set_solver.
  unfold read_record. rewrite Hrd. simpl. apply record_decode_iff. split; [|done].
  apply record_encode_bound in He. apply ensure_identity_Ok in Hid as (Hv & Hst & Hfi & _ & Hix).
  unfold record_wf. rewrite Hv, Hst, Hfi, Hgen, Hix, Hlen. done.
Qed.

Lemma read_record_agree W d d' p :
  agree_off W d d' -> ~ W p -> read_record d' p = read_record d p.
Proof. intros Hag Hp. unfold read_record. by rewrite (proj1 (Hag p Hp)). Qed.

(** ** A written generation *)

Inductive chunks_at (b : LocalEncryptedStore) (d : Disk) (file : bytes) (g : N) :
    N -> list bytes -> list EncryptedRecordV1 -> Prop :=
| chunks_at_nil i : chunks_at b d file g i [] []
| chunks_at_cons i p ps r rs :
    read_record d (generation_dir b file g ++ [chunk_name i]) = Ok r ->
    seals b file g Chunk i p r ->
    len p <= CHUNK_SIZE ->
    chunks_at b d file g (i + 1) ps rs ->
    chunks_at b d file g i (p :: ps) (r :: rs).

(** The generation directory of [g] holds [data], committed by record [c]. *)
Record generation_holds (b : LocalEncryptedStore) (d : Disk) (file : bytes) (g : N)
    (data : bytes) (c : EncryptedRecordV1) : Prop := {
  gh_commit_at : read_record d (generation_dir b file g ++ [lit "commit.rec"]) = Ok c;
  gh_commit : exists plain, seals b file g Commit 0 plain c /\
    commit_decode plain = Ok (mkCommit g file);
  gh_body : exists m plain ps rs,
    read_record d (generation_dir b file g ++ [lit "manifest.rec"]) = Ok m /\
    seals b file g Manifest 0 plain m /\
    manifest_decode plain = Ok (mkManifest g file (len data) (map len ps)) /\
    concat ps = data /\ chunks_at b d file g 0 ps rs /\
    NoDup (nonce c :: nonce m :: map nonce rs);
}.

Lemma nonce_insert_fresh n t : n ∉ t -> nonce_insert n t = Ok (n :: t).
Proof. intros. unfold nonce_insert. by rewrite bool_decide_eq_false_2. Qed.

Lemma read_chunks_Ok b d file g i ps rs nonces out :
  chunks_at b d file g i ps rs ->
  NoDup (map nonce rs) -> (forall n, n ∈ map nonce rs -> n ∉ nonces) ->
  read_chunks b d file g i (map len ps) nonces out = Ok (out ++ concat ps).
Proof.
  intros H. revert nonces out. induction H as [i|i p ps r rs Hr Hs Hl Hc IH]; intros nonces out Hnd Hdisj.
  { simpl. by rewrite app_nil_r. }
  cbn [map read_chunks]. rewrite (proj2 (N.ltb_ge _ _)) by done. rewrite Hr. simpl.
  destruct Hs as [Hid Hg Hlen Hop Hn _]. rewrite Hid. simpl.
  rewrite Hg, Hlen, !N.eqb_refl. simpl.
  rewrite nonce_insert_fresh by (apply Hdisj; left). simpl.
  rewrite Hop. simpl. inversion Hnd as [|? ? Hni Hnd']; subst. rewrite IH.
  - by rewrite <- app_assoc.
  - done.
  - intros n Hn' [->|Hin]%elem_of_cons; [done|]. eapply Hdisj; [right; done|done].
Qed.

(** Reading through a pointer that holds the commit record of a generation. *)
Lemma read_generation b d file g data c pointer :
  generation_holds b d file g data c -> read_record d pointer = Ok c ->
  read_from_pointer b d pointer file = Ok data.
Proof.
  intros [Hca (cp & Hcs & Hcd) (m & mp & ps & rs & Hma & Hms & Hmd & Hdata & Hch & Hnd)] Hp.
  unfold read_from_pointer. rewrite Hp. simpl.
  destruct Hcs as [Hci Hcg Hcl Hco _ _]. rewrite Hci. simpl. rewrite Hco. simpl.
  rewrite Hcd. simpl. rewrite bool_decide_eq_true_2 by done. simpl.
  rewrite Hca. simpl. rewrite Hci. simpl. rewrite Hcg, N.eqb_refl. simpl.
  rewrite Hco. simpl. rewrite Hcd. simpl. rewrite bool_decide_eq_true_2 by done. simpl.
  rewrite Hma. simpl. destruct Hms as [Hmi Hmg _ Hmo _ _]. rewrite Hmi. simpl.
  rewrite Hmg, N.eqb_refl. simpl. rewrite Hmo. simpl. rewrite Hmd. simpl.
  rewrite bool_decide_eq_true_2, N.eqb_refl by done. simpl.
  inversion Hnd as [|? ? Hn1 Hnd1]; subst. inversion Hnd1 as [|? ? Hn2 Hnd2]; subst.
  rewrite nonce_insert_fresh.
  2:{ intros E%list_elem_of_singleton. apply Hn1. rewrite E. left. } simpl.
  rewrite (read_chunks_Ok _ _ _ _ _ _ rs); [|done|done|].
  - simpl. by rewrite N.eqb_refl.
  - intros n Hn [->|[->|[]%not_elem_of_nil]%elem_of_cons]%elem_of_cons; [done|].
    apply Hn1. by right.
Qed.

Lemma chunks_at_agree b W d d' file g i ps rs :
  agree_off W d d' ->
  (forall j, i <= j -> ~ W (generation_dir b file g ++ [chunk_name j])) ->
  chunks_at b d file g i ps rs -> chunks_at b d' file g i ps rs.
Proof.
  intros Hag HW H. induction H as [i|i p ps r rs Hr Hs Hl Hc IH]; constructor; try done.
  - rewrite (read_record_agree W d); [done|done|]. apply HW. lia.
  - apply IH. intros j Hj. apply HW. lia.
Qed.

Lemma generation_holds_agree b W d d' file g data c :
  agree_off W d d' -> (forall n, ~ W (generation_dir b file g ++ [n])) ->
  generation_holds b d file g data c -> generation_holds b d' file g data c.
Proof.
  intros Hag HW [Hca Hcs (m & mp & ps & rs & Hma & Hms & Hmd & Hdata & Hch & Hnd)].
  split; [by rewrite (read_record_agree W d)|done|].
  exists m, mp, ps, rs. rewrite (read_record_agree W d) by done.
  repeat split; try done; [| | | | | |]; try apply Hms.
  eapply chunks_at_agree; [done| |done]. intros. apply HW.
Qed.
End Seals.

(** ** Paths of a file never coincide by accident *)

Lemma chunk_name_inj i j : chunk_name i = chunk_name j -> i = j.
Proof.
  unfold chunk_name. intros H. apply app_inv_head in H.
  apply app_inv_tail in H. by eapply dec_pad_inj.
Qed.

Lemma generation_name_inj g h : generation_name g = generation_name h -> g = h.
Proof. unfold generation_name. intros H. apply app_inv_head in H. by eapply dec_pad_inj. Qed.

Lemma generation_dir_inj b file g h n m :
  generation_dir b file g ++ [n] = generation_dir b file h ++ [m] -> g = h /\ n = m.
Proof.
  unfold generation_dir. rewrite <- !app_assoc. intros H. apply app_inv_head in H.
  cbn [app] in H. apply cons_inj in H as [_ H]. apply cons_inj in H as [Hn H].
  apply cons_inj in H as [-> _]. split; [|done]. by apply generation_name_inj.
Qed.

(** The chunk files of a generation from an index on, and all its files. *)
Definition chunk_files (b : LocalEncryptedStore) (file : bytes) (g i : N) (q : fspath) : Prop :=
  exists j, i <= j /\ q = generation_dir b file g ++ [chunk_name j].
Definition generation_files (b : LocalEncryptedStore) (file : bytes) (g : N) (q : fspath) : Prop :=
  exists n, q = generation_dir b file g ++ [n].

(** ** The phases of [flush_file] *)

Lemma manifest_encode_len m p :
  manifest_encode m = Ok p ->
  len p = 48 + len (m_file_id m) + len (m_chunk_lengths m) * 8 /\
  len (m_file_id m) <= u16_max /\ len (m_chunk_lengths m) <= u32_max.
Proof.
  unfold manifest_encode. case_match eqn:E; [done|]. intros <-%Ok_inj.
  apply orb_false_iff in E as [E1%N.ltb_ge E2%N.ltb_ge]. split; [|done].
  rewrite !len_app, !len_to_le, len_concat_u64. unfold manifest_prefix.
  change (len (FORMAT_ID_V1 ++ [x00])) with 26. lia.
Qed.

Lemma commit_encode_len c p :
  commit_encode c = Ok p -> len p = 10 + len (c_file_id c) /\ len (c_file_id c) <= u16_max.
Proof.
  unfold commit_encode. case_match eqn:E; [done|]. intros <-%Ok_inj.
  apply N.ltb_ge in E. split; [|done]. rewrite !len_app, !len_to_le. lia.
Qed.

Section Flush.
Context `{HA : Aead, !AeadLaws HA}.
Context (b : LocalEncryptedStore) (file : bytes) (g : N).

(** The states a flush of store [b] runs through. *)
Definition good (s : St) : Prop :=
  base (s_store s) = b /\ readable (s_disk s) /\
  forall i, len (w_rng (s_world s) i) = NONCE_LENGTH.

Lemma good_step W s s' : step_rel W s s' -> good s -> good s'.
Proof.
  intros [Hb [_ Hu _ Hr]] (G1 & G2 & G3). split; [congruence|].
  unfold readable, s_disk in *. split; [congruence|]. intros i. by rewrite Hr.
Qed.

Lemma within_flush_chunk acc i c :
  within b (fun q => q = (generation_dir b file g ++ [chunk_name i])) (flush_chunk file g acc (i, c)).
Proof.
  unfold flush_chunk. within_step. within_step. destruct a as [r n].
  within_step. apply within_bind; [by apply within_write_record|]. intros _.
  within_step. within_step.
Qed.

Lemma within_flush_chunks acc i cs :
  within b (chunk_files b file g i) (fold_m (flush_chunk file g) acc (enumerate_from i cs)).
Proof.
  revert acc i. induction cs as [|c cs IH]; intros acc i; cbn [enumerate_from fold_m]; [within_step|].
  apply within_bind.
  - eapply within_mono; [|apply within_flush_chunk]. intros q ->. exists i. split; [lia|done].
  - intros a. eapply within_mono; [|apply IH]. intros q (j & Hj & ->). exists j. split; [lia|done].
Qed.

Lemma within_flush_manifest data acc :
  within b (fun q => q = (generation_dir b file g ++ [lit "manifest.rec"]))
    (flush_manifest file g data acc).
Proof.
  unfold flush_manifest. within_step. within_step. within_step. destruct a0 as [r n].
  within_step. apply within_bind; [by apply within_write_record|]. intros _.
  within_step. within_step.
Qed.

Lemma within_flush_commit acc :
  within b (fun q => q = (generation_dir b file g ++ [lit "commit.rec"]))
    (flush_commit file g acc).
Proof.
  unfold flush_commit. within_step. within_step. within_step. destruct a0 as [r n].
  within_step. apply within_bind; [by apply within_write_record|]. intros _.
  within_step. within_step.
Qed.

Context (Hsid : identifier false (store_wire_id b)) (Hfid : identifier false file)
  (Hg : g <= u64_max).

(** One iteration of the loop. *)
Lemma flush_chunk_Ok acc i c s acc' s' :
  flush_chunk file g acc (i, c) s = (Ok acc', s') -> good s -> i <= u64_max ->
  len c <= CHUNK_SIZE ->
  exists r, read_record (s_disk s') (generation_dir b file g ++ [chunk_name i]) = Ok r /\
    seals b file g Chunk i c r /\
    fa_nonces acc' = nonce r :: fa_nonces acc /\ (nonce r ∉ fa_nonces acc) /\
    fa_lengths acc' = fa_lengths acc ++ [len c].
Proof.
  intros H Hs Hi Hc. pose proof (within_flush_chunk acc i c s (proj1 Hs)) as Hw.
  rewrite H in Hw. simpl in Hw. pose proof (good_step _ _ _ Hw Hs) as Hs'.
  unfold flush_chunk in H. apply bind_Ok in H as (t & s0 & Ht & H).
  apply pair_eq in Ht as [Ht <-]. simplify_eq.
  apply bind_Ok in H as ([r n] & s1 & Hseal & H).
  destruct Hs as (Hb & Hro & Hrng).
  assert (len c <= u64_max) by (unfold CHUNK_SIZE, u64_max in *; lia).
  change (store_aad (s_store s)) with (store_aad (base (s_store s))) in Hseal.
  rewrite Hb in Hseal. apply seal_Ok in Hseal as (Hse & -> & Hnin); [|done..].
  apply bind_Ok in H as ([] & s2 & _ & H).
  apply bind_Ok in H as ([] & s3 & Hwr & H).
  apply bind_Ok in H as ([] & s4 & Hhit & H).
  unfold mret, M_ret in H. simplify_eq. exists r. split; [|by eauto].
  assert (s_disk s' = s_disk s3) as Hd.
  { unfold hit in Hhit. destruct (fault_hit _ _) as [? ?]. by simplify_eq. }
  change (generation_dir (s_store s)) with (generation_dir (base (s_store s))) in Hwr.
  rewrite Hb in Hwr. rewrite Hd. eapply (write_sealed_Ok b file g Chunk i c); try done.
  rewrite <- Hd. apply Hs'.
Qed.

Lemma flush_chunks_Ok acc i cs s acc' s' :
  fold_m (flush_chunk file g) acc (enumerate_from i cs) s = (Ok acc', s') -> good s ->
  i + len cs <= u64_max -> Forall (fun c => len c <= CHUNK_SIZE) cs ->
  NoDup (fa_nonces acc) ->
  exists rs, chunks_at b (s_disk s') file g i cs rs /\
    fa_lengths acc' = fa_lengths acc ++ map len cs /\
    NoDup (fa_nonces acc') /\ (forall n, n ∈ map nonce rs -> n ∈ fa_nonces acc') /\
    NoDup (map nonce rs) /\ (forall n, n ∈ map nonce rs -> n ∉ fa_nonces acc) /\
    (forall n, n ∈ fa_nonces acc -> n ∈ fa_nonces acc').
Proof.
  revert acc i s. induction cs as [|c cs IH]; intros acc i s H Hs Hi Hcs Hnd.
  - cbn [enumerate_from fold_m] in H. apply pair_eq in H as [H <-]. simplify_eq.
    exists []. repeat split; try done; [constructor|by rewrite app_nil_r|by intros ? ?%elem_of_nil|
      constructor|by intros ? ?%elem_of_nil].
  - cbn [enumerate_from fold_m] in H. apply bind_Ok in H as (acc1 & s1 & H1 & H).
    inversion Hcs as [|? ? Hc Hcs']; subst. rewrite len_cons in Hi.
    pose proof (within_flush_chunk acc i c s (proj1 Hs)) as Hw1. rewrite H1 in Hw1. simpl in Hw1.
    apply flush_chunk_Ok in H1 as (r & Hr & Hse & Hn & Hnin & Hlen); [|done|lia|done].
    pose proof (good_step _ _ _ Hw1 Hs) as Hs1.
    pose proof (within_flush_chunks acc1 (i + 1) cs s1 (proj1 Hs1)) as Hw. rewrite H in Hw. simpl in Hw.
    apply IH in H as (rs & Hat & Hl & Hnd' & Hin & Hndr & Hdis & Hsub); [|done|lia|done|].
    2:{ rewrite Hn. by constructor. }
    rewrite Hn in *. exists (r :: rs). split.
    { constructor; [|done..]. rewrite (read_record_agree _ (s_disk s1) _ _ (to_agree _ _ _ (sr_world _ _ _ Hw))); [done|].
      intros (j & Hj & E). apply generation_dir_inj in E as [_ E%chunk_name_inj]. lia. }
    split; [by rewrite Hl, Hlen, <- app_assoc|]. split; [done|]. cbn [map].
    split; [intros n [->|Hx]%elem_of_cons; [apply Hsub; left|by apply Hin]|].
    split; [constructor; [intros Hx; apply (Hdis _ Hx); left|done]|].
    split; [intros n [->|Hx]%elem_of_cons; [done|intros Hy; apply (Hdis _ Hx); by right]|].
    intros n Hx. apply Hsub. by right.
Qed.
(** Sealing a payload and writing the record, with the fault points around the
    write: the step that chunks, manifest and commit share. *)
Lemma sealed_step kind index p nonces name p1 p2 r n s s1 s2 s3 s4 :
  seal nonces file (store_aad b file g kind index (len p)) p s = (Ok (r, n), s1) ->
  hit p1 s1 = (Ok tt, s2) ->
  write_record (generation_dir b file g ++ [name]) r s2 = (Ok tt, s3) ->
  hit p2 s3 = (Ok tt, s4) ->
  good s -> good s4 -> index <= u64_max -> len p <= u64_max ->
  read_record (s_disk s4) (generation_dir b file g ++ [name]) = Ok r /\
  seals b file g kind index p r /\ n = nonce r :: nonces /\ (nonce r ∉ nonces) /\
  len p + 16 <= MAX_CIPHERTEXT.
Proof.
  intros Hseal _ Hwr Hhit (Hb & Hro & Hrng) Hs4 Hi Hp.
  apply seal_Ok in Hseal as (Hse & -> & Hnin); [|done..].
  assert (s_disk s4 = s_disk s3) as Hd.
  { unfold hit in Hhit. destruct (fault_hit _ _) as [? ?]. by simplify_eq. }
  pose proof (write_record_Ok _ _ _ _ Hwr) as [He%record_encode_bound _].
  rewrite (se_ciphertext _ _ _ _ _ _ _ Hse) in He.
  split; [|done]. rewrite Hd. eapply (write_sealed_Ok b file g kind index p); try done.
  rewrite <- Hd. apply Hs4.
Qed.

Lemma flush_manifest_Ok data acc s acc' s' :
  flush_manifest file g data acc s = (Ok acc', s') -> good s -> len data <= u64_max ->
  Forall (fun n => n <= u64_max) (fa_lengths acc) ->
  exists m plain,
    read_record (s_disk s') (generation_dir b file g ++ [lit "manifest.rec"]) = Ok m /\
    seals b file g Manifest 0 plain m /\
    manifest_decode plain = Ok (mkManifest g file (len data) (fa_lengths acc)) /\
    fa_nonces acc' = nonce m :: fa_nonces acc /\ nonce m ∉ fa_nonces acc.
Proof.
  intros H Hs Hd Hls. pose proof (within_flush_manifest data acc s (proj1 Hs)) as Hw.
  rewrite H in Hw. simpl in Hw. pose proof (good_step _ _ _ Hw Hs) as Hs'.
  unfold flush_manifest in H. apply bind_Ok in H as (t & s0 & Ht & H).
  apply pair_eq in Ht as [Ht%Ok_inj <-]. subst t.
  apply bind_Ok in H as (p & s1 & Hp & H). apply pair_eq in Hp as [Hp <-].
  apply bind_Ok in H as ([r n] & s2 & H2 & H). apply bind_Ok in H as ([] & s3 & H3 & H).
  apply bind_Ok in H as ([] & s4 & H4 & H). apply bind_Ok in H as ([] & s5 & H5 & H).
  apply pair_eq in H as [<-%Ok_inj <-].
  change (store_aad (s_store s)) with (store_aad (base (s_store s))) in H2.
  change (generation_dir (s_store s)) with (generation_dir (base (s_store s))) in H4.
  rewrite (proj1 Hs) in H2, H4.
  pose proof (manifest_encode_len _ _ Hp) as (Hl & Hf & Hc). simpl in *.
  pose proof (identifier_len16 _ _ Hfid).
  assert (len p <= u64_max) by (unfold u64_max, u32_max in *; lia).
  pose proof (sealed_step _ _ _ _ _ _ _ _ _ _ _ _ _ _ H2 H3 H4 H5 Hs Hs' ltac:(done) ltac:(done))
    as (Hr & Hse & -> & Hn & Hmax).
  exists r, p. split; [done|]. split; [done|]. split; [|done].
  apply manifest_decode_iff. split; [|done].
  repeat split; simpl; try done. unfold MAX_CIPHERTEXT in Hmax. lia.
Qed.

Lemma flush_commit_Ok acc s rec acc' s' :
  flush_commit file g acc s = (Ok (rec, acc'), s') -> good s ->
  read_record (s_disk s') (generation_dir b file g ++ [lit "commit.rec"]) = Ok rec /\
  (exists plain, seals b file g Commit 0 plain rec /\
     commit_decode plain = Ok (mkCommit g file)) /\
  nonce rec ∉ fa_nonces acc.
Proof.
  intros H Hs. pose proof (within_flush_commit acc s (proj1 Hs)) as Hw.
  rewrite H in Hw. simpl in Hw. pose proof (good_step _ _ _ Hw Hs) as Hs'.
  unfold flush_commit in H. apply bind_Ok in H as (t & s0 & Ht & H).
  apply pair_eq in Ht as [Ht%Ok_inj <-]. subst t.
  apply bind_Ok in H as (p & s1 & Hp & H). apply pair_eq in Hp as [Hp <-].
  apply bind_Ok in H as ([r n] & s2 & H2 & H). apply bind_Ok in H as ([] & s3 & H3 & H).
  apply bind_Ok in H as ([] & s4 & H4 & H). apply bind_Ok in H as ([] & s5 & H5 & H).
  apply pair_eq in H as [H%Ok_inj <-]. simplify_eq.
  change (store_aad (s_store s)) with (store_aad (base (s_store s))) in H2.
  change (generation_dir (s_store s)) with (generation_dir (base (s_store s))) in H4.
  rewrite (proj1 Hs) in H2, H4.
  pose proof (commit_encode_len _ _ Hp) as (Hl & Hf). simpl in *.
  assert (len p <= u64_max) by (unfold u64_max, u16_max in *; lia).
  pose proof (sealed_step _ _ _ _ _ _ _ _ _ _ _ _ _ _ H2 H3 H4 H5 Hs Hs' ltac:(done) ltac:(done))
    as (Hr & Hse & -> & Hn & Hmax).
  split; [done|]. split; [|done]. exists p. split; [done|]. by apply commit_decode_iff.
Qed.

End Flush.

(** ** The pointers *)

Lemma fs_read_put p c w :
  readable (w_disk w) -> dir_exists (w_disk w) p = false ->
  fs_read (w_disk (put_file p c w)) p = Ok c.
Proof.
  intros Hro Hd. unfold fs_read. unfold dir_exists in *. simpl. rewrite Hro, Hd.
  rewrite bool_decide_eq_false_2 by set_solver. simpl. by rewrite lookup_insert_eq.
Qed.

Lemma entry_error_None d p : entry_error d p = None -> dir_exists d p = false.
Proof. unfold entry_error. by repeat case_match. Qed.

Lemma fs_read_file d p c : fs_read d p = Ok c -> dk_files d !! p = Some c.
Proof. unfold fs_read. by repeat case_match; intros; simplify_eq. Qed.

Lemma io_rename_Ok src dst w w' c :
  fs_rename src dst w = (Ok tt, w') -> readable (w_disk w) ->
  fs_read (w_disk w) src = Ok c -> fs_read (w_disk w') dst = Ok c.
Proof.
  unfold fs_rename, consult. intros H Hro Hs. rewrite (fs_read_file _ _ _ Hs) in H.
  destruct (entry_error _ dst) eqn:He; [done|]. apply entry_error_None in He.
  destruct (w_plan w (w_step w)); [|done]. simplify_eq. by apply fs_read_put.
Qed.

Lemma io_rename_Err src dst w w' k : fs_rename src dst w = (Err k, w') -> w_disk w' = w_disk w.
Proof. unfold fs_rename, consult. by repeat case_match; intros; simplify_eq/=. Qed.

Lemma io_remove_Err p w w' k : fs_remove_file p w = (Err k, w') -> w_disk w' = w_disk w.
Proof. unfold fs_remove_file, consult. by repeat case_match; intros; simplify_eq/=. Qed.

Lemma io_remove_Ok p w w' :
  fs_remove_file p w = (Ok tt, w') -> dir_exists (w_disk w) p = false ->
  fs_exists (w_disk w') p = false.
Proof.
  unfold fs_remove_file, consult, fs_exists. intros H Hd.
  repeat case_match; simplify_eq/=. unfold dir_exists in *. simpl. rewrite Hd.
  rewrite lookup_delete_eq, bool_decide_eq_false_2; [done|]. by intros [].
Qed.

Lemma io_copy_Ok src dst w w' :
  fs_copy src dst w = (Ok tt, w') -> readable (w_disk w) ->
  fs_read (w_disk w') dst = fs_read (w_disk w) src.
Proof.
  unfold fs_copy, consult. intros H Hro.
  destruct (fs_read (w_disk w) src) as [c|] eqn:Hs; [|done].
  destruct (entry_error _ dst) eqn:He; [done|]. apply entry_error_None in He.
  destruct (w_plan w (w_step w)) as [|? []]; [|done..]. simplify_eq. by apply fs_read_put.
Qed.

Lemma lift_io_run {A} (m : io A) s r s' :
  lift_io m s = (r, s') ->
  exists r' w', m (s_world s) = (r', w') /\ r = map_err map_io r' /\ s' = mkSt (s_store s) w'.
Proof.
  unfold lift_io. destruct (m (s_world s)) as [r' w'] eqn:E. intros [= <- <-]. by exists r', w'.
Qed.

(** Reading a file that exists means it is not a directory. *)
Lemma fs_read_not_dir d p c : fs_read d p = Ok c -> dir_exists d p = false.
Proof. unfold fs_read. destruct (dir_exists d p); [|done]. by rewrite orb_true_r. Qed.

Lemma read_record_read d p r : read_record d p = Ok r -> exists c, fs_read d p = Ok c.
Proof. unfold read_record. destruct (fs_read d p) as [c|]; [by exists c|done]. Qed.

(** The paths of a file's directory that a flush touches, and those it reads. *)
Section Pointers.
Context (b : LocalEncryptedStore) (file : bytes).

Lemma in_file_dir_inj (n m : bytes) : file_dir b file ++ [n] = file_dir b file ++ [m] -> n = m.
Proof. intros E. apply app_inv_head in E. by apply cons_inj in E as [-> _]. Qed.

Lemma file_dir_gen_ne g n m : file_dir b file ++ [n] <> generation_dir b file g ++ [m].
Proof.
  unfold generation_dir. rewrite <- app_assoc. intros E. by apply app_inv_head in E.
Qed.

Lemma tmp_name_ne g : lit "selected-" ++ dec g ++ lit ".tmp" <> lit "selected.commit".
Proof. done. Qed.

Lemma file_dir_not_prefix g n :
  n <> lit "generations" -> (file_dir b file ++ [n]) ∉ prefixes (generation_dir b file g).
Proof.
  intros Hn [k E]%elem_of_prefixes. unfold generation_dir in E.
  assert (length (file_dir b file ++ [n]) = length (take k
    (file_dir b file ++ [lit "generations"; generation_name g]))) as El by by rewrite E.
  rewrite length_take, !length_app in El. simpl in El.
  assert (k = length (file_dir b file) + 1)%nat as -> by lia.
  rewrite take_app_add in E. apply app_inv_head in E. simpl in E.
  by apply cons_inj in E as [-> _].
Qed.

Lemma gen_file_not_prefix g h n : (generation_dir b file h ++ [n]) ∉ prefixes (generation_dir b file g).
Proof.
  intros [k E]%elem_of_prefixes. apply (f_equal length) in E.
  unfold generation_dir in E. rewrite length_take, !length_app in E. simpl in E. lia.
Qed.

(** The pointer recovery uses: the selected one if it is there, else the prior
    one. *)
Definition recovery_pointer (d : Disk) : fspath :=
  if fs_exists d (selected_path b file) then selected_path b file else prior_path b file.
End Pointers.

(** The pointer names generation [g] of [file], which reads as [data]. *)
Definition pointer_reads `{Aead} (b : LocalEncryptedStore) (d : Disk) (pointer : fspath)
    (file : bytes) (g : N) (data : bytes) : Prop :=
  commit_generation b d pointer file = Ok g /\ read_from_pointer b d pointer file = Ok data.

(** Recovery of [file] finds [data] in generation [g]. *)
Definition recoverable `{Aead} (b : LocalEncryptedStore) (d : Disk) (file : bytes) (g : N)
    (data : bytes) : Prop :=
  pointer_reads b d (recovery_pointer b file d) file g data.

(** Two reads that differ only in their last call. *)
Ltac same_reads :=
  repeat first
  [ apply result_bind_ext; intros ?
  | match goal with |- (if ?c then _ else _) = (if ?c then _ else _) =>
      destruct c; [reflexivity|] end ].

Section Recoverable.
Context `{HA : Aead}.

Lemma read_chunks_agree b W d d' file g i ls nonces out :
  agree_off W d d' -> (forall n, ~ W (generation_dir b file g ++ [n])) ->
  read_chunks b d' file g i ls nonces out = read_chunks b d file g i ls nonces out.
Proof.
  intros Hag HW. revert i nonces out.
  induction ls as [|l ls IH]; intros i nonces out; [done|]. cbn [read_chunks].
  rewrite (read_record_agree W d) by done. same_reads. apply IH.
Qed.

(** The same record under another name, or on a disk that agrees on the
    generation, reads the same. *)
Lemma pointer_reads_move b W d d' p p' file g data :
  read_record d' p' = read_record d p -> agree_off W d d' ->
  (forall n, ~ W (generation_dir b file g ++ [n])) ->
  pointer_reads b d p file g data -> pointer_reads b d' p' file g data.
Proof.
  intros Hp Hag HW [Hc Hr]. unfold pointer_reads, commit_generation, read_from_pointer in *.
  rewrite Hp. unfold mbind, result_bind in *.
  destruct (read_record d p) as [sel|]; [|done].
  destruct (ensure_identity b sel file Commit 0); [|done].
  destruct (record_open (st_key b) sel); [|done]. destruct (commit_decode _) as [c|]; [|done].
  destruct (negb (bool_decide (c_file_id c = file))); [done|]. injection Hc as <-.
  split; [done|]. set (dir := generation_dir b file (c_generation c)) in *.
  rewrite (read_record_agree W d d' (dir ++ [lit "commit.rec"])) by done.
  rewrite (read_record_agree W d d' (dir ++ [lit "manifest.rec"])) by done.
  rewrite <- Hr. fold (@mbind (result StorageError) result_bind).
  same_reads. by rewrite (read_chunks_agree _ W d).
Qed.

Lemma recoverable_agree b W d d' file g data :
  agree_off W d d' -> (forall n, ~ W (generation_dir b file g ++ [n])) ->
  ~ W (selected_path b file) -> ~ W (prior_path b file) ->
  recoverable b d file g data -> recoverable b d' file g data.
Proof.
  intros Hag Hgen Hsel Hpri. unfold recoverable, recovery_pointer. rewrite (proj2 (Hag _ Hsel)).
  apply (pointer_reads_move b W); [|done..]. apply (read_record_agree W); [done|].
  by case_match.
Qed.

(** A pointer to a written generation reads it. *)
Lemma generation_holds_reads b d p file g data c :
  generation_holds b d file g data c -> read_record d p = Ok c ->
  pointer_reads b d p file g data.
Proof.
  intros Hg Hp. split; [|by eapply read_generation].
  destruct (gh_commit _ _ _ _ _ _ Hg) as (plain & Hse & Hcd).
  unfold commit_generation. rewrite Hp. simpl. rewrite (se_identity _ _ _ _ _ _ _ Hse). simpl.
  rewrite (se_open _ _ _ _ _ _ _ Hse). simpl. rewrite Hcd. simpl.
  by rewrite bool_decide_eq_true_2.
Qed.

Lemma pointer_reads_read b d p file g data :
  pointer_reads b d p file g data -> exists c, fs_read d p = Ok c.
Proof.
  intros [Hc _]. unfold commit_generation in Hc.
  destruct (read_record d p) as [r|] eqn:E; [|done]. by eapply read_record_read.
Qed.
End Recoverable.

(** ** Publication *)

Section Publish.
Context `{HA : Aead, !AeadLaws HA}.
Context (b : LocalEncryptedStore) (file : bytes) (g : N).
Context (Hsid : identifier false (store_wire_id b)) (Hfid : identifier false file)
  (Hg : g <= u64_max).

(** What staging may touch: the directories it makes and the files of the new
    generation. *)
Definition staging (q : fspath) : Prop :=
  q ∈ prefixes (generation_dir b file g) \/ generation_files b file g q.

Lemma staging_pointer n : n <> lit "generations" -> ~ staging (file_dir b file ++ [n]).
Proof.
  intros Hn [Hp|[m E]]; [by apply file_dir_not_prefix in Hp|by apply file_dir_gen_ne in E].
Qed.

Lemma staging_other h n : h <> g -> ~ staging (generation_dir b file h ++ [n]).
Proof.
  intros Hh [Hp|[m E]]; [by apply gen_file_not_prefix in Hp|].
  by apply generation_dir_inj in E as [? _].
Qed.

(** The state between staging and the replacement of the pointer. *)
Record staged_state (s : St) (old : option (N * bytes)) (data : bytes)
    (c : EncryptedRecordV1) : Prop := {
  ss_good : good b s;
  ss_new : generation_holds b (s_disk s) file g data c;
  ss_old : forall h d, old = Some (h, d) -> recoverable b (s_disk s) file h d;
}.

(** The outcome of a flush: the new data, or, unless it succeeded, the old. *)
Definition old_or_new {A} (r : result StorageError A) (d : Disk) (old : option (N * bytes))
    (data : bytes) : Prop :=
  pointer_reads b d (selected_path b file) file g data \/
  (is_ok r = false /\ forall h od, old = Some (h, od) -> recoverable b d file h od).

Lemma selected_ne_prior : selected_path b file <> prior_path b file.
Proof. intros E. by apply in_file_dir_inj in E. Qed.

Definition prior_known (d : Disk) (old : option (N * bytes)) : Prop :=
  forall h od, old = Some (h, od) -> pointer_reads b d (prior_path b file) file h od.

(** [retain_prior] leaves the prior pointer at the old generation. *)
Lemma retain_prior_run s r s' old data c :
  retain_prior file s = (r, s') -> staged_state s old data c ->
  staged_state s' old data c /\ (r = Ok tt -> prior_known (s_disk s') old).
Proof.
  unfold retain_prior. intros H [Hgood Hnew Hold].
  apply bind_run in H as [(t & s0 & [= <- <-] & H)|(e & ? & _)]; [|done].
  change (selected_path (s_store s)) with (selected_path (base (s_store s))) in H.
  change (prior_path (s_store s)) with (prior_path (base (s_store s))) in H.
  change (file_dir (s_store s)) with (file_dir (base (s_store s))) in H.
  rewrite (proj1 Hgood) in H. destruct (fs_exists _ _) eqn:Hex.
  2:{ apply pair_eq in H as [<- <-]. split; [done|]. intros _ h d E.
      specialize (Hold h d E). unfold recoverable, recovery_pointer in Hold. by rewrite Hex in Hold. }
  set (W q := q = prior_path b file \/ q = marker_path (file_dir b file)).
  assert (within b W (_ ← lift_io (fs_copy (selected_path b file) (prior_path b file));
    flush_directory_marker (file_dir b file))) as Hw.
  { apply within_bind; [eapply within_io; [apply fs_copy_within|intros q <-; by left]|].
    intros _. apply within_marker. by right. }
  specialize (Hw s (proj1 Hgood)). rewrite H in Hw. simpl in Hw.
  assert (forall h n, ~ W (generation_dir b file h ++ [n])) as HWg.
  { intros h n [E|E]; symmetry in E; by apply file_dir_gen_ne in E. }
  assert (~ W (selected_path b file)) as HWs.
  { intros [E|E]; [by apply selected_ne_prior in E|by apply in_file_dir_inj in E]. }
  pose proof (to_agree _ _ _ (sr_world _ _ _ Hw)) as Hag.
  split; [split; [by eapply good_step|by eapply generation_holds_agree|]|].
  - intros h d E. specialize (Hold h d E). unfold recoverable, recovery_pointer in *.
    unfold s_disk in *. rewrite (proj2 (Hag _ HWs)), Hex. rewrite Hex in Hold.
    eapply pointer_reads_move; [|exact Hag|by apply HWg|exact Hold].
    by apply (read_record_agree W).
  - intros -> h d E. specialize (Hold h d E). unfold recoverable, recovery_pointer in Hold.
    rewrite Hex in Hold. eapply pointer_reads_move; [|exact Hag|by apply HWg|exact Hold].
    apply bind_Ok in H as ([] & s1 & H1 & H2). apply lift_io_Ok in H1 as (w1 & H1 & ->).
    pose proof (within_marker b (fun q => q = marker_path (file_dir b file)) (file_dir b file) eq_refl
      (mkSt (s_store s) w1) (proj1 Hgood)) as Hm. rewrite H2 in Hm. simpl in Hm.
    pose proof (to_agree _ _ _ (sr_world _ _ _ Hm)) as Hag2. simpl in Hag2.
    rewrite (read_record_agree _ _ _ _ Hag2) by (intros E'; by apply in_file_dir_inj in E').
    apply io_copy_Ok in H1; [|apply Hgood]. unfold read_record in *. by rewrite H1.
Qed.

(** A step that touches neither the pointers nor the generations keeps what is
    known of them. *)
Definition harmless (W : fspath -> Prop) : Prop :=
  (forall h n, ~ W (generation_dir b file h ++ [n])) /\
  ~ W (selected_path b file) /\ ~ W (prior_path b file).

Lemma harmless_name n :
  n <> lit "selected.commit" -> n <> lit "previous.commit" ->
  harmless (fun q => q = (file_dir b file ++ [n])).
Proof.
  intros H1 H2. repeat split.
  - intros h m E. symmetry in E. by apply file_dir_gen_ne in E.
  - intros E. by apply in_file_dir_inj in E as <-.
  - intros E. by apply in_file_dir_inj in E as <-.
Qed.

Lemma harmless_tmp : harmless (fun q => q = selected_tmp_path b file g).
Proof. by apply harmless_name. Qed.

Lemma harmless_marker : harmless (fun q => q = marker_path (file_dir b file)).
Proof. by apply harmless_name. Qed.

Lemma staged_state_step W s s' old data c :
  harmless W -> step_rel W s s' -> staged_state s old data c -> staged_state s' old data c.
Proof.
  intros (HWg & HWs & HWp) Hw [Hgood Hnew Hold].
  pose proof (to_agree _ _ _ (sr_world _ _ _ Hw)) as Hag.
  split; [by eapply good_step|by eapply generation_holds_agree|].
  intros h d E. eapply recoverable_agree; eauto.
Qed.

Lemma prior_known_step W s s' old :
  harmless W -> step_rel W s s' -> prior_known (s_disk s) old -> prior_known (s_disk s') old.
Proof.
  intros (HWg & HWs & HWp) Hw Hp h od E.
  pose proof (to_agree _ _ _ (sr_world _ _ _ Hw)) as Hag.
  eapply pointer_reads_move; [|exact Hag|by apply HWg|by apply Hp].
  by apply (read_record_agree W).
Qed.

Lemma old_or_new_step {A} (r : result StorageError A) W s s' old data :
  harmless W -> step_rel W s s' -> old_or_new r (s_disk s) old data ->
  old_or_new r (s_disk s') old data.
Proof.
  intros (HWg & HWs & HWp) Hw. pose proof (to_agree _ _ _ (sr_world _ _ _ Hw)) as Hag.
  intros [Hnew|[Hr Hold]].
  - left. eapply pointer_reads_move; [|exact Hag|by apply HWg|exact Hnew].
    by apply (read_record_agree W).
  - right. split; [done|]. intros h od E. eapply recoverable_agree; eauto.
Qed.

Lemma staged_failed {A} e s old data c :
  staged_state s old data c -> old_or_new (Err e : result StorageError A) (s_disk s) old data.
Proof. intros [_ _ Hold]. by right. Qed.

(** Once the selected pointer is gone the prior one is what recovery uses. *)
Lemma unselected_failed {A} e d old data :
  fs_exists d (selected_path b file) = false -> prior_known d old ->
  old_or_new (Err e : result StorageError A) d old data.
Proof.
  intros Hex Hp. right. split; [done|]. intros h od E. specialize (Hp h od E).
  unfold recoverable, recovery_pointer. by rewrite Hex.
Qed.

Lemma harmless_pointer_rename s s' r old data c :
  lift_io (fs_rename (selected_tmp_path b file g) (selected_path b file)) s = (r, s') ->
  good b s -> generation_holds b (s_disk s) file g data c ->
  read_record (s_disk s) (selected_tmp_path b file g) = Ok c ->
  (forall e, old_or_new (Err e : result StorageError unit) (s_disk s) old data) ->
  old_or_new r (s_disk s') old data.
Proof.
  intros H Hgood Hnew Htmp Herr. apply lift_io_run in H as (r0 & w & H & -> & ->).
  destruct r0 as [[]|k].
  - left. pose proof (fs_rename_within (selected_tmp_path b file g)
      (selected_path b file) (s_world s)) as Hw. rewrite H in Hw. simpl in Hw.
    apply (generation_holds_reads _ _ _ _ _ _ c).
    + eapply generation_holds_agree; [apply Hw| |done].
      intros n [E|E]; symmetry in E; by apply file_dir_gen_ne in E.
    + destruct (read_record_read _ _ _ Htmp) as [x Hx].
      apply io_rename_Ok with (c := x) in H; [|apply Hgood|done].
      unfold read_record, s_disk in *. simpl. by rewrite H, <- Hx.
  - apply io_rename_Err in H. unfold s_disk in *. simpl. rewrite H. apply Herr.
Qed.

Lemma old_or_new_err {A B} (r : result StorageError A) (e : StorageError) d old data :
  old_or_new r d old data -> is_ok r = false ->
  old_or_new (Err e : result StorageError B) d old data.
Proof. intros [H|[_ H]] _; [by left|by right]. Qed.

(** After a published pointer a later failure still leaves the new data. *)
Lemma old_or_new_ok_any {A B} (a : A) (r : result StorageError B) d old data :
  old_or_new (Ok a) d old data -> old_or_new r d old data.
Proof. intros [H|[? _]]; [by left|done]. Qed.

Lemma step_of {A} W (m : store_m A) s r s' :
  within b W m -> base (s_store s) = b -> m s = (r, s') -> step_rel W s s'.
Proof. intros Hw Hs Hm. specialize (Hw s Hs). by rewrite Hm in Hw. Qed.

Definition nowhere (q : fspath) : Prop := False.

Lemma harmless_nowhere : harmless nowhere.
Proof. repeat split; unfold nowhere; naive_solver. Qed.

(** Removing the selected pointer, when it is there. *)
Lemma remove_selected_run s r s' old data c :
  (if fs_exists (s_disk s) (selected_path b file)
   then lift_io (fs_remove_file (selected_path b file)) else mret tt) s = (r, s') ->
  staged_state s old data c -> prior_known (s_disk s) old ->
  match r with
  | Ok _ => step_rel (eq (selected_path b file)) s s' /\
            (forall e, old_or_new (Err e : result StorageError unit) (s_disk s') old data)
  | Err e => old_or_new (Err e : result StorageError unit) (s_disk s') old data
  end.
Proof.
  intros H Hs Hp. destruct (fs_exists _ _) eqn:Hex.
  - pose proof (step_of (eq (selected_path b file)) _ _ _ _
      (within_io b _ _ _ (fs_remove_file_within _) (fun q E => E)) (proj1 (ss_good _ _ _ _ Hs)) H) as Hw.
    apply lift_io_run in H as (r0 & w & H & -> & ->). destruct r0 as [[]|k].
    + simpl. split; [done|]. intros e. right. split; [done|]. intros h od E.
      pose proof (ss_old _ _ _ _ Hs h od E) as Hsel. unfold recoverable, recovery_pointer in Hsel.
      rewrite Hex in Hsel. destruct (pointer_reads_read _ _ _ _ _ _ Hsel) as [x Hx%fs_read_not_dir].
      apply io_remove_Ok in H; [|done].
      pose proof (to_agree _ _ _ (sr_world _ _ _ Hw)) as Hag.
      unfold recoverable, recovery_pointer. unfold s_disk at 2. simpl in *. rewrite H.
      eapply pointer_reads_move; [|exact Hag| |exact (Hp h od E)].
      * apply (read_record_agree _ _ _ _ Hag). apply selected_ne_prior.
      * intros n E'. by apply file_dir_gen_ne in E'.
    + simpl. apply io_remove_Err in H. unfold s_disk. simpl. rewrite H.
      exact (staged_failed _ _ _ _ _ Hs).
  - apply pair_eq in H as [<- <-]. split; [apply step_rel_refl|]. intros e.
    by apply unselected_failed.
Qed.

(** Ready to replace the pointer. *)
Definition ready (s : St) (old : option (N * bytes)) (data : bytes) (c : EncryptedRecordV1) : Prop :=
  staged_state s old data c /\ prior_known (s_disk s) old.

Lemma ready_step {A} W (m : store_m A) s r s' old data c :
  within b W m -> harmless W -> m s = (r, s') -> ready s old data c -> ready s' old data c.
Proof.
  intros Hw HW Hm [Hs Hp].
  pose proof (step_of W m s r s' Hw (proj1 (ss_good _ _ _ _ Hs)) Hm) as Hstep.
  split; [by eapply staged_state_step|by eapply prior_known_step].
Qed.

Lemma replace_pointer_run s r s' old data c :
  replace_pointer file g c s = (r, s') -> ready s old data c ->
  old_or_new r (s_disk s') old data.
Proof.
  unfold replace_pointer. intros H Hs.
  assert (base (s_store s) = b) as Hb by apply Hs.
  apply bind_run in H as [(t & s0 & [= <- <-] & H)|(e & ? & _)]; [|done].
  change (selected_path (s_store s)) with (selected_path (base (s_store s))) in H.
  change (selected_tmp_path (s_store s)) with (selected_tmp_path (base (s_store s))) in H.
  rewrite Hb in H. clear Hb.
  apply bind_run in H as [([] & s1 & H1 & H)|(e & H1 & ->)];
    apply (ready_step nowhere _ _ _ _ _ _ _ (within_hit _ _ _) harmless_nowhere) with (2 := Hs) in H1.
  2:{ by eapply staged_failed, H1. }
  apply bind_run in H as [([] & s2 & H2 & H)|(e & H2 & ->)];
    pose proof (ready_step _ _ _ _ _ _ _ _ (within_write_record b (fun q => q = selected_tmp_path b file g) _ _ eq_refl)
      harmless_tmp H2 H1) as Hs2.
  2:{ by eapply staged_failed, Hs2. }
  assert (read_record (s_disk s2) (selected_tmp_path b file g) = Ok c) as Htmp.
  { destruct (gh_commit _ _ _ _ _ _ (ss_new _ _ _ _ (proj1 Hs2))) as (plain & Hse & Hcd).
    apply commit_decode_iff in Hcd as [_ Hcl%commit_encode_len]. simpl in Hcl.
    eapply (write_sealed_Ok b file g Commit 0 plain); try done.
    - apply (ss_good _ _ _ _ (proj1 Hs2)).
    - unfold u64_max, u16_max in *. lia. }
  apply bind_run in H as [(t & s3 & [= <- <-] & H)|(e & ? & _)]; [|done].
  apply bind_run in H as [([] & s4 & H4 & H)|(e & H4 & ->)];
    pose proof (remove_selected_run _ _ _ _ _ _ H4 (proj1 Hs2) (proj2 Hs2)) as H4'.
  2:{ eapply old_or_new_err; [exact H4'|done]. }
  destruct H4' as [W4 Herr].
  assert (good b s4) as Hgood4 by (eapply good_step; [done|apply (proj1 Hs2)]).
  pose proof (to_agree _ _ _ (sr_world _ _ _ W4)) as Hag4.
  assert (generation_holds b (s_disk s4) file g data c) as Hnew4.
  { eapply generation_holds_agree; [exact Hag4| |apply (proj1 Hs2)].
    intros n E. by apply file_dir_gen_ne in E. }
  assert (read_record (s_disk s4) (selected_tmp_path b file g) = Ok c) as Htmp4.
  { unfold s_disk. rewrite (read_record_agree _ _ _ _ Hag4); [done|].
    intros E. by apply in_file_dir_inj in E. }
  apply bind_run in H as [([] & s5 & H5 & H)|(e & H5 & ->)];
    pose proof (harmless_pointer_rename _ _ _ _ _ _ H5 Hgood4 Hnew4 Htmp4 Herr) as H5'.
  2:{ eapply old_or_new_err; [exact H5'|done]. }
  apply old_or_new_ok_any with (r := r) in H5'. eapply old_or_new_step; [apply harmless_nowhere| |done].
  eapply step_of; [apply within_hit| |exact H].
  apply lift_io_Ok in H5 as (w & _ & ->). apply Hgood4.
Qed.

(** The directory flush and the bookkeeping after publication. *)
Lemma within_replace_pointer c :
  within b (fun q => q = selected_path b file \/ q = selected_tmp_path b file g)
    (replace_pointer file g c).
Proof.
  clear Hsid Hfid Hg. unfold replace_pointer. within_step. within_step.
  apply within_bind; [apply within_write_record; right; reflexivity|intros _].
  apply within_gets_state. intros s2 Hs2. apply within_bind.
  { destruct (fs_exists _ _); [|within_step].
    eapply within_io; [apply fs_remove_file_within|]. intros q <-. by left. }
  intros _. apply within_bind; [|intros _; within_step].
  eapply within_io; [apply fs_rename_within|]. intros q [->| ->]; [by right|by left].
Qed.

(** ** The whole flush *)

Lemma within_staging_dirs :
  within b staging (lift_io (fs_create_dir_all (generation_dir b file g))).
Proof. eapply within_io; [apply fs_create_dir_all_within|]. intros q Hq. by left. Qed.

Lemma within_staging_chunks data : within b staging (flush_chunks file g data).
Proof.
  eapply within_mono; [|by apply within_flush_chunks]. intros q (j & _ & ->). right. by eexists.
Qed.

Lemma within_staging_manifest data acc : within b staging (flush_manifest file g data acc).
Proof. eapply within_mono; [|by apply within_flush_manifest]. intros q ->. right. by eexists. Qed.

Lemma within_staging_commit acc : within b staging (flush_commit file g acc).
Proof. eapply within_mono; [|by apply within_flush_commit]. intros q ->. right. by eexists. Qed.

(** The old content is there throughout staging. *)
Definition old_known (d : Disk) (old : option (N * bytes)) : Prop :=
  forall h od, old = Some (h, od) -> recoverable b d file h od /\ h <> g.

Lemma old_known_step s s' old :
  step_rel staging s s' -> old_known (s_disk s) old -> old_known (s_disk s') old.
Proof.
  intros Hw Hold h od E. destruct (Hold h od E) as [Hr Hne]. split; [|done].
  eapply recoverable_agree; [apply (to_agree _ _ _ (sr_world _ _ _ Hw))| | | |done].
  - intros n. by apply staging_other.
  - by apply staging_pointer.
  - by apply staging_pointer.
Qed.

(** One framed step of staging: the run continues in a good state that still
    knows the old content, or it stops there. *)
Lemma staging_bind {A B} (m : store_m A) (k : A -> store_m B) s r s' old data :
  (m ≫= k) s = (r, s') -> within b staging m -> good b s -> old_known (s_disk s) old ->
  (exists a s1, m s = (Ok a, s1) /\ k a s1 = (r, s') /\ good b s1 /\
     step_rel staging s s1 /\ old_known (s_disk s1) old) \/
  old_or_new r (s_disk s') old data.
Proof.
  intros H Hw Hgood Hold. apply bind_run in H as [(a & s1 & Hm & H)|(e & Hm & ->)];
    pose proof (step_of staging m s _ _ Hw (proj1 Hgood) Hm) as Hstep.
  - left. exists a, s1. split; [done|]. split; [done|]. split; [by eapply good_step|].
    split; [done|by eapply old_known_step].
  - right. right. split; [done|]. intros h od E. by eapply old_known_step.
Qed.

Lemma chunk_size_pos : 0 < CHUNK_SIZE.
Proof. done. Qed.

(** Staging the chunks, the manifest and the commit record. *)
Lemma stage_generation s1 s2 s3 s4 data acc acc1 acc2 c trace :
  flush_chunks file g data s1 = (Ok acc, s2) -> good b s1 ->
  flush_manifest file g data (mkAcc (fa_nonces acc) (fa_nonce_list acc) (fa_lengths acc)
    (fa_chunk_count acc) trace) s2 = (Ok acc1, s3) -> good b s2 ->
  flush_commit file g acc1 s3 = (Ok (c, acc2), s4) -> good b s3 ->
  len data <= u64_max -> generation_holds b (s_disk s4) file g data c.
Proof.
  intros Hch G1 Hm G2 Hc G3 Hd.
  assert (Forall (fun c => len c <= CHUNK_SIZE) (chunks CHUNK_SIZE data)) as Hsz.
  { apply Forall_forall. intros x Hx. apply (chunks_sizes _ _ _ chunk_size_pos) in Hx. lia. }
  pose proof (step_of _ _ _ _ _ (within_flush_manifest b file g data _) (proj1 G2) Hm) as Wm.
  pose proof (step_of _ _ _ _ _ (within_flush_commit b file g acc1) (proj1 G3) Hc) as Wc.
  apply flush_chunks_Ok with (b := b) in Hch as (rs & Hat & Hl & Hnd & Hin & Hndr & _ & _);
    [|done..|pose proof (chunks_count CHUNK_SIZE data chunk_size_pos); lia|done|constructor].
  simpl in Hl. apply flush_manifest_Ok with (b := b) in Hm as (m & mp & Hma & Hms & Hmd & Hn1 & Hni1);
    [|try done..].
  2:{ simpl. rewrite Hl. apply Forall_map. eapply Forall_impl; [exact Hsz|].
      intros x Hx. simpl in *. unfold CHUNK_SIZE, u64_max in *. lia. }
  simpl in *. apply flush_commit_Ok with (b := b) in Hc as (Hca & Hcs & Hni2); [|done..].
  pose proof (to_agree _ _ _ (sr_world _ _ _ Wm)) as Am.
  pose proof (to_agree _ _ _ (sr_world _ _ _ Wc)) as Ac.
  split; [done|done|]. exists m, mp, (chunks CHUNK_SIZE data), rs.
  rewrite Hl in Hmd. rewrite Hn1 in Hni2. split.
  { unfold s_disk. rewrite (read_record_agree _ _ _ _ Ac); [done|].
    by intros [_ ?]%generation_dir_inj. }
  split; [done|]. split; [done|]. split; [by apply chunks_concat|]. split.
  - eapply chunks_at_agree; [exact Ac| |].
    { intros j _ [_ ?]%generation_dir_inj. done. }
    eapply chunks_at_agree; [exact Am| |done].
    intros j _ [_ ?]%generation_dir_inj. done.
  - constructor; [|constructor; [|done]].
    + intros [E|Hx]%elem_of_cons; apply Hni2; [rewrite E; left|right; by apply Hin].
    + intros Hx. apply Hni1. by apply Hin.
Qed.

(** The directory flush and the bookkeeping after publication. *)
Lemma finish_run (out : CommitOutcome) s r s' old data (u : unit) :
  (_ ← hit BeforeDirectoryFlush;
   _ ← flush_directory_marker (file_dir b file);
   _ ← hit AfterDirectoryFlush;
   _ ← update (fun t => set_staged (delete file (st_staged t)) t);
   mret out) s = (r, s') ->
  base (s_store s) = b -> old_or_new (Ok u : result StorageError unit) (s_disk s) old data ->
  old_or_new r (s_disk s') old data.
Proof.
  intros H Hb O. apply old_or_new_ok_any with (r := r) in O.
  assert (forall (A : Type) (m : store_m A) x (s1 s2 : St),
    within b (fun q => q = marker_path (file_dir b file)) m -> base (s_store s1) = b ->
    m s1 = (x, s2) -> old_or_new r (s_disk s1) old data ->
    base (s_store s2) = b /\ old_or_new r (s_disk s2) old data) as Hstep.
  { intros A m x s1 s2 Hw H1 Hm Ho. pose proof (step_of _ _ _ _ _ Hw H1 Hm) as W.
    split; [by rewrite (sr_base _ _ _ W)|]. by eapply old_or_new_step; [apply harmless_marker| |]. }
  apply bind_run in H as [([] & s1 & H1 & H)|(e & H1 & ->)];
    apply Hstep in H1 as [B1 O1]; try (apply within_hit || done).
  apply bind_run in H as [([] & s2 & H2 & H)|(e & H2 & ->)];
    apply Hstep in H2 as [B2 O2]; try (by apply within_marker || done).
  apply bind_run in H as [([] & s3 & H3 & H)|(e & H3 & ->)];
    apply Hstep in H3 as [B3 O3]; try (apply within_hit || done).
  apply bind_run in H as [([] & s4 & [= <-] & H)|(e & ? & _)]; [|done].
  by apply pair_eq in H as [_ <-].
Qed.

(** Every run of [flush_file], whatever fails. *)
Lemma flush_file_run s r s' data old :
  flush_file file s = (r, s') -> good b s -> st_staged b !! file = Some data ->
  len data <= u64_max -> w_next_generation (s_world s) = g ->
  old_known (s_disk s) old -> old_or_new r (s_disk s') old data.
Proof.
  unfold flush_file. intros H G Hst Hd Hgen Hold.
  assert (forall e, old_or_new (Err e : result StorageError CommitOutcome) (s_disk s) old data) as Herr.
  { intros e. right. split; [done|]. intros h od E. apply (Hold h od E). }
  assert (forall f file g, generation_dir (s_store s) f file = generation_dir b f file /\
    file_dir (s_store s) g = file_dir b g) as Hdirs.
  { intros. rewrite <- (proj1 G). done. }
  apply bind_run in H as [(t & s0 & [= <- <-] & H)|(e & ? & _)]; [|done].
  destruct (Hdirs file g file) as [Hgd Hfd]. rewrite Hfd in H.
  apply bind_run in H as [([] & s0 & H0 & H)|(e & H0 & ->)].
  2:{ destruct (st_fail_next_write _); [|done]. apply bind_run in H0 as [(? & ? & [= <- <-] & [= <- <-])|(? & ? & ?)];
      [apply Herr|done]. }
  assert (s0 = s) as ->.
  { destruct (st_fail_next_write _); [by apply bind_Ok in H0 as (? & ? & ? & ?)|].
    by apply pair_eq in H0 as [_ <-]. }
  assert (st_staged (s_store s) !! file = Some data) as Hst' by by rewrite <- (proj1 G) in Hst.
  rewrite Hst' in H. cbn [ok_or] in H.
  apply bind_run in H as [(x & s0 & [= <- <-] & H)|(e & ? & _)]; [|done].
  apply bind_run in H as [(x & s1 & [= <- <-] & H)|(e & ? & _)]; [|done].
  rewrite Hgen, Hgd in H. set (s1 := mkSt (s_store s) _) in H.
  assert (good b s1) as G1 by exact G. assert (old_known (s_disk s1) old) as Hold1 by exact Hold.
  apply staging_bind with (old := old) (data := data) in H as [([] & s2 & _ & H & G2 & _ & K2)|?];
    [|done|apply within_staging_dirs|done|done].
  apply staging_bind with (old := old) (data := data) in H as [(acc & s3 & H3 & H & G3 & _ & K3)|?];
    [|done|apply within_staging_chunks|done|done].
  apply staging_bind with (old := old) (data := data) in H as [(acc1 & s4 & H4 & H & G4 & _ & K4)|?];
    [|done|apply within_staging_manifest|done|done].
  apply staging_bind with (old := old) (data := data) in H as [([c acc2] & s5 & H5 & H & G5 & _ & K5)|?];
    [|done|apply within_staging_commit|done|done].
  pose proof (stage_generation _ _ _ _ _ _ _ _ _ _ H3 G2 H4 G3 H5 G4 Hd) as Hnew.
  assert (staged_state s5 old data c) as S5.
  { split; [done|done|]. intros h od E. apply (K5 h od E). }
  apply bind_run in H as [([] & s6 & H6 & H)|(e & H6 & ->)];
    pose proof (retain_prior_run _ _ _ _ _ _ H6 S5) as [S6 P6]; [|by eapply staged_failed].
  apply bind_run in H as [([] & s7 & H7 & H)|(e & H7 & ->)];
    pose proof (replace_pointer_run _ _ _ _ _ _ H7 (conj S6 (P6 eq_refl))) as O7;
    [|by eapply old_or_new_err].
  pose proof (step_of _ _ _ _ _ (within_replace_pointer c) (proj1 (ss_good _ _ _ _ S6)) H7) as W7.
  by eapply finish_run; [exact H| |exact O7]; rewrite (sr_base _ _ _ W7); apply S6.
Qed.
End Publish.

(** ** The configuration of a store *)

(** What a read of the file half depends on: root, identity and key. *)
Definition bare (t : LocalEncryptedStore) : LocalEncryptedStore :=
  mkStore (st_root t) (st_identity t) (st_key t) ∅ ∅ ∅ ∅ ∅ 0 false fault_default.

Lemma bare_base t : bare (base t) = bare t.
Proof. done. Qed.

(** A projection of the store that ignores the fault seam. *)
Definition projection {X} (f : LocalEncryptedStore -> X) : Prop := forall t, f (base t) = f t.

Section KeepsStore.
Context {X : Type} (f : LocalEncryptedStore -> X) (Hf : projection f).
Let on_store (s : St) : X := f (s_store s).

Lemma keeps_within {A} (m : store_m A) :
  (forall b, exists W, within b W m) -> keeps on_store m.
Proof using Hf.
  intros H s. destruct (H (base (s_store s))) as [W Hw]. specialize (Hw s eq_refl).
  unfold on_store. rewrite <- Hf, (sr_base _ _ _ Hw). apply Hf.
Qed.

Lemma keeps_io {A} (m : io A) : keeps on_store (lift_io m).
Proof. intros s. unfold lift_io. by destruct (m (s_world s)). Qed.

Lemma keeps_hit p : keeps on_store (hit p).
Proof using Hf. apply keeps_within. intros b. exists nowhere. apply within_hit. Qed.

Lemma keeps_update g : (forall t, f (g t) = f t) -> keeps on_store (update g).
Proof. intros H s. apply H. Qed.

Lemma keeps_marker dir : keeps on_store (flush_directory_marker dir).
Proof.
  unfold flush_directory_marker. repeat (apply keeps_bind; [apply keeps_io|intros _]).
  apply keeps_io.
Qed.

Lemma keeps_write_record p r : keeps on_store (write_record p r).
Proof.
  unfold write_record. apply keeps_bind; [apply keeps_lift|intros b].
  repeat (apply keeps_bind; [apply keeps_io|intros _]). apply keeps_io.
Qed.

Lemma keeps_retain_prior file : keeps on_store (retain_prior file).
Proof.
  unfold retain_prior. apply keeps_bind; [apply keeps_gets|intros s].
  case_match; [|apply keeps_ret]. apply keeps_bind; [apply keeps_io|intros _]. apply keeps_marker.
Qed.

(** A flush changes only the staged data and the fault seams. *)
Lemma keeps_flush_file `{Aead} file :
  (forall m t, f (set_staged m t) = f t) -> (forall c t, f (set_fail_next_write c t) = f t) ->
  keeps on_store (flush_file file).
Proof using Hf.
  intros Hst Hfn. unfold flush_file. apply keeps_bind; [apply keeps_gets|intros t].
  apply keeps_bind; [|intros _].
  { case_match; [|apply keeps_ret]. apply keeps_bind; [by apply keeps_update|].
    intros _. apply keeps_throw. }
  apply keeps_bind; [apply keeps_lift|intros data]. apply keeps_bind; [done|intros g].
  apply keeps_bind; [apply keeps_io|intros _].
  apply keeps_bind; [apply keeps_within; intros b; eexists; apply within_flush_chunks|intros acc].
  apply keeps_bind; [apply keeps_within; intros b; eexists; apply within_flush_manifest|intros acc1].
  apply keeps_bind; [apply keeps_within; intros b; eexists; apply within_flush_commit|intros [c acc2]].
  apply keeps_bind; [apply keeps_retain_prior|intros _].
  apply keeps_bind; [apply keeps_within; intros b; eexists; apply within_replace_pointer|intros _].
  apply keeps_bind; [apply keeps_hit|intros _]. apply keeps_bind; [apply keeps_marker|intros _].
  apply keeps_bind; [apply keeps_hit|intros _].
  apply keeps_bind; [by apply keeps_update|intros _]. apply keeps_ret.
Qed.
End KeepsStore.

Section ReadBare.
Context `{HA : Aead}.

Lemma read_chunks_bare t d file g i ls nonces out :
  read_chunks t d file g i ls nonces out = read_chunks (bare t) d file g i ls nonces out.
Proof.
  revert i nonces out. induction ls as [|l ls IH]; intros i nonces out; [done|].
  cbn [read_chunks]. change (generation_dir (bare t)) with (generation_dir t).
  change (ensure_identity (bare t)) with (ensure_identity t).
  change (st_key (bare t)) with (st_key t). same_reads. apply IH.
Qed.

Lemma read_from_pointer_bare t d p file :
  read_from_pointer t d p file = read_from_pointer (bare t) d p file.
Proof.
  unfold read_from_pointer. change (generation_dir (bare t)) with (generation_dir t).
  change (ensure_identity (bare t)) with (ensure_identity t).
  change (st_key (bare t)) with (st_key t). same_reads. by rewrite read_chunks_bare.
Qed.

Lemma read_bare t t' d file : bare t = bare t' -> read t d file = read t' d file.
Proof.
  intros E. unfold read. rewrite (read_from_pointer_bare t), (read_from_pointer_bare t').
  change (selected_path t) with (selected_path (bare t)).
  change (selected_path t') with (selected_path (bare t')). by rewrite E.
Qed.

Lemma keeps_bare_flush file s r s' :
  flush_file file s = (r, s') -> bare (s_store s') = bare (s_store s).
Proof.
  intros H. pose proof (keeps_flush_file bare (fun t => eq_refl) file
    (fun _ _ => eq_refl) (fun _ _ => eq_refl) s) as Hk. by rewrite H in Hk.
Qed.
End ReadBare.

(** ** Authenticated reads *)

Section Authentic.
Context `{HA : Aead}.

(** [plain] was decrypted under the store's key with associated data that names
    this store, file, generation, kind, position and length. *)
Definition authenticated (t : LocalEncryptedStore) (file : bytes) (g : N) (kind : RecordKind)
    (index : N) (plain : bytes) : Prop :=
  exists n c,
    aead_decrypt (st_key t) n (canonical_bytes (store_aad t file g kind index (len plain))) c
    = Some plain.

Lemma opened_authentic t r file kind index plain :
  ensure_identity t r file kind index = Ok tt -> record_open (st_key t) r = Ok plain ->
  authenticated t file (generation r) kind index plain /\ len plain = plaintext_length r.
Proof.
  intros (Hv & Hs & Hf & Hk & Hi)%ensure_identity_Ok Ho. unfold record_open in Ho.
  case_match; [done|]. unfold decrypt, ok_or in Ho.
  destruct (aead_decrypt _ _ _ _) as [p|] eqn:Hd; [|done]. simpl in Ho.
  destruct (len p =? plaintext_length r) eqn:Hl; [|done]. simpl in Ho. injection Ho as ->.
  apply N.eqb_eq in Hl. split; [|done]. exists (nonce r), (ciphertext r).
  rewrite <- Hd. unfold store_aad, aad. by rewrite Hv, Hs, Hf, Hk, Hi, Hl.
Qed.

Lemma read_chunks_authentic t d file g i ls nonces out data :
  read_chunks t d file g i ls nonces out = Ok data ->
  exists ps, data = out ++ concat ps /\ map len ps = ls /\
    forall j p, ps !! j = Some p -> authenticated t file g Chunk (i + N.of_nat j) p.
Proof.
  revert i nonces out. induction ls as [|l ls IH]; intros i nonces out H; cbn [read_chunks] in H.
  { injection H as <-. exists []. rewrite app_nil_r. split; [done|]. split; [done|].
    intros j p E. by rewrite lookup_nil in E. }
  destruct (CHUNK_SIZE <? l); [done|]. unfold mbind, result_bind in H.
  destruct (read_record _ _) as [r|]; [|done].
  destruct (ensure_identity t r file Chunk i) as [[]|] eqn:Hid; [|done].
  destruct (_ || _) eqn:Hg; [done|]. apply orb_false_iff in Hg as [Hg Hl].
  apply negb_false_iff, N.eqb_eq in Hg, Hl. destruct (map_err _ _) as [n'|]; [|done].
  destruct (record_open _ _) as [p|] eqn:Ho; [|done].
  destruct (opened_authentic _ _ _ _ _ _ Hid Ho) as [Ha Hpl].
  apply IH in H as (ps & -> & <- & Hps). exists (p :: ps).
  split; [by rewrite <- app_assoc|]. split; [simpl; congruence|].
  intros [|j] q E; simpl in E; simplify_eq.
  - by rewrite N.add_0_r.
  - replace (i + N.of_nat (S j)) with (i + 1 + N.of_nat j) by lia. by apply Hps.
Qed.

(** C2.  A read that succeeds returns only authenticated data: there is a
    generation [g] whose commit record, manifest and chunks were each decrypted
    under associated data naming this store, this file, [g], their kind and
    their position; the commit names [g] and this file, the manifest lists the
    lengths of the chunks and of the whole, and the result is the chunks in
    order. *)
Theorem read_authentic t d file data :
  read t d file = Ok data ->
  exists g ps mp cp,
    authenticated t file g Commit 0 cp /\ commit_decode cp = Ok (mkCommit g file) /\
    authenticated t file g Manifest 0 mp /\
    manifest_decode mp = Ok (mkManifest g file (len data) (map len ps)) /\
    (forall i p, ps !! i = Some p -> authenticated t file g Chunk (N.of_nat i) p) /\
    data = concat ps.
Proof.
  unfold read, read_from_pointer. intros H. unfold mbind, result_bind in H.
  destruct (read_record d (selected_path t file)) as [sel|]; [|done].
  destruct (ensure_identity t sel file Commit 0); [|done].
  destruct (record_open _ sel) as [p0|]; [|done].
  destruct (commit_decode p0) as [c|]; [|done].
  destruct (bool_decide (c_file_id c = file)) eqn:Hcf; [|done]. simpl in H.
  apply bool_decide_eq_true in Hcf.
  destruct (read_record d _) as [cr|]; [|done].
  destruct (ensure_identity t cr file Commit 0) as [[]|] eqn:Hci; [|done].
  destruct (generation cr =? c_generation c) eqn:Hcg; [|done]. simpl in H. apply N.eqb_eq in Hcg.
  destruct (record_open _ cr) as [cp|] eqn:Hco; [|done].
  destruct (commit_decode cp) as [c'|] eqn:Hcd; [|done].
  destruct (bool_decide (c' = c)) eqn:Hcc; [|done]. simpl in H. apply bool_decide_eq_true in Hcc as ->.
  destruct (read_record d _) as [mr|]; [|done].
  destruct (ensure_identity t mr file Manifest 0) as [[]|] eqn:Hmi; [|done].
  destruct (generation mr =? c_generation c) eqn:Hmg; [|done]. simpl in H. apply N.eqb_eq in Hmg.
  destruct (record_open _ mr) as [mp|] eqn:Hmo; [|done].
  destruct (manifest_decode mp) as [m|] eqn:Hmd; [|done].
  destruct (bool_decide (m_file_id m = file)) eqn:Hmf; [|done]. apply bool_decide_eq_true in Hmf.
  destruct (m_generation m =? c_generation c) eqn:Hmg2; [|done]. simpl in H. apply N.eqb_eq in Hmg2.
  destruct (map_err _ _) as [n1|]; [|done].
  destruct (read_chunks _ _ _ _ _ _ _ _) as [out|] eqn:Hrc; [|done].
  destruct (len out =? m_logical_length m) eqn:Hl; [|done]. simpl in H. injection H as ->.
  apply N.eqb_eq in Hl. apply read_chunks_authentic in Hrc as (ps & Hout & Hls & Hps).
  destruct (opened_authentic _ _ _ _ _ _ Hci Hco) as [Hca _]. rewrite Hcg in Hca.
  destruct (opened_authentic _ _ _ _ _ _ Hmi Hmo) as [Hma _]. rewrite Hmg in Hma.
  exists (c_generation c), ps, mp, cp. split; [done|].
  split; [rewrite Hcd, <- Hcf; by destruct c|]. split; [done|].
  split; [rewrite Hmd, Hl, Hls, <- Hmg2, <- Hmf; by destruct m|].
  split; [|done]. intros i p E. exact (Hps i p E).
Qed.
End Authentic.

(** ** Properties of publication *)

Section Properties.
Context `{HA : Aead, !AeadLaws HA}.

(** The identifiers are well formed, no file on disk is unreadable, nonces have
    their length and the generation counter is a [u64]. *)
Definition healthy (s : St) (file : bytes) : Prop :=
  identifier false (store_wire_id (s_store s)) /\ identifier false file /\
  readable (s_disk s) /\ (forall i, len (w_rng (s_world s) i) = NONCE_LENGTH) /\
  w_next_generation (s_world s) <= u64_max.

Lemma healthy_good s file :
  healthy s file ->
  identifier false (store_wire_id (base (s_store s))) /\ identifier false file /\
  w_next_generation (s_world s) <= u64_max /\ good (base (s_store s)) s.
Proof. intros (H1 & H2 & H3 & H4 & H5). by repeat split. Qed.

Lemma selected_recovery b file d g data :
  pointer_reads b d (selected_path b file) file g data ->
  recovery_pointer b file d = selected_path b file.
Proof.
  intros H. destruct (pointer_reads_read _ _ _ _ _ _ H) as [x Hx%fs_read_exists].
  unfold recovery_pointer. by rewrite Hx.
Qed.

Lemma read_from_pointer_base t d p file :
  read_from_pointer (base t) d p file = read_from_pointer t d p file.
Proof. by rewrite (read_from_pointer_bare (base t)), (read_from_pointer_bare t). Qed.

(** A disk operation, and any step within some paths, leaves the counter of
    generations alone. *)
Definition counter (s : St) : N := w_next_generation (s_world s).

Lemma counter_within {A} (m : store_m A) : (forall b, exists W, within b W m) -> keeps counter m.
Proof.
  intros H s. destruct (H (base (s_store s))) as [W Hw]. exact (to_generation _ _ _ (sr_world _ _ _ (Hw s eq_refl))).
Qed.

Lemma counter_io {A} W (m : io A) : io_within W m -> keeps counter (lift_io m).
Proof.
  intros H s. pose proof (to_generation _ _ _ (H (s_world s))) as Hw. unfold counter, lift_io.
  by destruct (m (s_world s)).
Qed.

Lemma counter_marker dir : keeps counter (flush_directory_marker dir).
Proof.
  unfold flush_directory_marker. apply keeps_bind; [eapply counter_io, fs_create_within|intros _].
  apply keeps_bind; [eapply counter_io, fs_write_all_within|intros _]. eapply counter_io, (fs_sync_within _ nowhere).
Qed.

Lemma counter_hit p : keeps counter (hit p).
Proof. apply counter_within. intros b. exists nowhere. apply within_hit. Qed.

(** A flush that gets as far as to change the disk has taken a generation. *)
Lemma flush_counter file s r s' :
  flush_file file s = (r, s') -> (s_disk s' = s_disk s /\ counter s' = counter s) \/ counter s' = wrapping_add64 (counter s) 1.
Proof.
  unfold flush_file. intros H.
  apply bind_run in H as [(t & s0 & [= <- <-] & H)|(e & ? & _)]; [|done].
  apply bind_run in H as [([] & s0 & H0 & H)|(e & H0 & ->)].
  2:{ left. case_match; [|done]. by apply bind_run in H0 as [(? & ? & [= <- <-] & [= <- <-])|(? & ? & ?)]. }
  assert (s0 = s) as ->.
  { case_match; [by apply bind_Ok in H0 as (? & ? & ? & ?)|]. by apply pair_eq in H0 as [_ <-]. }
  apply bind_run in H as [(x & s0 & Hx & H)|(e & Hx & ->)]; apply pair_eq in Hx as [_ <-]; [|by left].
  apply bind_run in H as [(g & s1 & [= <- <-] & H)|(e & ? & _)]; [|done]. right.
  match type of H with ?m ?x = _ => change (wrapping_add64 (counter s) 1) with (counter x);
    apply (keeps_run counter m x r s'); [|exact H] end.
  apply keeps_bind; [eapply counter_io, fs_create_dir_all_within|intros _].
  apply keeps_bind; [apply counter_within; intros b; eexists; apply within_flush_chunks|intros acc].
  apply keeps_bind; [apply counter_within; intros b; eexists; apply within_flush_manifest|intros acc1].
  apply keeps_bind; [apply counter_within; intros b; eexists; apply within_flush_commit|intros [c acc2]].
  apply keeps_bind.
  { unfold retain_prior. apply keeps_bind; [apply keeps_gets|intros s1].
    destruct (fs_exists _ _); [|apply keeps_ret].
    apply keeps_bind; [eapply counter_io, fs_copy_within|intros _]. apply counter_marker. }
  intros _. apply keeps_bind; [apply counter_within; intros b; eexists; apply within_replace_pointer|intros _].
  apply keeps_bind; [apply counter_hit|intros _]. apply keeps_bind; [apply counter_marker|intros _].
  apply keeps_bind; [apply counter_hit|intros _]. by apply keeps_bind.
Qed.

(** C1.  Publication is atomic under every failure, within one process.  Take a file
    whose recovery pointer (the selected pointer if it exists, else the prior one)
    reads as [old] from a generation other than the next one of the counter, and any
    plan of failures of the disk operations, partial writes included.  However
    [flush_file] ends, the recovery pointer then reads as the staged data or, if the
    flush reported an error, as [old].  The condition on the generation lasts as long
    as the process does: when the pointer's generation was below the counter, it is
    below it again after the flush.  It fails after a restart, when the counter begins
    at one again: then a flush can lose both contents (see
    [restart_flush_loses_data]). *)
Theorem flush_atomic file s r s' data old h :
  healthy s file ->
  st_staged (s_store s) !! file = Some data -> len data <= u64_max ->
  commit_generation (s_store s) (s_disk s)
    (recovery_pointer (s_store s) file (s_disk s)) file = Ok h ->
  h <> w_next_generation (s_world s) ->
  read_from_pointer (s_store s) (s_disk s)
    (recovery_pointer (s_store s) file (s_disk s)) file = Ok old ->
  flush_file file s = (r, s') ->
  let pointer := recovery_pointer (s_store s') file (s_disk s') in
  let found := read_from_pointer (s_store s') (s_disk s') pointer file in
  (found = Ok data \/ (is_ok r = false /\ found = Ok old)) /\
  (h < w_next_generation (s_world s) < u64_max ->
   exists h', commit_generation (s_store s') (s_disk s') pointer file = Ok h' /\
     h' < w_next_generation (s_world s')).
Proof.
  intros Hh Hst Hd Hc Hne Hr Hf. apply healthy_good in Hh as (Hs & Hfi & Hg & G).
  pose proof (keeps_bare_flush _ _ _ _ Hf) as Hk. pose proof (flush_counter _ _ _ _ Hf) as Hcount. unfold counter in Hcount.
  cbv zeta. rewrite (read_from_pointer_bare (s_store s')), Hk.
  change (recovery_pointer (s_store s')) with (recovery_pointer (bare (s_store s'))).
  change (commit_generation (s_store s')) with (commit_generation (bare (s_store s'))).
  rewrite Hk, <- read_from_pointer_bare.
  change (recovery_pointer (bare (s_store s))) with (recovery_pointer (base (s_store s))).
  change (commit_generation (bare (s_store s))) with (commit_generation (base (s_store s))).
  rewrite <- read_from_pointer_base. unfold wrapping_add64 in Hcount.
  destruct (flush_file_run _ _ _ Hs Hfi Hg s r s' data (Some (h, old)) Hf G Hst Hd eq_refl)
    as [Hn|[He Ho]].
  - intros h' od [= <- <-]. split; [|done]. split; [exact Hc|].
    by rewrite read_from_pointer_base.
  - rewrite (selected_recovery _ _ _ _ _ Hn). split; [left; apply Hn|]. intros Hlt.
    eexists. split; [apply Hn|]. destruct Hcount as [[Hsame _]| ->].
    + rewrite Hsame in Hn.
      change (recovery_pointer (s_store s)) with (recovery_pointer (base (s_store s))) in Hc.
      rewrite (selected_recovery _ _ _ _ _ Hn) in Hc. destruct Hn as [Hn _].
      change (commit_generation (s_store s)) with (commit_generation (base (s_store s))) in Hc. congruence.
    + rewrite N.mod_small; unfold u64_max in Hlt; lia.
  - split; [right; split; [done|]; apply (Ho h old eq_refl)|]. intros Hlt.
    exists h. split; [apply (Ho h old eq_refl)|].
    destruct Hcount as [[_ ->]| ->]; [lia|]. rewrite N.mod_small; unfold u64_max in Hlt; lia.
Qed.

(** A successful flush leaves a selected pointer that reads as the staged data. *)
Lemma flush_pointer_reads file s out s' data :
  healthy s file ->
  st_staged (s_store s) !! file = Some data -> len data <= u64_max ->
  flush_file file s = (Ok out, s') ->
  pointer_reads (base (s_store s)) (s_disk s') (selected_path (s_store s) file) file
    (w_next_generation (s_world s)) data.
Proof.
  intros Hh Hst Hd Hf. apply healthy_good in Hh as (Hs & Hfi & Hg & G).
  destruct (flush_file_run _ _ _ Hs Hfi Hg s _ s' data None Hf G Hst Hd eq_refl)
    as [Hn|[He _]]; [done|exact Hn|done].
Qed.

(** What a successful flush stored is what a read returns: the selected
    pointer of the new state reads as the staged data. *)
Theorem flush_read_roundtrip file s out s' data :
  healthy s file ->
  st_staged (s_store s) !! file = Some data -> len data <= u64_max ->
  flush_file file s = (Ok out, s') ->
  read (s_store s') (s_disk s') file = Ok data.
Proof.
  intros Hh Hst Hd Hf. pose proof (keeps_bare_flush _ _ _ _ Hf) as Hk.
  rewrite (read_bare _ (base (s_store s))) by (by rewrite Hk).
  by apply (flush_pointer_reads file s out s' data).
Qed.
End Properties.

(** ** A concrete store *)

Module Scenario.

Definition nonce_stream (i : N) : bytes := to_le 12 (i + 1).
Definition healthy_plan (_ : N) : outcome := Done.
(** A plan that lets [n] disk operations through and fails the next. *)
Definition fails_at (n : N) (partial : option N) (i : N) : outcome :=
  if i =? n then Fail KOther partial else Done.

Definition root_path : fspath := [lit "r"].
Definition store_name : bytes := lit "store-1".
Definition empty_disk : Disk :=
  mkDisk ∅ (list_to_set (prefixes (root_path ++ [lit "stores"; store_name; lit "files"]))) ∅.
Definition world : World :=
  mkWorld empty_disk healthy_plan 0 nonce_stream 0 (fun i => i) 0 1 1 1 1.
Definition empty_store : LocalEncryptedStore :=
  mkStore root_path (mkIdentity (lit "S-1-5-21") store_name) (lit "key") ∅ ∅ ∅ ∅ ∅ 0 false
    fault_default.

Definition file : bytes := lit "file-1".

(** Stage [data] and set the plan. *)
Definition stage (data : bytes) (plan : N -> outcome) (s : St) : St :=
  let w := s_world s in
  mkSt (set_staged (<[file := data]> (st_staged (s_store s))) (s_store s))
    (mkWorld (w_disk w) plan 0 (w_rng w) (w_draws w) (w_clock w) (w_ticks w)
       (w_next_generation w) (w_next_file w) (w_next_handle w) (w_next_evidence w)).

(** The file holds one byte, published by a first flush. *)
Definition published : St :=
  snd (flush_file file (stage (lit "A") healthy_plan (mkSt empty_store world))).

Definition restart (s : St) : St := mkSt (s_store s) (fresh_process (s_world s)).

End Scenario.

Import Scenario.

Lemma flush_atomic_witness :
  let s := stage (lit "BB") (fails_at 18 None) published in
  let s' := snd (flush_file file s) in
  let found := read_from_pointer (s_store s') (s_disk s')
    (recovery_pointer (s_store s') file (s_disk s')) file in
  (found = Ok (lit "BB") \/ (is_ok (fst (flush_file file s)) = false /\ found = Ok (lit "A"))) /\
  found = Ok (lit "A").
Proof.
  cbv zeta. split; [|vm_compute; reflexivity].
  eapply (flush_atomic file (stage (lit "BB") (fails_at 18 None) published)
    _ _ (lit "BB") (lit "A") 1).
  - split; [vm_compute; reflexivity|]. split; [vm_compute; reflexivity|].
    split; [vm_compute; reflexivity|]. split; [|vm_compute; done].
    intros i. exact (len_to_le 12 (i + 1)).
  - vm_compute; reflexivity.
  - vm_compute; done.
  - vm_compute; reflexivity.
  - vm_compute; done.
  - vm_compute; reflexivity.
  - apply surjective_pairing.
Defined.

Lemma flush_read_roundtrip_witness :
  let s := stage (lit "hello") healthy_plan (mkSt empty_store world) in
  exists out s', flush_file file s = (Ok out, s') /\
    read (s_store s') (s_disk s') file = Ok (lit "hello").
Proof.
  cbv zeta. assert (is_ok (fst (flush_file file
    (stage (lit "hello") healthy_plan (mkSt empty_store world)))) = true) as Hok
    by (vm_compute; reflexivity).
  destruct (flush_file file (stage (lit "hello") healthy_plan (mkSt empty_store world)))
    as [[out|e] s'] eqn:E; [clear Hok|discriminate Hok].
  exists out, s'. split; [reflexivity|].
  eapply (flush_read_roundtrip file (stage (lit "hello") healthy_plan (mkSt empty_store world))
    out s' (lit "hello")); [|vm_compute; reflexivity|vm_compute; done|exact E].
  split; [vm_compute; reflexivity|]. split; [vm_compute; reflexivity|].
  split; [vm_compute; reflexivity|]. split; [|vm_compute; done].
  intros i. exact (len_to_le 12 (i + 1)).
Defined.

Lemma read_authentic_witness :
  exists g ps mp cp,
    authenticated (s_store published) file g Commit 0 cp /\
    commit_decode cp = Ok (mkCommit g file) /\
    authenticated (s_store published) file g Manifest 0 mp /\
    manifest_decode mp = Ok (mkManifest g file (len (lit "A")) (map len ps)) /\
    (forall i p, ps !! i = Some p ->
       authenticated (s_store published) file g Chunk (N.of_nat i) p) /\
    lit "A" = concat ps.
Proof.
  apply (read_authentic (s_store published) (s_disk published) file (lit "A")).
  vm_compute; reflexivity.
Defined.

(** ** Two failures of recovery *)

(** After a restart the generation counter is 1 again, the generation the file
    is published in: a flush of longer data that fails at the manifest has
    overwritten the committed chunk, and neither the old nor the new content
    can be read or recovered. *)
Theorem restart_flush_loses_data :
  read (s_store published) (s_disk published) file = Ok (lit "A") /\
  let s := stage (lit "BB") (fails_at 4 None) (restart published) in
  let '(r, s') := flush_file file s in
  r = Err IoFailure /\ read (s_store s') (s_disk s') file = Err IntegrityFailure /\
  fst (recover_store file s') = Err IntegrityFailure.
Proof. vm_compute. repeat split. Qed.

(** Recovery copies the prior pointer over the missing selected one in place: a
    copy that stops part-way leaves a selected pointer that does not decode, and
    recovery, which then never looks at the prior pointer again, keeps failing
    although the prior pointer still reads. *)
Theorem interrupted_recovery_is_stuck :
  let s := snd (flush_file file (stage (lit "BB") (fails_at 18 None) published)) in
  fs_exists (s_disk s) (selected_path (s_store s) file) = false /\
  let s1 := snd (recover_store file (stage (lit "BB") (fails_at 0 (Some 3)) s)) in
  let s2 := stage (lit "BB") healthy_plan s1 in
  fst (recover_store file s2) = Err IntegrityFailure /\
  read_from_pointer (s_store s2) (s_disk s2) (prior_path (s_store s2) file) file = Ok (lit "A").
Proof. vm_compute. repeat split. Qed.
