(* ===== verification/Namespace.v ===== *)
(** * Namespace

    The namespace half of [LocalEncryptedStore] (crates/dlp-storage/src/store.rs):
    directories, files and handles, their persistence as one encrypted text
    record, and the operations on paths and handles.  An operation that fails to
    persist restores the maps it changed, as the code does. *)

From S2P Require Import Prelude Bytes Text Effects Domain Crypto Format VPath Fs Store.

(** ** The persisted text *)

Definition tab : bytes := [x09].
Definition newline : bytes := [x0a].

Definition metadata_fields (m : EntryMetadata) : list bytes :=
  [dec (creation_time m); dec (last_access_time m); dec (last_write_time m); dec (change_time m)].

(** The line of a directory and of a file, without the newline. *)
Definition directory_line (key : bytes) (e : DirectoryEntry) : bytes :=
  join tab ([lit "D"; key; de_display e] ++ metadata_fields (de_metadata e)).
Definition file_line (key : bytes) (e : FileEntry) : bytes :=
  join tab ([lit "F"; key; fe_file_id e; fe_display e] ++ metadata_fields (fe_metadata e)).

Definition header_v2 : bytes := lit "dlp-namespace/v2".
Definition header_v1 : bytes := lit "dlp-namespace/v1".

Definition namespace_lines (directories : gmap bytes DirectoryEntry)
    (files : gmap bytes FileEntry) : list bytes :=
  header_v2
  :: map (fun '(key, e) => directory_line key e) (btree_iter directories)
  ++ map (fun '(key, e) => file_line key e)
       (filter (fun ke => fe_delete_pending ke.2 = false) (btree_iter files)).

(** Every line ends with a newline. *)
Definition namespace_text (directories : gmap bytes DirectoryEntry)
    (files : gmap bytes FileEntry) : bytes :=
  concat (map (fun l => l ++ newline) (namespace_lines directories files)).

Definition namespace_path (t : LocalEncryptedStore) : fspath :=
  store_dir t ++ [lit "namespace.rec"].
(** [target.with_extension(format!("{generation}.tmp"))]. *)
Definition namespace_tmp_path (t : LocalEncryptedStore) (generation : N) : fspath :=
  store_dir t ++ [lit "namespace." ++ dec generation ++ lit ".tmp"].

Definition NAMESPACE_FILE_ID : bytes := lit "namespace-index".

Definition namespace_aad (t : LocalEncryptedStore) (generation plaintext_length : N) : RecordAad :=
  mkRecordAad FORMAT_VERSION_V1 (store_wire_id t) NAMESPACE_FILE_ID generation Manifest 0
    plaintext_length.

Definition parse_metadata (creation access write change : bytes) :
    result StorageError EntryMetadata :=
  let field s := ok_or IntegrityFailure (parse_uint u64_max s) in
  creation ← field creation;
  access ← field access;
  write ← field write;
  change ← field change;
  Ok (mkMetadata creation access write change).

Section Namespace.
Context `{Aead} `{Sha256}.

Definition persist_namespace : store_m unit :=
  t ← gets s_store;
  let plaintext := namespace_text (st_directories t) (st_files t) in
  generation ← lift (ok_or IoFailure (checked_add64 (st_namespace_generation t) 1));
  n ← draw_nonce;
  '(record, _) ← lift (record_seal (st_key t) n
    (namespace_aad t generation (len plaintext)) plaintext []);
  _ ← write_record (namespace_tmp_path t generation) record;
  _ ← lift_io (fs_rename (namespace_tmp_path t generation) (namespace_path t));
  _ ← flush_directory_marker (store_dir t);
  update (set_namespace_generation generation).

(** ** Loading *)

Definition preserve_namespace_integrity_evidence : store_m unit :=
  s ← gets (fun s => s);
  let t := s_store s in
  let source := namespace_path t in
  if negb (fs_exists (s_disk s) source) then mret tt
  else
    _ ← lift_io (fs_create_dir_all (evidence_root t));
    n ← fetch_evidence;
    let dir := evidence_root t ++ [evidence_name n] in
    _ ← lift_io (fs_create_dir dir);
    s ← gets (fun s => s);
    b ← lift (map_err map_io (fs_read (s_disk s) source));
    _ ← fs_write (dir ++ [lit "r-00000000000000000001"]) b;
    let log := evidence_root t ++ [lit "diagnostics.log"] in
    _ ← lift_io (fs_open_append log);
    _ ← lift_io (fs_write_all log
          (evidence_line (evidence_name n) (sha256 b) (lit "NamespaceIntegrityFailure")));
    lift_io (fs_sync log).

(** [let _ = self.preserve_namespace_integrity_evidence(); return Err(...)]. *)
Definition integrity_failure {A} : store_m A :=
  _ ← try preserve_namespace_integrity_evidence;
  throw IntegrityFailure.

(** [BTreeMap::insert(..).is_some()]: a duplicate is an integrity failure. *)
Definition insert_directory (key : bytes) (e : DirectoryEntry) : store_m unit :=
  t ← gets s_store;
  _ ← update (fun t => set_directories (<[key := e]> (st_directories t)) t);
  if bool_decide (is_Some (st_directories t !! key)) then integrity_failure else mret tt.

Definition insert_file (key : bytes) (e : FileEntry) : store_m unit :=
  t ← gets s_store;
  _ ← update (fun t => set_files (<[key := e]> (st_files t)) t);
  if bool_decide (is_Some (st_files t !! key)) then integrity_failure else mret tt.

Definition nonempty (s : bytes) : bool := negb (bool_decide (s = [])).

(** One line of a version 2 record. *)
Definition load_line_v2 (line : bytes) : store_m unit :=
  match split_byte x09 line with
  | [tag; key; display; creation; access; write; change] =>
      if bool_decide (tag = lit "D") && nonempty key && nonempty display then
        metadata ← lift (parse_metadata creation access write change);
        insert_directory key (mkDirectoryEntry display metadata)
      else integrity_failure
  | [tag; key; file_id; display; creation; access; write; change] =>
      if bool_decide (tag = lit "F") && nonempty key && nonempty display then
        file_id ← lift (map_err (fun _ => IntegrityFailure) (FileId_parse file_id));
        metadata ← lift (parse_metadata creation access write change);
        insert_file key (mkFileEntry file_id display false metadata)
      else integrity_failure
  | _ => integrity_failure
  end.

(** One line of a version 1 record, which has no times. *)
Definition load_line_v1 (fallback : EntryMetadata) (line : bytes) : store_m unit :=
  match split_byte x09 line with
  | [tag; key; display] =>
      if bool_decide (tag = lit "D") && nonempty key && nonempty display then
        insert_directory key (mkDirectoryEntry display fallback)
      else integrity_failure
  | [tag; key; file_id; display] =>
      if bool_decide (tag = lit "F") && nonempty key && nonempty display then
        file_id ← lift (map_err (fun _ => IntegrityFailure) (FileId_parse file_id));
        insert_file key (mkFileEntry file_id display false fallback)
      else integrity_failure
  | _ => integrity_failure
  end.

Definition load_namespace_v2 (ls : list bytes) : store_m unit :=
  fold_m (fun _ line => load_line_v2 line) tt ls.

Definition load_namespace_v1 (ls : list bytes) : store_m unit :=
  now ← current_filetime;
  fold_m (fun _ line => load_line_v1 (mkMetadata now now now now) line) tt ls.

Definition load_namespace : store_m unit :=
  s ← gets (fun s => s);
  let t := s_store s in
  if negb (fs_exists (s_disk s) (namespace_path t)) then mret tt
  else
    raw ← lift (map_err map_io (fs_read (s_disk s) (namespace_path t)));
    match record_decode raw with
    | Err _ => integrity_failure
    | Ok record =>
        if negb (format_version record =? FORMAT_VERSION_V1)
           || negb (bool_decide (store_id record = store_wire_id t))
           || negb (bool_decide (file_id record = NAMESPACE_FILE_ID))
           || negb (bool_decide (record_kind record = Manifest))
           || negb (chunk_index record =? 0)
        then integrity_failure
        else
          match record_open (st_key t) record with
          | Err _ => integrity_failure
          | Ok plaintext =>
              _ ← ensure (utf8_valid plaintext) IntegrityFailure;
              _ ← match lines plaintext with
                  | header :: ls =>
                      if bool_decide (header = header_v2) then load_namespace_v2 ls
                      else if bool_decide (header = header_v1) then load_namespace_v1 ls
                      else integrity_failure
                  | [] => integrity_failure
                  end;
              update (set_namespace_generation (generation record))
          end
    end.

(** A store as [open] builds it, before the namespace is loaded. *)
Definition new_store (root : fspath) (identity : CapturedStoreIdentity) (key : bytes) :
    LocalEncryptedStore :=
  mkStore root identity key ∅ ∅ ∅ ∅ ∅ 0 false fault_default.

Definition open (root : fspath) (identity : CapturedStoreIdentity) (key : bytes) (w : World) :
    result StorageError LocalEncryptedStore * World :=
  let m :=
    _ ← lift_io (fs_create_dir_all (root ++ [lit "stores"; ci_store_id identity; lit "files"]));
    _ ← load_namespace;
    gets s_store in
  let '(r, s) := m (mkSt (new_store root identity key) w) in (r, s_world s).

Definition reopen (s : St) : result StorageError LocalEncryptedStore * World :=
  let t := s_store s in open (st_root t) (st_identity t) (st_key t) (s_world s).

(** ** Queries *)

Definition is_directory (t : LocalEncryptedStore) (path : VirtualPath) : bool :=
  bool_decide (lookup_key path = []) || bool_decide (is_Some (st_directories t !! lookup_key path)).

Definition require_parent (t : LocalEncryptedStore) (path : VirtualPath) :
    result StorageError unit :=
  match parent_key path with
  | None => Ok tt
  | Some parent =>
      if bool_decide (is_Some (st_directories t !! parent)) then Ok tt else Err NotFound
  end.

(** Whether some key of a map starts with a prefix. *)
Definition any_key_under {V} (prefix : bytes) (m : gmap bytes V) : bool :=
  existsb (fun kv => starts_with prefix kv.1) (map_to_list m).

Definition any_handle (f : HandleState -> bool) (m : gmap N HandleState) : bool :=
  existsb (fun kv => f kv.2) (map_to_list m).

Definition direct_child (key prefix : bytes) : bool :=
  match strip_prefix prefix key with
  | Some remainder => nonempty remainder && negb (has_byte x2f remainder)
  | None => false
  end.

(** [sort_by_key(|value| value.to_ascii_lowercase())], a stable sort. *)
Definition display_le (a b : bytes) : Prop :=
  bytes_le (to_ascii_lowercase a) (to_ascii_lowercase b).

#[local] Instance display_le_dec : RelDecision display_le.
Proof. intros a b. unfold display_le. apply _. Defined.

Definition read_directory (t : LocalEncryptedStore) (path : VirtualPath) :
    result StorageError (list bytes) :=
  if negb (is_directory t path) then Err NotFound
  else
    let prefix := if bool_decide (lookup_key path = []) then [] else lookup_key path ++ lit "/" in
    let ds := filter (fun ke => direct_child ke.1 prefix = true) (btree_iter (st_directories t)) in
    let fs := filter (fun ke => fe_delete_pending ke.2 = false /\ direct_child ke.1 prefix = true)
                (btree_iter (st_files t)) in
    Ok (merge_sort display_le
          (map (fun ke => de_display ke.2) ds ++ map (fun ke => fe_display ke.2) fs)).

(** [entry_metadata]; the root's times are the current time. *)
Definition entry_metadata (path : VirtualPath) : store_m EntryMetadata :=
  t ← gets s_store;
  if is_directory t path then
    if bool_decide (lookup_key path = []) then
      now ← current_filetime; mret (mkMetadata now now now now)
    else
      e ← lift (ok_or NotFound (st_directories t !! lookup_key path));
      mret (de_metadata e)
  else
    e ← lift (ok_or NotFound (st_files t !! lookup_key path));
    if fe_delete_pending e then throw NotFound else mret (fe_metadata e).

Definition handle_path_key (t : LocalEncryptedStore) (handle : N) : result StorageError bytes :=
  state ← ok_or NotFound (st_handles t !! handle);
  Ok (hs_path_key state).

Definition handle_file (t : LocalEncryptedStore) (handle : N) : result StorageError bytes :=
  state ← ok_or NotFound (st_handles t !! handle);
  e ← ok_or NotFound (st_files t !! hs_path_key state);
  Ok (fe_file_id e).

(** ** Changes *)

Definition touch_written (now : N) (e : FileEntry) : FileEntry :=
  let m := fe_metadata e in
  mkFileEntry (fe_file_id e) (fe_display e) (fe_delete_pending e)
    (mkMetadata (creation_time m) (last_access_time m) now now).
Definition touch_accessed (now : N) (e : FileEntry) : FileEntry :=
  let m := fe_metadata e in
  mkFileEntry (fe_file_id e) (fe_display e) (fe_delete_pending e)
    (mkMetadata (creation_time m) now (last_write_time m) (change_time m)).
Definition touch_changed (now : N) (m : EntryMetadata) : EntryMetadata :=
  mkMetadata (creation_time m) (last_access_time m) (last_write_time m) now.

(** [if let Some(entry) = self.files.get_mut(&key)]: the clock is read only when
    the entry is there. *)
Definition touch_file (key : bytes) (f : N -> FileEntry -> FileEntry) : store_m unit :=
  t ← gets s_store;
  match st_files t !! key with
  | None => mret tt
  | Some e =>
      now ← current_filetime;
      update (fun t => set_files (<[key := f now e]> (st_files t)) t)
  end.

(** Persist; on failure undo with [rollback] and report the error. *)
Definition persist_or (rollback : LocalEncryptedStore -> LocalEncryptedStore) : store_m unit :=
  r ← try persist_namespace;
  match r with
  | Ok _ => mret tt
  | Err e => _ ← update rollback; throw e
  end.

Definition create_directory (path : VirtualPath) : store_m unit :=
  t ← gets s_store;
  let key := lookup_key path in
  if bool_decide (is_Some (st_files t !! key)) || bool_decide (is_Some (st_directories t !! key))
  then throw AlreadyExists
  else
    _ ← lift (require_parent t path);
    now ← current_filetime;
    _ ← update (fun t => set_directories
          (<[key := mkDirectoryEntry (default [] (display_name path))
                      (mkMetadata now now now now)]> (st_directories t)) t);
    persist_or (fun t => set_directories (delete key (st_directories t)) t).

(** Open a handle on [key]. *)
Definition open_handle (key : bytes) (allow_delete : bool) : store_m N :=
  handle ← fetch_handle;
  _ ← update (fun t => set_handles (<[handle := mkHandleState key allow_delete]> (st_handles t)) t);
  mret handle.

Definition create_or_open (path : VirtualPath) (create allow_delete : bool) : store_m N :=
  t ← gets s_store;
  let key := lookup_key path in
  match st_files t !! key with
  | Some entry =>
      if fe_delete_pending entry then throw DeletePending
      else
        _ ← touch_file key touch_accessed;
        open_handle key allow_delete
  | None =>
      if negb create then throw NotFound
      else
        _ ← lift (require_parent t path);
        id ← fetch_file;
        file_id ← lift (map_err (fun _ => IoFailure)
                    (FileId_parse (lit "file-" ++ dec_pad 20 id)));
        now ← current_filetime;
        _ ← update (fun t => set_files
              (<[key := mkFileEntry file_id (default [] (display_name path)) false
                          (mkMetadata now now now now)]> (st_files t)) t);
        _ ← persist_or (fun t => set_files (delete key (st_files t)) t);
        open_handle key allow_delete
  end.

Definition write_handle (handle : N) (offset : N) (b : bytes) : store_m unit :=
  t ← gets s_store;
  file ← lift (handle_file t handle);
  _ ← write_at file offset b;
  t ← gets s_store;
  key ← lift (handle_path_key t handle);
  touch_file key touch_written.

Definition read_handle (handle : N) : store_m bytes :=
  s ← gets (fun s => s);
  file ← lift (handle_file (s_store s) handle);
  data ← lift (read (s_store s) (s_disk s) file);
  key ← lift (handle_path_key (s_store s) handle);
  _ ← touch_file key touch_accessed;
  mret data.

Definition truncate_handle (handle : N) (length : N) : store_m unit :=
  s ← gets (fun s => s);
  file ← lift (handle_file (s_store s) handle);
  key ← lift (handle_path_key (s_store s) handle);
  let data :=
    match st_staged (s_store s) !! file with
    | Some b => b
    | None => unwrap_or (read (s_store s) (s_disk s) file) []
    end in
  _ ← write file (resize length data);
  touch_file key touch_written.

Definition flush_handle (handle : N) : store_m unit :=
  t ← gets s_store;
  file ← lift (handle_file t handle);
  _ ← (if bool_decide (is_Some (st_staged t !! file)) then
         _ ← flush_file file;
         t ← gets s_store;
         key ← lift (handle_path_key t handle);
         touch_file key touch_written
       else mret tt);
  persist_namespace.

Definition close_handle (handle : N) : store_m unit :=
  t ← gets s_store;
  state ← lift (ok_or NotFound (st_handles t !! handle));
  _ ← update (fun t => set_handles (delete handle (st_handles t)) t);
  t ← gets s_store;
  let key := hs_path_key state in
  let pending := match st_files t !! key with Some e => fe_delete_pending e | None => false end in
  if pending && negb (any_handle (fun o => bool_decide (hs_path_key o = key)) (st_handles t)) then
    let prior_files := st_files t in
    _ ← update (fun t => set_files (delete key (st_files t)) t);
    persist_or (set_files prior_files)
  else mret tt.

Definition read_path (path : VirtualPath) : store_m bytes :=
  s ← gets (fun s => s);
  let key := lookup_key path in
  e ← lift (ok_or NotFound (st_files (s_store s) !! key));
  _ ← ensure (negb (fe_delete_pending e)) NotFound;
  data ← lift (read (s_store s) (s_disk s) (fe_file_id e));
  _ ← touch_file key touch_accessed;
  mret data.

Definition delete_directory (path : VirtualPath) : store_m unit :=
  t ← gets s_store;
  let key := lookup_key path in
  if bool_decide (key = []) then throw SharingViolation
  else if negb (bool_decide (is_Some (st_directories t !! key))) then throw NotFound
  else
    let prefix := key ++ lit "/" in
    if any_key_under prefix (st_directories t) || any_key_under prefix (st_files t)
    then throw SharingViolation
    else
      let prior_directories := st_directories t in
      _ ← update (fun t => set_directories (delete key (st_directories t)) t);
      persist_or (set_directories prior_directories).

Definition set_delete_pending (e : FileEntry) : FileEntry :=
  mkFileEntry (fe_file_id e) (fe_display e) true (fe_metadata e).

Definition delete_path (path : VirtualPath) : store_m unit :=
  t ← gets s_store;
  if is_directory t path then delete_directory path
  else
    let key := lookup_key path in
    entry ← lift (ok_or NotFound (st_files t !! key));
    if any_handle (fun h => bool_decide (hs_path_key h = key) && negb (hs_allow_delete h))
         (st_handles t)
    then throw SharingViolation
    else if any_handle (fun h => bool_decide (hs_path_key h = key)) (st_handles t)
    then update (fun t => set_files (<[key := set_delete_pending entry]> (st_files t)) t)
    else
      let prior_files := st_files t in
      _ ← update (fun t => set_files (delete key (st_files t)) t);
      persist_or (set_files prior_files).

Definition ensure_delete_allowed (t : LocalEncryptedStore) (path : VirtualPath) :
    result StorageError unit :=
  let key := lookup_key path in
  if is_directory t path then
    if bool_decide (key = []) then Err SharingViolation
    else
      let prefix := key ++ lit "/" in
      if bool_decide (is_Some (st_directories t !! key))
         && negb (any_key_under prefix (st_directories t))
         && negb (any_key_under prefix (st_files t))
      then Ok tt else Err SharingViolation
  else if negb (bool_decide (is_Some (st_files t !! key))) then Err NotFound
  else if any_handle (fun h => bool_decide (hs_path_key h = key) && negb (hs_allow_delete h))
            (st_handles t)
  then Err SharingViolation
  else Ok tt.

(** ** Renames *)

(** The [for state in self.handles.values_mut()] loop of [rename]. *)
Definition retarget (source destination : bytes) (h : HandleState) : HandleState :=
  if bool_decide (hs_path_key h = source) then mkHandleState destination (hs_allow_delete h) else h.

(** The same loop of [rename_directory]: the part after the source is kept. *)
Definition retarget_under (source destination : bytes) (h : HandleState) : HandleState :=
  if starts_with (source ++ lit "/") (hs_path_key h)
  then mkHandleState (destination ++ default [] (strip_prefix source (hs_path_key h)))
         (hs_allow_delete h)
  else h.

Definition zero_entry : DirectoryEntry := mkDirectoryEntry [] (mkMetadata 0 0 0 0).

(** One iteration of the loop over the directory keys. *)
Definition move_directory (source destination display : bytes) (key : bytes) : store_m unit :=
  t ← gets s_store;
  let suffix := default [] (strip_prefix source key) in
  let entry := default zero_entry (st_directories t !! key) in
  let display := if bool_decide (suffix = []) then display else de_display entry in
  now ← current_filetime;
  update (fun t => set_directories
    (<[destination ++ suffix := mkDirectoryEntry display (touch_changed now (de_metadata entry))]>
       (delete key (st_directories t))) t).

(** One iteration of the loop over the file keys. *)
Definition move_file (source destination : bytes) (key : bytes) : store_m unit :=
  t ← gets s_store;
  match st_files t !! key with
  | None => mret tt
  | Some e =>
      let suffix := default [] (strip_prefix source key) in
      now ← current_filetime;
      update (fun t => set_files
        (<[destination ++ suffix :=
             mkFileEntry (fe_file_id e) (fe_display e) (fe_delete_pending e)
               (touch_changed now (fe_metadata e))]> (delete key (st_files t))) t)
  end.

Definition directory_keys (source : bytes) (m : gmap bytes DirectoryEntry) : list bytes :=
  filter (fun key => key = source \/ starts_with (source ++ lit "/") key = true) (btree_iter m).*1.
Definition file_keys (source : bytes) (m : gmap bytes FileEntry) : list bytes :=
  filter (fun key => starts_with (source ++ lit "/") key = true) (btree_iter m).*1.

Definition rename_directory (source destination : VirtualPath) (replace : bool) : store_m unit :=
  t ← gets s_store;
  let source_key := lookup_key source in
  let destination_key := lookup_key destination in
  if bool_decide (source_key = []) || starts_with (source_key ++ lit "/") destination_key
  then throw AlreadyExists
  else
    _ ← lift (require_parent t destination);
    _ ← (if bool_decide (is_Some (st_files t !! destination_key))
            || bool_decide (is_Some (st_directories t !! destination_key))
         then if negb replace then throw AlreadyExists else delete_path destination
         else mret tt);
    t ← gets s_store;
    let prior t' := set_directories (st_directories t)
                      (set_files (st_files t) (set_handles (st_handles t) t')) in
    _ ← fold_m (fun _ key => move_directory source_key destination_key
                  (default [] (display_name destination)) key) tt
          (directory_keys source_key (st_directories t));
    _ ← fold_m (fun _ key => move_file source_key destination_key key) tt
          (file_keys source_key (st_files t));
    _ ← update (fun t => set_handles
          (retarget_under source_key destination_key <$> st_handles t) t);
    persist_or prior.

Definition rename (source destination : VirtualPath) (replace : bool) : store_m unit :=
  t ← gets s_store;
  let source_key := lookup_key source in
  let destination_key := lookup_key destination in
  _ ← lift (require_parent t destination);
  if is_directory t source then rename_directory source destination replace
  else
    source_entry ← lift (ok_or NotFound (st_files t !! source_key));
    if fe_delete_pending source_entry then throw DeletePending
    else
      _ ← (if bool_decide (is_Some (st_files t !! destination_key)) then
             if negb replace then throw AlreadyExists
             else
               _ ← delete_path destination;
               t ← gets s_store;
               ensure (negb (bool_decide (is_Some (st_files t !! destination_key)))) SharingViolation
           else mret tt);
      t ← gets s_store;
      let prior t' := set_files (st_files t) (set_handles (st_handles t) t') in
      moved ← lift (ok_or NotFound (st_files t !! source_key));
      now ← current_filetime;
      _ ← update (fun t => set_files
            (<[destination_key := mkFileEntry (fe_file_id moved)
                 (default [] (display_name destination)) (fe_delete_pending moved)
                 (touch_changed now (fe_metadata moved))]> (delete source_key (st_files t))) t);
      _ ← update (fun t => set_handles (retarget source_key destination_key <$> st_handles t) t);
      persist_or prior.

End Namespace.
