(* ===== verification/NamespaceInv.v ===== *)
(** * NamespaceInv

    Proofs about the namespace half of the store (Namespace): an invariant of
    directories, files and handles that every operation preserves whatever
    fails, rollback, the round trip of the persisted text, and what deletion,
    renaming and listing do. *)

From S2P Require Import Prelude Bytes Text Effects Domain Crypto Format VPath Fs Store.
From S2P Require Import Toy Durability Namespace.

(** ** Parents of keys *)

Lemma removelast_app_one {A} (l : list A) x : removelast (l ++ [x]) = l.
Proof. apply removelast_last. Qed.

(** The parent of a key is what stands before its last slash. *)
Lemma parent_key_rsplit k :
  parent_key_of k = match rsplit_once x2f k with Some (p, _) => Some p | None => None end.
Proof.
  unfold parent_key_of. destruct (rsplit_once x2f k) as [[p q]|] eqn:E.
  - apply rsplit_once_Some in E as [-> Hq].
    assert (split_byte x2f (p ++ x2f :: q) = split_byte x2f p ++ [q]) as ->.
    { unfold split_byte. clear -Hq. induction p as [|b p IH]; simpl.
      - by rewrite split_pred_free.
      - rewrite IH. destruct (x2f =? b)%byte; [done|].
        pose proof (split_pred_nonnil (Byte.eqb x2f) p).
        destruct (split_pred (Byte.eqb x2f) p); [done|]. done. }
    rewrite removelast_app_one. pose proof (join_split x2f p) as Hj.
    pose proof (split_pred_nonnil (Byte.eqb x2f) p) as Hn. unfold split_byte in *.
    destruct (split_pred (Byte.eqb x2f) p); [done|]. by rewrite <- Hj.
  - apply rsplit_once_None in E. unfold split_byte. by rewrite split_pred_free.
Qed.

Lemma parent_key_slash p q :
  free_of (Byte.eqb x2f) q -> parent_key_of (p ++ lit "/" ++ q) = Some p.
Proof.
  intros Hq. rewrite parent_key_rsplit.
  assert (rsplit_once x2f (p ++ lit "/" ++ q) = Some (p, q)) as ->; [|done].
  by apply rsplit_once_Some.
Qed.

Lemma parent_key_Some k p : parent_key_of k = Some p -> exists q, k = p ++ lit "/" ++ q.
Proof.
  rewrite parent_key_rsplit. destruct (rsplit_once x2f k) as [[a q]|] eqn:E; [|done].
  intros [= <-]. apply rsplit_once_Some in E as [-> _]. by exists q.
Qed.

(** ** What an operation does to the names *)

Definition names (t : LocalEncryptedStore) :
    gmap bytes DirectoryEntry * gmap bytes FileEntry * gmap N HandleState :=
  (st_directories t, st_files t, st_handles t).

Definition s_names (s : St) := names (s_store s).

Lemma names_projection : projection names.
Proof. done. Qed.

Lemma keeps_tick {X} (f : LocalEncryptedStore -> X) : keeps (fun s => f (s_store s)) current_filetime.
Proof. done. Qed.

Section Names.
Context `{HA : Aead} `{HS : Sha256}.

Lemma keeps_persist : keeps s_names persist_namespace.
Proof.
  unfold persist_namespace. apply keeps_bind; [apply keeps_gets|intros t].
  apply keeps_bind; [apply keeps_lift|intros g]. apply keeps_bind; [done|intros n].
  apply keeps_bind; [apply keeps_lift|intros [r ns]].
  apply keeps_bind; [apply (keeps_write_record names)|intros _].
  apply keeps_bind; [apply (keeps_io names)|intros _].
  apply keeps_bind; [apply (keeps_marker names)|intros _]. done.
Qed.

(** Persisting either keeps the new names or rolls them back. *)
Lemma persist_or_run rollback s r s' :
  persist_or rollback s = (r, s') ->
  (r = Ok tt /\ s_names s' = s_names s) \/
  (exists e t, r = Err e /\ names t = s_names s /\ s_store s' = rollback t).
Proof.
  unfold persist_or. intros H. apply bind_run in H as [(x & s1 & H1 & H)|(e & H1 & ->)].
  - unfold try in H1. destruct (persist_namespace s) as [y s2] eqn:Hp. injection H1 as <- <-.
    pose proof (keeps_run s_names _ _ _ _ keeps_persist Hp) as Hk.
    destruct y as [[]|e].
    + left. by apply pair_eq in H as [<- <-].
    + right. apply bind_run in H as [(u & s3 & [= <- <-] & [= <- <-])|(e' & ? & _)]; [|done].
      exists e, (s_store s2). done.
  - unfold try in H1. by destruct (persist_namespace s).
Qed.
End Names.

(** ** The invariant *)

Definition parent_ok (D : gmap bytes DirectoryEntry) (k : bytes) : Prop :=
  forall p, parent_key_of k = Some p -> is_Some (D !! p).

Definition metadata_ok (m : EntryMetadata) : Prop :=
  creation_time m <= u64_max /\ last_access_time m <= u64_max /\
  last_write_time m <= u64_max /\ change_time m <= u64_max.

Definition directory_ok (e : DirectoryEntry) : Prop :=
  key_facts (de_display e) /\ metadata_ok (de_metadata e).
Definition file_ok (e : FileEntry) : Prop :=
  key_facts (fe_display e) /\ identifier false (fe_file_id e) /\ metadata_ok (fe_metadata e).

(** Every entry has a well-formed key and display name and lies in a directory
    that exists, and every handle refers to a file that exists. *)
Record ns_ok (D : gmap bytes DirectoryEntry) (F : gmap bytes FileEntry)
    (H : gmap N HandleState) : Prop := {
  no_dir : forall k e, D !! k = Some e -> parent_ok D k /\ key_facts k /\ directory_ok e;
  no_file : forall k e, F !! k = Some e -> parent_ok D k /\ key_facts k /\ file_ok e;
  no_handle : forall h st, H !! h = Some st -> is_Some (F !! hs_path_key st);
}.

Lemma parent_ok_insert D k e k' : parent_ok D k' -> parent_ok (<[k := e]> D) k'.
Proof.
  intros Hp p E. destruct (decide (p = k)) as [->|Hne]; [by rewrite lookup_insert_eq|].
  rewrite lookup_insert_ne by done. by apply Hp.
Qed.

Lemma ns_insert_dir D F H k e :
  ns_ok D F H -> parent_ok D k -> key_facts k -> directory_ok e -> ns_ok (<[k := e]> D) F H.
Proof.
  intros [Hd Hf Hh] Hp Hk He. split; [| |done].
  - intros k' e' E. destruct (decide (k = k')) as [<-|Hne].
    + rewrite lookup_insert_eq in E. simplify_eq. split; [by apply parent_ok_insert|done].
    + rewrite lookup_insert_ne in E by done. destruct (Hd _ _ E) as (? & ? & ?).
      split; [by apply parent_ok_insert|done].
  - intros k' e' E. destruct (Hf _ _ E) as (? & ? & ?). split; [by apply parent_ok_insert|done].
Qed.

Lemma ns_insert_file D F H k e :
  ns_ok D F H -> parent_ok D k -> key_facts k -> file_ok e -> ns_ok D (<[k := e]> F) H.
Proof.
  intros [Hd Hf Hh] Hp Hk He. split; [done| |].
  - intros k' e' E. destruct (decide (k = k')) as [<-|Hne].
    + rewrite lookup_insert_eq in E. by simplify_eq.
    + rewrite lookup_insert_ne in E by done. by apply Hf in E.
  - intros h st E. destruct (decide (k = hs_path_key st)) as [->|Hne];
      [by rewrite lookup_insert_eq|]. rewrite lookup_insert_ne by done. by eapply Hh.
Qed.

Lemma ns_update_file D F H k e e' :
  ns_ok D F H -> F !! k = Some e -> file_ok e' -> ns_ok D (<[k := e']> F) H.
Proof. intros Hn E He. destruct (no_file _ _ _ Hn _ _ E) as (? & ? & ?). by apply ns_insert_file. Qed.

Lemma ns_delete_file D F H k :
  ns_ok D F H -> (forall h st, H !! h = Some st -> hs_path_key st <> k) ->
  ns_ok D (delete k F) H.
Proof.
  intros [Hd Hf Hh] Hk. split; [done| |].
  - intros k' e' [_ E]%lookup_delete_Some. by apply Hf.
  - intros h st E. rewrite lookup_delete_ne; [by eapply Hh|]. intros Ek. by eapply Hk.
Qed.

Lemma ns_insert_handle D F H h st :
  ns_ok D F H -> is_Some (F !! hs_path_key st) -> ns_ok D F (<[h := st]> H).
Proof.
  intros [Hd Hf Hh] Hk. split; [done..|]. intros h' st' [[_ <-]|[_ E]]%lookup_insert_Some; eauto.
Qed.

Lemma ns_delete_handle D F H h : ns_ok D F H -> ns_ok D F (delete h H).
Proof. intros [Hd Hf Hh]. split; [done..|]. intros h' st' [_ E]%lookup_delete_Some. by eapply Hh. Qed.

(** No key of [m] lies under directory [k]. *)
Definition none_under {V} (k : bytes) (m : gmap bytes V) : Prop :=
  forall k' e, m !! k' = Some e -> starts_with (k ++ lit "/") k' = false.

Lemma parent_ok_delete D k k' :
  parent_ok D k' -> starts_with (k ++ lit "/") k' = false -> parent_ok (delete k D) k'.
Proof.
  intros Hp Hs p E. rewrite lookup_delete_ne; [by apply Hp|]. intros <-.
  apply parent_key_Some in E as [q ->]. rewrite app_assoc in Hs.
  by rewrite starts_with_app in Hs.
Qed.

Lemma ns_delete_dir D F H k :
  ns_ok D F H -> none_under k D -> none_under k F -> ns_ok (delete k D) F H.
Proof.
  intros [Hd Hf Hh] HD HF. split; [| |done].
  - intros k' e' [_ E]%lookup_delete_Some. destruct (Hd _ _ E) as (? & ? & ?).
    split; [|done]. apply parent_ok_delete; [done|by eapply HD].
  - intros k' e' E. destruct (Hf _ _ E) as (? & ? & ?).
    split; [|done]. apply parent_ok_delete; [done|by eapply HF].
Qed.

Lemma any_key_under_false {V} (k : bytes) (m : gmap bytes V) :
  any_key_under (k ++ lit "/") m = false -> none_under k m.
Proof.
  unfold any_key_under. intros H k' e E.
  apply (existsb_false _ _ H (k', e)). by apply elem_of_map_to_list.
Qed.

Lemma any_handle_false f (m : gmap N HandleState) :
  any_handle f m = false -> forall h st, m !! h = Some st -> f st = false.
Proof.
  unfold any_handle. intros H h st E. apply (existsb_false _ _ H (h, st)).
  by apply elem_of_map_to_list.
Qed.

(** Moving one file entry, with the handles that refer to it. *)
Lemma ns_rename_file D F H src dst e e' :
  ns_ok D F H -> F !! src = Some e -> parent_ok D dst -> key_facts dst -> file_ok e' ->
  ns_ok D (<[dst := e']> (delete src F)) (retarget src dst <$> H).
Proof.
  intros [Hd Hf Hh] E Hp Hk He. split; [done| |].
  - intros k x. destruct (decide (dst = k)) as [<-|Hne].
    + rewrite lookup_insert_eq. intros [= <-]. done.
    + rewrite lookup_insert_ne by done. intros [_ Ex]%lookup_delete_Some. by apply Hf.
  - intros h st Hst. rewrite lookup_fmap in Hst.
    destruct (H !! h) as [st0|] eqn:E0; [|done]. simplify_eq/=.
    unfold retarget. case_bool_decide as Hs; simpl; [by rewrite lookup_insert_eq|].
    destruct (decide (dst = hs_path_key st0)) as [->|Hne]; [by rewrite lookup_insert_eq|].
    rewrite lookup_insert_ne, lookup_delete_ne by done. by eapply Hh.
Qed.

(** An ancestor of a key is a directory. *)
Lemma ancestor_dir D F H d r :
  ns_ok D F H -> is_Some (D !! (d ++ lit "/" ++ r)) \/ is_Some (F !! (d ++ lit "/" ++ r)) ->
  is_Some (D !! d).
Proof.
  intros Hn. remember (length r) as n eqn:Hl. revert r Hl.
  induction n as [n IH] using lt_wf_ind; intros r -> Hin.
  assert (parent_ok D (d ++ lit "/" ++ r)) as Hp.
  { destruct Hin as [[e E]|[e E]]; [apply (no_dir _ _ _ Hn _ _ E)|apply (no_file _ _ _ Hn _ _ E)]. }
  destruct (rsplit_once x2f r) as [[a q]|] eqn:E.
  - apply rsplit_once_Some in E as [-> Hq].
    eapply (IH (length a)); [|reflexivity|].
    + rewrite length_app. simpl. lia.
    + left. apply Hp. replace (d ++ lit "/" ++ a ++ x2f :: q) with
        ((d ++ lit "/" ++ a) ++ lit "/" ++ q) by (by rewrite <- !app_assoc).
      by apply parent_key_slash.
  - apply rsplit_once_None in E. apply Hp. by apply parent_key_slash.
Qed.

(** ** Moving a subtree *)

(** The loops of [rename_directory] on one map: each key of the list is removed
    and its entry, changed as [P] allows at that key, inserted under its target. *)
Inductive moves {V} (tgt : bytes -> bytes) (P : bytes -> V -> V -> Prop) :
    gmap bytes V -> list bytes -> gmap bytes V -> Prop :=
| moves_nil m : moves tgt P m [] m
| moves_cons m k e e' l m' :
    m !! k = Some e -> P k e e' -> moves tgt P (<[tgt k := e']> (delete k m)) l m' ->
    moves tgt P m (k :: l) m'.

(** No target is a key to move, and targets are distinct. *)
Record clean (tgt : bytes -> bytes) (l : list bytes) : Prop := {
  cl_nodup : NoDup l;
  cl_target : forall k k', k ∈ l -> k' ∈ l -> tgt k <> k';
  cl_inj : forall k k', k ∈ l -> k' ∈ l -> tgt k = tgt k' -> k = k';
}.

Lemma clean_tail tgt k l : clean tgt (k :: l) -> clean tgt l.
Proof.
  intros [Hnd Ht Hi]. inversion Hnd; subst. split; [done| |].
  - intros. apply Ht; by right.
  - intros. apply Hi; [by right..|done].
Qed.

Section Moves.
Context {V : Type} (tgt : bytes -> bytes) (P : bytes -> V -> V -> Prop).

Lemma moves_other m l m' k :
  moves tgt P m l m' -> k ∉ l -> (forall k', k' ∈ l -> k <> tgt k') -> m' !! k = m !! k.
Proof.
  intros Hm. induction Hm as [|m k0 e e' l m' Hk HP Hm IH]; intros Hl Ht; [done|].
  rewrite IH; [|set_solver|set_solver].
  rewrite lookup_insert_ne, lookup_delete_ne; [done| |].
  - intros ->. apply Hl. left.
  - intros E. apply (Ht k0); [left|done].
Qed.

Lemma moves_target m l m' k e :
  moves tgt P m l m' -> clean tgt l -> k ∈ l -> m !! k = Some e ->
  exists e', m' !! tgt k = Some e' /\ P k e e'.
Proof.
  intros Hm. induction Hm as [|m k0 e0 e1 l m' Hk HP Hm IH]; intros Hc Hl He; [by apply elem_of_nil in Hl|].
  destruct Hc as [Hnd Ht Hi]. inversion Hnd as [|? ? Hni Hnd']; subst.
  apply elem_of_cons in Hl as [->|Hl].
  - simplify_eq. exists e1. split; [|done].
    rewrite (moves_other _ _ _ _ Hm), lookup_insert_eq; [done| |].
    + intros Hx. by apply (Ht k0 (tgt k0)); [left|right|].
    + intros k' Hk' E. apply Hi in E; [subst; done|left|by right].
  - apply IH; [by eapply clean_tail|done|].
    rewrite lookup_insert_ne, lookup_delete_ne; [done| |].
    + intros ->. done.
    + apply Ht; [left|by right].
Qed.

Lemma moves_source m l m' k :
  moves tgt P m l m' -> clean tgt l -> k ∈ l -> m' !! k = None.
Proof.
  intros Hm. induction Hm as [|m k0 e0 e1 l m' Hk HP Hm IH]; intros Hc Hl; [by apply elem_of_nil in Hl|].
  pose proof (clean_tail _ _ _ Hc) as Hc'. destruct Hc as [Hnd Ht Hi].
  inversion Hnd as [|? ? Hni Hnd']; subst.
  apply elem_of_cons in Hl as [->|Hl]; [|by apply IH].
  rewrite (moves_other _ _ _ _ Hm); [|done|].
  - rewrite lookup_insert_ne; [by rewrite lookup_delete_eq|]. apply Ht; left.
  - intros k' Hk' E. apply (Ht k' k0); [by right|left|done].
Qed.

(** Where an entry of the result comes from. *)
Lemma moves_origin m l m' k e' :
  moves tgt P m l m' -> clean tgt l -> (forall k, k ∈ l -> is_Some (m !! k)) ->
  m' !! k = Some e' ->
  (exists k0 e, k0 ∈ l /\ k = tgt k0 /\ m !! k0 = Some e /\ P k0 e e') \/
  ((k ∉ l) /\ m !! k = Some e').
Proof.
  intros Hm Hc Hin He. destruct (decide (k ∈ map tgt l)) as [Ht|Ht].
  - left. apply list_elem_of_In, in_map_iff in Ht as (k0 & <- & Hk0). apply list_elem_of_In in Hk0.
    destruct (Hin k0 Hk0) as [e E].
    destruct (moves_target _ _ _ _ _ Hm Hc Hk0 E) as (e1 & E1 & HP). simplify_eq. by exists k0, e.
  - right. assert (k ∉ l) as Hk.
    { intros Hk. by rewrite (moves_source _ _ _ _ Hm Hc Hk) in He. }
    split; [done|]. rewrite <- He. symmetry. apply (moves_other _ _ _ _ Hm); [done|].
    intros k' Hk' ->. apply Ht. apply list_elem_of_In, in_map, list_elem_of_In, Hk'.
Qed.

(** A key that is not moved is still there. *)
Lemma moves_stays m l m' k :
  moves tgt P m l m' -> clean tgt l -> (forall k, k ∈ l -> is_Some (m !! k)) ->
  k ∉ l -> is_Some (m !! k) -> is_Some (m' !! k).
Proof.
  intros Hm Hc Hin Hk Hs. destruct (decide (k ∈ map tgt l)) as [Ht|Ht].
  - apply list_elem_of_In, in_map_iff in Ht as (k0 & <- & Hk0). apply list_elem_of_In in Hk0.
    destruct (Hin k0 Hk0) as [e E].
    destruct (moves_target _ _ _ _ _ Hm Hc Hk0 E) as (e1 & E1 & HP). by exists e1.
  - rewrite (moves_other _ _ _ _ Hm); [done|done|].
    intros k' Hk' ->. apply Ht. apply list_elem_of_In, in_map, list_elem_of_In, Hk'.
Qed.
End Moves.

(** The new place of a key of the subtree. *)
Definition target (src dst k : bytes) : bytes := dst ++ default [] (strip_prefix src k).

Lemma target_app src dst s : target src dst (src ++ s) = dst ++ s.
Proof. unfold target. by rewrite strip_prefix_app. Qed.

Lemma elem_of_btree_keys {V} (m : gmap bytes V) k : k ∈ (btree_iter m).*1 <-> is_Some (m !! k).
Proof.
  split.
  - intros Hk. apply list_elem_of_fmap in Hk as ([k' v] & -> & Hk). apply elem_of_btree_iter in Hk.
    by exists v.
  - intros [v E]. apply list_elem_of_fmap. exists (k, v). split; [done|]. by apply elem_of_btree_iter.
Qed.

Lemma NoDup_btree_keys {V} (m : gmap bytes V) : NoDup (btree_iter m).*1.
Proof. rewrite (btree_iter_perm m). apply NoDup_fst_map_to_list. Qed.

Lemma NoDup_filter_keys {V} (P : bytes * V -> Prop) `{!forall x, Decision (P x)} (m : gmap bytes V) :
  NoDup (filter P (btree_iter m)).*1.
Proof.
  eapply sublist_NoDup; [apply (NoDup_btree_keys m)|]. apply fmap_sublist, sublist_filter.
Qed.

Lemma elem_of_directory_keys src D k :
  k ∈ directory_keys src D <->
  is_Some (D !! k) /\ exists s, k = src ++ s /\ (s = [] \/ exists r, s = lit "/" ++ r).
Proof.
  unfold directory_keys. rewrite list_elem_of_filter, elem_of_btree_keys. split.
  - intros [[->|H] Hk]; (split; [done|]).
    + exists []. rewrite app_nil_r. split; [done|by left].
    + apply starts_with_spec in H as [r ->]. exists (lit "/" ++ r).
      rewrite <- app_assoc. split; [done|right; by exists r].
  - intros [Hk (s & -> & [->|[r ->]])]; (split; [|done]).
    + left. by rewrite app_nil_r.
    + right. rewrite app_assoc. apply starts_with_app.
Qed.

Lemma elem_of_file_keys src F k :
  k ∈ file_keys src F <-> is_Some (F !! k) /\ exists r, k = src ++ lit "/" ++ r.
Proof.
  unfold file_keys. rewrite list_elem_of_filter, elem_of_btree_keys. split.
  - intros [H Hk]. split; [done|]. apply starts_with_spec in H as [r ->]. exists r. by rewrite <- app_assoc.
  - intros [Hk [r ->]]. split; [|done]. rewrite app_assoc. apply starts_with_app.
Qed.

(** The parent of a key below [x] is [x] or below [x]; where it is does not
    depend on [x]. *)
Lemma parent_key_under r :
  exists s, (s = [] \/ exists a, s = lit "/" ++ a) /\
    forall x, parent_key_of (x ++ lit "/" ++ r) = Some (x ++ s).
Proof.
  destruct (rsplit_once x2f r) as [[a q]|] eqn:E.
  - apply rsplit_once_Some in E as [-> Hq]. exists (lit "/" ++ a). split; [right; by exists a|].
    intros x. replace (x ++ lit "/" ++ a ++ x2f :: q) with ((x ++ lit "/" ++ a) ++ lit "/" ++ q)
      by (by rewrite <- !app_assoc). by apply parent_key_slash.
  - apply rsplit_once_None in E. exists []. split; [by left|]. intros x.
    rewrite app_nil_r. by apply parent_key_slash.
Qed.

Lemma key_facts_suffix src dst s :
  key_facts src -> key_facts dst -> key_facts (src ++ s) -> key_facts (dst ++ s).
Proof.
  intros [Hu1 Hc1 Hn1] [Hu2 Hc2 Hn2] [Hu Hc Hn]. rewrite utf8_valid_app in Hu by done.
  split.
  - by rewrite utf8_valid_app.
  - unfold free_of in *. rewrite !Forall_app in *. tauto.
  - by destruct dst.
Qed.

(** Not a key of the subtree of [d]. *)
Definition outside (d k : bytes) : Prop := k <> d /\ starts_with (d ++ lit "/") k = false.

Lemma outside_app d s : s = [] \/ (exists r, s = lit "/" ++ r) -> ~ outside d (d ++ s).
Proof.
  intros [->|[r ->]] [H1 H2]; [by rewrite app_nil_r in H1|].
  rewrite app_assoc, starts_with_app in H2. done.
Qed.

Lemma not_outside d k : ~ outside d k -> exists s, k = d ++ s /\ (s = [] \/ exists r, s = lit "/" ++ r).
Proof.
  intros H. destruct (starts_with (d ++ lit "/") k) eqn:E.
  - apply starts_with_spec in E as [r ->]. exists (lit "/" ++ r). rewrite <- app_assoc. eauto.
  - destruct (decide (k = d)) as [->|Hne]; [exists []; rewrite app_nil_r; eauto|]. by destruct H.
Qed.

#[export] Instance outside_dec d k : Decision (outside d k).
Proof. unfold outside. apply _. Defined.

(** The parent of a key outside a subtree, other than the subtree's own
    neighbours, is outside it. *)
Lemma parent_outside d k p : outside d k -> parent_key_of k = Some p -> outside d p.
Proof.
  intros Ho Hp. destruct (decide (outside d p)) as [|Hn]; [done|]. exfalso.
  apply not_outside in Hn as (s & -> & Hs). apply parent_key_Some in Hp as [q ->].
  rewrite <- app_assoc in Ho. revert Ho. apply outside_app. right.
  destruct Hs as [->|[r ->]]; [by exists q|]. exists (r ++ lit "/" ++ q). by rewrite <- app_assoc.
Qed.

Lemma directory_keys_outside src D k : k ∈ directory_keys src D <-> is_Some (D !! k) /\ ~ outside src k.
Proof.
  rewrite elem_of_directory_keys. split.
  - intros [Hk (s & -> & Hs)]. split; [done|]. by apply outside_app.
  - intros [Hk Ho]. split; [done|]. by apply not_outside.
Qed.

Section RenameDir.
Context (D : gmap bytes DirectoryEntry) (F : gmap bytes FileEntry) (H : gmap N HandleState).
Context (src dst : bytes).
Context (Hok : ns_ok D F H) (Hsrc : key_facts src) (Hdst : key_facts dst).
Context (Hfree : D !! dst = None) (HD : none_under dst D) (HF : none_under dst F).
Context (Hpar : parent_ok D dst) (Hout : starts_with (src ++ lit "/") dst = false).

Lemma vacant_dir s : s = [] \/ (exists r, s = lit "/" ++ r) -> D !! (dst ++ s) = None.
Proof.
  intros [->|[r ->]]; [by rewrite app_nil_r|].
  destruct (D !! (dst ++ lit "/" ++ r)) eqn:E; [|done].
  apply HD in E. by rewrite app_assoc, starts_with_app in E.
Qed.

Lemma vacant_file r : F !! (dst ++ lit "/" ++ r) = None.
Proof.
  destruct (F !! (dst ++ lit "/" ++ r)) eqn:E; [|done].
  apply HF in E. by rewrite app_assoc, starts_with_app in E.
Qed.

Lemma clean_dirs : clean (target src dst) (directory_keys src D).
Proof using HD Hfree.
  split.
  - apply NoDup_filter, NoDup_btree_keys.
  - intros k k' [_ (s & -> & Hs)]%elem_of_directory_keys [[e E] _]%elem_of_directory_keys <-.
    rewrite target_app in E. by rewrite vacant_dir in E.
  - intros k k' [_ (s & -> & Hs)]%elem_of_directory_keys [_ (s' & -> & Hs')]%elem_of_directory_keys.
    rewrite !target_app. by intros ->%app_inv_head.
Qed.

Lemma clean_files : clean (target src dst) (file_keys src F).
Proof using HF.
  split.
  - apply NoDup_filter, NoDup_btree_keys.
  - intros k k' [_ (s & ->)]%elem_of_file_keys [[e E] _]%elem_of_file_keys <-.
    rewrite target_app in E. by rewrite vacant_file in E.
  - intros k k' [_ (s & ->)]%elem_of_file_keys [_ (s' & ->)]%elem_of_file_keys.
    rewrite !target_app. by intros ->%app_inv_head.
Qed.

Context (PD : bytes -> DirectoryEntry -> DirectoryEntry -> Prop) (PF : bytes -> FileEntry -> FileEntry -> Prop).
Context (HPD : forall k e e', PD k e e' -> directory_ok e -> directory_ok e').
Context (HPF : forall k e e', PF k e e' -> file_ok e -> file_ok e').
Context (D' : gmap bytes DirectoryEntry) (F' : gmap bytes FileEntry).
Context (HmD : moves (target src dst) PD D (directory_keys src D) D').
Context (HmF : moves (target src dst) PF F (file_keys src F) F').

(** Directories outside the subtree stay, and those inside are at the target. *)
Lemma moved_dir_stays p : is_Some (D !! p) -> outside src p -> is_Some (D' !! p).
Proof using HmD HD Hfree.
  intros Hp Ho. eapply moves_stays; [exact HmD|exact clean_dirs| | |done].
  - by intros k [? _]%elem_of_directory_keys.
  - by rewrite directory_keys_outside; intros [_ ?].
Qed.

Lemma moved_dir_target s :
  is_Some (D !! (src ++ s)) -> s = [] \/ (exists r, s = lit "/" ++ r) -> is_Some (D' !! (dst ++ s)).
Proof using HmD HD Hfree.
  intros [e E] Hs. rewrite <- (target_app src). 
  destruct (moves_target _ _ _ _ _ (src ++ s) e HmD clean_dirs) as (e' & E' & _); [|done|by exists e'].
  apply elem_of_directory_keys. split; [by exists e|]. by exists s.
Qed.

Lemma moved_parent_stays k : parent_ok D k -> outside src k -> parent_ok D' k.
Proof using HmD HD Hfree.
  intros Hp Ho p E. apply moved_dir_stays; [by apply Hp|]. by eapply parent_outside.
Qed.

Lemma moved_parent_target s :
  parent_ok D (src ++ s) -> s = [] \/ (exists r, s = lit "/" ++ r) -> outside src dst \/ src = dst ->
  parent_ok D' (dst ++ s).
Proof using HmD HD Hfree Hpar.
  intros Hp [->|[r ->]] Ho p E.
  - rewrite app_nil_r in E. apply moved_dir_stays; [by apply Hpar|].
    destruct Ho as [Ho|Ho]; [by eapply parent_outside|]. rewrite Ho.
    split.
    + intros ->. apply parent_key_Some in E as [q E]. apply (f_equal length) in E.
      rewrite !length_app in E. simpl in E. lia.
    + destruct (starts_with (dst ++ lit "/") p) eqn:Ep; [|done].
      apply starts_with_spec in Ep as [x ->]. apply parent_key_Some in E as [q E].
      apply (f_equal length) in E. rewrite !length_app in E. simpl in E. lia.
  - destruct (parent_key_under r) as (s & Hs & Hx). rewrite Hx in E. simplify_eq.
    apply moved_dir_target; [|done]. apply Hp. by rewrite Hx.
Qed.

Lemma dst_outside : outside src dst \/ src = dst.
Proof using Hout. destruct (decide (src = dst)); [by right|left]. split; [congruence|done]. Qed.

Lemma ns_rename_dir : ns_ok D' F' (retarget_under src dst <$> H).
Proof.
  split.
  - intros k e E. eapply moves_origin in E as [(k0 & e0 & Hk0 & -> & E0 & HP)|[Hk E]];
      [| |exact HmD|exact clean_dirs|by intros ? [? _]%elem_of_directory_keys].
    + apply elem_of_directory_keys in Hk0 as [_ (s & -> & Hs)]. rewrite target_app.
      destruct (no_dir _ _ _ Hok _ _ E0) as (Hp & Hk & He).
      split; [by apply moved_parent_target; [| |apply dst_outside]|].
      split; [by apply (key_facts_suffix src)|by eapply HPD].
    + destruct (no_dir _ _ _ Hok _ _ E) as (Hp & Hkf & He).
      split; [|done]. apply moved_parent_stays; [done|].
      destruct (decide (outside src k)); [done|]. destruct Hk. by apply directory_keys_outside.
  - intros k e E. eapply moves_origin in E as [(k0 & e0 & Hk0 & -> & E0 & HP)|[Hk E]];
      [| |exact HmF|exact clean_files|by intros ? [? _]%elem_of_file_keys].
    + apply elem_of_file_keys in Hk0 as [_ (r & ->)]. rewrite target_app.
      destruct (no_file _ _ _ Hok _ _ E0) as (Hp & Hk & He).
      split; [apply moved_parent_target; [done|by right; exists r|apply dst_outside]|].
      split; [by apply (key_facts_suffix src)|by eapply HPF].
    + destruct (no_file _ _ _ Hok _ _ E) as (Hp & Hkf & He).
      split; [|done]. intros p Ep. 
      destruct (decide (outside src p)) as [|Hn]; [apply moved_dir_stays; [by apply Hp|done]|].
      exfalso. apply Hk. apply elem_of_file_keys. split; [by exists e|].
      apply not_outside in Hn as (s & -> & Hs). apply parent_key_Some in Ep as [q ->].
      destruct Hs as [->|[r ->]]; rewrite <- ?app_assoc; eauto.
  - intros h st Est. rewrite lookup_fmap in Est. destruct (H !! h) as [st0|] eqn:E0; [|done].
    simplify_eq/=. apply (no_handle _ _ _ Hok) in E0 as [e E]. unfold retarget_under.
    destruct (starts_with (src ++ lit "/") (hs_path_key st0)) eqn:Es; cbn [hs_path_key].
    + destruct (moves_target _ _ _ _ _ (hs_path_key st0) e HmF clean_files) as (e' & E' & _);
        [|done|by exists e'].
      apply elem_of_file_keys. split; [by exists e|]. apply starts_with_spec in Es as [r ->].
      exists r. by rewrite <- app_assoc.
    + eapply moves_stays; [exact HmF|exact clean_files|by intros ? [? _]%elem_of_file_keys| |by exists e].
      rewrite elem_of_file_keys. intros [_ [r Hr]].
      by rewrite Hr, app_assoc, starts_with_app in Es.
Qed.
End RenameDir.

(** ** Preservation by the operations *)

Definition t_ok (t : LocalEncryptedStore) : Prop :=
  ns_ok (st_directories t) (st_files t) (st_handles t).
Definition s_ok (s : St) : Prop := t_ok (s_store s).

(** The state [m] leaves behind, with success or failure, satisfies the
    invariant. *)
Definition safe {A} (m : store_m A) (s : St) : Prop := s_ok (snd (m s)).

Lemma t_ok_names t t' : names t' = names t -> t_ok t -> t_ok t'.
Proof. unfold names, t_ok. by intros [= -> -> ->]. Qed.

Lemma s_ok_names s s' : s_names s' = s_names s -> s_ok s -> s_ok s'.
Proof. apply t_ok_names. Qed.

Lemma filetime_bound n : filetime n <= u64_max.
Proof.
  unfold filetime, u64_max. change (2 ^ 64) with 18446744073709551616.
  pose proof (N.mod_lt n 18446744073709551616).
  pose proof (N.Div0.div_lt_upper_bound (n mod 18446744073709551616) 100 184467440737095517). lia.
Qed.

Section Safe.
Context {A : Type}.

Lemma safe_ret (a : A) s : s_ok s -> safe (mret a) s.
Proof. done. Qed.
Lemma safe_throw e s : s_ok s -> safe (throw (A := A) e) s.
Proof. done. Qed.
Lemma safe_keeps (m : store_m A) s : keeps s_names m -> s_ok s -> safe m s.
Proof. intros Hk. by apply s_ok_names. Qed.

Lemma safe_bind {B} (m : store_m B) (k : B -> store_m A) s :
  safe m s -> (forall b s', m s = (Ok b, s') -> s_ok s' -> safe (k b) s') -> safe (m ≫= k) s.
Proof.
  unfold safe. intros Hm Hk. unfold mbind, M_bind.
  destruct (m s) as [[b|e] s'] eqn:E; [by apply Hk|done].
Qed.

Lemma safe_gets {B} (f : St -> B) (k : B -> store_m A) s : safe (k (f s)) s -> safe (gets f ≫= k) s.
Proof. done. Qed.

Lemma safe_lift {B} (r : result StorageError B) (k : B -> store_m A) s :
  s_ok s -> (forall b, r = Ok b -> safe (k b) s) -> safe (lift r ≫= k) s.
Proof. intros Hs Hk. destruct r; [by apply Hk|done]. Qed.

Lemma safe_ensure c e (k : unit -> store_m A) s :
  s_ok s -> (c = true -> safe (k tt) s) -> safe (ensure c e ≫= k) s.
Proof. intros Hs Hk. unfold safe, mbind, M_bind, ensure. destruct c; [by apply Hk|done]. Qed.

Lemma safe_update f (k : unit -> store_m A) s :
  safe (k tt) (mkSt (f (s_store s)) (s_world s)) -> safe (update f ≫= k) s.
Proof. done. Qed.

Lemma safe_tick (k : N -> store_m A) s :
  (forall now w, now <= u64_max -> safe (k now) (mkSt (s_store s) w)) ->
  safe (current_filetime ≫= k) s.
Proof. intros Hk. apply Hk, filetime_bound. Qed.
End Safe.

(** What a path argument gives: a well-formed key and display name. *)
Lemma path_ok_key p : path_ok p -> key_facts (lookup_key p).
Proof. intros Hp. apply (path_ok_facts p Hp). Qed.

Lemma path_ok_display p : path_ok p -> key_facts (default [] (display_name p)).
Proof. intros Hp. destruct (path_ok_facts p Hp) as (_ & n & -> & Hn). done. Qed.

Lemma require_parent_ok t p : require_parent t p = Ok tt -> parent_ok (st_directories t) (lookup_key p).
Proof.
  unfold require_parent, parent_key. intros H q E. unfold lookup_key in *. rewrite E in H.
  by case_bool_decide.
Qed.

Lemma metadata_now now : now <= u64_max -> metadata_ok (mkMetadata now now now now).
Proof. done. Qed.

Lemma touch_changed_ok now m : now <= u64_max -> metadata_ok m -> metadata_ok (touch_changed now m).
Proof. intros Hn (? & ? & ? & ?). done. Qed.

Section Preserve.
Context `{HA : Aead} `{HS : Sha256}.

Lemma safe_persist_or rollback s :
  (forall t t', names t = names t' -> names (rollback t) = names (rollback t')) ->
  s_ok s -> t_ok (rollback (s_store s)) -> safe (persist_or rollback) s.
Proof.
  intros Hr Hs Hb. unfold safe. destruct (persist_or rollback s) as [r s'] eqn:E.
  apply persist_or_run in E as [[-> E]|(e & t & -> & E & Et)].
  - by eapply s_ok_names.
  - unfold s_ok. simpl. rewrite Et. eapply t_ok_names; [|exact Hb]. by apply Hr.
Qed.

Lemma safe_touch_file key f s :
  (forall now e, now <= u64_max -> file_ok e -> file_ok (f now e)) ->
  s_ok s -> safe (touch_file key f) s.
Proof.
  intros Hf Hs. unfold touch_file. apply safe_gets.
  destruct (st_files (s_store s) !! key) as [e|] eqn:E; [|done].
  apply safe_tick. intros now w Hn. unfold safe, s_ok. simpl.
  eapply ns_update_file; [done|done|]. apply Hf; [done|]. by apply (no_file _ _ _ Hs _ _ E).
Qed.

Lemma touch_written_ok now e : now <= u64_max -> file_ok e -> file_ok (touch_written now e).
Proof. intros Hn (? & ? & ? & ? & ? & ?). done. Qed.
Lemma touch_accessed_ok now e : now <= u64_max -> file_ok e -> file_ok (touch_accessed now e).
Proof. intros Hn (? & ? & ? & ? & ? & ?). done. Qed.

Lemma safe_create_directory path s : path_ok path -> s_ok s -> safe (create_directory path) s.
Proof.
  intros Hp Hs. unfold create_directory. apply safe_gets.
  set (key := lookup_key path). case_match eqn:E; [done|].
  apply orb_false_iff in E as [_ Hd]. apply bool_decide_eq_false in Hd. rewrite <- eq_None_not_Some in Hd.
  apply safe_lift; [done|]. intros [] Hpar%require_parent_ok.
  apply safe_tick. intros now w Hn. apply safe_update.
  apply safe_persist_or.
  - intros t t' [= E1 E2 E3]. unfold names. simpl. by rewrite E1, E2, E3.
  - unfold s_ok, t_ok. simpl. apply ns_insert_dir; [done|done|by apply path_ok_key|].
    split; [by apply path_ok_display|done].
  - unfold t_ok. simpl. by rewrite delete_insert_id.
Qed.

Lemma safe_open_handle key allow s :
  s_ok s -> is_Some (st_files (s_store s) !! key) -> safe (open_handle key allow) s.
Proof. intros Hs Hk. unfold safe, s_ok, t_ok. simpl. by apply ns_insert_handle. Qed.

Lemma touch_file_is_Some key f s k :
  is_Some (st_files (s_store s) !! k) -> is_Some (st_files (s_store (snd (touch_file key f s))) !! k).
Proof.
  intros Hk. unfold touch_file, mbind, M_bind, gets.
  destruct (st_files (s_store s) !! key) eqn:E; [|done]. simpl.
  destruct (decide (key = k)) as [->|]; [by rewrite lookup_insert_eq|].
  by rewrite lookup_insert_ne.
Qed.

Lemma safe_create_or_open path create allow s :
  path_ok path -> s_ok s -> safe (create_or_open path create allow) s.
Proof.
  intros Hp Hs. unfold create_or_open. apply safe_gets.
  set (key := lookup_key path). destruct (st_files (s_store s) !! key) as [e|] eqn:E.
  - case_match; [done|]. apply safe_bind; [apply safe_touch_file; [apply touch_accessed_ok|done]|].
    intros [] s' Ht Hs'. apply safe_open_handle; [done|].
    pose proof (touch_file_is_Some key touch_accessed s key) as Hk. rewrite Ht in Hk. by apply Hk.
  - case_match; [done|]. apply safe_lift; [done|]. intros [] Hpar%require_parent_ok.
    apply safe_bind; [done|]. intros id s1 [= <- <-] Hs1.
    apply safe_lift; [done|]. intros file Hf.
    destruct (FileId_parse _) as [f|] eqn:Hfile; [|done]. simplify_eq/=.
    apply parse_identifier_Ok in Hfile as [-> Hfile].
    apply safe_tick. intros now w Hn. apply safe_update.
    apply safe_bind; [apply safe_persist_or|].
    + intros t t' [= E1 E2 E3]. unfold names. simpl. by rewrite E1, E2, E3.
    + unfold s_ok, t_ok. simpl. apply ns_insert_file; [done|done|by apply path_ok_key|].
      split; [by apply path_ok_display|done].
    + unfold t_ok. simpl. by rewrite delete_insert_id.
    + intros [] s' Hr Hs'. apply safe_open_handle; [done|].
      apply persist_or_run in Hr as [[_ Hr]|(? & ? & ? & _)]; [|done].
      injection Hr as _ -> _. simpl. by rewrite lookup_insert_eq.
Qed.

Lemma keeps_write_at file off b : keeps s_names (write_at file off b).
Proof.
  unfold write_at. apply keeps_bind; [apply keeps_gets|intros s].
  apply keeps_bind; [done|intros _]. apply keeps_bind; [apply keeps_lift|done].
Qed.

Lemma keeps_names_flush file : keeps s_names (flush_file file).
Proof. by apply (keeps_flush_file names). Qed.

Lemma safe_write_handle h off b s : s_ok s -> safe (write_handle h off b) s.
Proof.
  intros Hs. unfold write_handle. apply safe_gets, safe_lift; [done|]. intros file _.
  apply safe_bind; [by apply safe_keeps; [apply keeps_write_at|]|]. intros [] s1 _ Hs1.
  apply safe_gets, safe_lift; [done|]. intros key _. by apply safe_touch_file; [apply touch_written_ok|].
Qed.

Lemma safe_read_handle h s : s_ok s -> safe (read_handle h) s.
Proof.
  intros Hs. unfold read_handle. apply safe_gets, safe_lift; [done|]. intros file _.
  apply safe_lift; [done|]. intros data _. apply safe_lift; [done|]. intros key _.
  apply safe_bind; [by apply safe_touch_file; [apply touch_accessed_ok|]|done].
Qed.

Lemma safe_read_path p s : s_ok s -> safe (read_path p) s.
Proof.
  intros Hs. unfold read_path. apply safe_gets, safe_lift; [done|]. intros e _.
  apply safe_ensure; [done|]. intros _. apply safe_lift; [done|]. intros data _.
  apply safe_bind; [by apply safe_touch_file; [apply touch_accessed_ok|]|done].
Qed.

Lemma safe_truncate_handle h n s : s_ok s -> safe (truncate_handle h n) s.
Proof.
  intros Hs. unfold truncate_handle. apply safe_gets, safe_lift; [done|]. intros file _.
  apply safe_lift; [done|]. intros key _. apply safe_bind; [done|]. intros [] s1 _ Hs1.
  by apply safe_touch_file; [apply touch_written_ok|].
Qed.

Lemma safe_flush_handle h s : s_ok s -> safe (flush_handle h) s.
Proof.
  intros Hs. unfold flush_handle. apply safe_gets, safe_lift; [done|]. intros file _.
  apply safe_bind.
  - case_match; [|done]. apply safe_bind; [by apply safe_keeps; [apply keeps_names_flush|]|].
    intros [] s1 _ Hs1. apply safe_gets, safe_lift; [done|]. intros key _.
    by apply safe_touch_file; [apply touch_written_ok|].
  - intros [] s1 _ Hs1. by apply safe_keeps; [apply keeps_persist|].
Qed.

Lemma safe_close_handle h s : s_ok s -> safe (close_handle h) s.
Proof.
  intros Hs. unfold close_handle. apply safe_gets, safe_lift; [done|]. intros st _.
  apply safe_update, safe_gets. cbn [s_store].
  pose proof (ns_delete_handle _ _ _ h Hs) as Hd.
  case_match eqn:E; [|done]. apply andb_prop in E as [_ E]. apply negb_true_iff in E.
  apply safe_update, safe_persist_or.
  - intros t t' [= E1 E2 E3]. unfold names. simpl. by rewrite E1, E3.
  - apply ns_delete_file; [done|]. intros h' st' Hst Heq.
    apply (any_handle_false _ _ E) in Hst. by rewrite bool_decide_eq_true_2 in Hst.
  - done.
Qed.

Lemma safe_delete_directory p s : s_ok s -> safe (delete_directory p) s.
Proof.
  intros Hs. unfold delete_directory. apply safe_gets. case_match; [done|]. case_match; [done|].
  case_match eqn:E; [done|]. apply orb_false_iff in E as [E1 E2].
  apply safe_update, safe_persist_or; [|by apply ns_delete_dir; [|apply any_key_under_false..]|done].
  intros t t' [= E3 E4 E5]. unfold names. simpl. by rewrite E4, E5.
Qed.

Lemma safe_delete_path p s : s_ok s -> safe (delete_path p) s.
Proof.
  intros Hs. unfold delete_path. apply safe_gets. case_match; [by apply safe_delete_directory|].
  apply safe_lift; [done|]. intros e He.
  destruct (st_files (s_store s) !! lookup_key p) as [e0|] eqn:E; [|done]. simplify_eq/=.
  case_match; [done|]. case_match eqn:Eh.
  - eapply ns_update_file; [done|done|]. apply (no_file _ _ _ Hs) in E as (_ & _ & ?). done.
  - apply safe_update, safe_persist_or; [| |done].
    + intros t t' [= E3 E4 E5]. unfold names. simpl. by rewrite E3, E5.
    + apply ns_delete_file; [done|]. intros h' st' Hst Heq.
      apply (any_handle_false _ _ Eh) in Hst. by rewrite bool_decide_eq_true_2 in Hst.
Qed.

Lemma persist_or_Ok rollback s s' : persist_or rollback s = (Ok tt, s') -> s_names s' = s_names s.
Proof. by intros [[_ ?]|(? & ? & ? & _)]%persist_or_run. Qed.

(** What a deletion reported as done did to the directories. *)
Lemma delete_path_vacates p s s' :
  delete_path p s = (Ok tt, s') -> lookup_key p <> [] ->
  st_directories (s_store s') = delete (lookup_key p) (st_directories (s_store s)).
Proof.
  intros Hd Hp. unfold delete_path in Hd. apply bind_Ok in Hd as (t & s1 & [= <- <-] & Hd).
  destruct (is_directory (s_store s) p) eqn:Ei.
  - unfold delete_directory in Hd. apply bind_Ok in Hd as (t & s1 & [= <- <-] & Hd).
    repeat (case_match; [done|]). apply bind_Ok in Hd as ([] & s2 & [= <-] & Hd).
    apply persist_or_Ok in Hd. by injection Hd as -> _ _.
  - unfold is_directory in Ei. rewrite bool_decide_eq_false_2 in Ei by done.
    simpl in Ei. apply bool_decide_eq_false in Ei. rewrite <- eq_None_not_Some in Ei.
    rewrite delete_id by done.
    apply bind_Ok in Hd as (e & s1 & Hl & Hd). case_match; [done|].
    unfold lift in Hl. simplify_eq. case_match; [by injection Hd as <-|].
    apply bind_Ok in Hd as ([] & s2 & [= <-] & Hd).
    apply persist_or_Ok in Hd. by injection Hd as -> _ _.
Qed.

(** How the loops of [rename_directory] change an entry: a directory gets the change
    time and the display name [display], a file the change time. *)
Definition moved_directory (display : bytes) (e e' : DirectoryEntry) : Prop :=
  exists now, now <= u64_max /\ e' = mkDirectoryEntry display (touch_changed now (de_metadata e)).

(** Only the directory at the end of the path, the one renamed, gets the new name. *)
Definition name_at (suffix display : bytes) (e : DirectoryEntry) : bytes :=
  if bool_decide (suffix = []) then display else de_display e.

Definition moved_at (src display k : bytes) (e e' : DirectoryEntry) : Prop :=
  moved_directory (name_at (default [] (strip_prefix src k)) display e) e e'.
Definition moved_file (e e' : FileEntry) : Prop :=
  exists now, now <= u64_max /\
    e' = mkFileEntry (fe_file_id e) (fe_display e) (fe_delete_pending e)
           (touch_changed now (fe_metadata e)).

Lemma moved_at_ok src display k e e' :
  key_facts display -> moved_at src display k e e' -> directory_ok e -> directory_ok e'.
Proof.
  intros Hd (now & Hn & ->) [He1 He2]. split; cbn [de_display de_metadata]; [|by apply touch_changed_ok].
  unfold name_at. by case_bool_decide.
Qed.

Lemma moved_file_ok e e' : moved_file e e' -> file_ok e -> file_ok e'.
Proof.
  intros (now & Hn & ->) (Hd & Hi & Hm). split; [done|]. split; [done|]. by apply touch_changed_ok.
Qed.

Lemma move_directory_run src dst display k s e :
  st_directories (s_store s) !! k = Some e ->
  exists e' s', move_directory src dst display k s = (Ok tt, s') /\
    st_files (s_store s') = st_files (s_store s) /\
    st_handles (s_store s') = st_handles (s_store s) /\
    st_directories (s_store s') = <[target src dst k := e']> (delete k (st_directories (s_store s))) /\
    moved_at src display k e e'.
Proof.
  intros E. unfold move_directory, mbind, M_bind, gets, current_filetime. cbv beta iota zeta. rewrite E.
  eexists _, _. split; [reflexivity|]. do 3 (split; [reflexivity|]).   eexists. split; [apply filetime_bound|reflexivity].
Qed.

Lemma move_file_run src dst k s e :
  st_files (s_store s) !! k = Some e ->
  exists e' s', move_file src dst k s = (Ok tt, s') /\
    st_directories (s_store s') = st_directories (s_store s) /\
    st_handles (s_store s') = st_handles (s_store s) /\
    st_files (s_store s') = <[target src dst k := e']> (delete k (st_files (s_store s))) /\
    moved_file e e'.
Proof.
  intros E. unfold move_file, mbind, M_bind, gets, current_filetime. cbv beta iota zeta. rewrite E.
  eexists _, _. split; [reflexivity|]. do 3 (split; [reflexivity|]).
  eexists. split; [apply filetime_bound|reflexivity].
Qed.

Lemma clean_step {V} (tgt : bytes -> bytes) (k : bytes) (l : list bytes) (m : gmap bytes V) (e : V) :
  clean tgt (k :: l) -> (forall k', k' ∈ k :: l -> is_Some (m !! k')) ->
  forall k', k' ∈ l -> is_Some (<[tgt k := e]> (delete k m) !! k').
Proof.
  intros [Hnd Ht Hi] Hin k' Hk'. inversion Hnd as [|? ? Hni _]; subst.
  rewrite lookup_insert_ne; [|by apply (Ht k k'); [left|right]].
  rewrite lookup_delete_ne by (intros ->; done). apply Hin. by right.
Qed.

Lemma move_directories_run src dst display l s :
  clean (target src dst) l -> (forall k, k ∈ l -> is_Some (st_directories (s_store s) !! k)) ->
  exists s', fold_m (fun _ key => move_directory src dst display key) tt l s = (Ok tt, s') /\
    st_files (s_store s') = st_files (s_store s) /\
    st_handles (s_store s') = st_handles (s_store s) /\
    moves (target src dst) (moved_at src display) (st_directories (s_store s)) l
      (st_directories (s_store s')).
Proof.
  revert s. induction l as [|k l IH]; intros s Hc Hin.
  { exists s. repeat split; try done. constructor. }
  destruct (Hin k) as [e E]; [left|]. cbn [fold_m].
  destruct (move_directory_run src dst display k s e E) as (e' & s1 & E1 & Ef & Eh & Ed & Hm).
  rewrite (bind_step _ _ _ _ _ E1).
  destruct (IH s1) as (s' & -> & H1 & H2 & H3).
  - by eapply clean_tail.
  - rewrite Ed. by apply clean_step.
  - exists s'. split; [done|]. split; [congruence|]. split; [congruence|].
    econstructor; [exact E|exact Hm|]. by rewrite <- Ed.
Qed.

Lemma move_files_run src dst l s :
  clean (target src dst) l -> (forall k, k ∈ l -> is_Some (st_files (s_store s) !! k)) ->
  exists s', fold_m (fun _ key => move_file src dst key) tt l s = (Ok tt, s') /\
    st_directories (s_store s') = st_directories (s_store s) /\
    st_handles (s_store s') = st_handles (s_store s) /\
    moves (target src dst) (fun _ => moved_file) (st_files (s_store s)) l (st_files (s_store s')).
Proof.
  revert s. induction l as [|k l IH]; intros s Hc Hin.
  { exists s. repeat split; try done. constructor. }
  destruct (Hin k) as [e E]; [left|]. cbn [fold_m].
  destruct (move_file_run src dst k s e E) as (e' & s1 & E1 & Ef & Eh & Ed & Hm).
  rewrite (bind_step _ _ _ _ _ E1).
  destruct (IH s1) as (s' & -> & H1 & H2 & H3).
  - by eapply clean_tail.
  - rewrite Ed. by apply clean_step.
  - exists s'. split; [done|]. split; [congruence|]. split; [congruence|].
    econstructor; [exact E|exact Hm|]. by rewrite <- Ed.
Qed.

(** The destination of a directory rename that passed its checks. *)
Record vacant (t : LocalEncryptedStore) (src dst : bytes) : Prop := {
  va_ok : t_ok t;
  va_src : key_facts src;
  va_dst : key_facts dst;
  va_free : st_directories t !! dst = None;
  va_parent : parent_ok (st_directories t) dst;
  va_outside : starts_with (src ++ lit "/") dst = false;
}.

Lemma vacant_none_under t src dst :
  vacant t src dst -> none_under dst (st_directories t) /\ none_under dst (st_files t).
Proof.
  intros [Hok _ _ Hf _ _]. split; intros k e E;
    destruct (starts_with (dst ++ lit "/") k) eqn:Es; try done;
    apply starts_with_spec in Es as [r ->]; rewrite <- app_assoc in E;
    destruct (ancestor_dir _ _ _ dst r Hok) as [x Hx]; eauto; congruence.
Qed.

(** The body of [rename_directory] between its checks and persisting. *)
Definition move_subtree (t : LocalEncryptedStore) (src dst display : bytes) : store_m unit :=
  _ ← fold_m (fun _ key => move_directory src dst display key) tt
        (directory_keys src (st_directories t));
  _ ← fold_m (fun _ key => move_file src dst key) tt (file_keys src (st_files t));
  update (fun t => set_handles (retarget_under src dst <$> st_handles t) t).

Lemma move_subtree_run src dst display s :
  vacant (s_store s) src dst ->
  exists s', move_subtree (s_store s) src dst display s = (Ok tt, s') /\
    moves (target src dst) (moved_at src display) (st_directories (s_store s))
      (directory_keys src (st_directories (s_store s))) (st_directories (s_store s')) /\
    moves (target src dst) (fun _ => moved_file) (st_files (s_store s))
      (file_keys src (st_files (s_store s))) (st_files (s_store s')) /\
    st_handles (s_store s') = retarget_under src dst <$> st_handles (s_store s).
Proof.
  intros Hv. destruct (vacant_none_under _ _ _ Hv) as [HD HF]. destruct Hv as [Hok _ _ Hfree _ _].
  unfold move_subtree.
  destruct (move_directories_run src dst display (directory_keys src (st_directories (s_store s))) s)
    as (s1 & E1 & Hf1 & Hh1 & Hm1).
  { by apply clean_dirs. }
  { by intros k [? _]%elem_of_directory_keys. }
  rewrite (bind_step _ _ _ _ _ E1).
  destruct (move_files_run src dst (file_keys src (st_files (s_store s))) s1)
    as (s2 & E2 & Hd2 & Hh2 & Hm2).
  { by apply clean_files. }
  { rewrite Hf1. by intros k [? _]%elem_of_file_keys. }
  rewrite (bind_step _ _ _ _ _ E2). eexists. split; [reflexivity|].
  simpl. rewrite Hd2, Hh2, Hh1. rewrite Hf1 in Hm2. done.
Qed.

Lemma move_subtree_ok src dst display s s' :
  vacant (s_store s) src dst -> key_facts display ->
  move_subtree (s_store s) src dst display s = (Ok tt, s') -> s_ok s'.
Proof.
  intros Hv Hd E. destruct (move_subtree_run src dst display s Hv) as (s1 & E1 & HmD & HmF & Hh).
  rewrite E1 in E. simplify_eq. destruct (vacant_none_under _ _ _ Hv) as [HD HF].
  destruct Hv as [Hok Hs Hds Hfree Hpar Hout]. unfold s_ok, t_ok. rewrite Hh.
  eapply ns_rename_dir; [exact Hok|done|done|done|done|done|done|done| | |exact HmD|exact HmF].
  - intros k e e' He. by apply (moved_at_ok src display k).
  - intros ?. apply moved_file_ok.
Qed.

(** A path argument of an operation: parsed, or the root. *)
Definition any_path (p : VirtualPath) : Prop := p = root \/ path_ok p.

Lemma any_path_key p : any_path p -> lookup_key p <> [] -> key_facts (lookup_key p).
Proof. intros [->|Hp] Hne; [done|by apply path_ok_key]. Qed.

Lemma parent_ok_self D k : parent_ok D k -> parent_ok (delete k D) k.
Proof.
  intros Hp. apply parent_ok_delete; [done|].
  destruct (starts_with (k ++ lit "/") k) eqn:E; [|done].
  apply starts_with_spec in E as [r E]. apply (f_equal length) in E.
  rewrite !length_app in E. simpl in E. lia.
Qed.

(** The state after the destination was made free. *)
Lemma replace_vacant (c : bool) (e : StorageError) p s s' src :
  s_ok s -> path_ok p -> key_facts src -> parent_ok (st_directories (s_store s)) (lookup_key p) ->
  starts_with (src ++ lit "/") (lookup_key p) = false ->
  (if bool_decide (is_Some (st_files (s_store s) !! lookup_key p))
      || bool_decide (is_Some (st_directories (s_store s) !! lookup_key p))
   then if c then throw e else delete_path p
   else mret tt) s = (Ok tt, s') ->
  vacant (s_store s') src (lookup_key p).
Proof.
  intros Hs Hp Hsrc Hpar Hout Hr. pose proof (path_ok_key _ Hp) as Hk. case_match eqn:E.
  - destruct c; [done|]. pose proof (safe_delete_path p s Hs) as Hs'. unfold safe in Hs'.
    rewrite Hr in Hs'. apply delete_path_vacates in Hr; [|apply Hk].
    split; [done|done|done|by rewrite Hr, lookup_delete_eq| |done].
    rewrite Hr. by apply parent_ok_self.
  - apply orb_false_iff in E as [_ E]. apply bool_decide_eq_false in E.
    rewrite <- eq_None_not_Some in E. injection Hr as <-. done.
Qed.

Lemma safe_rename_directory src dst replace s :
  any_path src -> path_ok dst -> s_ok s -> safe (rename_directory src dst replace) s.
Proof.
  intros Hsrc Hdst Hs. unfold rename_directory. apply safe_gets.
  case_match eqn:E; [done|]. apply orb_false_iff in E as [E1 Hout].
  apply bool_decide_eq_false in E1. pose proof (any_path_key _ Hsrc E1) as Hk.
  apply safe_lift; [done|]. intros [] Hpar%require_parent_ok.
  apply safe_bind.
  { case_match; [|done]. case_match; [done|by apply safe_delete_path]. }
  intros [] s1 Hr Hs1. apply (replace_vacant _ _ _ _ _ (lookup_key src)) in Hr; [|done..].
  apply safe_gets.
  set (prior t' := set_directories _ _).
  unfold safe. rewrite bind_group. fold (move_subtree (s_store s1) (lookup_key src)
    (lookup_key dst) (default [] (display_name dst))).
  apply safe_bind.
  - destruct (move_subtree_run _ _ (default [] (display_name dst)) _ Hr) as (s2 & E2 & _).
    unfold safe. rewrite E2. eapply move_subtree_ok; [exact Hr|by apply path_ok_display|exact E2].
  - intros [] s2 E2 Hs2. by apply safe_persist_or.
Qed.

Lemma safe_rename src dst replace s :
  any_path src -> path_ok dst -> s_ok s -> safe (rename src dst replace) s.
Proof.
  intros Hsrc Hdst Hs. unfold rename. apply safe_gets.
  apply safe_lift; [done|]. intros [] Hpar%require_parent_ok.
  case_match; [by apply safe_rename_directory|].
  apply safe_lift; [done|]. intros e He. case_match; [done|].
  apply safe_bind.
  { case_match; [|done]. case_match; [done|]. apply safe_bind; [by apply safe_delete_path|].
    intros [] s1 _ Hs1. apply safe_gets. unfold safe, ensure. by case_match. }
  intros [] s1 Hr Hs1. apply safe_gets, safe_lift; [done|]. intros moved Hm.
  destruct (st_files (s_store s1) !! lookup_key src) as [e0|] eqn:E0; [|done]. simplify_eq/=.
  apply safe_tick. intros now w Hn. do 2 apply safe_update. apply safe_persist_or; [| |done].
  { intros t t' [= E _ _]. unfold names. simpl. by rewrite E. }
  destruct (no_file _ _ _ Hs1 _ _ E0) as (_ & _ & _ & Hi & Hmeta).
  eapply ns_rename_file; [done|done| |by apply path_ok_key|].
  - simpl. case_match; [|by injection Hr as <-]. case_match; [done|].
    apply bind_Ok in Hr as ([] & s2 & Hr & Hr2). apply bind_Ok in Hr2 as (t & s3 & [= <- <-] & Hr2).
    unfold ensure in Hr2. case_match; [|done]. injection Hr2 as <-.
    apply delete_path_vacates in Hr as ->; [by apply parent_ok_self|by apply path_ok_key].
  - split; [by apply path_ok_display|]. split; [done|]. by apply touch_changed_ok.
Qed.
End Preserve.

(** ** Sequences of operations *)

Inductive ns_op :=
| OpCreateDirectory (p : VirtualPath)
| OpCreateOrOpen (p : VirtualPath) (create allow_delete : bool)
| OpWrite (h offset : N) (b : bytes)
| OpRead (h : N)
| OpReadPath (p : VirtualPath)
| OpTruncate (h length : N)
| OpFlush (h : N)
| OpClose (h : N)
| OpDelete (p : VirtualPath)
| OpRename (source destination : VirtualPath) (replace : bool).

Section Ops.
Context `{HA : Aead} `{HS : Sha256}.

(** The call an operation stands for; what it returns is dropped. *)
Definition run_op (op : ns_op) (s : St) : St :=
  match op with
  | OpCreateDirectory p => snd (create_directory p s)
  | OpCreateOrOpen p c a => snd (create_or_open p c a s)
  | OpWrite h o b => snd (write_handle h o b s)
  | OpRead h => snd (read_handle h s)
  | OpReadPath p => snd (read_path p s)
  | OpTruncate h n => snd (truncate_handle h n s)
  | OpFlush h => snd (flush_handle h s)
  | OpClose h => snd (close_handle h s)
  | OpDelete p => snd (delete_path p s)
  | OpRename a b r => snd (rename a b r s)
  end.

(** The paths were parsed; an operation that does not create may be given the
    root. *)
Definition op_wf (op : ns_op) : Prop :=
  match op with
  | OpCreateDirectory p | OpCreateOrOpen p _ _ => path_ok p
  | OpRename a b _ => any_path a /\ path_ok b
  | _ => True
  end.

Definition run_ops (ops : list ns_op) (s : St) : St := foldl (fun s op => run_op op s) s ops.

Lemma run_op_ok op s : op_wf op -> s_ok s -> s_ok (run_op op s).
Proof.
  destruct op; simpl; intros Hw Hs.
  - by apply safe_create_directory.
  - by apply safe_create_or_open.
  - by apply safe_write_handle.
  - by apply safe_read_handle.
  - by apply safe_read_path.
  - by apply safe_truncate_handle.
  - by apply safe_flush_handle.
  - by apply safe_close_handle.
  - by apply safe_delete_path.
  - destruct Hw. by apply safe_rename.
Qed.

(** C5.  The namespace stays well formed through every sequence of operations
    and every disk failure: from a store in which every directory and file has a
    well-formed key and display name and lies in a directory that exists, and
    every handle refers to a file that exists, any operations on parsed paths
    and any handles, each of which may succeed or fail at any point, lead to
    such a store. *)
Theorem namespace_invariant ops s : Forall op_wf ops -> s_ok s -> s_ok (run_ops ops s).
Proof.
  intros H. revert s. induction H as [|op ops Hop H IH]; intros s Hs; [done|].
  apply IH. by apply run_op_ok.
Qed.
End Ops.

(** ** A concrete namespace *)

Module Names.
Import Scenario.

(** The path of a display string that parses. *)
Definition path (s : string) : VirtualPath := unwrap_or (parse (lit s)) root.

Definition start : St := mkSt empty_store world.

(** A directory with a file in it. *)
Definition two_entries : St :=
  run_ops [OpCreateDirectory (path "Docs"); OpCreateOrOpen (path "Docs\Plan.txt") true true] start.
End Names.

Import Names.

Lemma start_ok : s_ok start.
Proof. split; intros k e E; cbn in E; by apply lookup_empty_Some in E. Qed.

Lemma path_parsed s : utf8_valid (lit s) = true -> is_ok (parse (lit s)) = true -> path_ok (path s).
Proof. intros Hu Ho. exists (lit s). split; [exact Hu|]. unfold path. by destruct (parse (lit s)). Qed.

(** Discharge that a literal path parses. *)
Ltac literal_path := apply path_parsed; vm_compute; reflexivity.

Lemma two_entries_ok : s_ok two_entries.
Proof.
  unfold two_entries, run_ops. cbn [foldl]. apply run_op_ok; [simpl; literal_path|].
  apply run_op_ok; [simpl; literal_path|exact start_ok].
Qed.

Lemma namespace_invariant_witness :
  s_ok (run_ops [OpRename (path "Docs") (path "Papers") false;
                 OpDelete (path "Papers\plan.TXT"); OpClose 1] two_entries).
Proof.
  apply namespace_invariant; [|exact two_entries_ok].
  apply Forall_cons. split; [split; [right|]; literal_path|].
  repeat (apply Forall_cons; split; [exact I|]). constructor.
Defined.
