(* ===== verification/NamespacePersist.v ===== *)
(** * NamespacePersist

    The persisted form of the namespace: the text that [persist_namespace] seals
    is read back by [load_namespace] to the same directories and files, and the
    replacement of the record on disk is atomic under every failure. *)

From S2P Require Import Prelude Bytes Text Effects Domain Crypto Format VPath Fs Store.
From S2P Require Import Toy Durability Namespace NamespaceInv.

(** ** The text *)

Lemma strip_cr_free p : free_of is_ctl p -> strip_cr p = p.
Proof.
  intros Hp. unfold strip_cr. destruct (rev p) as [|b r] eqn:E; [done|].
  assert (is_ctl b = false) as Hb.
  { unfold free_of in Hp. rewrite Forall_forall in Hp. apply Hp. rewrite list_elem_of_In, in_rev, E. by left. }
  by destruct b.
Qed.

(** [str::lines] of newline-terminated lines. *)
Lemma lines_concat ls :
  Forall (fun l => free_of (Byte.eqb x0a) l /\ strip_cr l = l) ls ->
  lines (concat (map (fun l => l ++ newline) ls)) = ls.
Proof.
  unfold lines, split_byte. induction 1 as [|l ls [Hl Hs] H IH]; [done|].
  cbn [map concat]. rewrite <- app_assoc. change (newline ++ ?x) with (x0a :: x).
  rewrite split_pred_sep by done.
  pose proof (split_pred_nonnil (Byte.eqb x0a) (concat (map (fun l => l ++ newline) ls))) as Hn.
  destruct (split_pred _ _) as [|p ps] eqn:E; [done|].
  change (lines_of (l :: p :: ps)) with (strip_cr l :: lines_of (p :: ps)). by rewrite Hs, IH.
Qed.

Lemma free_of_mono (f g : byte -> bool) s :
  (forall b, g b = true -> f b = true) -> free_of f s -> free_of g s.
Proof.
  intros Hfg Hs. eapply Forall_impl; [exact Hs|]. intros b Hb. destruct (g b) eqn:E; [|done].
  apply Hfg in E. congruence.
Qed.

Lemma ctl_tab b : Byte.eqb x09 b = true -> is_ctl b = true.
Proof. by intros <-%Byte.byte_dec_bl. Qed.
Lemma ctl_newline b : Byte.eqb x0a b = true -> is_ctl b = true.
Proof. by intros <-%Byte.byte_dec_bl. Qed.

(** A field of a line. *)
Definition field_ok (s : bytes) : Prop := utf8_valid s = true /\ free_of is_ctl s.

Lemma field_key k : key_facts k -> field_ok k.
Proof. by intros [? ? _]. Qed.

Lemma digit_ascii s :
  Forall (fun b => is_ascii_digit b = true) s -> forallb is_ascii s = true.
Proof.
  intros H. apply forallb_forall. intros b Hb. rewrite Forall_forall in H.
  apply list_elem_of_In, H in Hb.
  assert (implb (is_ascii_digit b) (is_ascii b) = true) as Hi.
  { apply (byte_forall (fun b => implb (is_ascii_digit b) (is_ascii b))). by vm_compute. }
  by rewrite Hb in Hi.
Qed.

Lemma field_dec n : field_ok (dec n).
Proof.
  destruct (dec_spec n) as (_ & Hd & _). split.
  - by apply utf8_valid_ascii, digit_ascii.
  - apply digits_free_of; [done|by vm_compute].
Qed.

Lemma identifier_field s : identifier false s -> field_ok s.
Proof.
  intros (_ & _ & Hb)%identifier_spec.
  assert (forall b, identifier_byte false b = true -> is_ascii b && negb (is_ctl b) = true) as Hall.
  { intros b Hi. assert (implb (identifier_byte false b) (is_ascii b && negb (is_ctl b)) = true) as H.
    { apply (byte_forall (fun b => implb (identifier_byte false b) (is_ascii b && negb (is_ctl b)))).
      by vm_compute. }
    by rewrite Hi in H. }
  rewrite forallb_forall in Hb. split.
  - apply utf8_valid_ascii, forallb_forall. intros b Hin. specialize (Hall b (Hb b Hin)).
    by apply andb_prop in Hall as [? _].
  - apply Forall_forall. intros b Hin. apply list_elem_of_In in Hin. specialize (Hall b (Hb b Hin)).
    apply andb_prop in Hall as [_ Hall]. by apply negb_true_iff.
Qed.

Lemma metadata_fields_ok m : Forall field_ok (metadata_fields m).
Proof. repeat (constructor; [apply field_dec|]). constructor. Qed.

Definition line_ok (l : bytes) : Prop :=
  utf8_valid l = true /\ free_of (Byte.eqb x0a) l /\ strip_cr l = l.

Lemma strip_cr_last p b : is_ctl b = false -> strip_cr (p ++ [b]) = p ++ [b].
Proof. intros Hb. unfold strip_cr. rewrite rev_app_distr. simpl. by destruct b. Qed.

Lemma join_last c l x : l <> [] -> exists p, join c (l ++ [x]) = p ++ x.
Proof.
  induction l as [|y l IH]; [done|]. intros _. destruct l as [|z l].
  - exists (y ++ c). simpl. by rewrite app_assoc.
  - destruct IH as [p Hp]; [done|]. exists (y ++ c ++ p).
    change (join c ((y :: z :: l) ++ [x])) with (y ++ c ++ join c ((z :: l) ++ [x])).
    rewrite Hp. by rewrite <- !app_assoc.
Qed.

Lemma line_join l n : l <> [] -> Forall field_ok l -> line_ok (join tab (l ++ [dec n])).
Proof.
  intros Hl H. assert (Forall field_ok (l ++ [dec n])) as H'.
  { apply Forall_app. split; [done|]. constructor; [apply field_dec|constructor]. }
  unfold line_ok. change tab with [x09]. split.
  { apply utf8_valid_join; [done|]. eapply Forall_impl; [exact H'|]. by intros s [? _]. }
  split.
  { apply join_free; [done|]. eapply Forall_impl; [exact H'|]. intros s [_ Hs].
    eapply free_of_mono; [apply ctl_newline|done]. }
  destruct (join_last [x09] l (dec n) Hl) as [p ->].
  destruct (dec_spec n) as (Hne & _ & _). destruct (field_dec n) as [_ Hf].
  destruct (exists_last Hne) as (q & b & E). rewrite E in *. rewrite app_assoc.
  apply strip_cr_last. unfold free_of in Hf. rewrite Forall_app in Hf. destruct Hf as [_ Hf].
  by inversion Hf.
Qed.

Lemma field_lit_D : field_ok (lit "D").
Proof. split; [done|]. by repeat constructor. Qed.
Lemma field_lit_F : field_ok (lit "F").
Proof. split; [done|]. by repeat constructor. Qed.

Lemma directory_line_ok k e : key_facts k -> directory_ok e -> line_ok (directory_line k e).
Proof.
  intros Hk [Hd _]. unfold directory_line.
  apply (line_join ([lit "D"; k; de_display e] ++ [_; _; _])); [done|].
  repeat (apply Forall_cons; split); try apply field_dec;
    [apply field_lit_D|by apply field_key..|constructor].
Qed.

Lemma file_line_ok k e : key_facts k -> file_ok e -> line_ok (file_line k e).
Proof.
  intros Hk (Hd & Hi & _). unfold file_line.
  apply (line_join ([lit "F"; k; fe_file_id e; fe_display e] ++ [_; _; _])); [done|].
  repeat (apply Forall_cons; split); try apply field_dec;
    [apply field_lit_F|by apply field_key|by apply identifier_field|by apply field_key|constructor].
Qed.

Lemma split_fields l : l <> [] -> Forall field_ok l -> split_byte x09 (join tab l) = l.
Proof.
  intros Hl H. apply split_join; [done|]. eapply Forall_impl; [exact H|]. intros s [_ Hs].
  eapply free_of_mono; [apply ctl_tab|done].
Qed.

Lemma parse_metadata_fields m :
  metadata_ok m ->
  parse_metadata (dec (creation_time m)) (dec (last_access_time m)) (dec (last_write_time m))
    (dec (change_time m)) = Ok m.
Proof.
  intros (H1 & H2 & H3 & H4). unfold parse_metadata. rewrite !parse_dec by done.
  simpl. by destruct m.
Qed.

Lemma nonempty_key k : key_facts k -> nonempty k = true.
Proof. intros [_ _ Hk]. unfold nonempty. by rewrite bool_decide_eq_false_2. Qed.

Lemma all_fields (l : list bytes) m : Forall field_ok l -> Forall field_ok (l ++ metadata_fields m).
Proof. intros H. apply Forall_app. split; [done|apply metadata_fields_ok]. Qed.

(** The entries that are written. *)
Definition live (F : gmap bytes FileEntry) : gmap bytes FileEntry :=
  filter (fun kv => fe_delete_pending kv.2 = false) F.

Section Load.
Context `{HA : Aead} `{HS : Sha256}.

Lemma load_directory_line k e t w :
  key_facts k -> directory_ok e -> st_directories t !! k = None ->
  load_line_v2 (directory_line k e) (mkSt t w) =
    (Ok tt, mkSt (set_directories (<[k := e]> (st_directories t)) t) w).
Proof.
  intros Hk [Hd Hm] Hn. unfold load_line_v2, directory_line. rewrite split_fields; [|done|].
  2:{ apply all_fields. apply Forall_cons; split; [apply field_lit_D|].
      do 2 (apply Forall_cons; split; [by apply field_key|]). constructor. }
  cbn [app metadata_fields]. rewrite !nonempty_key, bool_decide_eq_true_2 by done. cbn [andb].
  rewrite parse_metadata_fields by done. unfold insert_directory, mbind, M_bind, lift, gets, update, modify.
  cbn [s_store s_world]. rewrite Hn. by destruct e.
Qed.

Lemma load_file_line k e t w :
  key_facts k -> file_ok e -> fe_delete_pending e = false -> st_files t !! k = None ->
  load_line_v2 (file_line k e) (mkSt t w) =
    (Ok tt, mkSt (set_files (<[k := e]> (st_files t)) t) w).
Proof.
  intros Hk (Hd & Hi & Hm) Hp Hn. unfold load_line_v2, file_line. rewrite split_fields; [|done|].
  2:{ apply all_fields. apply Forall_cons; split; [apply field_lit_F|].
      apply Forall_cons; split; [by apply field_key|].
      apply Forall_cons; split; [by apply identifier_field|].
      apply Forall_cons; split; [by apply field_key|constructor]. }
  cbn [app metadata_fields]. rewrite !nonempty_key, bool_decide_eq_true_2 by done. cbn [andb].
  unfold FileId_parse. unfold identifier in Hi. rewrite Hi.
  rewrite parse_metadata_fields by done.
  unfold insert_file, mbind, M_bind, lift, gets, update, modify.
  cbn [s_store s_world map_err]. rewrite Hn. destruct e. simpl in *. by subst.
Qed.

Lemma load_directories l t w :
  NoDup l.*1 -> Forall (fun ke => key_facts ke.1 /\ directory_ok ke.2) l ->
  (forall k, k ∈ l.*1 -> st_directories t !! k = None) ->
  load_namespace_v2 (map (fun '(k, e) => directory_line k e) l) (mkSt t w) =
    (Ok tt, mkSt (set_directories (list_to_map l ∪ st_directories t) t) w).
Proof.
  unfold load_namespace_v2. revert t. induction l as [|[k e] l IH]; intros t Hnd Hok Hfree.
  { simpl. rewrite (left_id_L ∅ (∪)). by destruct t. }
  apply Forall_cons in Hok as [[Hk He] Hok]. cbn [map fold_m]. simpl in Hnd.
  inversion Hnd as [|? ? Hni Hnd']; subst.
  rewrite (bind_step _ _ _ _ _ (load_directory_line k e t w Hk He (Hfree k ltac:(left)))).
  rewrite IH; [|done|done|].
  - simpl. rewrite <- insert_union_r, insert_union_l; [done|]. by apply not_elem_of_list_to_map.
  - intros k' Hk'. simpl. rewrite lookup_insert_ne by (intros ->; done). apply Hfree. by right.
Qed.

Lemma load_files l t w :
  NoDup l.*1 ->
  Forall (fun ke => key_facts ke.1 /\ file_ok ke.2 /\ fe_delete_pending ke.2 = false) l ->
  (forall k, k ∈ l.*1 -> st_files t !! k = None) ->
  load_namespace_v2 (map (fun '(k, e) => file_line k e) l) (mkSt t w) =
    (Ok tt, mkSt (set_files (list_to_map l ∪ st_files t) t) w).
Proof.
  unfold load_namespace_v2. revert t. induction l as [|[k e] l IH]; intros t Hnd Hok Hfree.
  { simpl. rewrite (left_id_L ∅ (∪)). by destruct t. }
  apply Forall_cons in Hok as [(Hk & He & Hp) Hok]. cbn [map fold_m]. simpl in Hnd.
  inversion Hnd as [|? ? Hni Hnd']; subst.
  rewrite (bind_step _ _ _ _ _ (load_file_line k e t w Hk He Hp (Hfree k ltac:(left)))).
  rewrite IH; [|done|done|].
  - simpl. rewrite <- insert_union_r, insert_union_l; [done|]. by apply not_elem_of_list_to_map.
  - intros k' Hk'. simpl. rewrite lookup_insert_ne by (intros ->; done). apply Hfree. by right.
Qed.

Lemma list_to_map_filter {V} (P : bytes * V -> Prop) `{!forall x, Decision (P x)} (m : gmap bytes V) :
  list_to_map (filter P (btree_iter m)) = filter P m.
Proof.
  apply map_eq. intros k. apply option_eq. intros v.
  rewrite <- elem_of_list_to_map by apply NoDup_filter_keys.
  rewrite list_elem_of_filter, elem_of_btree_iter, map_lookup_filter_Some. tauto.
Qed.

Lemma load_lines D F H t w :
  ns_ok D F H -> st_directories t = ∅ -> st_files t = ∅ ->
  load_namespace_v2 (tail (namespace_lines D F)) (mkSt t w) =
    (Ok tt, mkSt (set_files (live F) (set_directories D t)) w).
Proof.
  intros Hok HD HF. unfold namespace_lines, load_namespace_v2. cbn [tail].
  rewrite fold_m_app.
  assert (Hdirs := load_directories (btree_iter D) t w (NoDup_btree_keys D)).
  unfold load_namespace_v2 in Hdirs. erewrite bind_step; [|apply Hdirs].
  - rewrite list_to_map_btree_iter, HD, (right_id_L ∅ (∪)).
    assert (Hfiles := load_files (filter (fun ke => fe_delete_pending ke.2 = false) (btree_iter F))
      (set_directories D t) w (NoDup_filter_keys _ F)).
    unfold load_namespace_v2 in Hfiles. rewrite Hfiles.
    + rewrite list_to_map_filter. cbn [st_files set_directories].
      by rewrite HF, (right_id_L ∅ (∪)).
    + apply Forall_forall. intros [k e] [Hp Hk]%list_elem_of_filter. apply elem_of_btree_iter in Hk.
      by apply (no_file _ _ _ Hok) in Hk as (_ & ? & ?).
    + intros k _. simpl. by rewrite HF.
  - apply Forall_forall. intros [k e] Hk%elem_of_btree_iter.
    by apply (no_dir _ _ _ Hok) in Hk as (_ & ? & ?).
  - intros k _. by rewrite HD.
Qed.

Lemma namespace_lines_ok D F H : ns_ok D F H -> Forall line_ok (namespace_lines D F).
Proof.
  intros Hok. unfold namespace_lines. apply Forall_cons. split.
  { split; [done|]. split; [by repeat constructor|done]. }
  apply Forall_app. split; apply Forall_map, Forall_forall.
  - intros [k e] Hk%elem_of_btree_iter. apply (no_dir _ _ _ Hok) in Hk as (_ & ? & ?).
    by apply directory_line_ok.
  - intros [k e] [_ Hk%elem_of_btree_iter]%list_elem_of_filter.
    apply (no_file _ _ _ Hok) in Hk as (_ & ? & ?). by apply file_line_ok.
Qed.

Lemma text_lines D F H : ns_ok D F H -> lines (namespace_text D F) = namespace_lines D F.
Proof.
  intros Hok. apply lines_concat. eapply Forall_impl; [by eapply namespace_lines_ok|].
  by intros l (_ & ? & ?).
Qed.

Lemma text_utf8 D F H : ns_ok D F H -> utf8_valid (namespace_text D F) = true.
Proof.
  intros Hok. unfold namespace_text. pose proof (namespace_lines_ok _ _ _ Hok) as Hl.
  induction Hl as [|l ls (Hu & _) Hl IH]; [done|]. cbn [map concat].
  rewrite <- app_assoc, utf8_valid_app by done. exact IH.
Qed.

(** The names a record holds, as [load_namespace] sets them. *)
Definition with_names (D : gmap bytes DirectoryEntry) (F : gmap bytes FileEntry) (g : N)
    (t : LocalEncryptedStore) : LocalEncryptedStore :=
  set_namespace_generation g (set_files (live F) (set_directories D t)).

(** A sealed record of the text loads to the names it was made from. *)
Lemma load_sealed b D F H g r t w :
  ns_ok D F H -> bare t = bare b -> st_directories t = ∅ -> st_files t = ∅ ->
  read_record (w_disk w) (namespace_path b) = Ok r ->
  seals b NAMESPACE_FILE_ID g Manifest 0 (namespace_text D F) r ->
  load_namespace (mkSt t w) = (Ok tt, mkSt (with_names D F g t) w).
Proof.
  intros Hok Hb HD HF Hr [Hid Hg Hl Hopen _ _].
  assert (namespace_path t = namespace_path b /\ store_wire_id t = store_wire_id b /\
    st_key t = st_key b) as (Hp & Hi & Hk).
  { injection Hb as E1 E2 E3. unfold namespace_path, store_dir, store_wire_id. by rewrite E1, E2, E3. }
  destruct (read_record_read _ _ _ Hr) as [raw Hraw]. unfold read_record in Hr. rewrite Hraw in Hr.
  simpl in Hr. apply ensure_identity_Ok in Hid as (H1 & H2 & H3 & H4 & H5).
  unfold load_namespace. rewrite (bind_step _ _ _ _ _ (eq_refl : gets (fun s => s) _ = _)).
  unfold s_disk. cbn [s_store s_world]. rewrite Hp, (fs_read_exists _ _ _ Hraw), Hraw. cbn [negb map_err].
  rewrite (bind_step _ _ _ _ _ (eq_refl : lift (Ok raw) _ = _)). rewrite Hr, H1, H2, H3, H4, H5, Hi, Hk, Hopen.
  rewrite !N.eqb_refl, !bool_decide_eq_true_2 by done. cbn [negb orb].
  rewrite (text_utf8 _ _ _ Hok), (text_lines _ _ _ Hok).
  rewrite (bind_step _ _ _ _ _ (eq_refl : ensure true _ _ = _)).
  change (namespace_lines D F) with (header_v2 :: tail (namespace_lines D F)).
  cbv iota beta. rewrite bool_decide_eq_true_2 by done.
  rewrite (bind_step _ _ _ _ _ (load_lines D F H t w Hok HD HF)). by rewrite Hg.
Qed.
End Load.

(** ** Replacing the record *)

Lemma namespace_tmp_ne t g : namespace_tmp_path t g <> namespace_path t.
Proof.
  unfold namespace_tmp_path, namespace_path. intros E. apply app_inv_head in E.
  apply cons_inj in E as [E _]. change (lit "namespace.rec") with (lit "namespace." ++ lit "rec") in E.
  apply app_inv_head in E. destruct (dec_spec g) as (Hne & Hd & _).
  destruct (dec g) as [|c ds]; [done|]. apply Forall_cons in Hd as [Hc _].
  apply cons_inj in E as [-> _]. done.
Qed.

Lemma namespace_marker_ne t : marker_path (store_dir t) <> namespace_path t.
Proof. unfold marker_path, namespace_path. intros E. by apply app_inv_head in E. Qed.

Section Persist.
Context `{HA : Aead, !AeadLaws HA} `{HS : Sha256}.

Lemma record_seal_Ok t file g kind index p n r ns :
  record_seal (st_key t) n (store_aad t file g kind index (len p)) p [] = Ok (r, ns) ->
  len p <= u64_max -> len n = NONCE_LENGTH -> seals t file g kind index p r.
Proof.
  unfold record_seal, encrypt. intros Hl Hp Hn.
  destruct (aead_encrypt _ _ _ _) as [c|] eqn:Hc; [|done]. simpl in Hl. simplify_eq.
  split; simpl; try done.
  - by apply ensure_identity_Ok.
  - by apply (record_open_sealed _ _ (store_aad t file g kind index (len p))).
  - exact (aead_tag_length _ _ _ _ _ Hc).
Qed.

(** The state a store operation needs to seal records: the identifier is well
    formed, no file on disk is unreadable and nonces have their length. *)
Definition sealing (s : St) : Prop :=
  identifier false (store_wire_id (s_store s)) /\ readable (s_disk s) /\
  (forall i, len (w_rng (s_world s) i) = NONCE_LENGTH) /\
  len (namespace_text (st_directories (s_store s)) (st_files (s_store s))) <= u64_max.

(** The record on disk is the one of the names of [t], at generation [g]. *)
Definition record_holds (t : LocalEncryptedStore) (g : N) (d : Disk) : Prop :=
  exists r, read_record d (namespace_path t) = Ok r /\
    seals t NAMESPACE_FILE_ID g Manifest 0 (namespace_text (st_directories t) (st_files t)) r.

Definition same_record (t : LocalEncryptedStore) (d d' : Disk) : Prop :=
  fs_read d' (namespace_path t) = fs_read d (namespace_path t) /\
  fs_exists d' (namespace_path t) = fs_exists d (namespace_path t).

Lemma step_same_record t W s s' :
  step_rel W s s' -> ~ W (namespace_path t) -> same_record t (s_disk s) (s_disk s').
Proof. intros [_ Hw] HW. apply (to_agree _ _ _ Hw _ HW). Qed.

Lemma record_holds_step t g W s s' :
  step_rel W s s' -> ~ W (namespace_path t) -> record_holds t g (s_disk s) ->
  record_holds t g (s_disk s').
Proof.
  intros Hw HW (r & Hr & Hs). exists r. split; [|done].
  rewrite <- Hr. apply (read_record_agree W); [apply Hw|done].
Qed.

(** Writing the new record beside the old one. *)
Lemma persist_tmp_run t g r s res s' :
  write_record (namespace_tmp_path t g) r s = (res, s') ->
  base (s_store s) = base t -> readable (s_disk s) -> identifier false (store_wire_id t) ->
  g <= u64_max -> len (namespace_text (st_directories t) (st_files t)) <= u64_max ->
  seals t NAMESPACE_FILE_ID g Manifest 0 (namespace_text (st_directories t) (st_files t)) r ->
  same_record t (s_disk s) (s_disk s') /\ base (s_store s') = base t /\ readable (s_disk s') /\
  (res = Ok tt -> read_record (s_disk s') (namespace_tmp_path t g) = Ok r).
Proof.
  intros H Hb Hro Hid Hg Hl Hse.
  pose proof (within_write_record (base t) (eq (namespace_tmp_path t g)) _ r eq_refl s Hb) as Hw.
  rewrite H in Hw. simpl in Hw.
  assert (readable (s_disk s')) as Hro'.
  { unfold readable, s_disk. by rewrite (to_unreadable _ _ _ (sr_world _ _ _ Hw)). }
  split; [eapply step_same_record; [exact Hw|apply namespace_tmp_ne]|].
  split; [by rewrite (sr_base _ _ _ Hw)|]. split; [done|]. intros ->.
  by eapply write_sealed_Ok; [exact H|done|exact Hid| |exact Hg| |exact Hl|exact Hse].
Qed.

(** The rename and what follows it. *)
Lemma persist_rename_run t g r s res s' :
  (_ ← lift_io (fs_rename (namespace_tmp_path t g) (namespace_path t));
   _ ← flush_directory_marker (store_dir t);
   update (set_namespace_generation g)) s = (res, s') ->
  base (s_store s) = base t -> readable (s_disk s) ->
  read_record (s_disk s) (namespace_tmp_path t g) = Ok r ->
  seals t NAMESPACE_FILE_ID g Manifest 0 (namespace_text (st_directories t) (st_files t)) r ->
  record_holds t g (s_disk s') \/ (is_ok res = false /\ same_record t (s_disk s) (s_disk s')).
Proof.
  intros H Hb Hro Hr Hse. apply bind_run in H as [([] & s1 & H1 & H)|(e & H1 & ->)].
  - left. apply lift_io_run in H1 as (r0 & w & H1 & E & ->). destruct r0 as [[]|]; [|done].
    destruct (read_record_read _ _ _ Hr) as [x Hx].
    apply io_rename_Ok with (c := x) in H1; [|done|done].
    assert (record_holds t g w.(w_disk)) as Hh.
    { exists r. split; [|done]. unfold read_record in *. by rewrite H1, <- Hx. }
    pose proof (within_marker (base t) (eq (marker_path (store_dir t))) (store_dir t) eq_refl
      (mkSt (s_store s) w) Hb) as Hw.
    apply bind_run in H as [([] & s2 & H2 & H)|(e & H2 & ->)]; rewrite H2 in Hw.
    + injection H as _ <-. by apply (record_holds_step _ _ _ _ _ Hw (namespace_marker_ne t)) in Hh.
    + by apply (record_holds_step _ _ _ _ _ Hw (namespace_marker_ne t)) in Hh.
  - right. split; [done|]. apply lift_io_run in H1 as (r0 & w & H1 & E & ->).
    destruct r0 as [|k]; [done|]. apply io_rename_Err in H1. unfold same_record, s_disk. simpl.
    by rewrite H1.
Qed.

Lemma persist_run s res s' :
  persist_namespace s = (res, s') -> sealing s ->
  record_holds (s_store s) (st_namespace_generation (s_store s) + 1) (s_disk s') \/
  (is_ok res = false /\ same_record (s_store s) (s_disk s) (s_disk s')).
Proof.
  intros H (Hid & Hro & Hrng & Hlen). unfold persist_namespace in H.
  assert (forall d, same_record (s_store s) d d) as Hrefl by done.
  apply bind_run in H as [(t & s0 & [= <- <-] & H)|(e & ? & _)]; [|done].
  unfold checked_add64 in H. destruct (_ <=? u64_max) eqn:Eg.
  2:{ apply bind_run in H as [(g & s0 & ? & H)|(e & H & ->)]; [done|]. injection H as _ <-.
      by right. }
  apply N.leb_le in Eg. set (g := st_namespace_generation (s_store s) + 1) in *.
  rewrite (bind_step _ _ _ _ _ (eq_refl : lift (ok_or IoFailure (Some g)) s = _)) in H.
  rewrite (bind_step _ _ _ _ _ (eq_refl : draw_nonce s = _)) in H.
  set (s1 := mkSt (s_store s) _) in H.
  destruct (record_seal _ _ _ _ _) as [[r ns]|e] eqn:Hse.
  2:{ apply bind_run in H as [(x & s2 & ? & H)|(e' & H & ->)]; [done|]. injection H as _ <-. by right. }
  apply record_seal_Ok in Hse; [|done|apply Hrng].
  rewrite (bind_step _ _ _ _ _ (eq_refl : lift (Ok (r, ns)) s1 = _)) in H.
  apply bind_run in H as [([] & s2 & H2 & H)|(e' & H2 & ->)];
    apply (persist_tmp_run _ _ _ _ _ _) in H2 as (Hsame & Hb & Hro2 & Hrd); try done.
  - eapply persist_rename_run in H as [Hh|[He Hs']]; [by left| |done|done|by apply Hrd|done].
    right. split; [done|]. split; (etrans; [apply Hs'|apply Hsame]).
  - by right.
Qed.

(** C3.  Replacing the namespace record is atomic under every failure.  From any
    well-formed store and under any plan of disk failures, [persist_namespace]
    leaves a disk from which [load_namespace] of a newly opened store of the same
    identity and key yields exactly the current directories, the current files
    that are not being deleted and the next generation; or it reports an error
    and the record on disk is the one that was there. *)
Theorem namespace_atomic s res s' :
  s_ok s -> sealing s -> persist_namespace s = (res, s') ->
  let t := s_store s in
  (forall w, w_disk w = s_disk s' ->
     load_namespace (mkSt (bare t) w) =
       (Ok tt, mkSt (with_names (st_directories t) (st_files t)
                       (st_namespace_generation t + 1) (bare t)) w)) \/
  (is_ok res = false /\ same_record t (s_disk s) (s_disk s')).
Proof.
  intros Hok Hse H t. destruct (persist_run _ _ _ H Hse) as [(r & Hr & Hs)|?]; [left|by right].
  intros w Hw. by eapply (load_sealed t); [exact Hok|done|done|done|rewrite Hw|].
Qed.

Lemma files_dir_not_record t : namespace_path t ∉ prefixes (store_dir t ++ [lit "files"]).
Proof.
  intros [n E]%elem_of_prefixes. unfold namespace_path in E.
  assert (length (store_dir t ++ [lit "namespace.rec"]) = length (take n (store_dir t ++ [lit "files"])))
    as El by by rewrite E.
  rewrite length_take, !length_app in El. simpl in El.
  rewrite take_ge in E by (rewrite length_app; simpl; lia). by apply app_inv_head in E.
Qed.

Lemma read_record_prefixes t w w' r :
  fs_create_dir_all (store_dir t ++ [lit "files"]) w = (Ok tt, w') ->
  read_record (w_disk w) (namespace_path t) = Ok r -> read_record (w_disk w') (namespace_path t) = Ok r.
Proof.
  intros H <-. pose proof (fs_create_dir_all_within (store_dir t ++ [lit "files"]) w) as Hw.
  rewrite H in Hw. eapply read_record_agree; [apply Hw|apply files_dir_not_record].
Qed.

Lemma ns_live D F H : ns_ok D F H -> ns_ok D (live F) ∅.
Proof.
  intros [Hd Hf _]. split; [done| |].
  - intros k e [E _]%map_lookup_filter_Some. by apply Hf.
  - by intros h st ?%lookup_empty_Some.
Qed.

(** C4.  A persisted namespace survives a restart: once [persist_namespace] has
    succeeded, [open] with the same root, identity and key on that disk, in a
    process with any plan, clock and counters whose creation of the store's
    directory succeeds, returns a store with the same directories, the same
    files except those being deleted, the new generation, no handle and nothing
    staged; and that store is well formed. *)
Theorem persist_reopen s s' w w' :
  s_ok s -> sealing s -> persist_namespace s = (Ok tt, s') -> w_disk w = s_disk s' ->
  fs_create_dir_all (store_dir (s_store s) ++ [lit "files"]) w = (Ok tt, w') ->
  let t := s_store s in
  let t' := with_names (st_directories t) (st_files t) (st_namespace_generation t + 1)
              (new_store (st_root t) (st_identity t) (st_key t)) in
  open (st_root t) (st_identity t) (st_key t) w = (Ok t', w') /\ t_ok t'.
Proof.
  intros Hok Hse H Hw Hdir. cbv zeta. split; [|by eapply ns_live].
  destruct (persist_run _ _ _ H Hse) as [(r & Hr & Hs)|[? _]]; [|done]. rewrite <- Hw in Hr.
  apply (read_record_prefixes _ _ _ _ Hdir) in Hr. unfold open.
  unfold store_dir, store_wire_id in Hdir. rewrite <- app_assoc in Hdir. simpl in Hdir.
  erewrite bind_step; [|unfold lift_io; cbn [s_world s_store]; rewrite Hdir; reflexivity].
  erewrite bind_step; [|by eapply (load_sealed (s_store s)); [exact Hok| | | |exact Hr|exact Hs]]. done.
Qed.
End Persist.

(** ** On a concrete store *)

Import Names.

(** The names of [two_entries] on a disk that has no record yet. *)
Definition unsaved : St := mkSt (s_store two_entries) Scenario.world.

Lemma unsaved_ok : s_ok unsaved.
Proof. unfold unsaved, s_ok. cbn [s_store]. exact two_entries_ok. Qed.

Lemma unsaved_sealing : sealing unsaved.
Proof.
  split; [vm_compute; reflexivity|]. split; [reflexivity|]. split; [|vm_compute; done].
  intros i. exact (len_to_le 12 (i + 1)).
Qed.

Lemma namespace_atomic_witness :
  let res := fst (persist_namespace unsaved) in
  let s' := snd (persist_namespace unsaved) in
  let t := s_store unsaved in
  (forall w, w_disk w = s_disk s' ->
     load_namespace (mkSt (bare t) w) =
       (Ok tt, mkSt (with_names (st_directories t) (st_files t)
                       (st_namespace_generation t + 1) (bare t)) w)) \/
  (is_ok res = false /\ same_record t (s_disk unsaved) (s_disk s')).
Proof.
  apply (namespace_atomic unsaved _ (snd (persist_namespace unsaved))).
  - exact unsaved_ok.
  - exact unsaved_sealing.
  - apply surjective_pairing.
Defined.

Lemma persist_reopen_witness :
  let t := s_store unsaved in
  let t' := with_names (st_directories t) (st_files t) (st_namespace_generation t + 1)
              (new_store (st_root t) (st_identity t) (st_key t)) in
  exists w', open (st_root t) (st_identity t) (st_key t) (s_world (snd (persist_namespace unsaved)))
    = (Ok t', w') /\ t_ok t'.
Proof.
  assert (exists s', persist_namespace unsaved = (Ok tt, s') /\
    exists w', fs_create_dir_all (store_dir (s_store unsaved) ++ [lit "files"]) (s_world s') = (Ok tt, w'))
    as (s' & Hp & w' & Hd).
  { assert (is_ok (fst (persist_namespace unsaved)) = true) as H1 by (vm_compute; reflexivity).
    assert (is_ok (fst (fs_create_dir_all (store_dir (s_store unsaved) ++ [lit "files"])
      (s_world (snd (persist_namespace unsaved))))) = true) as H2 by (vm_compute; reflexivity).
    destruct (persist_namespace unsaved) as [[[]|] s']; [|discriminate H1].
    exists s'. split; [reflexivity|]. cbn [snd] in H2.
    destruct (fs_create_dir_all _ (s_world s')) as [[[]|] w']; [|discriminate H2]. by exists w'. }
  rewrite Hp. cbn [snd]. exists w'.
  exact (persist_reopen unsaved s' (s_world s') w' unsaved_ok unsaved_sealing Hp eq_refl Hd).
Defined.
