(* ===== verification/NamespaceOps.v ===== *)
(** * NamespaceOps

    What the operations on names do: an operation that fails leaves the names as
    they were, the deletion check agrees with deletion, a file deleted while open
    disappears with its last handle, renames move entries and nothing else, and a
    listing is exactly the direct children.  The last part shows what happens at
    the edges of these guarantees. *)

From S2P Require Import Prelude Bytes Text Effects Domain Crypto Format VPath Fs Store.
From S2P Require Import Toy Durability Namespace NamespaceInv.

Section Operations.
Context `{HA : Aead} `{HS : Sha256}.

(** ** Failures *)

(** The directories, files and handles are the same. *)
Definition same_names (s s' : St) : Prop := s_names s' = s_names s.

Lemma persist_or_Err rollback s e s' :
  persist_or rollback s = (Err e, s') ->
  exists t, names t = s_names s /\ s_names s' = names (rollback t).
Proof.
  intros [[? _]|(e' & t & _ & Ht & Hs)]%persist_or_run; [done|].
  exists t. split; [done|]. unfold s_names. by rewrite Hs.
Qed.

(** A loop whose steps cannot fail cannot fail. *)
Lemma fold_never_fails {A} (f : unit -> A -> store_m unit) l s :
  (forall a x s, is_ok (fst (f a x s)) = true) -> exists s', fold_m f tt l s = (Ok tt, s').
Proof.
  intros Hf. revert s. induction l as [|x l IH]; intros s; [by exists s|]. cbn [fold_m].
  pose proof (Hf tt x s) as Hx. destruct (f tt x s) as [[[]|] s1] eqn:E; [|done].
  rewrite (bind_step _ _ _ _ _ E). apply IH.
Qed.

Lemma create_directory_failed p s e s' :
  create_directory p s = (Err e, s') -> s_names s' = s_names s.
Proof.
  intros H. unfold create_directory in H.
  rewrite (bind_step _ _ _ _ _ (eq_refl : gets s_store s = _)) in H.
  case_match eqn:E; [by injection H as _ <-|]. apply orb_false_iff in E as [_ E].
  apply bool_decide_eq_false in E. rewrite <- eq_None_not_Some in E.
  apply bind_run in H as [([] & s1 & Hl & H)|(e' & H & _)]; [|by injection H as _ <-].
  injection Hl as _ <-. rewrite (bind_step _ _ _ _ _ (eq_refl : current_filetime s = _)) in H.
  apply bind_run in H as [([] & s1 & [= <-] & H)|(e' & H & _)]; [|done].
  apply persist_or_Err in H as (t & Ht & ->). unfold names in *. injection Ht as E1 E2 E3.
  simpl in *. rewrite E1, E2, E3. by rewrite delete_insert_id.
Qed.

Lemma create_or_open_failed p c a s e s' :
  create_or_open p c a s = (Err e, s') -> s_names s' = s_names s.
Proof.
  intros H. unfold create_or_open in H.
  rewrite (bind_step _ _ _ _ _ (eq_refl : gets s_store s = _)) in H.
  destruct (st_files (s_store s) !! lookup_key p) as [entry|] eqn:E.
  - case_match; [by injection H as _ <-|]. exfalso.
    apply bind_run in H as [([] & s1 & Hl & H)|(e' & H & _)]; [done|].
    unfold touch_file, mbind, M_bind, gets in H. by rewrite E in H.
  - case_match; [by injection H as _ <-|].
    apply bind_run in H as [([] & s1 & Hl & H)|(e' & H & _)]; [|by injection H as _ <-].
    injection Hl as _ <-. rewrite (bind_step _ _ _ _ _ (eq_refl : fetch_file s = _)) in H.
    apply bind_run in H as [(id & s1 & Hl & H)|(e' & H & _)]; [|by injection H as _ <-].
    injection Hl as _ <-. erewrite bind_step in H by reflexivity.
    apply bind_run in H as [([] & s1 & [= <-] & H)|(e' & H & _)]; [|done].
    apply bind_run in H as [([] & s1 & Hl & H)|(e' & H & _)]; [done|].
    apply persist_or_Err in H as (t & Ht & ->). unfold names in *. injection Ht as E1 E2 E3.
    simpl in *. rewrite E1, E2, E3. by rewrite delete_insert_id.
Qed.

Lemma delete_path_failed p s e s' : delete_path p s = (Err e, s') -> s_names s' = s_names s.
Proof.
  intros H. unfold delete_path in H.
  rewrite (bind_step _ _ _ _ _ (eq_refl : gets s_store s = _)) in H. case_match.
  - unfold delete_directory in H.
    rewrite (bind_step _ _ _ _ _ (eq_refl : gets s_store s = _)) in H.
    repeat (case_match; [by injection H as _ <-|]).
    apply bind_run in H as [([] & s1 & [= <-] & H)|(e' & H & _)]; [|done].
    apply persist_or_Err in H as (t & Ht & ->). unfold names in *. injection Ht as E1 E2 E3.
    simpl in *. by rewrite E2, E3.
  - apply bind_run in H as [(entry & s1 & Hl & H)|(e' & H & _)]; [|by injection H as _ <-].
    injection Hl as _ <-. case_match; [by injection H as _ <-|]. case_match; [done|].
    apply bind_run in H as [([] & s1 & [= <-] & H)|(e' & H & _)]; [|done].
    apply persist_or_Err in H as (t & Ht & ->). unfold names in *. injection Ht as E1 E2 E3.
    simpl in *. by rewrite E1, E3.
Qed.

Lemma move_directory_never_fails src dst d k s : is_ok (fst (move_directory src dst d k s)) = true.
Proof. done. Qed.
Lemma move_file_never_fails src dst k s : is_ok (fst (move_file src dst k s)) = true.
Proof. unfold move_file, mbind, M_bind, gets. by destruct (st_files (s_store s) !! k). Qed.

Lemma rename_directory_failed a b s e s' :
  rename_directory a b false s = (Err e, s') -> s_names s' = s_names s.
Proof.
  intros H. unfold rename_directory in H.
  rewrite (bind_step _ _ _ _ _ (eq_refl : gets s_store s = _)) in H.
  case_match; [by injection H as _ <-|].
  apply bind_run in H as [([] & s1 & Hl & H)|(e' & H & _)]; [|by injection H as _ <-].
  injection Hl as _ <-.
  apply bind_run in H as [([] & s1 & Hl & H)|(e' & H & _)].
  2:{ case_match; [by injection H as _ <-|done]. }
  case_match; [done|]. injection Hl as <-.
  rewrite (bind_step _ _ _ _ _ (eq_refl : gets s_store s = _)) in H.
  edestruct (fold_never_fails (fun _ key => move_directory (lookup_key a) (lookup_key b)
    (default [] (display_name b)) key)) as [s2 E2]; [done|].
  rewrite (bind_step _ _ _ _ _ E2) in H.
  edestruct (fold_never_fails (fun _ key => move_file (lookup_key a) (lookup_key b) key)) as [s3 E3];
    [intros; apply move_file_never_fails|].
  rewrite (bind_step _ _ _ _ _ E3) in H.
  apply bind_run in H as [([] & s4 & [= <-] & H)|(e' & H & _)]; [|done].
  by apply persist_or_Err in H as (t & Ht & ->).
Qed.

Lemma rename_failed a b s e s' : rename a b false s = (Err e, s') -> s_names s' = s_names s.
Proof.
  intros H. unfold rename in H.
  rewrite (bind_step _ _ _ _ _ (eq_refl : gets s_store s = _)) in H.
  apply bind_run in H as [([] & s1 & Hl & H)|(e' & H & _)]; [|by injection H as _ <-].
  injection Hl as _ <-. case_match; [by eapply rename_directory_failed|].
  apply bind_run in H as [(entry & s1 & Hl & H)|(e' & H & _)]; [|by injection H as _ <-].
  injection Hl as _ <-. case_match; [by injection H as _ <-|].
  apply bind_run in H as [([] & s1 & Hl & H)|(e' & H & _)].
  2:{ case_match; [by injection H as _ <-|done]. }
  case_match; [done|]. injection Hl as <-.
  rewrite (bind_step _ _ _ _ _ (eq_refl : gets s_store s = _)) in H.
  apply bind_run in H as [(moved & s1 & Hl & H)|(e' & H & _)]; [|by injection H as _ <-].
  injection Hl as _ <-. rewrite (bind_step _ _ _ _ _ (eq_refl : current_filetime s = _)) in H.
  apply bind_run in H as [([] & s1 & [= <-] & H)|(e' & H & _)]; [|done].
  apply bind_run in H as [([] & s1 & [= <-] & H)|(e' & H & _)]; [|done].
  apply persist_or_Err in H as (t & Ht & ->). unfold names in *. injection Ht as E1 E2 E3.
  simpl in *. by rewrite E1.
Qed.

(** C7.  An operation that reports an error has changed no name: creating a
    directory or a file, opening, deleting, and renaming without replacement
    (of a file or of a whole directory tree) leave directories, files and
    handles exactly as they were, whatever step failed, persisting included. *)
Theorem failure_keeps_names s e s' :
  (forall p, create_directory p s = (Err e, s') -> same_names s s') /\
  (forall p c a, create_or_open p c a s = (Err e, s') -> same_names s s') /\
  (forall p, delete_path p s = (Err e, s') -> same_names s s') /\
  (forall a b, rename a b false s = (Err e, s') -> same_names s s').
Proof.
  split; [intros p; apply create_directory_failed|].
  split; [intros p c a; apply create_or_open_failed|].
  split; [intros p; apply delete_path_failed|]. intros a b. apply rename_failed.
Qed.

(** ** Deletion *)

(** Where a handle refers to. *)
Definition opens (key : bytes) (st : HandleState) : Prop := hs_path_key st = key.

Lemma any_handle_true f (m : gmap N HandleState) :
  any_handle f m = true <-> exists h st, m !! h = Some st /\ f st = true.
Proof.
  unfold any_handle. rewrite existsb_exists. split.
  - intros ([h st] & Hin & Hf). apply list_elem_of_In, elem_of_map_to_list in Hin. by exists h, st.
  - intros (h & st & E & Hf). exists (h, st). split; [|done].
    by apply list_elem_of_In, elem_of_map_to_list.
Qed.

Lemma any_handle_none f (m : gmap N HandleState) :
  (forall h st, m !! h = Some st -> f st = false) -> any_handle f m = false.
Proof.
  intros H. destruct (any_handle f m) eqn:E; [|done].
  apply any_handle_true in E as (h & st & Eh & Hf). by rewrite (H h st Eh) in Hf.
Qed.

(** What a deletion reported as done leaves: the directory is gone, the file is
    gone, or it is marked while handles that share deletion are open. *)
Definition deleted (p : VirtualPath) (s s' : St) : Prop :=
  let key := lookup_key p in
  let t := s_store s in let t' := s_store s' in
  st_handles t' = st_handles t /\
  if is_directory t p
  then st_directories t' = delete key (st_directories t) /\ st_files t' = st_files t
  else st_directories t' = st_directories t /\
       exists e, st_files t !! key = Some e /\
         st_files t' = if any_handle (fun h => bool_decide (hs_path_key h = key)) (st_handles t)
                       then <[key := set_delete_pending e]> (st_files t)
                       else delete key (st_files t).

Lemma delete_path_deleted p s s' : delete_path p s = (Ok tt, s') -> deleted p s s'.
Proof.
  intros H. unfold delete_path in H. unfold deleted.
  rewrite (bind_step _ _ _ _ _ (eq_refl : gets s_store s = _)) in H. case_match.
  - unfold delete_directory in H.
    rewrite (bind_step _ _ _ _ _ (eq_refl : gets s_store s = _)) in H.
    repeat (case_match; [done|]). apply bind_Ok in H as ([] & s1 & [= <-] & H).
    apply persist_or_Ok in H. by injection H as -> -> ->.
  - apply bind_Ok in H as (entry & s1 & Hl & H).
    destruct (st_files (s_store s) !! lookup_key p) as [x|] eqn:E; [|done]. injection Hl as -> <-.
    case_match; [done|]. case_match.
    + injection H as <-. split; [done|]. split; [done|]. by exists entry.
    + apply bind_Ok in H as ([] & s1 & [= <-] & H). apply persist_or_Ok in H.
      injection H as -> -> ->. split; [done|]. split; [done|]. by exists entry.
Qed.

Lemma persist_or_fails rollback s e s' :
  persist_or rollback s = (Err e, s') -> fst (persist_namespace s) = Err e.
Proof.
  unfold persist_or, try, mbind, M_bind. destruct (persist_namespace s) as [[[]|x] s1]; [done|].
  cbn. intros H. by apply pair_eq in H as [H _].
Qed.

(** A deletion that the check allows fails only where it persists the names. *)
Lemma allowed_delete_fails p s e s' :
  ensure_delete_allowed (s_store s) p = Ok tt -> delete_path p s = (Err e, s') ->
  exists s1, deleted p s s1 /\ s_world s1 = s_world s /\ fst (persist_namespace s1) = Err e.
Proof.
  unfold ensure_delete_allowed, delete_path, deleted. intros E H.
  rewrite (bind_step _ _ _ _ _ (eq_refl : gets s_store s = _)) in H.
  destruct (is_directory (s_store s) p).
  - unfold delete_directory in H. rewrite (bind_step _ _ _ _ _ (eq_refl : gets s_store s = _)) in H.
    case_match; [done|]. destruct (bool_decide (is_Some _)); [|done]. cbn [negb andb] in *.
    destruct (any_key_under _ (st_directories _)); [done|].
    destruct (any_key_under _ (st_files _)); [done|]. cbn [orb] in H.
    apply bind_run in H as [([] & s1 & Hu & H)|(x & Hu & _)]; [|done].
    apply persist_or_fails in H. exists s1. apply pair_eq in Hu as [_ <-]. done.
  - destruct (st_files (s_store s) !! lookup_key p) as [x|] eqn:Ef; [|done].
    rewrite (bind_step _ _ _ _ _ (eq_refl : lift (ok_or NotFound (Some x)) s = _)) in H.
    cbn [negb] in E. rewrite bool_decide_eq_true_2 in E by by eexists. cbn [negb] in E.
    case_match; [done|]. case_match; [done|].
    apply bind_run in H as [([] & s1 & Hu & H)|(y & Hu & _)]; [|done].
    apply persist_or_fails in H. exists s1. apply pair_eq in Hu as [_ <-].
    split; [|done]. split; [done|]. split; [done|]. by exists x.
Qed.

(** The check that the drive makes when a deletion is requested agrees with
    the deletion it performs at cleanup: if [ensure_delete_allowed] refuses,
    [delete] refuses with the same error and changes nothing; if it allows, the
    deletion goes through, and then an empty directory is gone, a file without
    handles is gone, and a file all of whose handles share deletion is marked for
    deletion; or it fails with the error of persisting the names after the
    deletion, and the names are as before. *)
Theorem delete_agrees_with_check p s :
  match ensure_delete_allowed (s_store s) p with
  | Err e => delete_path p s = (Err e, s)
  | Ok _ => forall r s', delete_path p s = (r, s') ->
      match r with
      | Ok _ => deleted p s s'
      | Err e => s_names s' = s_names s /\
          exists s1, deleted p s s1 /\ s_world s1 = s_world s /\
            fst (persist_namespace s1) = Err e
      end
  end.
Proof.
  destruct (ensure_delete_allowed (s_store s) p) as [[]|e] eqn:E.
  - intros [[]|e] s' H.
    + by apply delete_path_deleted.
    + split; [by eapply delete_path_failed|by eapply allowed_delete_fails].
  - unfold ensure_delete_allowed in E. unfold delete_path, delete_directory.
    rewrite (bind_step _ _ _ _ _ (eq_refl : gets s_store s = _)).
    destruct (is_directory (s_store s) p) eqn:Hd.
    + rewrite (bind_step _ _ _ _ _ (eq_refl : gets s_store s = _)).
      unfold is_directory in Hd. case_match; [by simplify_eq|]. simpl in Hd.
      rewrite Hd in *. simpl in *. destruct (any_key_under _ (st_directories _)); [by simplify_eq/=|].
      destruct (any_key_under _ (st_files _)); by simplify_eq/=.
    + case_match eqn:Hf; [|].
      * simplify_eq. apply negb_true_iff, bool_decide_eq_false in Hf.
        rewrite <- eq_None_not_Some in Hf. by rewrite Hf.
      * apply negb_false_iff, bool_decide_eq_true in Hf as [x Hx]. rewrite Hx.
        rewrite (bind_step _ _ _ _ _ (eq_refl : lift (ok_or NotFound (Some x)) s = _)).
        case_match; [by simplify_eq|done].
Qed.

(** [h] is the only handle on [key], and it shares deletion. *)
Definition sole_handle (t : LocalEncryptedStore) (key : bytes) (h : N) : Prop :=
  st_handles t !! h = Some (mkHandleState key true) /\
  forall h' st, st_handles t !! h' = Some st -> hs_path_key st = key -> h' = h.

Lemma close_pending_run t w key h e r s' :
  st_files t !! key = Some e -> fe_delete_pending e = true -> sole_handle t key h ->
  close_handle h (mkSt t w) = (r, s') ->
  st_handles (s_store s') = delete h (st_handles t) /\
  match r with
  | Ok _ => st_files (s_store s') = delete key (st_files t)
  | Err _ => st_files (s_store s') = st_files t
  end.
Proof.
  intros He Hp [Hh Huniq] H. unfold close_handle in H.
  rewrite (bind_step _ _ _ _ _ (eq_refl : gets s_store _ = _)) in H. cbn [s_store] in H.
  rewrite Hh in H. rewrite (bind_step _ _ _ _ _ (eq_refl : lift (ok_or NotFound (Some _)) _ = _)) in H.
  apply bind_run in H as [([] & s1 & [= <-] & H)|(e' & H & _)]; [|done].
  rewrite (bind_step _ _ _ _ _ (eq_refl : gets s_store _ = _)) in H.
  cbn [s_store s_world st_files st_handles set_handles hs_path_key] in H. rewrite He, Hp in H.
  rewrite any_handle_none in H.
  2:{ intros h' st [Hne E]%lookup_delete_Some. apply bool_decide_eq_false. intros Hk.
      by apply Hne; symmetry; eapply Huniq. }
  cbn [andb negb] in H. apply bind_run in H as [([] & s1 & [= <-] & H)|(e' & H & _)]; [|done].
  destruct r as [[]|e'].
  - apply persist_or_Ok in H. by injection H as _ -> ->.
  - apply persist_or_Err in H as (t' & Ht & Hs). unfold s_names, names in *.
    injection Ht as E1 E2 E3. injection Hs as E4 -> ->. by rewrite E3.
Qed.

(** A file deleted while one handle that shares deletion is open: the
    deletion is reported as done and the file stays, marked; it can no longer be
    opened ([DeletePending]) or read by name ([NotFound]); closing the handle
    removes the file and the handle, and if persisting the removal fails the
    error is reported with the file still there. *)
Theorem delete_while_open p h s e :
  let key := lookup_key p in
  is_directory (s_store s) p = false -> st_files (s_store s) !! key = Some e ->
  sole_handle (s_store s) key h ->
  exists s1, delete_path p s = (Ok tt, s1) /\
    st_files (s_store s1) = <[key := set_delete_pending e]> (st_files (s_store s)) /\
    (forall c a, create_or_open p c a s1 = (Err DeletePending, s1)) /\
    read_path p s1 = (Err NotFound, s1) /\
    (forall w r s2, close_handle h (mkSt (s_store s1) w) = (r, s2) ->
       st_handles (s_store s2) = delete h (st_handles (s_store s)) /\
       match r with
       | Ok _ => st_files (s_store s2) = delete key (st_files (s_store s))
       | Err _ => st_files (s_store s2) = st_files (s_store s1)
       end).
Proof.
  cbv zeta. intros Hd He [Hh Hu]. unfold delete_path.
  rewrite (bind_step _ _ _ _ _ (eq_refl : gets s_store s = _)). rewrite Hd, He.
  rewrite (bind_step _ _ _ _ _ (eq_refl : lift (ok_or NotFound (Some e)) s = _)).
  rewrite any_handle_none.
  2:{ intros h' st E. case_bool_decide as Hk; [|done]. simpl.
      pose proof (Hu h' st E Hk) as ->. by simplify_eq. }
  rewrite (proj2 (any_handle_true _ _)).
  2:{ exists h, (mkHandleState (lookup_key p) true). split; [done|]. by apply bool_decide_eq_true. }
  eexists. split; [reflexivity|]. cbn [s_store s_world st_files set_files]. split; [done|].
  split; [|split].
  - intros c a. unfold create_or_open. erewrite bind_step by reflexivity.
    cbn [s_store s_world st_files set_files]. by rewrite lookup_insert_eq.
  - unfold read_path. erewrite bind_step by reflexivity.
    cbn [s_store s_world st_files set_files]. by rewrite lookup_insert_eq.
  - intros w r s2 H. eapply close_pending_run in H as [Hh2 Hf2];
      [|cbn [st_files set_files]; by rewrite lookup_insert_eq|done|by split].
    split; [exact Hh2|]. destruct r; rewrite Hf2; cbn [st_files set_files]; [|done].
    by rewrite delete_insert_eq.
Qed.

(** ** Renames *)

(** The file entry under its new name. *)
Definition renamed (display : bytes) (e e' : FileEntry) : Prop :=
  fe_file_id e' = fe_file_id e /\ fe_delete_pending e' = fe_delete_pending e /\
  fe_display e' = display /\ creation_time (fe_metadata e') = creation_time (fe_metadata e) /\
  last_write_time (fe_metadata e') = last_write_time (fe_metadata e).

(** The replacement of an existing destination file. *)
Lemma replace_file_run (replace : bool) b s s1 :
  (if bool_decide (is_Some (st_files (s_store s) !! lookup_key b)) then
     if negb replace then throw AlreadyExists
     else _ ← delete_path b;
          t ← gets s_store;
          ensure (negb (bool_decide (is_Some (st_files t !! lookup_key b)))) SharingViolation
   else mret tt) s = (Ok tt, s1) ->
  s_names s1 = (st_directories (s_store s), delete (lookup_key b) (st_files (s_store s)),
                st_handles (s_store s)).
Proof.
  intros H. case_match eqn:E.
  - destruct replace; [|done]. cbn [negb] in H. apply bind_Ok in H as ([] & s2 & Hd & H).
    apply bind_Ok in H as (t & s3 & [= <- <-] & H). unfold ensure in H. case_match eqn:Ef; [|done].
    injection H as <-. apply negb_true_iff, bool_decide_eq_false in Ef.
    apply bool_decide_eq_true in E. apply delete_path_deleted in Hd as [Hh Hd]. case_match.
    + destruct Hd as [_ Hd]. by rewrite Hd in Ef.
    + destruct Hd as (Hdirs & e & He & Hf). case_match.
      * destruct Ef. rewrite Hf. by rewrite lookup_insert_eq.
      * unfold s_names, names. by rewrite Hdirs, Hf, Hh.
  - injection H as <-. apply bool_decide_eq_false in E. rewrite <- eq_None_not_Some in E.
    by rewrite delete_id.
Qed.

(** Renaming a file to another name moves its entry and nothing else: the
    destination holds the same file (the same [FileId], so the same content) with
    its creation and write times under the new display name, the source is gone,
    every other file and every directory is unchanged, and the handles on the
    source follow it. *)
Theorem rename_file_moves a b replace s s' :
  rename a b replace s = (Ok tt, s') -> is_directory (s_store s) a = false ->
  lookup_key a <> lookup_key b ->
  let t := s_store s in let t' := s_store s' in
  st_directories t' = st_directories t /\
  st_handles t' = retarget (lookup_key a) (lookup_key b) <$> st_handles t /\
  st_files t' !! lookup_key a = None /\
  (exists e e', st_files t !! lookup_key a = Some e /\ st_files t' !! lookup_key b = Some e' /\
     renamed (default [] (display_name b)) e e') /\
  (forall k, k <> lookup_key a -> k <> lookup_key b -> st_files t' !! k = st_files t !! k).
Proof.
  intros H Hd Hne. cbv zeta. unfold rename in H.
  apply bind_Ok in H as (t & s1 & [= <- <-] & H). apply bind_Ok in H as ([] & s1 & Hl & H).
  injection Hl as _ <-. rewrite Hd in H. apply bind_Ok in H as (e0 & s1 & Hl & H).
  injection Hl as He0 <-. case_match; [done|].
  apply bind_Ok in H as ([] & s1 & Hr & H). apply replace_file_run in Hr.
  apply bind_Ok in H as (t & s2 & [= <- <-] & H). apply bind_Ok in H as (e & s2 & Hl & H).
  injection Hl as He <-. apply bind_Ok in H as (now & s2 & [= Hnow <-] & H).
  apply bind_Ok in H as ([] & s3 & [= <-] & H). apply bind_Ok in H as ([] & s4 & [= <-] & H).
  apply persist_or_Ok in H. cbn [s_store] in H. unfold s_names, names in *.
  injection Hr as Hr1 Hr2 Hr3. injection H as -> -> ->. simpl. rewrite Hr1, Hr2, Hr3.
  destruct (st_files (s_store s1) !! lookup_key a) as [x|] eqn:Ex; [|done]. simplify_eq/=.
  rewrite Hr2, lookup_delete_ne in Ex by done.
  split; [done|]. split; [done|]. split; [by rewrite lookup_insert_ne, lookup_delete_eq|].
  split.
  - exists e. eexists. split; [done|]. split; [apply lookup_insert_eq|]. done.
  - intros k Ha Hb. by rewrite lookup_insert_ne, !lookup_delete_ne.
Qed.

(** Making room for a directory changes nothing but the destination. *)
Lemma replace_any_run (c : bool) (e : StorageError) p s s' :
  (if bool_decide (is_Some (st_files (s_store s) !! lookup_key p))
      || bool_decide (is_Some (st_directories (s_store s) !! lookup_key p))
   then if c then throw e else delete_path p
   else mret tt) s = (Ok tt, s') ->
  st_handles (s_store s') = st_handles (s_store s) /\
  forall k, k <> lookup_key p ->
    st_directories (s_store s') !! k = st_directories (s_store s) !! k /\
    st_files (s_store s') !! k = st_files (s_store s) !! k.
Proof.
  intros H. case_match; [|by injection H as <-]. destruct c; [done|].
  apply delete_path_deleted in H as [Hh Hd]. split; [done|]. intros k Hk. case_match.
  - destruct Hd as [-> ->]. by rewrite lookup_delete_ne.
  - destruct Hd as (-> & x & _ & ->). case_match; by rewrite ?lookup_insert_ne, ?lookup_delete_ne.
Qed.

(** What a completed directory rename did, as the loops' effect on the maps. *)
Lemma rename_directory_run a b replace s s' :
  s_ok s -> any_path a -> path_ok b -> rename_directory a b replace s = (Ok tt, s') ->
  exists s1, vacant (s_store s1) (lookup_key a) (lookup_key b) /\
    st_handles (s_store s1) = st_handles (s_store s) /\
    (forall k, k <> lookup_key b ->
       st_directories (s_store s1) !! k = st_directories (s_store s) !! k /\
       st_files (s_store s1) !! k = st_files (s_store s) !! k) /\
    exists s2, move_subtree (s_store s1) (lookup_key a) (lookup_key b)
        (default [] (display_name b)) s1 = (Ok tt, s2) /\ s_names s' = s_names s2.
Proof.
  intros Hs Ha Hb H. unfold rename_directory in H.
  apply bind_Ok in H as (t & s1 & [= <- <-] & H). case_match eqn:E; [done|].
  apply orb_false_iff in E as [E Hout]. apply bool_decide_eq_false in E.
  apply bind_Ok in H as ([] & s1 & Hl & H). injection Hl as Hpar <-. apply require_parent_ok in Hpar.
  apply bind_Ok in H as ([] & s1 & Hr & H). exists s1.
  split; [by apply (replace_vacant _ _ _ _ _ (lookup_key a)) in Hr; [| |..]; auto using any_path_key|].
  apply replace_any_run in Hr as [Hh Hk]. split; [done|]. split; [done|].
  apply bind_Ok in H as (t & s2 & [= <- <-] & H). rewrite bind_group in H.
  apply bind_Ok in H as ([] & s2 & Hm & H). exists s2. split; [exact Hm|].
  by apply persist_or_Ok in H.
Qed.

(** The suffix of a key of a subtree. *)
Definition suffix (x : bytes) : Prop := x = [] \/ exists r, x = lit "/" ++ r.

(** Subtrees of unrelated names have no key in common. *)
Lemma subtrees_disjoint A B x y :
  outside A B -> outside B A -> suffix x -> suffix y -> A ++ x <> B ++ y.
Proof.
  assert (forall A B x y l, outside A B -> suffix x -> B = A ++ l -> x = l ++ y -> l = []) as Hhalf.
  { clear. intros A B x y [|c l] Ho Hx -> ->; [done|]. exfalso.
    destruct Hx as [?|[r E]]; [done|]. simpl in E. apply cons_inj in E as [-> _].
    revert Ho. apply outside_app. right. by exists l. }
  intros HAB HBA Hx Hy E.
  assert (A <> B) as Hne by (intros ->; by destruct HAB).
  apply app_eq_inv in E as [(l & E1 & E2)|(l & E1 & E2)].
  - pose proof (Hhalf B A y x l HBA Hy E1 E2) as ->. by rewrite app_nil_r in E1.
  - pose proof (Hhalf A B x y l HAB Hx E1 E2) as ->. by rewrite app_nil_r in E1.
Qed.

Lemma moved_gone {V} tgt (P : bytes -> V -> V -> Prop) m l m' k :
  moves tgt P m l m' -> clean tgt l -> k ∈ l \/ m !! k = None ->
  (forall k', k' ∈ l -> k <> tgt k') -> m' !! k = None.
Proof.
  intros Hm Hc Hk Ht. destruct (decide (k ∈ l)) as [Hl|Hl]; [by eapply moves_source|].
  destruct Hk as [?|Hk]; [done|]. by rewrite (moves_other _ _ _ _ _ _ Hm).
Qed.

(** Nothing is at or below a free name. *)
Lemma vacant_below t A B x : vacant t A B -> suffix x -> st_directories t !! (B ++ x) = None.
Proof.
  intros Hv Hx. destruct Hx as [->|[r ->]]; [rewrite app_nil_r; apply Hv|].
  destruct (vacant_none_under _ _ _ Hv) as [HuD _]. destruct (st_directories t !! _) as [e|] eqn:E; [|done].
  apply HuD in E. by rewrite app_assoc, starts_with_app in E.
Qed.

Lemma vacant_below_files t A B r : vacant t A B -> st_files t !! (B ++ lit "/" ++ r) = None.
Proof.
  intros Hv. destruct (vacant_none_under _ _ _ Hv) as [_ HuF]. destruct (st_files t !! _) as [e|] eqn:E; [|done].
  apply HuF in E. by rewrite app_assoc, starts_with_app in E.
Qed.

(** A directory and a free name are unrelated. *)
Lemma vacant_outside t A B :
  vacant t A B -> A <> B -> is_Some (st_directories t !! A) -> outside A B /\ outside B A.
Proof.
  intros Hv Hne [e E]. destruct (vacant_none_under _ _ _ Hv) as [HuD _].
  split; (split; [congruence|]); [apply Hv|by eapply HuD].
Qed.

(** Below a name that was made free there is only what was moved there. *)
Lemma moved_only {V} (P : bytes -> V -> V -> Prop) A B m l m' x e' :
  moves (target A B) P m l m' -> clean (target A B) l -> (forall k, k ∈ l -> is_Some (m !! k) /\ exists y, k = A ++ y) ->
  m !! (B ++ x) = None -> m' !! (B ++ x) = Some e' -> is_Some (m !! (A ++ x)).
Proof.
  intros Hm Hc Hl Hn He. eapply moves_origin in He as [(k & e & Hk & E & E1 & _)|[_ E]]; [|by rewrite Hn in E|exact Hm|exact Hc|].
  - apply Hl in Hk as [_ [y ->]]. rewrite target_app in E. apply app_inv_head in E as ->. by exists e.
  - intros k Hk. by apply Hl.
Qed.

(** C6.  Renaming a directory to another key moves its whole subtree and nothing else.
    The directory itself is found under the new name with the new display name, and
    every directory and file below it at the same place below the new name with the
    display name it had; all keep their metadata but for the time of the change, and
    files their [FileId] and delete mark.  Nothing is left below the old name, nothing
    but what was moved is below the new one, every entry outside both names is
    unchanged, and the handles follow the files.  The two names must differ by more
    than their case: with equal keys and replacement the directory is deleted (see
    [rename_replace_destroys]). *)
Theorem rename_directory_moves a b replace s s' :
  s_ok s -> any_path a -> path_ok b -> is_directory (s_store s) a = true ->
  rename a b replace s = (Ok tt, s') -> lookup_key a <> lookup_key b ->
  let A := lookup_key a in let B := lookup_key b in
  let D := st_directories (s_store s) in let F := st_files (s_store s) in
  let D' := st_directories (s_store s') in let F' := st_files (s_store s') in
  (forall x e, suffix x -> D !! (A ++ x) = Some e ->
     exists e', D' !! (B ++ x) = Some e' /\ moved_directory (name_at x (default [] (display_name b)) e) e e') /\
  (forall r e, F !! (A ++ lit "/" ++ r) = Some e ->
     exists e', F' !! (B ++ lit "/" ++ r) = Some e' /\ moved_file e e') /\
  (forall x, suffix x -> D' !! (A ++ x) = None) /\
  (forall r, F' !! (A ++ lit "/" ++ r) = None) /\
  (forall x e', suffix x -> D' !! (B ++ x) = Some e' -> is_Some (D !! (A ++ x))) /\
  (forall r e', F' !! (B ++ lit "/" ++ r) = Some e' -> is_Some (F !! (A ++ lit "/" ++ r))) /\
  (forall k, outside A k -> outside B k -> D' !! k = D !! k /\ F' !! k = F !! k) /\
  st_handles (s_store s') = retarget_under A B <$> st_handles (s_store s).
Proof.
  intros Hs Ha Hb Hd H Hne. cbv zeta. unfold rename in H.
  apply bind_Ok in H as (t & s0 & [= <- <-] & H). apply bind_Ok in H as ([] & s0 & Hl & H).
  injection Hl as _ <-. rewrite Hd in H.
  apply rename_directory_run in H as (s1 & Hv & Hh & Hk & s2 & Hm & Hn); [|done..].
  destruct (move_subtree_run _ _ (default [] (display_name b)) s1 Hv) as (s2' & Hm' & HD & HF & HH).
  rewrite Hm in Hm'. injection Hm' as <-. unfold s_names, names in Hn. injection Hn as -> -> ->.
  destruct (vacant_none_under _ _ _ Hv) as [HuD HuF].
  pose proof (clean_dirs _ (lookup_key a) _ (va_free _ _ _ Hv) HuD) as Hcd.
  pose proof (clean_files _ (lookup_key a) _ HuF) as Hcf.
  destruct (vacant_outside _ _ _ Hv Hne) as [Hab Hba].
  { rewrite (proj1 (Hk _ Hne)). unfold is_directory in Hd. apply orb_prop in Hd as [Hd|Hd];
      apply bool_decide_eq_true in Hd; [|done]. by apply va_src in Hv as [_ _ ?]. }
  assert (forall x, suffix x -> lookup_key a ++ x <> lookup_key b) as Hax.
  { intros x Hx E. apply (subtrees_disjoint _ _ x [] Hab Hba Hx); [by left|by rewrite app_nil_r]. }
  split; [|split; [|split; [|split; [|split; [|split; [|split]]]]]].
  - intros x e Hx E. rewrite <- (proj1 (Hk _ (Hax x Hx))) in E.
    eapply moves_target in HD as (e' & E' & HP); [|exact Hcd| |exact E].
    + unfold moved_at in HP. rewrite strip_prefix_app in HP. rewrite target_app in E'. by exists e'.
    + apply elem_of_directory_keys. split; [by exists e|]. by exists x.
  - intros r e E. rewrite <- (proj2 (Hk _ (Hax (lit "/" ++ r) ltac:(by right; exists r)))) in E.
    eapply moves_target in HF as (e' & E' & HP); [|exact Hcf| |exact E].
    + rewrite target_app in E'. by exists e'.
    + apply elem_of_file_keys. split; [by exists e|]. by exists r.
  - intros x Hx. eapply moved_gone; [exact HD|exact Hcd| |].
    + destruct (st_directories (s_store s1) !! (lookup_key a ++ x)) eqn:E; [left|by right].
      apply elem_of_directory_keys. split; [by eexists|]. by exists x.
    + intros k' (_ & y & -> & Hy)%elem_of_directory_keys. rewrite target_app.
      by apply subtrees_disjoint.
  - intros r. eapply moved_gone; [exact HF|exact Hcf| |].
    + destruct (st_files (s_store s1) !! (lookup_key a ++ lit "/" ++ r)) eqn:E; [left|by right].
      apply elem_of_file_keys. split; [by eexists|]. by exists r.
    + intros k' (_ & y & ->)%elem_of_file_keys. rewrite target_app.
      apply subtrees_disjoint; [done|done|right; by exists r|right; by exists y].
  - intros x e' Hx E. rewrite <- (proj1 (Hk _ (Hax x Hx))). eapply moved_only; [exact HD|exact Hcd| | |exact E].
    + intros k (Hs' & y & -> & _)%elem_of_directory_keys. eauto.
    + by eapply vacant_below.
  - intros r e' E. rewrite <- (proj2 (Hk _ (Hax (lit "/" ++ r) ltac:(by right; exists r)))).
    eapply moved_only; [exact HF|exact Hcf| | |exact E].
    + intros k (Hs' & y & ->)%elem_of_file_keys. eauto.
    + by eapply vacant_below_files.
  - intros k Hoa Hob. destruct (Hk k) as [<- <-]; [by destruct Hob|]. split.
    + apply (moves_other _ _ _ _ _ _ HD).
      * rewrite directory_keys_outside. by intros [_ ?].
      * intros k' (_ & y & -> & Hy)%elem_of_directory_keys ->. rewrite target_app in Hob.
        revert Hob. by apply outside_app.
    + apply (moves_other _ _ _ _ _ _ HF).
      * intros (_ & r & ->)%elem_of_file_keys. revert Hoa. apply outside_app. right. by exists r.
      * intros k' (_ & y & ->)%elem_of_file_keys ->. rewrite target_app in Hob.
        revert Hob. apply outside_app. right. by exists y.
  - by rewrite HH, Hh.
Qed.

End Operations.

(** ** Listings *)

(** [k] names something directly inside [p]. *)
Definition child_of (p : VirtualPath) (k : bytes) : Prop :=
  exists name, name <> [] /\ free_of (Byte.eqb x2f) name /\
    k = (if bool_decide (lookup_key p = []) then name else lookup_key p ++ lit "/" ++ name).

Lemma direct_child_spec k prefix :
  direct_child k prefix = true <->
  exists name, name <> [] /\ free_of (Byte.eqb x2f) name /\ k = prefix ++ name.
Proof.
  unfold direct_child, nonempty. split.
  - destruct (strip_prefix prefix k) as [r|] eqn:E; [|done].
    apply strip_prefix_Some in E as ->. intros [Hl Hr]%andb_prop.
    apply negb_true_iff, bool_decide_eq_false in Hl. apply negb_true_iff, has_byte_false in Hr.
    by exists r.
  - intros (name & Hn & Hf & ->). rewrite strip_prefix_app, bool_decide_eq_false_2 by done.
    by rewrite (proj2 (has_byte_false _ _) Hf).
Qed.

Lemma direct_child_of p k :
  direct_child k (if bool_decide (lookup_key p = []) then [] else lookup_key p ++ lit "/") = true
  <-> child_of p k.
Proof.
  rewrite direct_child_spec. unfold child_of. case_bool_decide; [done|].
  split; intros (name & Hn & Hf & ->); exists name; rewrite <- ?app_assoc; done.
Qed.

#[export] Instance display_le_total : Total display_le.
Proof. intros a b. apply (total bytes_le). Qed.
#[export] Instance display_le_trans : Transitive display_le.
Proof. intros a b c. apply (transitivity (R := bytes_le)). Qed.

(** A listing is the direct children, each once, in order: if
    [read_directory] succeeds it returns, sorted without regard to ASCII case,
    the display names of exactly the directories directly inside the path and of
    exactly the files directly inside it that are not being deleted, one name for
    each entry. *)
Theorem read_directory_lists t p l :
  read_directory t p = Ok l ->
  Sorted display_le l /\
  exists ds fs,
    l ≡ₚ map (fun ke => de_display ke.2) ds ++ map (fun ke => fe_display ke.2) fs /\
    NoDup ds.*1 /\ NoDup fs.*1 /\
    (forall k e, (k, e) ∈ ds <-> st_directories t !! k = Some e /\ child_of p k) /\
    (forall k e, (k, e) ∈ fs <->
       st_files t !! k = Some e /\ fe_delete_pending e = false /\ child_of p k).
Proof.
  unfold read_directory. case_match; [done|]. intros [= <-]. split.
  { apply (Sorted_merge_sort _). }
  eexists _, _. split; [apply merge_sort_Permutation|].
  split; [apply NoDup_filter_keys|]. split; [apply NoDup_filter_keys|].
  split; intros k e;
    rewrite list_elem_of_filter, elem_of_btree_iter; simpl; rewrite direct_child_of; tauto.
Qed.

(** ** At the edges *)

Section Edges.
Import Scenario Names.

(** A run of operations from the empty store. *)
Definition after (ops : list ns_op) : St := run_ops ops start.

(** A new process on the disk of [s]; when it opens the store it gets this. *)
Definition reopened (s : St) : St :=
  let '(r, w) := reopen (mkSt (s_store s) (fresh_process (s_world s))) in
  mkSt (unwrap_or r (s_store s)) w.

(** What a read by name returns. *)
Definition content (p : string) (s : St) : result StorageError bytes := fst (read_path (path p) s).

(** A file with content, closed. *)
Definition saved : list ns_op :=
  [OpCreateOrOpen (path "a.txt") true true; OpWrite 1 0 (lit "secret"); OpFlush 1; OpClose 1].

(** The counter that names new files starts again with the process: after a
    restart the first file created gets the identifier of an existing file.  The
    new, empty file then reads as the old file's content, and what is written to
    it replaces that content. *)
Theorem restart_reuses_file_ids :
  let s := reopened (after saved) in
  content "a.txt" s = Ok (lit "secret") /\
  let s1 := run_ops [OpCreateOrOpen (path "b.txt") true true] s in
  content "b.txt" s1 = Ok (lit "secret") /\
  let s2 := run_ops [OpWrite 1 0 (lit "public!"); OpFlush 1] s1 in
  content "a.txt" s2 = Ok (lit "public!").
Proof. vm_compute. repeat split. Qed.

(** Replacing the destination of a rename is not undone and does not look at
    the source.  With a handle open on the destination the rename is refused with
    a sharing violation, but the destination stays marked for deletion, cannot be
    opened, and is gone once the handle is closed.  A rename that changes only the
    case of a name finds the source as its own destination: a closed file is
    deleted before the rename fails with [NotFound], and an empty directory is
    deleted and the rename reports success. *)
Theorem rename_replace_destroys :
  let s := after [OpCreateOrOpen (path "a.txt") true true; OpClose 1;
                  OpCreateOrOpen (path "b.txt") true true; OpCreateDirectory (path "docs")] in
  let refused := rename (path "a.txt") (path "b.txt") true s in
  let recased := rename (path "a.txt") (path "A.TXT") true s in
  let emptied := rename (path "docs") (path "Docs") true s in
  (fst refused = Err SharingViolation /\
   fst (create_or_open (path "b.txt") false true (snd refused)) = Err DeletePending /\
   fst (create_or_open (path "b.txt") false true (snd (close_handle 2 (snd refused)))) = Err NotFound) /\
  (fst recased = Err NotFound /\
   fst (create_or_open (path "a.txt") false true (snd recased)) = Err NotFound) /\
  (fst emptied = Ok tt /\ is_directory (s_store (snd emptied)) (path "docs") = false).
Proof. vm_compute. repeat split. Qed.

(** A directory renamed over an open file: the rename of a directory does not look
    whether the deletion freed the name, so the file, marked for deletion, and the
    directory then have the same key. *)
Theorem rename_directory_over_open_file :
  let s := after [OpCreateOrOpen (path "b.txt") true true; OpCreateDirectory (path "docs")] in
  let moved := rename (path "docs") (path "b.txt") true s in
  fst moved = Ok tt /\ is_directory (s_store (snd moved)) (path "b.txt") = true /\
  fe_delete_pending <$> st_files (s_store (snd moved)) !! lookup_key (path "b.txt") = Some true.
Proof. vm_compute. repeat split. Qed.
End Edges.

(** ** The theorems on concrete stores *)

Section Witnesses.
Import Scenario Names.

Lemma ran (m : store_m unit) s : is_ok (fst (m s)) = true -> m s = (Ok tt, snd (m s)).
Proof. by destruct (m s) as [[[]|] s']. Qed.

(** The store of [two_entries] on a disk whose third operation fails. *)
Definition failing : St :=
  mkSt (s_store two_entries)
    (mkWorld empty_disk (fails_at 2 None) 0 nonce_stream 0 (fun i => i) 0 1 1 1 1).

Lemma failure_keeps_names_witness :
  is_ok (fst (create_directory (path "New") failing)) = false /\
  s_names (snd (create_directory (path "New") failing)) = s_names failing.
Proof.
  assert (is_ok (fst (create_directory (path "New") failing)) = false) as H by (vm_compute; reflexivity).
  split; [exact H|]. destruct (create_directory (path "New") failing) as [[[]|e] s'] eqn:E; [discriminate H|].
  exact (proj1 (failure_keeps_names failing e s') (path "New") E).
Defined.

Lemma delete_while_open_witness :
  exists s1, delete_path (path "docs\plan.txt") two_entries = (Ok tt, s1) /\
    (forall c a, create_or_open (path "docs\plan.txt") c a s1 = (Err DeletePending, s1)).
Proof.
  assert (exists e, st_files (s_store two_entries) !! lookup_key (path "docs\plan.txt") = Some e) as [e He].
  { assert (bool_decide (is_Some (st_files (s_store two_entries) !! lookup_key (path "docs\plan.txt"))) = true)
      as H by (vm_compute; reflexivity). by apply bool_decide_eq_true in H. }
  assert (map_to_list (st_handles (s_store two_entries)) =
    [(1, mkHandleState (lookup_key (path "docs\plan.txt")) true)]) as Hh by (vm_compute; reflexivity).
  destruct (delete_while_open (path "docs\plan.txt") 1 two_entries e) as (s1 & H1 & _ & H2 & _).
  - vm_compute. reflexivity.
  - exact He.
  - split; [apply elem_of_map_to_list; rewrite Hh; left|].
    intros h' st E _. apply elem_of_map_to_list in E. rewrite Hh in E.
    apply list_elem_of_singleton in E. by injection E.
  - exists s1. split; [exact H1|exact H2].
Defined.

Lemma rename_file_moves_witness :
  let s := two_entries in let s' := snd (rename (path "docs\plan.txt") (path "Old.txt") false s) in
  st_files (s_store s') !! lookup_key (path "docs\plan.txt") = None /\
  is_Some (st_files (s_store s') !! lookup_key (path "old.TXT")).
Proof.
  destruct (rename_file_moves (path "docs\plan.txt") (path "Old.txt") false two_entries
    (snd (rename (path "docs\plan.txt") (path "Old.txt") false two_entries)))
    as (_ & _ & H1 & (e & e' & _ & H2 & _) & _).
  - apply ran. vm_compute. reflexivity.
  - vm_compute. reflexivity.
  - vm_compute. discriminate.
  - split; [exact H1|]. by exists e'.
Defined.

Lemma rename_directory_moves_witness :
  let s := two_entries in let s' := snd (rename (path "docs") (path "Papers") false s) in
  st_directories (s_store s') !! lookup_key (path "docs") = None /\
  st_files (s_store s') !! lookup_key (path "docs\plan.txt") = None /\
  is_Some (st_files (s_store s') !! lookup_key (path "papers\plan.txt")) /\
  de_display <$> st_directories (s_store s') !! (lookup_key (path "papers") ++ []) = Some (lit "Papers").
Proof.
  destruct (rename_directory_moves (path "docs") (path "Papers") false two_entries
    (snd (rename (path "docs") (path "Papers") false two_entries)))
    as (H1 & H2 & H3 & H4 & _).
  - exact two_entries_ok.
  - right. literal_path.
  - literal_path.
  - vm_compute. reflexivity.
  - apply ran. vm_compute. reflexivity.
  - vm_compute. discriminate.
  - split; [specialize (H3 [] ltac:(by left)); rewrite app_nil_r in H3; exact H3|].
    split; [exact (H4 (lit "plan.txt"))|].
    assert (bool_decide (is_Some (st_files (s_store two_entries) !!
      (lookup_key (path "docs") ++ lit "/" ++ lit "plan.txt"))) = true) as H by (vm_compute; reflexivity).
    apply bool_decide_eq_true in H as [e He]. destruct (H2 (lit "plan.txt") e He) as (e' & E' & _).
    split; [exists e'; exact E'|].
    assert (bool_decide (is_Some (st_directories (s_store two_entries) !!
      (lookup_key (path "docs") ++ []))) = true) as H by (vm_compute; reflexivity).
    apply bool_decide_eq_true in H as [d Hd]. destruct (H1 [] d ltac:(by left) Hd) as (d' & Ed & now & _ & ->).
    exact (f_equal (fmap de_display) Ed).
Defined.

Lemma read_directory_lists_witness :
  Sorted display_le [lit "Docs"] /\ read_directory (s_store two_entries) root = Ok [lit "Docs"].
Proof.
  assert (read_directory (s_store two_entries) root = Ok [lit "Docs"]) as H by (vm_compute; reflexivity).
  split; [|exact H]. exact (proj1 (read_directory_lists (s_store two_entries) root _ H)).
Defined.
End Witnesses.
