(* ===== verification/Wildmatch.v ===== *)
(** * Wildmatch

    The wildcard matcher of directory enumeration
    (crates/dlp-windows-drive/src/wildmatch.rs): the two-index loop with one
    backtracking point, its termination, and how its answer relates to the recursive
    definition of matching. *)

From S2P Require Import Prelude Bytes.

(** [char::to_lowercase]: the Unicode data is a parameter. *)
Class CharLower := char_lower : N -> list N.

Definition star : N := 42.
Definition question : N := 63.

(** The [while name_index < name.len()] loop; [Some (Some pi)] is its exit with
    the pattern index, [Some None] its [return false], [None] means the fuel ran
    out. *)
Fixpoint match_loop (fuel : nat) (pattern name : list N) (pattern_index name_index : nat)
    (star_index : option nat) (match_index : nat) : option (option nat) :=
  match fuel with
  | O => None
  | S fuel =>
      match name !! name_index with
      | None => Some (Some pattern_index)
      | Some n =>
          if match pattern !! pattern_index with
             | Some p => (p =? n) || (p =? question)
             | None => false
             end
          then match_loop fuel pattern name (S pattern_index) (S name_index) star_index match_index
          else if match pattern !! pattern_index with Some p => p =? star | None => false end
          then match_loop fuel pattern name (S pattern_index) name_index
                 (Some pattern_index) name_index
          else match star_index with
               | Some s => match_loop fuel pattern name (S s) (S match_index) star_index (S match_index)
               | None => Some None
               end
      end
  end.

(** [while pattern_index < pattern.len() && pattern[pattern_index] == '*']. *)
Fixpoint skip_stars (rest : list N) : list N :=
  match rest with
  | p :: rest' => if p =? star then skip_stars rest' else rest
  | [] => []
  end.

(** The loop's steps are bounded by this measure at the start. *)
Definition match_fuel (pattern name : list N) : nat :=
  S (length name * (length pattern + 1) + length pattern)%nat.

Definition match_chars (pattern name : list N) : bool :=
  match match_loop (match_fuel pattern name) pattern name 0 0 None 0 with
  | Some (Some pi) => bool_decide (skip_stars (drop pi pattern) = [])
  | _ => false
  end.

Definition fold_chars `{CharLower} (s : bytes) : list N := concat (map char_lower (chars s)).

Definition wild_matches `{CharLower} (pattern name : bytes) : bool :=
  match_chars (fold_chars pattern) (fold_chars name).

(** ** The recursive definition *)

Fixpoint glob (pattern : list N) : list N -> bool :=
  match pattern with
  | [] => fun name => match name with [] => true | _ => false end
  | p :: pattern' =>
      if p =? star then
        fix any name := glob pattern' name || match name with [] => false | _ :: name' => any name' end
      else
        fun name => match name with
                    | [] => false
                    | n :: name' => ((p =? n) || (p =? question)) && glob pattern' name'
                    end
  end.

Lemma glob_star p n :
  glob (star :: p) n = glob p n || match n with [] => false | _ :: n' => glob (star :: p) n' end.
Proof. destruct n; reflexivity. Qed.

Lemma glob_char c p n :
  c <> star ->
  glob (c :: p) n = match n with
                    | [] => false
                    | x :: n' => ((c =? x) || (c =? question)) && glob p n'
                    end.
Proof. intros Hc. cbn [glob]. by rewrite (proj2 (N.eqb_neq c star) Hc). Qed.

(** A star absorbs any number of characters. *)
Lemma glob_star_iff p n : glob (star :: p) n = true <-> exists k, glob p (drop k n) = true.
Proof.
  induction n as [|x n IH]; rewrite glob_star.
  - rewrite orb_false_r. split; [by exists 0%nat|]. intros [k H]. by rewrite drop_nil in H.
  - rewrite orb_true_iff, IH. split.
    + intros [H|[k H]]; [by exists 0%nat|by exists (S k)].
    + intros [[|k] H]; [by left|right; by exists k].
Qed.

Lemma glob_star_drop p n k : glob (star :: p) (drop k n) = true -> glob (star :: p) n = true.
Proof. rewrite !glob_star_iff. intros [j H]. exists (k + j)%nat. by rewrite <- drop_drop. Qed.

(** Patterns without a star match as many characters as they have. *)
Lemma glob_app u p n :
  Forall (fun c => c <> star) u -> glob (u ++ p) n = true ->
  (length u <= length n)%nat /\ glob p (drop (length u) n) = true.
Proof.
  intros Hu. revert n. induction Hu as [|c u Hc Hu IH]; intros n H; [simpl; split; [lia|done]|].
  cbn [app] in H. rewrite glob_char in H by done. destruct n as [|x n]; [done|].
  apply andb_prop in H as [_ H]. apply IH in H as [Hl H]. simpl. split; [lia|done].
Qed.

Lemma skip_stars_glob rest : bool_decide (skip_stars rest = []) = glob rest [].
Proof.
  induction rest as [|p rest IH]; [done|]. cbn [skip_stars]. destruct (N.eqb_spec p star) as [->|Hp].
  - by rewrite glob_star, orb_false_r.
  - rewrite glob_char by done. by apply bool_decide_eq_false.
Qed.

Lemma glob_star_step q n k : glob (star :: q) (drop k n) =
  glob q (drop k n) || glob (star :: q) (drop (S k) n).
Proof.
  rewrite glob_star. destruct (drop k n) as [|x r] eqn:E.
  - replace (drop (S k) n) with (@nil N); [by rewrite glob_star, orb_false_r, orb_diag|].
    symmetry. apply drop_ge. apply (f_equal length) in E. rewrite length_drop in E. simpl in E. lia.
  - replace (drop (S k) n) with r; [done|].
    replace (S k) with (k + 1)%nat by lia. by rewrite <- drop_drop, E.
Qed.

Section Loop.
Context (p n : list N) (Hn : Forall (fun c => c <> star) n).

(** The loop is where it should be: what is left to match decides the whole
    match, unless the last star absorbs more. *)
Definition on_course (pi ni : nat) (st : option nat) (mi : nat) : Prop :=
  (pi <= length p)%nat /\ (mi <= ni <= length n)%nat /\
  match st with
  | None => glob p n = glob (drop pi p) (drop ni n)
  | Some s =>
      p !! s = Some star /\
      (exists u, drop (S s) p = u ++ drop pi p /\ Forall (fun c => c <> star) u /\
         length u = (ni - mi)%nat) /\
      glob p n = glob (drop pi p) (drop ni n) || glob (star :: drop (S s) p) (drop (S mi) n)
  end.

Definition verdict (r : option (option nat)) : option bool :=
  match r with
  | Some (Some pi) => Some (bool_decide (skip_stars (drop pi p) = []))
  | Some None => Some false
  | None => None
  end.

(** A later start after the star puts the rest of the pattern no earlier. *)
Lemma absorbed u rest mi ni :
  Forall (fun c => c <> star) u -> length u = (ni - mi)%nat -> (mi <= ni)%nat ->
  glob (star :: u ++ rest) (drop (S mi) n) = true ->
  exists k, (ni <= k)%nat /\ glob rest (drop k n) = true.
Proof using.
  clear Hn. intros Hu Hl Hmi [k H]%glob_star_iff. apply glob_app in H as [_ H]; [|exact Hu].
  rewrite !drop_drop in H. eexists. split; [|exact H]. lia.
Qed.

Lemma course_end pi ni st mi :
  on_course pi ni st mi -> n !! ni = None -> glob p n = glob (drop pi p) [].
Proof using.
  clear Hn. intros (Hpi & Hni & H) E. apply lookup_ge_None in E.
  assert (forall k, (ni <= k)%nat -> drop k n = []) as Hd by (intros; apply drop_ge; lia).
  destruct st as [s|]; [|by rewrite (Hd ni) in H by lia].
  destruct H as (_ & (u & Hu & Hf & Hl) & ->). rewrite (Hd ni) by lia.
  destruct (glob (star :: drop (S s) p) (drop (S mi) n)) eqn:Es; [|by rewrite orb_false_r].
  rewrite orb_true_r, Hu in *. apply (absorbed u _ mi ni) in Es as (k & Hk & Es); [|exact Hf|exact Hl|lia].
  by rewrite (Hd k Hk) in Es.
Qed.

Lemma course_char pi ni st mi c x :
  on_course pi ni st mi -> n !! ni = Some x -> p !! pi = Some c ->
  (c =? x) || (c =? question) = true -> on_course (S pi) (S ni) st mi.
Proof using Hn.
  intros (Hpi & Hni & H) Ex Ec Hc. apply lookup_lt_Some in Ex as Hlx, Ec as Hlc.
  assert (c <> star) as Hs.
  { apply orb_prop in Hc as [->%N.eqb_eq| ->%N.eqb_eq]; [|done].
    rewrite Forall_lookup in Hn. by eapply Hn. }
  assert (glob (drop pi p) (drop ni n) = glob (drop (S pi) p) (drop (S ni) n)) as Eg.
  { rewrite (drop_S _ _ _ Ec), (drop_S _ _ _ Ex), glob_char, Hc by done. done. }
  split; [lia|]. split; [lia|]. destruct st as [s|]; [|by rewrite <- Eg].
  destruct H as (Est & (u & Hu & Hf & Hl) & H). split; [done|]. split; [|by rewrite <- Eg].
  exists (u ++ [c]). rewrite Hu, (drop_S _ _ _ Ec), <- app_assoc. split; [done|].
  split; [by apply Forall_app; split; [|constructor]|]. rewrite length_app. simpl. lia.
Qed.

Lemma course_star pi ni st mi x :
  on_course pi ni st mi -> n !! ni = Some x -> p !! pi = Some star ->
  on_course (S pi) ni (Some pi) ni.
Proof using.
  clear Hn. intros (Hpi & Hni & H) Ex Ec. apply lookup_lt_Some in Ex as Hlx, Ec as Hlc.
  split; [lia|]. split; [lia|]. split; [done|]. split; [by exists []; rewrite Nat.sub_diag|].
  rewrite <- glob_star_step. rewrite (drop_S _ _ _ Ec) in H. destruct st as [s|]; [|done].
  destruct H as (_ & (u & Hu & Hf & Hl) & ->).
  destruct (glob (star :: drop (S s) p) (drop (S mi) n)) eqn:Es; [|by rewrite orb_false_r].
  rewrite orb_true_r, Hu in *. symmetry.
  apply (absorbed u _ mi ni) in Es as (k & Hk & Es); [|exact Hf|exact Hl|lia].
  replace k with (ni + (k - ni))%nat in Es by lia. rewrite <- drop_drop in Es.
  by apply glob_star_drop in Es.
Qed.

(** Nothing left to try at the current position. *)
Lemma course_stuck pi ni x :
  n !! ni = Some x ->
  match p !! pi with Some c => (c =? x) || (c =? question) | None => false end = false ->
  match p !! pi with Some c => c =? star | None => false end = false ->
  glob (drop pi p) (drop ni n) = false.
Proof using.
  clear Hn. intros Ex H1 H2. rewrite (drop_S _ _ _ Ex). destruct (p !! pi) as [c|] eqn:Ec.
  - rewrite (drop_S _ _ _ Ec), glob_char, H1 by (by apply N.eqb_neq). done.
  - apply lookup_ge_None in Ec. by rewrite drop_ge.
Qed.

Lemma course_back pi ni s mi x :
  on_course pi ni (Some s) mi -> n !! ni = Some x -> glob (drop pi p) (drop ni n) = false ->
  on_course (S s) (S mi) (Some s) (S mi).
Proof using.
  clear Hn. intros (Hpi & Hni & Est & (u & Hu & Hf & Hl) & H) Ex Hg.
  apply lookup_lt_Some in Ex as Hlx, Est as Hls. rewrite Hg in H. simpl in H.
  split; [lia|]. split; [lia|]. split; [done|]. split; [by exists []; rewrite Nat.sub_diag|].
  by rewrite <- glob_star_step.
Qed.

(** The same for a name that may have a literal star: what the loop has left, and
    what the last star may still absorb, are enough for the whole match. *)
Definition no_overshoot (pi ni : nat) (st : option nat) (mi : nat) : Prop :=
  (pi <= length p)%nat /\ (mi <= ni <= length n)%nat /\
  (glob (drop pi p) (drop ni n) = true -> glob p n = true) /\
  match st with
  | None => True
  | Some s => p !! s = Some star /\ (glob (star :: drop (S s) p) (drop (S mi) n) = true -> glob p n = true)
  end.

(** A star absorbs one character more. *)
Lemma glob_star_next q k : glob (star :: q) (drop (S k) n) = true -> glob (star :: q) (drop k n) = true.
Proof using. clear Hn. intros H. by rewrite glob_star_step, H, orb_true_r. Qed.

Lemma glob_star_here q k : glob q (drop k n) = true -> glob (star :: q) (drop k n) = true.
Proof using. clear Hn. intros H. by rewrite glob_star_step, H. Qed.

Lemma overshoot_char pi ni st mi c x :
  no_overshoot pi ni st mi -> n !! ni = Some x -> p !! pi = Some c ->
  (c =? x) || (c =? question) = true -> no_overshoot (S pi) (S ni) st mi.
Proof using.
  clear Hn. intros (Hpi & Hni & H & Hst) Ex Ec Hc. apply lookup_lt_Some in Ex as Hlx, Ec as Hlc.
  split; [lia|]. split; [lia|]. split; [|exact Hst]. intros Hg. apply H. rewrite (drop_S _ _ _ Ec).
  destruct (N.eqb_spec c star) as [->|Hs]; [by apply glob_star_next, glob_star_here|].
  rewrite (drop_S _ _ _ Ex), glob_char, Hc by done. done.
Qed.

Lemma overshoot_star pi ni st mi x :
  no_overshoot pi ni st mi -> n !! ni = Some x -> p !! pi = Some star -> no_overshoot (S pi) ni (Some pi) ni.
Proof using.
  clear Hn. intros (Hpi & Hni & H & _) Ex Ec. apply lookup_lt_Some in Ex as Hlx, Ec as Hlc.
  rewrite (drop_S _ _ _ Ec) in H. split; [lia|]. split; [lia|].
  split; [intros Hg; by apply H, glob_star_here|]. split; [done|]. intros Hg. by apply H, glob_star_next.
Qed.

Lemma overshoot_back pi ni s mi x :
  no_overshoot pi ni (Some s) mi -> n !! ni = Some x -> no_overshoot (S s) (S mi) (Some s) (S mi).
Proof using.
  clear Hn. intros (Hpi & Hni & _ & Est & H) Ex. apply lookup_lt_Some in Ex as Hlx, Est as Hls.
  split; [lia|]. split; [lia|]. split; [intros Hg; by apply H, glob_star_here|].
  split; [done|]. intros Hg. by apply H, glob_star_next.
Qed.

(** Each step lowers the measure, so the loop returns, and it accepts only a match. *)
Lemma match_loop_sound fuel pi ni st mi :
  no_overshoot pi ni st mi ->
  ((length n - mi) * (length p + 1) + (length p - pi) < fuel)%nat ->
  exists b, verdict (match_loop fuel p n pi ni st mi) = Some b /\ (b = true -> glob p n = true).
Proof using.
  clear Hn. revert pi ni st mi. induction fuel as [|fuel IH]; intros pi ni st mi Hc Hm;
    [by apply Nat.nlt_0_r in Hm|].
  pose proof Hc as (Hpi & Hni & Hg & _). cbn [match_loop]. destruct (n !! ni) as [x|] eqn:Ex.
  2:{ eexists. split; [reflexivity|]. rewrite skip_stars_glob. intros Hs. apply Hg.
      by rewrite (drop_ge n) by (by apply lookup_ge_None). }
  apply lookup_lt_Some in Ex as Hlx.
  assert (exists b, verdict (match st with
      | Some s => match_loop fuel p n (S s) (S mi) st (S mi) | None => Some None end) = Some b /\
      (b = true -> glob p n = true)) as Hback.
  { destruct st as [s|]; [|by exists false]. apply IH; [by eapply overshoot_back|].
    replace (length n - mi)%nat with (S (length n - S mi)) in Hm by lia. lia. }
  destruct (p !! pi) as [c|] eqn:Ec; [|exact Hback].
  apply lookup_lt_Some in Ec as Hlc. destruct ((c =? x) || (c =? question)) eqn:H1.
  { apply IH; [by eapply overshoot_char|]. lia. }
  destruct (c =? star) eqn:H2; [|exact Hback].
  apply N.eqb_eq in H2 as ->. apply IH; [by eapply overshoot_star|].
  pose proof (Nat.mul_le_mono_r (length n - ni) (length n - mi) (length p + 1)). lia.
Qed.

(** On a name without a literal star it decides the match. *)
Lemma match_loop_verdict fuel pi ni st mi :
  on_course pi ni st mi ->
  ((length n - mi) * (length p + 1) + (length p - pi) < fuel)%nat ->
  verdict (match_loop fuel p n pi ni st mi) = Some (glob p n).
Proof.
  revert pi ni st mi. induction fuel as [|fuel IH]; intros pi ni st mi Hc Hm;
    [by apply Nat.nlt_0_r in Hm|].
  pose proof Hc as (Hpi & Hni & _). cbn [match_loop]. destruct (n !! ni) as [x|] eqn:Ex.
  2:{ simpl. by rewrite skip_stars_glob, (course_end _ _ _ _ Hc Ex). }
  apply lookup_lt_Some in Ex as Hlx. destruct (p !! pi) as [c|] eqn:Ec.
  - apply lookup_lt_Some in Ec as Hlc. destruct ((c =? x) || (c =? question)) eqn:H1.
    { apply IH; [by eapply course_char|]. lia. }
    destruct (c =? star) eqn:H2.
    { apply N.eqb_eq in H2 as ->. apply IH; [by eapply course_star|].
      pose proof (Nat.mul_le_mono_r (length n - ni) (length n - mi) (length p + 1)). lia. }
    pose proof (course_stuck pi ni x Ex) as Hg. rewrite Ec in Hg. specialize (Hg H1 H2).
    destruct st as [s|].
    + apply IH; [by eapply course_back|].
      replace (length n - mi)%nat with (S (length n - S mi)) in Hm by lia. lia.
    + destruct Hc as (_ & _ & ->). by rewrite Hg.
  - pose proof (course_stuck pi ni x Ex) as Hg. rewrite Ec in Hg. specialize (Hg eq_refl eq_refl).
    destruct st as [s|].
    + apply IH; [by eapply course_back|].
      replace (length n - mi)%nat with (S (length n - S mi)) in Hm by lia. lia.
    + destruct Hc as (_ & _ & ->). by rewrite Hg.
Qed.
End Loop.

(** C35.  The matcher always returns and decides wildcard matching.  Of the lower-cased
    pattern and name, in whose recursive definition of matching [*] stands for any
    characters, [?] for one character and any other character for itself: the loop
    returns within its fuel, whatever they are; what it accepts is a match; and when
    the lower-cased name has no literal [*], as no component of a path has one, it
    accepts exactly the matches.  [?] counts characters of the lower-cased name, and
    lower case is that of Unicode. *)
Theorem wildcard_matches `{CharLower} pattern name :
  let p := fold_chars pattern in
  let n := fold_chars name in
  (exists r, match_loop (match_fuel p n) p n 0 0 None 0 = Some r) /\
  (wild_matches pattern name = true -> glob p n = true) /\
  (Forall (fun c => c <> star) n -> wild_matches pattern name = glob p n).
Proof.
  intros p n.
  assert (verdict p (match_loop (match_fuel p n) p n 0 0 None 0) = Some (wild_matches pattern name) /\
    (wild_matches pattern name = true -> glob p n = true)) as [Hv Hs].
  { destruct (match_loop_sound p n (match_fuel p n) 0 0 None 0) as (b & Hb & Hg).
    - split; [lia|]. split; [lia|]. by rewrite !drop_0.
    - unfold match_fuel. lia.
    - unfold wild_matches, match_chars. fold p n.
      destruct (match_loop _ _ _ _ _ _ _) as [[pi|]|]; simpl in *; simplify_eq; by split. }
  split; [destruct (match_loop _ _ _ _ _ _ _); [by eexists|done]|]. split; [exact Hs|]. intros Hn.
  rewrite (match_loop_verdict p n Hn) in Hv; [congruence| |unfold match_fuel; lia].
  split; [lia|]. split; [lia|]. by rewrite !drop_0.
Qed.

(** ASCII lower case, and the one expanding lower-case mapping of Unicode. *)
Definition toy_lower : CharLower := fun c =>
  if (65 <=? c) && (c <=? 90) then [c + 32]
  else if c =? 0x130 then [0x69; 0x307] else [c].

Lemma wildcard_matches_witness :
  let H := toy_lower in
  wild_matches (lit "*report*.T?T") (lit "Quarterly Report v2.txt") =
    glob (fold_chars (lit "*report*.T?T")) (fold_chars (lit "Quarterly Report v2.txt")) /\
  glob (fold_chars (lit "*report*.T?T")) (fold_chars (lit "Quarterly Report v2.txt")) = true.
Proof.
  cbv zeta. split; [|vm_compute; reflexivity].
  refine (proj2 (proj2 (wildcard_matches (H := toy_lower) (lit "*report*.T?T") (lit "Quarterly Report v2.txt"))) _).
  apply (bool_decide_eq_true_1 _). vm_compute. reflexivity.
Defined.

(** With a literal [*] in the name the loop can miss a match: it takes the star of
    the pattern for the character. *)
Theorem literal_star_missed :
  let H := toy_lower in
  wild_matches (lit "*a") (lit "*ba") = false /\ glob (fold_chars (lit "*a")) (fold_chars (lit "*ba")) = true.
Proof. vm_compute. by split. Qed.

(** [?] stands for one character of the lower-cased name, which is not one
    character of the name when lower case expands: a name of the single character
    U+0130, whose lower case is two characters, does not match [?], and matches
    [??]. *)
Theorem question_mark_counts_folded `{CharLower} :
  char_lower 0x130 = [0x69; 0x307] -> char_lower question = [question] ->
  let name := [xc4; xb0] in
  chars name = [0x130] /\ wild_matches (lit "?") name = false /\ wild_matches (lit "??") name = true.
Proof.
  intros H1 H2 name. assert (fold_chars name = [0x69; 0x307]) as Hn.
  { unfold fold_chars. change (chars name) with [0x130]. simpl. by rewrite H1. }
  assert (fold_chars (lit "?") = [question] /\ fold_chars (lit "??") = [question; question]) as [Hq Hqq].
  { unfold fold_chars. change (chars (lit "?")) with [question].
    change (chars (lit "??")) with [question; question]. simpl. by rewrite !H2. }
  unfold wild_matches. rewrite Hn, Hq, Hqq. split; [done|]. split; vm_compute; reflexivity.
Qed.

Lemma question_mark_counts_folded_witness :
  let H := toy_lower in
  chars [xc4; xb0] = [0x130] /\ wild_matches (lit "?") [xc4; xb0] = false.
Proof.
  destruct (question_mark_counts_folded (H := toy_lower)) as (H1 & H2 & _); [reflexivity|reflexivity|].
  split; [exact H1|exact H2].
Defined.
