(* ===== verification/Drive.v ===== *)
(** * Drive

    The WinFsp callbacks over the encrypted store
    (crates/dlp-windows-drive/src/filesystem.rs, status.rs).  A callback runs on
    the store, its world and the queue of change notifications; an out-parameter
    is an argument and a result.  The mutexes of the code are held for whole
    operations and are poisoned only by a panic, so a lock is modelled as taken. *)

From S2P Require Import Prelude Bytes Text Effects Domain Crypto Format VPath Fs Store.
From S2P Require Import Namespace Wildmatch.

(** ** Status values *)

(** [n as i32] of a [u32]. *)
Definition as_i32 (n : N) : Z :=
  let z := Z.of_N (n mod 2 ^ 32) in if (z <? 2 ^ 31)%Z then z else (z - 2 ^ 32)%Z.

Definition STATUS_INTEGRITY_FAILURE : Z := as_i32 0xC000003E.
Definition STATUS_DISK_FULL : Z := as_i32 0xC000007F.
Definition STATUS_OBJECT_NAME_INVALID : Z := as_i32 0xC0000033.
Definition STATUS_OBJECT_NAME_NOT_FOUND : Z := as_i32 0xC0000034.
Definition STATUS_OBJECT_NAME_COLLISION : Z := as_i32 0xC0000035.
Definition STATUS_SHARING_VIOLATION : Z := as_i32 0xC0000043.
Definition STATUS_DELETE_PENDING : Z := as_i32 0xC0000056.
Definition STATUS_IO_DEVICE_ERROR : Z := as_i32 0xC0000185.
Definition STATUS_NOT_SUPPORTED : Z := as_i32 0xC0000010.

Definition FILE_NOTIFY_CHANGE_FILE_NAME : N := 0x1.
Definition FILE_NOTIFY_CHANGE_DIR_NAME : N := 0x2.
Definition FILE_NOTIFY_CHANGE_SIZE : N := 0x8.
Definition FILE_NOTIFY_CHANGE_LAST_WRITE : N := 0x10.
Definition FILE_ACTION_ADDED : N := 0x1.
Definition FILE_ACTION_REMOVED : N := 0x2.
Definition FILE_ACTION_MODIFIED : N := 0x3.
Definition FILE_ACTION_RENAMED_OLD_NAME : N := 0x4.
Definition FILE_ACTION_RENAMED_NEW_NAME : N := 0x5.

Definition to_ntstatus (error : StorageError) : Z :=
  match error with
  | IntegrityFailure | RecoveryRequired => STATUS_INTEGRITY_FAILURE
  | NoSpace => STATUS_DISK_FULL
  | NotFound => STATUS_OBJECT_NAME_NOT_FOUND
  | AlreadyExists => STATUS_OBJECT_NAME_COLLISION
  | SharingViolation => STATUS_SHARING_VIOLATION
  | DeletePending => STATUS_DELETE_PENDING
  | FlushNotDurable | CloseNotDurable | Unavailable | IoFailure => STATUS_IO_DEVICE_ERROR
  end.

Definition path_to_ntstatus (_ : PathError) : Z := STATUS_OBJECT_NAME_INVALID.

(** ** What WinFsp provides *)

(** The parts of the [winfsp] and [widestring] crates the callbacks call: the
    lossy conversion of a wide name to a [String], the limit on the names a
    notification or a directory entry can carry with the error for a longer one,
    and whether a further entry fits a directory buffer that already holds some. *)
Class WinFsp := {
  to_string_lossy : list N -> bytes;
  name_fits : bytes -> bool;
  name_error : Z;
  entry_fits : N -> list bytes -> bytes -> bool;
}.

Record FileInfo := mkFileInfo {
  fi_attributes : N;
  fi_file_size : N;
  fi_allocation_size : N;
  fi_times : EntryMetadata;
}.

Definition ATTRIBUTE_DIRECTORY : N := 0x10.
Definition ATTRIBUTE_NORMAL : N := 0x80.

Definition set_attributes (a : N) (i : FileInfo) : FileInfo :=
  mkFileInfo a (fi_file_size i) (fi_allocation_size i) (fi_times i).
Definition set_sizes (n : N) (i : FileInfo) : FileInfo :=
  mkFileInfo (fi_attributes i) n n (fi_times i).
Definition fill_file_info (m : EntryMetadata) (i : FileInfo) : FileInfo :=
  mkFileInfo (fi_attributes i) (fi_file_size i) (fi_allocation_size i) m.

Record NotifyInfo := mkNotify {
  ni_action : N;
  ni_filter : N;
  ni_name : bytes;
}.

(** ** State *)

(** [DlpFileHandle]; its two mutable fields are changed by the callbacks that
    return a new value of it. *)
Record DlpFileHandle := mkHandle {
  fh_path : VirtualPath;
  fh_handle : option N;
  fh_directory : bool;
  fh_delete_requested : bool;
}.

Definition file_context (path : VirtualPath) (handle : N) : DlpFileHandle :=
  mkHandle path (Some handle) false false.
Definition directory_context (path : VirtualPath) : DlpFileHandle :=
  mkHandle path None true false.
Definition replace_path (p : VirtualPath) (c : DlpFileHandle) : DlpFileHandle :=
  mkHandle p (fh_handle c) (fh_directory c) (fh_delete_requested c).
Definition set_delete_requested (b : bool) (c : DlpFileHandle) : DlpFileHandle :=
  mkHandle (fh_path c) (fh_handle c) (fh_directory c) b.

(** The mutable part of [DlpFileSystemContext] and the world. *)
Record Dr := mkDr {
  dr_st : St;
  dr_notifications : list NotifyInfo;
}.

Notation drive_m := (M Dr Z).

#[export] Instance CapturedStoreIdentity_eq_dec : EqDecision CapturedStoreIdentity.
Proof. solve_decision. Defined.

(** [DlpFileSystemContext::new]. *)
Definition new_context (identity : CapturedStoreIdentity) (s : St) : result Z Dr :=
  if bool_decide (st_identity (s_store s) = identity) then Ok (mkDr s [])
  else Err STATUS_OBJECT_NAME_INVALID.

(** [self.store.lock()?.m(..).map_err(Self::storage_error)?]. *)
Definition store_call {A} (m : store_m A) : drive_m A := fun d =>
  let '(r, s) := m (dr_st d) in (map_err to_ntstatus r, mkDr s (dr_notifications d)).

Definition store_of (d : Dr) : LocalEncryptedStore := s_store (dr_st d).

(** [context.handle.ok_or(STATUS_OBJECT_NAME_INVALID)]. *)
Definition require_handle (c : DlpFileHandle) : drive_m N :=
  lift (ok_or STATUS_OBJECT_NAME_INVALID (fh_handle c)).

Section Callbacks.
Context `{Aead} `{Sha256} `{CharLower} `{WinFsp}.

(** [name.trim_start_matches(['\\', '/'])]. *)
Fixpoint trim_start_separators (s : bytes) : bytes :=
  match s with
  | b :: s' => if is_separator b then trim_start_separators s' else s
  | [] => []
  end.

Definition virtual_path (file_name : list N) : result Z (option VirtualPath) :=
  let normalized := trim_start_separators (to_string_lossy file_name) in
  if bool_decide (normalized = []) then Ok None
  else map_err path_to_ntstatus (Some <$> parse normalized).

Definition notify_path (path : VirtualPath) (action filter : N) : drive_m unit :=
  let name := display_path path in
  if bool_decide (name = []) then mret tt
  else if name_fits name
  then modify (fun d => mkDr (dr_st d) (dr_notifications d ++ [mkNotify action filter name]))
  else mret tt.

Definition file_info_for (path : VirtualPath) (info : FileInfo) : drive_m FileInfo :=
  metadata ← store_call (entry_metadata path);
  t ← gets store_of;
  if is_directory t path then mret (fill_file_info metadata (set_attributes ATTRIBUTE_DIRECTORY info))
  else
    b ← store_call (read_path path);
    mret (fill_file_info metadata (set_attributes ATTRIBUTE_NORMAL (set_sizes (len b) info))).

Definition file_info_for_handle (c : DlpFileHandle) (info : FileInfo) : drive_m FileInfo :=
  metadata ← store_call (entry_metadata (fh_path c));
  if fh_directory c then mret (fill_file_info metadata (set_attributes ATTRIBUTE_DIRECTORY info))
  else
    handle ← require_handle c;
    b ← store_call (read_handle handle);
    mret (fill_file_info metadata (set_attributes ATTRIBUTE_NORMAL (set_sizes (len b) info))).

Definition is_directory_create (create_options : N) : bool := negb (N.land create_options 0x1 =? 0).

(** ** Callbacks *)

Definition get_security_by_name (file_name : list N) : drive_m N :=
  path ← lift (virtual_path file_name);
  match path with
  | None => mret ATTRIBUTE_DIRECTORY
  | Some path =>
      t ← gets store_of;
      mret (if is_directory t path then ATTRIBUTE_DIRECTORY else ATTRIBUTE_NORMAL)
  end.

Definition drive_open (file_name : list N) (info : FileInfo) : drive_m (DlpFileHandle * FileInfo) :=
  path ← lift (virtual_path file_name);
  let path := default root path in
  if bool_decide (lookup_key path = [])
  then mret (directory_context path, set_attributes ATTRIBUTE_DIRECTORY info)
  else
    t ← gets store_of;
    if is_directory t path
    then mret (directory_context path, set_attributes ATTRIBUTE_DIRECTORY info)
    else
      handle ← store_call (create_or_open path false true);
      info ← file_info_for path info;
      mret (file_context path handle, info).

(** [close] and [cleanup] return nothing; a failure inside is dropped. *)
Definition drive_close (c : DlpFileHandle) : drive_m unit :=
  match fh_handle c with
  | None => mret tt
  | Some handle => _ ← try (store_call (close_handle handle)); mret tt
  end.

Definition cleanup (c : DlpFileHandle) : drive_m unit :=
  if fh_delete_requested c then
    r ← try (store_call (delete_path (fh_path c)));
    if is_ok r then notify_path (fh_path c) FILE_ACTION_REMOVED FILE_NOTIFY_CHANGE_FILE_NAME
    else mret tt
  else mret tt.

Definition drive_create (file_name : list N) (create_options file_attributes : N)
    (extra_buffer_is_reparse_point : bool) (info : FileInfo) :
    drive_m (DlpFileHandle * FileInfo) :=
  if extra_buffer_is_reparse_point then throw STATUS_OBJECT_NAME_INVALID
  else
    path ← lift (virtual_path file_name);
    path ← lift (ok_or STATUS_OBJECT_NAME_INVALID path);
    if is_directory_create create_options || negb (N.land file_attributes 0x10 =? 0) then
      _ ← store_call (create_directory path);
      _ ← notify_path path FILE_ACTION_ADDED FILE_NOTIFY_CHANGE_DIR_NAME;
      mret (directory_context path, set_attributes ATTRIBUTE_DIRECTORY info)
    else
      handle ← store_call (create_or_open path true true);
      _ ← notify_path path FILE_ACTION_ADDED FILE_NOTIFY_CHANGE_FILE_NAME;
      mret (file_context path handle, set_attributes ATTRIBUTE_NORMAL info).

(** The size of the open file, as the callbacks report it. *)
Definition handle_size (handle : N) (info : FileInfo) : drive_m FileInfo :=
  b ← store_call (read_handle handle);
  mret (set_sizes (len b) info).

Definition drive_flush (context : option DlpFileHandle) (info : FileInfo) : drive_m FileInfo :=
  match context with
  | None => mret info
  | Some c =>
      match fh_handle c with
      | None => mret (set_attributes ATTRIBUTE_DIRECTORY info)
      | Some handle =>
          _ ← store_call (flush_handle handle);
          info ← handle_size handle info;
          _ ← notify_path (fh_path c) FILE_ACTION_MODIFIED FILE_NOTIFY_CHANGE_LAST_WRITE;
          mret info
      end
  end.

Definition drive_overwrite (c : DlpFileHandle) (allocation_size : N) (info : FileInfo) :
    drive_m FileInfo :=
  handle ← require_handle c;
  _ ← store_call (truncate_handle handle allocation_size);
  _ ← store_call (flush_handle handle);
  info ← file_info_for_handle c info;
  _ ← notify_path (fh_path c) FILE_ACTION_MODIFIED FILE_NOTIFY_CHANGE_LAST_WRITE;
  mret info.

Definition get_file_info : DlpFileHandle -> FileInfo -> drive_m FileInfo := file_info_for_handle.
Definition set_basic_info : DlpFileHandle -> FileInfo -> drive_m FileInfo := get_file_info.

Definition set_file_size (c : DlpFileHandle) (new_size : N) (info : FileInfo) : drive_m FileInfo :=
  handle ← require_handle c;
  _ ← store_call (truncate_handle handle new_size);
  _ ← store_call (flush_handle handle);
  _ ← notify_path (fh_path c) FILE_ACTION_MODIFIED
        (N.lor FILE_NOTIFY_CHANGE_SIZE FILE_NOTIFY_CHANGE_LAST_WRITE);
  mret (set_sizes new_size info).

Definition drive_rename (c : DlpFileHandle) (new_file_name : list N) (replace : bool) :
    drive_m DlpFileHandle :=
  let source := fh_path c in
  destination ← lift (virtual_path new_file_name);
  destination ← lift (ok_or STATUS_OBJECT_NAME_INVALID destination);
  _ ← store_call (rename source destination replace);
  _ ← notify_path source FILE_ACTION_RENAMED_OLD_NAME FILE_NOTIFY_CHANGE_FILE_NAME;
  _ ← notify_path destination FILE_ACTION_RENAMED_NEW_NAME FILE_NOTIFY_CHANGE_FILE_NAME;
  mret (replace_path destination c).

Definition set_delete (c : DlpFileHandle) (delete_file : bool) : drive_m DlpFileHandle :=
  _ ← (if delete_file then
         t ← gets store_of;
         lift (map_err to_ntstatus (ensure_delete_allowed t (fh_path c)))
       else mret tt);
  mret (set_delete_requested delete_file c).

(** The [filter] of the entries of a listing: after the marker, and matching. *)
Definition selected_entry (pattern : bytes) (marker : option bytes) (entry : bytes) : bool :=
  match marker with
  | None => true
  | Some m => negb (bytes_leb (to_ascii_lowercase entry) (to_ascii_lowercase m))
  end && wild_matches pattern entry.

(** The loop over the entries: [appended] is what the buffer holds. *)
Fixpoint append_entries (capacity : N) (path : VirtualPath) (entries : list bytes)
    (appended : list bytes) : drive_m (list bytes) :=
  match entries with
  | [] => mret appended
  | entry :: rest =>
      _ ← ensure (name_fits entry) name_error;
      let child_path := if bool_decide (lookup_key path = []) then entry
                        else display_path path ++ lit "\" ++ entry in
      child ← lift (map_err path_to_ntstatus (parse child_path));
      _ ← file_info_for child (mkFileInfo 0 0 0 (mkMetadata 0 0 0 0));
      if entry_fits capacity appended entry
      then append_entries capacity path rest (appended ++ [entry])
      else mret appended
  end.

Definition drive_read_directory (c : DlpFileHandle) (pattern marker : option (list N))
    (capacity : N) : drive_m (list bytes) :=
  if negb (fh_directory c) then throw STATUS_NOT_SUPPORTED
  else
    let pattern := default (lit "*") (to_string_lossy <$> pattern) in
    let marker := to_string_lossy <$> marker in
    t ← gets store_of;
    entries ← lift (map_err to_ntstatus (read_directory t (fh_path c)));
    append_entries capacity (fh_path c)
      (List.filter (selected_entry pattern marker) entries) [].

(** The bytes copied to the buffer of [capacity] bytes. *)
Definition drive_read (c : DlpFileHandle) (capacity offset : N) : drive_m bytes :=
  handle ← require_handle c;
  b ← store_call (read_handle handle);
  let copied := fst (split_at capacity (snd (split_at offset b))) in
  _ ← ensure (len copied <=? u32_max) STATUS_IO_DEVICE_ERROR;
  mret copied.

Definition drive_write (c : DlpFileHandle) (buffer : bytes) (offset : N) (write_to_eof : bool)
    (info : FileInfo) : drive_m (N * FileInfo) :=
  handle ← require_handle c;
  offset ← (if write_to_eof then b ← store_call (read_handle handle); mret (len b)
            else mret offset);
  _ ← lift (ok_or STATUS_OBJECT_NAME_INVALID (checked_add64 offset (len buffer)));
  _ ← store_call (write_handle handle offset buffer);
  _ ← store_call (flush_handle handle);
  info ← handle_size handle info;
  _ ← notify_path (fh_path c) FILE_ACTION_MODIFIED FILE_NOTIFY_CHANGE_LAST_WRITE;
  _ ← ensure (len buffer <=? u32_max) STATUS_IO_DEVICE_ERROR;
  mret (len buffer, info).

(** [should_notify]: the queue is taken. *)
Definition should_notify (d : Dr) : option (list NotifyInfo) * Dr :=
  match dr_notifications d with
  | [] => (None, d)
  | l => (Some l, mkDr (dr_st d) [])
  end.
End Callbacks.

(** ** The host process *)

Definition BOOTSTRAP_PROTOCOL_VERSION : N := 1.

Record HostArgs := mkHostArgs {
  ha_pipe_name : bytes;
  ha_session_id : N;
  ha_generation : N;
}.

(** The [while let Some(arg) = iter.next()] loop of [parse_args]: an option
    consumes the next argument, a later occurrence replaces an earlier one. *)
Fixpoint parse_args_loop (args : list bytes) (pipe : option bytes) (session generation : option N) :
    option bytes * option N * option N :=
  match args with
  | [] => (pipe, session, generation)
  | arg :: args' =>
      if bool_decide (arg = lit "--pipe-name") then
        match args' with
        | [] => (None, session, generation)
        | v :: args'' => parse_args_loop args'' (Some v) session generation
        end
      else if bool_decide (arg = lit "--session-id") then
        match args' with
        | [] => (pipe, None, generation)
        | v :: args'' => parse_args_loop args'' pipe (parse_uint u32_max v) generation
        end
      else if bool_decide (arg = lit "--generation") then
        match args' with
        | [] => (pipe, session, None)
        | v :: args'' => parse_args_loop args'' pipe session (parse_uint u64_max v)
        end
      else parse_args_loop args' pipe session generation
  end.

Definition parse_args (args : list bytes) : option HostArgs :=
  '(pipe, session, generation) ← Some (parse_args_loop args None None None);
  pipe ← pipe;
  session ← session;
  generation ← generation;
  Some (mkHostArgs pipe session generation).

(** [HostBootstrap], with the root as a path and the letter as a code point. *)
Record HostBootstrap := mkBootstrap {
  hb_version : N;
  hb_session_id : N;
  hb_generation : N;
  hb_user_sid : bytes;
  hb_store_id : bytes;
  hb_store_root : fspath;
  hb_preferred_letter : N;
  hb_store_key : bytes;
}.

(** The checks of [main] on the bootstrap; an error is the exit code. *)
Definition admit_bootstrap (args : HostArgs) (b : HostBootstrap) :
    result N (CapturedStoreIdentity * bytes) :=
  if negb (hb_version b =? BOOTSTRAP_PROTOCOL_VERSION) then Err 2
  else if negb (hb_session_id b =? ha_session_id args)
          || negb (hb_generation b =? ha_generation args) then Err 2
  else
    user_sid ← map_err (fun _ => 2) (UserSid_parse (hb_user_sid b));
    store_id ← map_err (fun _ => 2) (StoreId_parse (hb_store_id b));
    if negb (len (hb_store_key b) =? 32) then Err 2
    else if forallb (fun c => Byte.eqb c x00) (hb_store_key b) then Err 2
    else Ok (mkIdentity user_sid store_id, hb_store_key b).

(** ['C'..='Z']. *)
Definition all_letters : list N := map N.of_nat (seq 67 24).

(** [position(..).unwrap_or(0)]. *)
Definition letter_position (c : N) : nat :=
  match list_find (fun x => x = c) all_letters with Some (i, _) => i | None => 0%nat end.

(** [char::to_ascii_uppercase]. *)
Definition char_upper (c : N) : N := if (97 <=? c) && (c <=? 122) then c - 32 else c.

Definition drive_letter_candidates (preferred : N) : list N :=
  let start := letter_position (char_upper preferred) in
  map (fun offset => default 0 (all_letters !! ((start + offset) mod 24)%nat)) (seq 0 24).

(** [select_drive_letter]; [probe] is [try_exists] of the letter's root. *)
Definition select_drive_letter (probe : N -> option bool) (preferred : N) : option N :=
  snd <$> list_find (fun l => probe l = Some false) (drive_letter_candidates preferred).

Section Host.
Context `{Aead} `{Sha256}.

(** [main] from the bootstrap to the mount; an error is the exit code. *)
Definition host_start (args : HostArgs) (b : HostBootstrap) (probe : N -> option bool) (w : World) :
    result N (Dr * N) * World :=
  match admit_bootstrap args b with
  | Err code => (Err code, w)
  | Ok (identity, key) =>
      match open (hb_store_root b) identity key w with
      | (Err _, w') => (Err 4, w')
      | (Ok t, w') =>
          match new_context identity (mkSt t w') with
          | Err _ => (Err 5, w')
          | Ok d =>
              match select_drive_letter probe (hb_preferred_letter b) with
              | None => (Err 8, w')
              | Some letter => (Ok (d, letter), w')
              end
          end
      end
  end.
End Host.
