(* ===== verification/DriveProps.v ===== *)
(** * DriveProps

    Proofs about the WinFsp callbacks: a write that succeeds is on disk and reads
    back, pages of a listing fit together, the host admits only a consistent
    bootstrap, and what the callbacks do at the edges. *)

From S2P Require Import Prelude Bytes Text Effects Domain Crypto Format VPath Fs Store.
From S2P Require Import Toy Durability Namespace NamespaceInv NamespacePersist NamespaceOps Wildmatch Drive.

(** ** What an operation does to the disk *)

(** Every run of [m] from [s] touches only [W]. *)
Definition touches_from {A} (W : fspath -> Prop) (m : store_m A) (s : St) : Prop :=
  touches W (s_world s) (s_world (snd (m s))).

Section Touches.
Context (W : fspath -> Prop).

Lemma from_bind {A B} (m : store_m A) (k : A -> store_m B) s :
  touches_from W m s -> (forall a s', m s = (Ok a, s') -> touches_from W (k a) s') ->
  touches_from W (m ≫= k) s.
Proof.
  unfold touches_from, mbind, M_bind. intros Hm Hk. destruct (m s) as [[a|e] s1] eqn:E; [|done].
  eapply touches_trans; [exact Hm|]. by apply Hk.
Qed.

Lemma from_same {A} (m : store_m A) s : s_world (snd (m s)) = s_world s -> touches_from W m s.
Proof. unfold touches_from. intros ->. apply touches_refl. Qed.

Lemma from_within {A} b (m : store_m A) s : within b W m -> base (s_store s) = b -> touches_from W m s.
Proof. intros Hm Hb. apply (Hm s Hb). Qed.
End Touches.

(** Directly inside the store's directory. *)
Definition in_store_dir (t : LocalEncryptedStore) (q : fspath) : Prop := exists n, q = store_dir t ++ [n].

Section Persist.
Context `{HA : Aead} `{HS : Sha256}.

Lemma persist_touches s :
  touches (in_store_dir (s_store s)) (s_world s) (s_world (snd (persist_namespace s))).
Proof.
  set (W := in_store_dir (s_store s)). set (b := base (s_store s)).
  assert (forall n, W (store_dir (s_store s) ++ [n])) as HW by (intros n; by exists n).
  fold (touches_from W persist_namespace s). unfold persist_namespace.
  apply from_bind; [by apply from_same|]. intros t s1 [= <- <-].
  apply from_bind; [by apply from_same|]. intros g s1 Hl. injection Hl as _ <-.
  apply from_bind; [by apply (from_within W b); [apply within_draw|]|]. intros n s1 Hn.
  assert (base (s_store s1) = b) as Hb1 by (by injection Hn as _ <-).
  apply from_bind; [by apply from_same|]. intros [r ns] s2 Hl. injection Hl as _ <-.
  assert (within b W (write_record (namespace_tmp_path (s_store s) g) r)) as Hwr
    by apply within_write_record, HW.
  apply from_bind; [by apply (from_within W b)|]. intros [] s2 H2.
  assert (base (s_store s2) = b) as Hb2.
  { specialize (Hwr s1 Hb1). rewrite H2 in Hwr. by rewrite <- Hb1, <- (sr_base _ _ _ Hwr). }
  assert (within b W (lift_io (fs_rename (namespace_tmp_path (s_store s) g)
    (namespace_path (s_store s))))) as Hrn.
  { eapply within_io; [apply fs_rename_within|]. intros q [-> | ->]; apply HW. }
  apply from_bind; [by apply (from_within W b)|]. intros [] s3 H3.
  assert (base (s_store s3) = b) as Hb3.
  { specialize (Hrn s2 Hb2). rewrite H3 in Hrn. by rewrite <- Hb2, <- (sr_base _ _ _ Hrn). }
  apply from_bind; [apply (from_within W b); [apply within_marker, HW|done]|]. intros [] s4 _.
  by apply from_same.
Qed.

Lemma persist_bare s : bare (s_store (snd (persist_namespace s))) = bare (s_store s).
Proof.
  assert (keeps (fun s => bare (s_store s)) persist_namespace) as Hk; [|apply Hk].
  unfold persist_namespace. apply keeps_bind; [apply keeps_gets|intros t].
  apply keeps_bind; [apply keeps_lift|intros g]. apply keeps_bind; [done|intros n].
  apply keeps_bind; [apply keeps_lift|intros [r ns]].
  apply keeps_bind; [apply (keeps_write_record bare)|intros _].
  apply keeps_bind; [apply (keeps_io bare)|intros _].
  apply keeps_bind; [apply (keeps_marker bare)|intros _]. done.
Qed.

Lemma pointer_reads_bare t t' d p file g data :
  bare t = bare t' -> pointer_reads t d p file g data -> pointer_reads t' d p file g data.
Proof.
  intros E [Hc Hr]. split.
  - rewrite <- Hc. change (commit_generation t') with (commit_generation (bare t')).
    by rewrite <- E.
  - by rewrite (read_from_pointer_bare t'), <- E, <- read_from_pointer_bare.
Qed.

(** Persisting the namespace does not disturb the files. *)
Lemma persist_keeps_pointer s file g data :
  pointer_reads (s_store s) (s_disk s) (selected_path (s_store s) file) file g data ->
  let s' := snd (persist_namespace s) in
  pointer_reads (s_store s') (s_disk s') (selected_path (s_store s') file) file g data.
Proof.
  intros Hp s'. pose proof (persist_bare s) as Hb. fold s' in Hb.
  apply (pointer_reads_bare (s_store s)); [done|].
  change (selected_path (s_store s')) with (selected_path (bare (s_store s'))). rewrite Hb.
  pose proof (to_agree _ _ _ (persist_touches s)) as Hag.
  assert (forall x y l, ~ in_store_dir (s_store s) (store_dir (s_store s) ++ x :: y :: l)) as Hn.
  { intros x y l [n E]. apply app_inv_head in E. done. }
  eapply pointer_reads_move; [|exact Hag| |exact Hp].
  - apply (read_record_agree _ _ _ _ Hag). unfold selected_path, file_dir.
    rewrite <- app_assoc. apply Hn.
  - intros n. unfold generation_dir, file_dir. rewrite <- !app_assoc. apply Hn.
Qed.
End Persist.

(** ** Writing through a handle *)

(** [old] with [b] written at [offset], grown with zeroes as needed. *)
Definition patched (offset : N) (b old : bytes) : bytes :=
  overwrite offset b
    (if len old <? offset + len b then resize (offset + len b) old else old).

(** What a handle refers to is a matter of the names. *)
Lemma handle_file_names t t' h : names t = names t' -> handle_file t h = handle_file t' h.
Proof. intros [= _ E1 E2]. unfold handle_file. by rewrite E1, E2. Qed.

Section WriteHandle.
Context `{HA : Aead, !AeadLaws HA} `{HS : Sha256}.

(** The content a write starts from: what is staged, else what can be read. *)
Definition current (s : St) (file : bytes) : bytes :=
  default (unwrap_or (read (s_store s) (s_disk s) file) []) (st_staged (s_store s) !! file).

Lemma touch_file_run key f s r s' :
  (forall now e, fe_file_id (f now e) = fe_file_id e) -> touch_file key f s = (r, s') ->
  r = Ok tt /\ bare (s_store s') = bare (s_store s) /\ s_disk s' = s_disk s /\
  st_staged (s_store s') = st_staged (s_store s) /\
  w_rng (s_world s') = w_rng (s_world s) /\
  w_next_generation (s_world s') = w_next_generation (s_world s) /\
  (forall h, handle_file (s_store s') h = handle_file (s_store s) h).
Proof.
  intros Hf H. unfold touch_file, mbind, M_bind, gets in H.
  destruct (st_files (s_store s) !! key) as [e|] eqn:E; injection H as <- <-; [|done].
  do 6 (split; [done|]). intros h. unfold handle_file. cbn [s_store set_files st_handles st_files].
  destruct (st_handles (s_store s) !! h) as [st|]; [|done]. cbn [ok_or mbind result_bind].
  destruct (decide (key = hs_path_key st)) as [->|Hne].
  - rewrite lookup_insert_eq, E. simpl. by rewrite Hf.
  - by rewrite lookup_insert_ne.
Qed.

Lemma healthy_same s s' file :
  bare (s_store s') = bare (s_store s) -> s_disk s' = s_disk s ->
  w_rng (s_world s') = w_rng (s_world s) ->
  w_next_generation (s_world s') = w_next_generation (s_world s) ->
  healthy s file -> healthy s' file.
Proof.
  unfold healthy, store_wire_id. intros [= _ E _] Hd Hr Hg (H1 & H2 & H3 & H4 & H5).
  rewrite E, Hd, Hr, Hg. done.
Qed.

Lemma write_at_run file off b s s' :
  write_at file off b s = (Ok tt, s') ->
  s' = mkSt (set_staged (<[file := patched off b (current s file)]>
                (<[file := current s file]> (st_staged (s_store s)))) (s_store s)) (s_world s).
Proof.
  unfold write_at. intros H. rewrite (bind_step _ _ _ _ _ (eq_refl : gets (fun s => s) s = _)) in H.
  cbv beta zeta in H. fold (current s file) in H. revert H. generalize (current s file). intros old H.
  apply bind_Ok in H as ([] & s1 & Hw & H). apply pair_eq in Hw as [_ <-].
  apply bind_Ok in H as (e & s2 & Hl & H). apply pair_eq in Hl as [He <-].
  unfold checked_add64 in He. destruct (_ <=? u64_max); [|done]. apply Ok_inj in He as <-.
  apply pair_eq in H as [_ <-]. reflexivity.
Qed.

Lemma write_handle_run h off b s s' file :
  write_handle h off b s = (Ok tt, s') -> handle_file (s_store s) h = Ok file -> healthy s file ->
  st_staged (s_store s') !! file = Some (patched off b (current s file)) /\
  healthy s' file /\ handle_file (s_store s') h = Ok file /\
  bare (s_store s') = bare (s_store s) /\ s_disk s' = s_disk s.
Proof.
  unfold write_handle. intros H Hf Hh. apply bind_Ok in H as (t & s1 & [= <- <-] & H).
  rewrite Hf in H. apply bind_Ok in H as (f & s1 & [= <- <-] & H).
  apply bind_Ok in H as ([] & s1 & Hw & H). apply write_at_run in Hw as ->.
  apply bind_Ok in H as (t & s2 & [= <- <-] & H). apply bind_Ok in H as (key & s2 & Hl & H).
  injection Hl as _ <-. apply touch_file_run in H as (_ & Hb & Hd & Hst & Hr & Hg & Hhf); [|done].
  split; [rewrite Hst; apply lookup_insert_eq|].
  split; [eapply healthy_same; [exact Hb|exact Hd|exact Hr|exact Hg|exact Hh]|].
  split; [rewrite Hhf; exact Hf|]. by rewrite Hb, Hd.
Qed.

Lemma flush_handle_pointer h s s' file data :
  flush_handle h s = (Ok tt, s') -> handle_file (s_store s) h = Ok file -> healthy s file ->
  st_staged (s_store s) !! file = Some data -> len data <= u64_max ->
  pointer_reads (s_store s') (s_disk s') (selected_path (s_store s') file) file
    (w_next_generation (s_world s)) data /\
  handle_file (s_store s') h = Ok file /\ bare (s_store s') = bare (s_store s).
Proof.
  unfold flush_handle. intros H Hf Hh Hst Hl. apply bind_Ok in H as (t & s1 & [= <- <-] & H).
  rewrite Hf in H. apply bind_Ok in H as (f & s1 & [= <- <-] & H).
  rewrite bool_decide_eq_true_2 in H by (by rewrite Hst).
  apply bind_Ok in H as ([] & s2 & H2 & H). apply bind_Ok in H2 as (out & s1 & Hfl & H2).
  pose proof (flush_pointer_reads _ _ _ _ _ Hh Hst Hl Hfl) as Hp.
  pose proof (keeps_bare_flush _ _ _ _ Hfl) as Hb1.
  pose proof (keeps_run s_names _ _ _ _ (keeps_names_flush file) Hfl) as Hn1.
  apply bind_Ok in H2 as (t & s3 & [= <- <-] & H2). apply bind_Ok in H2 as (key & s3 & Hk & H2).
  injection Hk as _ <-. apply touch_file_run in H2 as (_ & Hb2 & Hd2 & _ & _ & _ & Hhf); [|done].
  assert (bare (base (s_store s)) = bare (s_store s2)) as Hb by (rewrite bare_base; congruence).
  apply (pointer_reads_bare _ (s_store s2)) in Hp; [|exact Hb]. rewrite <- Hd2 in Hp.
  change (selected_path (s_store s)) with (selected_path (bare (s_store s))) in Hp.
  rewrite <- bare_base, Hb in Hp.
  apply persist_keeps_pointer in Hp. pose proof (persist_bare s2) as Hb3. rewrite H in Hp, Hb3.
  split; [exact Hp|]. split; [|cbn in Hb3; congruence].
  rewrite (handle_file_names _ (s_store s2)).
  - rewrite Hhf. rewrite (handle_file_names _ (s_store s)); [exact Hf|exact Hn1].
  - exact (keeps_run s_names _ _ _ _ keeps_persist H).
Qed.

Lemma flush_handle_run h s s' file data :
  flush_handle h s = (Ok tt, s') -> handle_file (s_store s) h = Ok file -> healthy s file ->
  st_staged (s_store s) !! file = Some data -> len data <= u64_max ->
  read (s_store s') (s_disk s') file = Ok data /\ handle_file (s_store s') h = Ok file.
Proof.
  intros H Hf Hh Hst Hl. by destruct (flush_handle_pointer h s s' file data H Hf Hh Hst Hl) as ([_ Hr] & Hf' & _).
Qed.
End WriteHandle.

(** ** The write callback *)

Lemma split_at_exact {A} n (l : list A) : n <= len l -> len (fst (split_at n l)) = n.
Proof. intros Hn. rewrite split_at_spec. unfold len in *. simpl. rewrite length_take. lia. Qed.

Lemma resize_len n (b : bytes) : len (resize n b) = n.
Proof.
  unfold resize. destruct (N.leb_spec n (len b)) as [Hn|Hn]; [by apply split_at_exact|].
  rewrite len_app. unfold len in *. rewrite length_replicate. lia.
Qed.

(** What was written is found where it was written. *)
Lemma patched_slice off (b old : bytes) :
  fst (split_at (len b) (snd (split_at off (patched off b old)))) = b.
Proof.
  unfold patched, overwrite. match goal with |- context [if ?c then ?x else ?y] => set (entry := if c then x else y) end.
  assert (off <= len entry) as Hl.
  { subst entry. destruct (N.ltb_spec (len old) (off + len b)); [rewrite resize_len|]; lia. }
  rewrite <- (split_at_exact off entry Hl) at 1. rewrite split_at_app. simpl. by rewrite split_at_app.
Qed.

Lemma patched_len off (b old : bytes) : len (patched off b old) = N.max (len old) (off + len b).
Proof.
  unfold patched, overwrite. match goal with |- context [if ?c then ?x else ?y] => set (entry := if c then x else y) end.
  assert (off + len b <= len entry /\ len entry = N.max (len old) (off + len b)) as [Hl He].
  { subst entry. destruct (N.ltb_spec (len old) (off + len b)); [rewrite resize_len|]; lia. }
  rewrite !len_app, split_at_exact, <- He by lia. rewrite split_at_spec.
  unfold len in *. simpl. rewrite length_drop. lia.
Qed.

Section Callbacks.
Context `{HA : Aead, !AeadLaws HA} `{HS : Sha256} `{HL : CharLower} `{HW : WinFsp}.

Lemma store_call_Ok {A} (m : store_m A) d a d' :
  store_call m d = (Ok a, d') ->
  m (dr_st d) = (Ok a, dr_st d') /\ dr_notifications d' = dr_notifications d.
Proof.
  unfold store_call. destruct (m (dr_st d)) as [[x|e] s]; [|done].
  intros H. apply pair_eq in H as [H <-]. by apply Ok_inj in H as <-.
Qed.

Lemma notify_path_run p a f d : exists d', notify_path p a f d = (Ok tt, d') /\ dr_st d' = dr_st d.
Proof. unfold notify_path. case_match; [by exists d|]. case_match; by eexists. Qed.

Lemma read_handle_run h s b s' :
  read_handle h s = (Ok b, s') ->
  exists file, handle_file (s_store s) h = Ok file /\ read (s_store s) (s_disk s) file = Ok b /\
    bare (s_store s') = bare (s_store s) /\ s_disk s' = s_disk s /\
    st_staged (s_store s') = st_staged (s_store s) /\
    w_rng (s_world s') = w_rng (s_world s) /\
    w_next_generation (s_world s') = w_next_generation (s_world s) /\
    (forall h, handle_file (s_store s') h = handle_file (s_store s) h).
Proof.
  unfold read_handle. intros H. apply bind_Ok in H as (s0 & s1 & [= <- <-] & H).
  apply bind_Ok in H as (file & s1 & Hl & H). apply pair_eq in Hl as [Hf <-].
  apply bind_Ok in H as (data & s1 & Hl & H). apply pair_eq in Hl as [Hr <-].
  apply bind_Ok in H as (key & s1 & Hl & H). apply pair_eq in Hl as [_ <-].
  apply bind_Ok in H as ([] & s1 & Ht & H). apply pair_eq in H as [Hd <-]. apply Ok_inj in Hd as <-.
  apply touch_file_run in Ht as (_ & Ht); [|done]. by exists file.
Qed.

Lemma handle_size_run h info d info' d' :
  handle_size h info d = (Ok info', d') ->
  exists b, read_handle h (dr_st d) = (Ok b, dr_st d') /\ info' = set_sizes (len b) info.
Proof.
  unfold handle_size. intros H. apply bind_Ok in H as (b & d1 & Hc & H).
  apply store_call_Ok in Hc as [Hc _]. apply pair_eq in H as [H <-]. apply Ok_inj in H as <-.
  by exists b.
Qed.

Lemma read_handle_ok h s file data :
  handle_file (s_store s) h = Ok file -> read (s_store s) (s_disk s) file = Ok data ->
  exists s', read_handle h s = (Ok data, s').
Proof.
  intros Hf Hr. unfold read_handle. rewrite (bind_step _ _ _ _ _ (eq_refl : gets (fun s => s) s = _)).
  rewrite Hf. rewrite (bind_step _ _ _ _ _ (eq_refl : lift (Ok file) s = _)).
  rewrite Hr. rewrite (bind_step _ _ _ _ _ (eq_refl : lift (Ok data) s = _)).
  unfold handle_file, handle_path_key in *. destruct (st_handles (s_store s) !! h) as [st|]; [|done].
  cbn [ok_or mbind result_bind].
  rewrite (bind_step _ _ _ _ _ (eq_refl : lift (Ok (hs_path_key st)) s = _)).
  destruct (touch_file (hs_path_key st) touch_accessed s) as [r s'] eqn:Ht.
  pose proof Ht as Hok. apply touch_file_run in Hok as (-> & _); [|done].
  rewrite (bind_step _ _ _ _ _ Ht). by exists s'.
Qed.

Lemma drive_read_ok c h file data capacity off d :
  fh_handle c = Some h -> handle_file (store_of d) h = Ok file ->
  read (store_of d) (s_disk (dr_st d)) file = Ok data ->
  len (fst (split_at capacity (snd (split_at off data)))) <= u32_max ->
  exists d', drive_read c capacity off d = (Ok (fst (split_at capacity (snd (split_at off data)))), d').
Proof.
  intros Hc Hf Hr Hl. unfold drive_read, require_handle. rewrite Hc.
  rewrite (bind_step _ _ _ _ _ (eq_refl : lift (ok_or _ (Some h)) d = _)).
  destruct (read_handle_ok h (dr_st d) file data Hf Hr) as [s' Hs].
  assert (store_call (read_handle h) d = (Ok data, mkDr s' (dr_notifications d))) as Hcall
    by (unfold store_call; by rewrite Hs).
  rewrite (bind_step _ _ _ _ _ Hcall). unfold ensure. rewrite (proj2 (N.leb_le _ _)) by done.
  by eexists.
Qed.

(** The offset a write goes to: the end of the stored content for an append. *)
Definition write_offset (eof : bool) (offset : N) (s : St) (file : bytes) : N :=
  if eof then len (unwrap_or (read (s_store s) (s_disk s) file) []) else offset.

Lemma write_offset_run (eof : bool) offset h d o d1 file :
  (if eof then b ← store_call (read_handle h); mret (len b) else mret offset) d = (Ok o, d1) ->
  handle_file (store_of d) h = Ok file -> healthy (dr_st d) file ->
  o = write_offset eof offset (dr_st d) file /\ healthy (dr_st d1) file /\
  handle_file (store_of d1) h = Ok file /\ current (dr_st d1) file = current (dr_st d) file.
Proof.
  intros H Hf Hh. destruct eof; [|apply pair_eq in H as [H <-]; by apply Ok_inj in H as <-].
  apply bind_Ok in H as (b & d2 & Hc & H). apply pair_eq in H as [H <-]. apply Ok_inj in H as <-.
  apply store_call_Ok in Hc as [Hc _].
  apply read_handle_run in Hc as (f & Hf' & Hr & Hb & Hd & Hst & Hrng & Hg & Hhf).
  unfold store_of in Hf. rewrite Hf in Hf'. apply Ok_inj in Hf' as <-.
  split; [unfold write_offset; by rewrite Hr|]. split; [by eapply healthy_same|].
  split; [unfold store_of; by rewrite Hhf|].
  unfold current. by rewrite (read_bare _ (s_store (dr_st d))), Hd, Hst.
Qed.

(** C34.  A write that the drive reports as done is on disk and reads back.  If
    the write callback returns success on an open file, the selected generation
    on disk reads as the previous content with the buffer at its place, zero
    filled up to it; the reported size is the size of that content; and a read
    callback at that offset returns the buffer. *)
Theorem drive_write_durable c h file buffer offset eof info d n info' d' :
  fh_handle c = Some h -> handle_file (store_of d) h = Ok file -> healthy (dr_st d) file ->
  let at_ := write_offset eof offset (dr_st d) file in
  let data := patched at_ buffer (current (dr_st d) file) in
  len data <= u64_max ->
  drive_write c buffer offset eof info d = (Ok (n, info'), d') ->
  n = len buffer /\ read (store_of d') (s_disk (dr_st d')) file = Ok data /\
  fi_file_size info' = len data /\
  exists d'', drive_read c (len buffer) at_ d' = (Ok buffer, d'').
Proof.
  intros Hc Hf Hh at_ data Hl H. unfold drive_write, require_handle in H. rewrite Hc in H.
  apply bind_Ok in H as (h' & d1 & E & H). apply pair_eq in E as [E <-]. apply Ok_inj in E as <-.
  apply bind_Ok in H as (o & d1 & Ho & H).
  apply (write_offset_run _ _ _ _ _ _ file) in Ho as (-> & Hh1 & Hf1 & Hcur); [|done..]. fold at_ in H.
  apply bind_Ok in H as (e & d2 & E & H). apply pair_eq in E as [_ <-].
  apply bind_Ok in H as ([] & d2 & Hw & H). apply store_call_Ok in Hw as [Hw _].
  apply (write_handle_run _ _ _ _ _ file) in Hw as (Hst2 & Hh2 & Hf2 & _); [|done..].
  rewrite Hcur in Hst2. fold data in Hst2.
  apply bind_Ok in H as ([] & d3 & Hfl & H). apply store_call_Ok in Hfl as [Hfl _].
  apply (flush_handle_run _ _ _ file data) in Hfl as [Hr3 Hf3]; [|done..].
  apply bind_Ok in H as (i4 & d4 & Hs & H). apply handle_size_run in Hs as (b & Hrd & ->).
  apply read_handle_run in Hrd as (f & Hf4 & Hr4 & Hb4 & Hd4 & _ & _ & _ & Hhf4).
  rewrite Hf3 in Hf4. apply Ok_inj in Hf4 as <-. rewrite Hr3 in Hr4. apply Ok_inj in Hr4 as <-.
  apply bind_Ok in H as ([] & d5 & Hn & H).
  destruct (notify_path_run (fh_path c) FILE_ACTION_MODIFIED FILE_NOTIFY_CHANGE_LAST_WRITE d4)
    as (d5' & Hn' & Hst5). rewrite Hn in Hn'. apply pair_eq in Hn' as [_ <-].
  apply bind_Ok in H as ([] & d6 & He & H). unfold ensure in He. case_match eqn:Hlen; [|done].
  apply pair_eq in He as [_ <-]. apply pair_eq in H as [H <-]. apply Ok_inj, pair_eq in H as [<- <-].
  assert (read (store_of d5) (s_disk (dr_st d5)) file = Ok data) as Hr5.
  { unfold store_of. rewrite Hst5, Hd4. rewrite (read_bare _ _ _ _ Hb4). exact Hr3. }
  split; [done|]. split; [done|]. split; [done|]. apply N.leb_le in Hlen.
  destruct (drive_read_ok c h file data (len buffer) at_ d5) as [d'' Hd'']; [done| |done| |].
  - unfold store_of. by rewrite Hst5, Hhf4.
  - unfold data. by rewrite patched_slice.
  - unfold data in Hd''. rewrite patched_slice in Hd''. by exists d''.
Qed.
End Callbacks.

(** ** On a concrete drive *)

Module Volume.
Import Scenario Names.

#[export] Instance ascii_winfsp : WinFsp := {|
  to_string_lossy := map byte_of;
  name_fits b := len b <=? 255;
  name_error := STATUS_IO_DEVICE_ERROR;
  entry_fits capacity appended _ := len appended <? capacity;
|}.
#[export] Existing Instance toy_lower.

(** A wide name of ASCII characters. *)
Definition wide (s : string) : list N := map Byte.to_N (lit s).

Definition no_info : FileInfo := mkFileInfo 0 0 0 (mkMetadata 0 0 0 0).
Definition fresh : Dr := mkDr start [].

(** The context a callback returned. *)
Definition context_of {A} (r : result Z (DlpFileHandle * A) * Dr) : DlpFileHandle :=
  match fst r with Ok (c, _) => c | Err _ => directory_context root end.

Definition create (name : string) (d : Dr) := drive_create (wide name) 0 ATTRIBUTE_NORMAL false no_info d.
Definition mkdir (name : string) (d : Dr) := drive_create (wide name) 1 0 false no_info d.
Definition listing (d : Dr) : result Z (list bytes) :=
  fst (drive_read_directory (directory_context root) None None 100 d).
End Volume.

Section Edges.
Import Scenario Names Volume.

(** A file that was created and not yet written has no generation on disk,
    and the callbacks that report its size read it: after [create] succeeds,
    [get_file_info] on the new handle and [open] by name fail with
    not-found, the failed [open] leaves a handle behind, and a listing of the
    directory fails altogether. *)
Theorem unwritten_file_blocks_directory :
  let r := create "a.txt" fresh in
  let d := snd r in
  is_ok (fst r) = true /\
  fst (get_file_info (context_of r) no_info d) = Err STATUS_OBJECT_NAME_NOT_FOUND /\
  fst (drive_open (wide "a.txt") no_info d) = Err STATUS_OBJECT_NAME_NOT_FOUND /\
  size (st_handles (store_of (snd (drive_open (wide "a.txt") no_info d)))) = 2%nat /\
  listing d = Err STATUS_OBJECT_NAME_NOT_FOUND.
Proof. vm_compute. repeat split. Qed.

(** [create] does not refuse a name that is taken: on an existing file it
    succeeds and returns a handle on that file, and on an existing directory it
    creates a file of the same name, so that the name stands for both. *)
Theorem create_ignores_collisions :
  let d := snd (create "a.txt" (snd (mkdir "docs" fresh))) in
  let again := create "A.TXT" d in
  let over := create "docs" d in
  (is_ok (fst again) = true /\
   size (st_files (store_of (snd again))) = size (st_files (store_of d))) /\
  (is_ok (fst over) = true /\ is_directory (store_of (snd over)) (path "docs") = true /\
   read_directory (store_of (snd over)) root = Ok [lit "a.txt"; lit "docs"; lit "docs"]).
Proof. vm_compute. repeat split. Qed.

(** A rename updates only the context it was made through.  After the parent
    directory of an open file is renamed, the file's handle still reads, but
    [get_file_info] on it fails with not-found; and a deletion requested on a
    handle removes at cleanup whatever then has the name the handle was opened
    with: here a second file that was moved to that name. *)
Theorem rename_leaves_stale_contexts :
  let docs := mkdir "docs" fresh in
  let file := create "docs\a.txt" (snd docs) in
  let d := snd (drive_write (context_of file) (lit "x") 0 false no_info (snd file)) in
  let d1 := snd (drive_rename (context_of docs) (wide "papers") false d) in
  (fst (drive_read (context_of file) 10 0 d1) = Ok (lit "x") /\
   fst (get_file_info (context_of file) no_info d1) = Err STATUS_OBJECT_NAME_NOT_FOUND) /\
  let other := create "b.txt" (snd (create "a.txt" fresh)) in
  let doomed := context_of (create "a.txt" fresh) in
  let marked := match fst (set_delete doomed true (snd other)) with Ok c => c | Err _ => doomed end in
  let moved := snd (rename (path "b.txt") (path "a.txt") false
                 (snd (rename (path "a.txt") (path "c.txt") false (dr_st (snd other))))) in
  let d2 := snd (drive_close (context_of other) (mkDr moved [])) in
  read_directory (store_of d2) root = Ok [lit "a.txt"; lit "c.txt"] /\
  read_directory (store_of (snd (cleanup marked d2))) root = Ok [lit "c.txt"].
Proof. vm_compute. repeat split. Qed.

(** The names after a file was created, on the empty disk. *)
Definition one_file : Dr := mkDr (mkSt (store_of (snd (create "a.txt" fresh))) world) [].
Definition one_context : DlpFileHandle := context_of (create "a.txt" fresh).
Definition one_id : bytes := lit "file-00000000000000000001".

Lemma drive_write_durable_witness :
  exists n info' d', drive_write one_context (lit "hello") 3 false no_info one_file = (Ok (n, info'), d') /\
    read (store_of d') (s_disk (dr_st d')) one_id =
      Ok (patched 3 (lit "hello") (current (dr_st one_file) one_id)) /\
    patched 3 (lit "hello") (current (dr_st one_file) one_id) = [x00; x00; x00] ++ lit "hello".
Proof.
  assert (is_ok (fst (drive_write one_context (lit "hello") 3 false no_info one_file)) = true) as Hok
    by (vm_compute; reflexivity).
  destruct (drive_write one_context (lit "hello") 3 false no_info one_file) as [[[n info']|] d'] eqn:E;
    [|discriminate Hok].
  exists n, info', d'. split; [reflexivity|]. split; [|vm_compute; reflexivity].
  refine (proj1 (proj2 (drive_write_durable one_context 1 one_id (lit "hello") 3 false no_info one_file
    n info' d' _ _ _ _ E))).
  - vm_compute. reflexivity.
  - vm_compute. reflexivity.
  - split; [vm_compute; reflexivity|]. split; [vm_compute; reflexivity|]. split; [reflexivity|].
    split; [intros i; exact (len_to_le 12 (i + 1))|vm_compute; discriminate].
  - vm_compute. discriminate.
Defined.
End Edges.
