(* ===== verification/Protocol.v ===== *)
(** * Protocol

    The versioned data-transfer contracts of crates/dlp-protocol/src/lib.rs: the
    validating constructors of the requests and responses, and the canonical
    encoding of a configuration envelope, which is the only signature input. *)

From S2P Require Import Prelude Bytes Text Reader Domain Crypto.

Definition API_VERSION_V1 : N := 1.
Definition CONFIGURATION_ENVELOPE_PREFIX : bytes :=
  lit "dlp-configuration-envelope/v1" ++ [x00].

Inductive ProtocolError :=
| UnsupportedVersion (shape : string) (received : N)
| InvalidField (field : string).

#[export] Instance ProtocolError_eq_dec : EqDecision ProtocolError.
Proof. solve_decision. Defined.

Definition require_v1 (shape : string) (version : N) : result ProtocolError unit :=
  if version =? API_VERSION_V1 then Ok tt else Err (UnsupportedVersion shape version).

Definition require_nonempty (field : string) (value : bytes) : result ProtocolError unit :=
  if bool_decide (value = []) || (65536 <? len value) then Err (InvalidField field) else Ok tt.

(** ** Requests and responses *)

Record EnrollmentRequestV1 := mkEnrollmentRequest {
  er_version : N;
  er_device_id : bytes;
  er_enrollment_token : bytes;
}.

Definition EnrollmentRequestV1_new (version : N) (device_id token : bytes) :
    result ProtocolError EnrollmentRequestV1 :=
  _ ← require_v1 "EnrollmentRequestV1" version;
  _ ← require_nonempty "enrollment token" token;
  Ok (mkEnrollmentRequest version device_id token).

Record ProvisionDeviceRequestV1 := mkProvisionRequest {
  pr_version : N;
  pr_device_id : bytes;
  pr_fingerprint_version : N;
  pr_fingerprint_digest : bytes;
  pr_ad_object_guid : bytes;
  pr_ad_object_sid : bytes;
  pr_ad_dns_name : bytes;
  pr_ad_domain : bytes;
  pr_preferred_drive_letter : N;
  pr_recovery : bool;
}.

(** [char::is_ascii_uppercase]. *)
Definition char_is_upper (c : N) : bool := (65 <=? c) && (c <=? 90).

Definition ProvisionDeviceRequestV1_new (version : N) (device_id : bytes)
    (fingerprint_version : N) (fingerprint_digest ad_object_guid ad_object_sid : bytes)
    (ad_dns_name ad_domain : bytes) (preferred_drive_letter : N) :
    result ProtocolError ProvisionDeviceRequestV1 :=
  _ ← require_v1 "ProvisionDeviceRequestV1" version;
  _ ← require_nonempty "device identity" device_id;
  _ ← require_nonempty "AD DNS name" ad_dns_name;
  _ ← require_nonempty "AD domain" ad_domain;
  if negb (fingerprint_version =? 1) || negb (len ad_object_guid =? 16)
     || negb ((8 <=? len ad_object_sid) && (len ad_object_sid <=? 68))
     || negb (char_is_upper preferred_drive_letter)
  then Err (InvalidField "trusted provisioning identity")
  else Ok (mkProvisionRequest version device_id fingerprint_version fingerprint_digest
             ad_object_guid ad_object_sid ad_dns_name ad_domain preferred_drive_letter false).

Definition authorize_recovery (r : ProvisionDeviceRequestV1) : ProvisionDeviceRequestV1 :=
  mkProvisionRequest (pr_version r) (pr_device_id r) (pr_fingerprint_version r)
    (pr_fingerprint_digest r) (pr_ad_object_guid r) (pr_ad_object_sid r) (pr_ad_dns_name r)
    (pr_ad_domain r) (pr_preferred_drive_letter r) true.

Record ProvisionDeviceResponseV1 := mkProvisionResponse {
  ps_version : N;
  ps_device_id : bytes;
  ps_enrollment_token : bytes;
}.

Definition ProvisionDeviceResponseV1_new (version : N) (device_id token : bytes) :
    result ProtocolError ProvisionDeviceResponseV1 :=
  _ ← require_v1 "ProvisionDeviceResponseV1" version;
  _ ← require_nonempty "device identity" device_id;
  _ ← require_nonempty "enrollment token" token;
  Ok (mkProvisionResponse version device_id token).

Record EnrollmentResponseV1 := mkEnrollmentResponse {
  es_version : N;
  es_device_id : bytes;
  es_credential_chain : bytes;
}.

Definition EnrollmentResponseV1_new (version : N) (device_id chain : bytes) :
    result ProtocolError EnrollmentResponseV1 :=
  _ ← require_v1 "EnrollmentResponseV1" version;
  _ ← require_nonempty "credential chain" chain;
  Ok (mkEnrollmentResponse version device_id chain).

Record HealthReportV1 := mkHealthReport {
  hr_version : N;
  hr_device_id : bytes;
  hr_status : bytes;
}.

Definition HealthReportV1_new (version : N) (device_id status : bytes) :
    result ProtocolError HealthReportV1 :=
  _ ← require_v1 "HealthReportV1" version;
  _ ← require_nonempty "health status" status;
  Ok (mkHealthReport version device_id status).

(** ** The configuration envelope *)

Record ConfigurationEnvelopeV1 := mkEnvelope {
  ce_version : N;
  ce_schema_version : N;
  ce_device_id : bytes;
  ce_bundle_version : bytes;
  ce_issued_at_epoch_seconds : N;
  ce_payload : bytes;
}.

#[export] Instance ConfigurationEnvelopeV1_eq_dec : EqDecision ConfigurationEnvelopeV1.
Proof. solve_decision. Defined.

Definition ConfigurationEnvelopeV1_new (schema_version : N) (device_id bundle_version : bytes)
    (issued_at : N) (payload : bytes) : result ProtocolError ConfigurationEnvelopeV1 :=
  if negb (schema_version =? CONFIGURATION_SCHEMA_VERSION_V1)
  then Err (UnsupportedVersion "ConfigurationEnvelopeV1 schema" schema_version)
  else
    _ ← require_nonempty "configuration payload" payload;
    Ok (mkEnvelope API_VERSION_V1 schema_version device_id bundle_version issued_at payload).

(** What [append_bytes] appends.  Its [expect] panics beyond [u32::MAX] bytes;
    an identifier has at most 128 and a payload at most 65,536. *)
Definition length_prefixed (s : bytes) : bytes := to_be 4 (len s) ++ s.

(** [ConfigurationEnvelopeV1::canonical_bytes]. *)
Definition envelope_bytes (e : ConfigurationEnvelopeV1) : bytes :=
  CONFIGURATION_ENVELOPE_PREFIX ++ to_be 2 (ce_version e) ++ to_be 2 (ce_schema_version e)
  ++ length_prefixed (ce_device_id e) ++ length_prefixed (ce_bundle_version e)
  ++ to_be 8 (ce_issued_at_epoch_seconds e) ++ length_prefixed (ce_payload e).

(** [CanonicalReader::read_utf8]; every read past the end has the error of
    [take]. *)
Definition envelope_error : ProtocolError := InvalidField "configuration envelope".
Definition read_utf8 (field : string) : reader ProtocolError bytes :=
  n ← read_be envelope_error 4;
  b ← read_take envelope_error n;
  _ ← read_guard (InvalidField field) (utf8_valid b);
  mret b.

(** The reads of [from_canonical_bytes]. *)
Definition read_envelope : reader ProtocolError (N * bytes * bytes * N * bytes) :=
  version ← read_be envelope_error 2;
  _ ← (fun s => match require_v1 "ConfigurationEnvelopeV1" version with
                | Ok _ => Ok (tt, s)
                | Err e => Err e
                end);
  schema_version ← read_be envelope_error 2;
  device_id ← read_utf8 "configuration device";
  bundle_version ← read_utf8 "configuration bundle version";
  issued_at ← read_be envelope_error 8;
  payload ← read_utf8 "configuration payload";
  mret (schema_version, device_id, bundle_version, issued_at, payload).

Definition from_canonical_bytes (canonical : bytes) :
    result ProtocolError ConfigurationEnvelopeV1 :=
  body ← ok_or envelope_error (strip_prefix CONFIGURATION_ENVELOPE_PREFIX canonical);
  '(fields, rest) ← read_envelope body;
  if negb (bool_decide (rest = [])) then Err envelope_error
  else
    let '(schema_version, device_id, bundle_version, issued_at, payload) := fields in
    device_id ← map_err (fun _ => InvalidField "configuration device")
                  (DeviceId_parse device_id);
    bundle_version ← map_err (fun _ => InvalidField "configuration bundle version")
                       (BundleVersion_parse bundle_version);
    envelope ← ConfigurationEnvelopeV1_new schema_version device_id bundle_version issued_at payload;
    if negb (bool_decide (envelope_bytes envelope = canonical)) then Err envelope_error
    else Ok envelope.

(** ** The signed wrapper *)

Record SignedConfigurationV1 := mkSigned {
  sc_version : N;
  sc_envelope : ConfigurationEnvelopeV1;
  sc_key_id : bytes;
  sc_signature : bytes;
  sc_content_digest : bytes;
  sc_audience : bytes;
}.

#[export] Instance SignedConfigurationV1_eq_dec : EqDecision SignedConfigurationV1.
Proof. solve_decision. Defined.

Definition SignedConfigurationV1_new `{Sha256} (envelope : ConfigurationEnvelopeV1)
    (key_id signature : bytes) : result ProtocolError SignedConfigurationV1 :=
  _ ← require_nonempty "key identifier" key_id;
  if bool_decide (signature = []) then Err (InvalidField "signature")
  else Ok (mkSigned API_VERSION_V1 envelope key_id signature
             (sha256 (envelope_bytes envelope)) (ce_device_id envelope)).

(** ** The codec *)

(** The values [ConfigurationEnvelopeV1] has: every way to one goes through
    [new] with parsed identifiers and a [String]. *)
Definition envelope_wf (e : ConfigurationEnvelopeV1) : Prop :=
  ce_version e = API_VERSION_V1 /\ ce_schema_version e = CONFIGURATION_SCHEMA_VERSION_V1 /\
  identifier true (ce_device_id e) /\ identifier false (ce_bundle_version e) /\
  ce_issued_at_epoch_seconds e <= u64_max /\
  ce_payload e <> [] /\ len (ce_payload e) <= 65536 /\ utf8_valid (ce_payload e) = true.

Lemma require_nonempty_Ok f v u : require_nonempty f v = Ok u <-> v <> [] /\ len v <= 65536.
Proof.
  unfold require_nonempty. destruct u. case_bool_decide as Hv; simpl.
  - split; [done|]. by intros [].
  - destruct (N.ltb_spec 65536 (len v)); split; try done; intros []; lia.
Qed.

Lemma read_utf8_Ok f b s r :
  read_utf8 f s = Ok (b, r) <->
  s = length_prefixed b ++ r /\ len b <= u32_max /\ utf8_valid b = true.
Proof.
  unfold read_utf8, length_prefixed, u32_max. split.
  - intros H. inv_reader. rewrite <- app_assoc. split; [done|]. simpl in *. split; [lia|done].
  - intros (-> & Hl & Hu). rewrite <- app_assoc. read_step; [simpl; lia|].
    read_step; [done|]. read_step; [done|]. read_step.
Qed.

Lemma identifier_text d s : identifier d s -> len s <= u32_max /\ utf8_valid s = true.
Proof.
  intros (_ & Hl & Hb)%identifier_spec. unfold u32_max. split; [lia|].
  by eapply utf8_valid_ascii, identifier_bytes_ascii.
Qed.

Lemma read_envelope_bytes e :
  envelope_wf e ->
  strip_prefix CONFIGURATION_ENVELOPE_PREFIX (envelope_bytes e) =
    Some (drop (length CONFIGURATION_ENVELOPE_PREFIX) (envelope_bytes e)) /\
  read_envelope (drop (length CONFIGURATION_ENVELOPE_PREFIX) (envelope_bytes e)) =
    Ok (ce_schema_version e, ce_device_id e, ce_bundle_version e,
        ce_issued_at_epoch_seconds e, ce_payload e, []).
Proof.
  intros (Hv & Hs & Hd & Hb & Hi & _ & Hp & Hu).
  apply identifier_text in Hd as [Hd1 Hd2], Hb as [Hb1 Hb2]. unfold u64_max, u32_max in *.
  unfold envelope_bytes. rewrite drop_app_length, strip_prefix_app. split; [done|].
  unfold read_envelope. rewrite Hv, Hs. read_step; [done|].
  apply read_bind_Ok. eexists tt, _. split; [reflexivity|]. read_step; [done|].
  apply read_bind_Ok. eexists _, _. split; [by apply read_utf8_Ok|].
  apply read_bind_Ok. eexists _, _. split; [by apply read_utf8_Ok|].
  read_step; [simpl; lia|].
  apply read_bind_Ok. eexists _, []. split; [|read_step].
  apply read_utf8_Ok. rewrite app_nil_r. unfold u32_max. split; [done|]. split; [lia|done].
Qed.

Lemma read_envelope_bounds s v d b i p r :
  read_envelope s = Ok (v, d, b, i, p, r) -> i <= u64_max /\ utf8_valid p = true.
Proof.
  unfold read_envelope, u64_max. intros H.
  repeat (apply read_bind_Ok in H as (? & ? & ? & H)).
  apply read_ret_Ok in H as [E ->]. simplify_eq.
  repeat match goal with
  | H : read_be _ _ _ = Ok _ |- _ => apply read_be_Ok in H as [_ ?]
  | H : read_utf8 _ _ = Ok _ |- _ => apply read_utf8_Ok in H as (_ & _ & ?)
  end. simpl in *. split; [lia|done].
Qed.

Lemma envelope_new_Ok v d b i p e :
  ConfigurationEnvelopeV1_new v d b i p = Ok e <->
  e = mkEnvelope API_VERSION_V1 v d b i p /\ v = CONFIGURATION_SCHEMA_VERSION_V1 /\
  p <> [] /\ len p <= 65536.
Proof.
  unfold ConfigurationEnvelopeV1_new, mbind, result_bind.
  destruct (N.eqb_spec v CONFIGURATION_SCHEMA_VERSION_V1) as [->|Hv]; simpl;
    [|split; [done|by intros (_ & ? & _)]].
  destruct (require_nonempty _ p) as [u|x] eqn:E.
  - apply require_nonempty_Ok in E. split; [by intros [= <-]|by intros (-> & _)].
  - split; [done|]. intros (_ & _ & Hp).
    apply (require_nonempty_Ok "configuration payload" p tt) in Hp. congruence.
Qed.

(** The strict decoder of configuration envelopes accepts exactly the
    canonical bytes of well-formed envelopes and returns the envelope they
    encode; so a stored envelope has one encoding, and no byte string decodes to
    an envelope other than the one that was signed. *)
Theorem envelope_codec c e :
  from_canonical_bytes c = Ok e <-> c = envelope_bytes e /\ envelope_wf e.
Proof.
  unfold from_canonical_bytes, mbind, result_bind. split.
  - destruct (strip_prefix _ c) as [body|]; [|done]. simpl.
    destruct (read_envelope body) as [[[[[[v d] b] i] p] r]|] eqn:ER; [|done].
    case_bool_decide; [|done]. simpl.
    destruct (DeviceId_parse d) as [d'|] eqn:ED; [|done]. simpl.
    destruct (BundleVersion_parse b) as [b'|] eqn:EB; [|done]. simpl.
    destruct (ConfigurationEnvelopeV1_new _ _ _ _ _) as [e'|] eqn:EN; [|done].
    case_bool_decide as EC; [|done]. intros <-%Ok_inj. split; [done|].
    apply envelope_new_Ok in EN as (-> & -> & Hp & Hl).
    apply parse_identifier_Ok in ED as [-> Hd], EB as [-> Hb].
    apply read_envelope_bounds in ER as [Hi Hu].
    exact (conj eq_refl (conj eq_refl (conj Hd (conj Hb (conj Hi (conj Hp (conj Hl Hu))))))).
  - intros [-> Hw]. destruct (read_envelope_bytes e Hw) as [-> ER]. cbn [ok_or]. rewrite ER.
    destruct Hw as (Hv & Hs & Hd & Hb & Hi & Hp & Hl & Hu).
    rewrite bool_decide_eq_true_2 by done. cbn [negb].
    unfold DeviceId_parse, BundleVersion_parse. rewrite Hd, Hb. cbn [map_err].
    rewrite (proj2 (envelope_new_Ok _ _ _ _ _ e)).
    + by rewrite bool_decide_eq_true_2.
    + split; [|done]. rewrite <- Hv. by destruct e.
Qed.
