(* ===== verification/ConfigCache.v ===== *)
(** * ConfigCache

    The signed-configuration half of crates/dlp-agent-core: the in-memory pair of
    current and last-known-good configurations (lib.rs) and the durable cache of
    them (config_cache.rs), with its wire format and pointer record.  The cache's
    mutex serialises activations, so an activation is one step; a lock poisoned
    by a panic is not modelled. *)

From S2P Require Import Prelude Bytes Text Reader Effects Domain Crypto Fs Protocol.

(** ** The in-memory set *)

Inductive AgentCoreError :=
| EnrollmentRejected
| ConfigurationRejected
| HealthRejected
| StorageUnavailable.

#[export] Instance AgentCoreError_eq_dec : EqDecision AgentCoreError.
Proof. solve_decision. Defined.

Record ActiveConfigurationSet := mkActive {
  ac_current : option SignedConfigurationV1;
  ac_last_known_good : option SignedConfigurationV1;
}.

Definition activate_verified (c : SignedConfigurationV1) (s : ActiveConfigurationSet) :
    ActiveConfigurationSet := mkActive (Some c) (ac_current s).

(** [ActiveConfigurationSet::version]. *)
Definition configuration_version (c : SignedConfigurationV1) : result AgentCoreError N :=
  ok_or ConfigurationRejected (parse_uint u64_max (ce_bundle_version (sc_envelope c))).

(** The check that rejects a version that is not newer than the current one. *)
Definition not_newer (next : N) (current : option SignedConfigurationV1) : bool :=
  match current with
  | None => false
  | Some c => match configuration_version c with Ok v => next <=? v | Err _ => true end
  end.

Section Activation.
Context `{Ed25519}.

Definition activate (c : SignedConfigurationV1) (v : ConfigurationVerifier)
    (s : ActiveConfigurationSet) : result AgentCoreError unit * ActiveConfigurationSet :=
  match verify v (ce_schema_version (sc_envelope c)) (sc_key_id c)
          (envelope_bytes (sc_envelope c)) (sc_signature c) with
  | Err _ => (Err ConfigurationRejected, s)
  | Ok _ =>
      match configuration_version c with
      | Err e => (Err e, s)
      | Ok next =>
          if not_newer next (ac_current s) then (Err ConfigurationRejected, s)
          else (Ok tt, activate_verified c s)
      end
  end.
End Activation.

(** ** Wire formats *)

Definition WIRE_FORMAT_VERSION : N := 1.
Definition POINTER_MAGIC : bytes := lit "dlp-ptr1".
Definition POINTER_SCHEMA_VERSION : N := 1.

Inductive CacheError :=
| CacheInvalidSignature
| CacheInvalidContentHash
| CacheUnsupportedSchema
| CacheWrongAudience
| CacheWrongKeyId
| CacheStaleVersion (received active : N)
| CacheIoFailure
| CacheCorruptPointer
| CacheMissingBundle
| CacheInvalidWireFormat.

#[export] Instance CacheError_eq_dec : EqDecision CacheError.
Proof. solve_decision. Defined.

Record CachePointers := mkPointers {
  cp_current_digest : option bytes;
  cp_current_version : option N;
  cp_lkg_digest : option bytes;
  cp_lkg_version : option N;
}.

#[export] Instance CachePointers_eq_dec : EqDecision CachePointers.
Proof. solve_decision. Defined.

Definition pointers_default : CachePointers := mkPointers None None None None.

Inductive ActivationOutcome :=
| Activated (version : N) (digest : bytes)
| Unchanged.

(** [serialize_signed_configuration]; [length_prefixed] is what [append_string]
    and [append_bytes] append. *)
Definition serialize_signed_configuration (s : SignedConfigurationV1) : bytes :=
  let e := sc_envelope s in
  [byte_of WIRE_FORMAT_VERSION] ++ to_be 2 (sc_version s) ++ to_be 2 (ce_schema_version e)
  ++ length_prefixed (sc_key_id s) ++ length_prefixed (ce_device_id e)
  ++ length_prefixed (ce_bundle_version e) ++ to_be 8 (ce_issued_at_epoch_seconds e)
  ++ length_prefixed (ce_payload e) ++ length_prefixed (sc_signature s)
  ++ sc_content_digest s.

(** [ByteReader]: every read past the end is the same error. *)
Definition wire := CacheInvalidWireFormat.
Definition read_bytes : reader CacheError bytes := n ← read_be wire 4; read_take wire n.
Definition read_string : reader CacheError bytes :=
  b ← read_bytes; _ ← read_guard wire (utf8_valid b); mret b.
Definition read_optional_digest : reader CacheError (option bytes) :=
  tag ← read_byte wire;
  match tag with
  | x00 => mret None
  | x01 => d ← read_take wire 32; mret (Some d)
  | _ => read_fail CacheCorruptPointer
  end.
Definition expect_empty : reader CacheError unit :=
  fun s => if bool_decide (s = []) then Ok (tt, s) else Err wire.

(** The fields [deserialize_signed_configuration] reads. *)
Definition read_signed :
    reader CacheError (N * bytes * bytes * bytes * N * bytes * bytes * bytes) :=
  format_version ← read_byte wire;
  _ ← read_guard wire (Byte.to_N format_version =? WIRE_FORMAT_VERSION);
  api_version ← read_be wire 2;
  _ ← read_guard wire (api_version =? API_VERSION_V1);
  schema_version ← read_be wire 2;
  _ ← read_guard CacheUnsupportedSchema (schema_version =? CONFIGURATION_SCHEMA_VERSION_V1);
  key_id ← read_string;
  device_id ← read_string;
  bundle_version ← read_string;
  issued_at ← read_be wire 8;
  payload ← read_string;
  signature ← read_bytes;
  content_digest ← read_take wire 32;
  _ ← expect_empty;
  mret (schema_version, key_id, device_id, bundle_version, issued_at, payload, signature,
        content_digest).

Definition deserialize_signed_configuration `{Sha256} (b : bytes) :
    result CacheError SignedConfigurationV1 :=
  '(fields, _) ← read_signed b;
  let '(schema_version, key_id, device_id, bundle_version, issued_at, payload, signature,
        content_digest) := fields in
  device_id ← map_err (fun _ => wire) (DeviceId_parse device_id);
  bundle_version ← map_err (fun _ => wire) (BundleVersion_parse bundle_version);
  envelope ← map_err (fun _ => wire)
    (ConfigurationEnvelopeV1_new schema_version device_id bundle_version issued_at payload);
  if negb (bool_decide (sha256 (envelope_bytes envelope) = content_digest))
  then Err CacheInvalidContentHash
  else map_err (fun _ => wire) (SignedConfigurationV1_new envelope key_id signature).

Definition append_optional_digest (digest : option bytes) : bytes :=
  match digest with Some d => x01 :: d | None => [x00] end.

(** A digest and, when there is one, its version. *)
Definition slot_bytes (digest : option bytes) (version : option N) : bytes :=
  append_optional_digest digest
  ++ match digest with Some _ => to_be 8 (default 0 version) | None => [] end.

Definition serialize_pointers (p : CachePointers) (generation : N) : bytes :=
  POINTER_MAGIC ++ to_be 8 POINTER_SCHEMA_VERSION ++ to_be 8 generation
  ++ slot_bytes (cp_current_digest p) (cp_current_version p)
  ++ slot_bytes (cp_lkg_digest p) (cp_lkg_version p).

(** [reader.read_u64().unwrap_or(0)]: a read that fails consumes nothing. *)
Definition read_u64_or_0 : reader CacheError N :=
  fun s => match read_be wire 8 s with Ok x => Ok x | Err _ => Ok (0, s) end.

(** [digest.map(|_| reader.read_u64().unwrap_or(0))]. *)
Definition read_version_for (digest : option bytes) : reader CacheError (option N) :=
  match digest with
  | None => mret None
  | Some _ => v ← read_u64_or_0; mret (Some v)
  end.

Definition read_pointer_record : reader CacheError CachePointers :=
  magic ← read_take wire 8;
  _ ← read_guard CacheCorruptPointer (bool_decide (magic = POINTER_MAGIC));
  schema_version ← read_be wire 8;
  _ ← read_guard CacheCorruptPointer (schema_version =? POINTER_SCHEMA_VERSION);
  _ ← read_be wire 8;
  current_digest ← read_optional_digest;
  current_version ← read_version_for current_digest;
  lkg_digest ← read_optional_digest;
  lkg_version ← read_version_for lkg_digest;
  _ ← expect_empty;
  mret (mkPointers current_digest current_version lkg_digest lkg_version).

Definition deserialize_pointers (b : bytes) : result CacheError CachePointers :=
  fst <$> read_pointer_record b.

(** [hex::parse]. *)
Definition hex_parse (s : bytes) : option bytes :=
  if len s =? 64 then hex_pairs s else None.

(** ** The cache *)

Record Cache := mkCache {
  ca_root : fspath;
  ca_device_id : bytes;
  ca_generation : N;
  ca_world : World;
}.

Notation cache_m := (M Cache CacheError).

Definition ca_disk (c : Cache) : Disk := w_disk (ca_world c).

(** A disk operation with [.map_err(|_| CacheError::IoFailure)?]. *)
Definition cache_io {A} (m : io A) : cache_m A := fun c =>
  let '(r, w) := m (ca_world c) in
  (map_err (fun _ => CacheIoFailure) r, mkCache (ca_root c) (ca_device_id c) (ca_generation c) w).

(** [ConfigurationCache::open]. *)
Definition cache_open (root : fspath) (device_id : bytes) (w : World) : result CacheError Cache * World :=
  match fs_create_dir_all root w with
  | (Err _, w1) => (Err CacheIoFailure, w1)
  | (Ok _, w1) =>
      match fs_create_dir_all (root ++ [lit "staging"]) w1 with
      | (Err _, w2) => (Err CacheIoFailure, w2)
      | (Ok _, w2) => (Ok (mkCache root device_id 0 w2), w2)
      end
  end.

Definition staging_dir (root : fspath) : fspath := root ++ [lit "staging"].
Definition staging_path (root : fspath) (digest : bytes) : fspath :=
  root ++ [lit "staging"; to_hex digest].
(** [path.with_extension("tmp")]; the name has no dot. *)
Definition staging_tmp (root : fspath) (digest : bytes) : fspath :=
  root ++ [lit "staging"; to_hex digest ++ lit ".tmp"].
Definition pointers_path (root : fspath) : fspath := root ++ [lit "pointers"].
Definition temp_pointers_path (root : fspath) : fspath := root ++ [lit "pointers.tmp"].

Definition write_file_atomic (path temp : fspath) (b : bytes) : cache_m unit :=
  _ ← cache_io (fs_create temp);
  _ ← cache_io (fs_write_all temp b);
  _ ← cache_io (fs_sync temp);
  cache_io (fs_rename temp path).

Definition write_staged_bundle (digest b : bytes) : cache_m unit :=
  root ← gets ca_root;
  write_file_atomic (staging_path root digest) (staging_tmp root digest) b.

Definition read_staged_bundle (root : fspath) (d : Disk) (digest : bytes) :
    result CacheError bytes :=
  map_err (fun _ => CacheMissingBundle) (fs_read d (staging_path root digest)).

(** [read_pointers], and [load_pointers], which calls it. *)
Definition read_pointers (root : fspath) (d : Disk) : result CacheError CachePointers :=
  if negb (fs_exists d (pointers_path root)) then Ok pointers_default
  else b ← map_err (fun _ => CacheIoFailure) (fs_read d (pointers_path root));
       deserialize_pointers b.

Definition write_pointers (p : CachePointers) (generation : N) : cache_m unit :=
  root ← gets ca_root;
  write_file_atomic (pointers_path root) (temp_pointers_path root) (serialize_pointers p generation).

Definition parse_bundle_version (v : bytes) : result CacheError N :=
  ok_or wire (parse_uint u64_max v).

Definition map_crypto_error (e : CryptoError) : CacheError :=
  match e with
  | UnsupportedSchema _ => CacheUnsupportedSchema
  | KeyIdMismatch | InvalidKeyId => CacheWrongKeyId
  | _ => CacheInvalidSignature
  end.

(** Whether [clean_staging] removes the entry named [name]. *)
Definition unreferenced (p : CachePointers) (name : bytes) : bool :=
  match hex_parse name with
  | Some digest => negb (bool_decide (cp_current_digest p = Some digest))
                   && negb (bool_decide (cp_lkg_digest p = Some digest))
  | None => false
  end.

(** The body of the loop; the result of [remove_file] is dropped. *)
Definition clean_entry (p : CachePointers) (u : unit) (path : fspath) : cache_m unit :=
  if unreferenced p (default [] (last path))
  then _ ← try (cache_io (fs_remove_file path)); mret tt
  else mret tt.

Definition clean_staging (p : CachePointers) : cache_m unit :=
  root ← gets ca_root;
  d ← gets ca_disk;
  entries ← lift (map_err (fun _ => CacheIoFailure) (fs_read_dir d (staging_dir root)));
  fold_m (clean_entry p) tt entries.

Definition set_generation (g : N) (c : Cache) : Cache :=
  mkCache (ca_root c) (ca_device_id c) g (ca_world c).

(** The rejection of a version that is not newer than the selected one. *)
Definition ensure_newer (version : N) (p : CachePointers) : cache_m unit :=
  match cp_current_version p with
  | Some active => ensure (negb (version <=? active)) (CacheStaleVersion version active)
  | None => mret tt
  end.

Section Cache.
Context `{Sha256} `{Ed25519}.

Definition load_bundle_at_digest (root : fspath) (d : Disk) (digest : bytes) :
    result CacheError (option SignedConfigurationV1) :=
  b ← read_staged_bundle root d digest;
  s ← deserialize_signed_configuration b;
  if negb (bool_decide (sc_content_digest s = digest)) then Err CacheCorruptPointer
  else Ok (Some s).

Definition current_bundle (root : fspath) (d : Disk) :
    result CacheError (option SignedConfigurationV1) :=
  p ← read_pointers root d;
  match cp_current_digest p with
  | Some digest => load_bundle_at_digest root d digest
  | None => Ok None
  end.

Definition lkg_bundle (root : fspath) (d : Disk) :
    result CacheError (option SignedConfigurationV1) :=
  p ← read_pointers root d;
  match cp_lkg_digest p with
  | Some digest => load_bundle_at_digest root d digest
  | None => Ok None
  end.

(** The checks of [stage_verify_activate] before it reads the pointers. *)
Definition admit_bundle (b : bytes) (v : ConfigurationVerifier) (device_id : bytes) :
    result CacheError (SignedConfigurationV1 * N) :=
  signed ← deserialize_signed_configuration b;
  let envelope := sc_envelope signed in
  if negb (bool_decide (sc_content_digest signed = sha256 (envelope_bytes envelope)))
  then Err CacheInvalidContentHash
  else
    _ ← map_err map_crypto_error
          (verify v (ce_schema_version envelope) (sc_key_id signed) (envelope_bytes envelope)
             (sc_signature signed));
    if negb (bool_decide (sc_audience signed = device_id)) then Err CacheWrongAudience
    else version ← parse_bundle_version (ce_bundle_version envelope);
         Ok (signed, version).

Definition stage_verify_activate (b : bytes) (v : ConfigurationVerifier) :
    cache_m ActivationOutcome :=
  c ← gets id;
  '(signed, version) ← lift (admit_bundle b v (ca_device_id c));
  pointers ← lift (read_pointers (ca_root c) (ca_disk c));
  _ ← ensure_newer version pointers;
  let digest := sc_content_digest signed in
  _ ← write_staged_bundle digest b;
  let new_generation := saturating_add64 (ca_generation c) 1 in
  let new_pointers := mkPointers (Some digest) (Some version)
                        (cp_current_digest pointers) (cp_current_version pointers) in
  _ ← write_pointers new_pointers new_generation;
  _ ← modify (set_generation new_generation);
  _ ← try (clean_staging new_pointers);
  mret (Activated version digest).
End Cache.

(** ** The wire format *)

Lemma read_bytes_Ok b s r :
  read_bytes s = Ok (b, r) <-> s = length_prefixed b ++ r /\ len b <= u32_max.
Proof.
  unfold read_bytes, length_prefixed, u32_max. split.
  - intros H. inv_reader. rewrite <- app_assoc. simpl in *. split; [done|lia].
  - intros [-> Hl]. rewrite <- app_assoc. read_step; [simpl; lia|].
    by apply read_take_Ok.
Qed.

Lemma read_string_Ok b s r :
  read_string s = Ok (b, r) <->
  s = length_prefixed b ++ r /\ len b <= u32_max /\ utf8_valid b = true.
Proof.
  unfold read_string. split.
  - intros H. apply read_bind_Ok in H as (? & ? & [-> Hl]%read_bytes_Ok & H). by inv_reader.
  - intros (-> & Hl & Hu). apply read_bind_Ok. eexists _, _.
    split; [by apply read_bytes_Ok|]. read_step; [done|]. read_step.
Qed.

Lemma expect_empty_Ok u s r : expect_empty s = Ok (u, r) <-> s = [] /\ r = [].
Proof.
  unfold expect_empty. destruct u. case_bool_decide as Hs.
  - subst. split; [by intros [= <-]|by intros [_ ->]].
  - split; [done|]. by intros [? _].
Qed.

Lemma read_signed_Ok b v k d bv i p sg cd r :
  read_signed b = Ok (v, k, d, bv, i, p, sg, cd, r) <->
  r = [] /\ v = CONFIGURATION_SCHEMA_VERSION_V1 /\
  b = [byte_of WIRE_FORMAT_VERSION] ++ to_be 2 API_VERSION_V1 ++ to_be 2 v
      ++ length_prefixed k ++ length_prefixed d ++ length_prefixed bv ++ to_be 8 i
      ++ length_prefixed p ++ length_prefixed sg ++ cd /\
  (len k <= u32_max /\ utf8_valid k = true) /\ (len d <= u32_max /\ utf8_valid d = true) /\
  (len bv <= u32_max /\ utf8_valid bv = true) /\ i <= u64_max /\
  (len p <= u32_max /\ utf8_valid p = true) /\ len sg <= u32_max /\ len cd = 32.
Proof.
  unfold read_signed. split.
  - intros H. repeat (apply read_bind_Ok in H as (? & ? & ? & H)).
    apply read_ret_Ok in H as [E ->]. simplify_eq.
    repeat match goal with
    | H : read_string _ = Ok _ |- _ => apply read_string_Ok in H as (-> & ? & ?)
    | H : read_bytes _ = Ok _ |- _ => apply read_bytes_Ok in H as (-> & ?)
    | H : expect_empty _ = Ok _ |- _ => apply expect_empty_Ok in H as [-> ->]
    end. inv_reader.
    repeat match goal with H : (_ =? _) = true |- _ => apply N.eqb_eq in H end. subst.
    unfold u64_max. simpl in *. rewrite app_nil_r.
    match goal with H : Byte.to_N ?f = _ |- _ =>
      rewrite <- (byte_of_to_N f), H end.
    repeat split; try done; lia.
  - intros (-> & -> & -> & [Hk Hk'] & [Hd Hd'] & [Hb Hb'] & Hi & [Hp Hp'] & Hs & Hc).
    unfold u64_max in Hi. simpl app.
    read_step. read_step; [done|]. read_step; [done|]. read_step; [done|].
    read_step; [done|]. read_step; [done|].
    do 3 (apply read_bind_Ok; eexists _, _; split; [by apply read_string_Ok|]).
    read_step; [simpl; lia|].
    apply read_bind_Ok; eexists _, _; split; [by apply read_string_Ok|].
    apply read_bind_Ok; eexists _, _; split; [by apply read_bytes_Ok|].
    apply read_bind_Ok; eexists cd, []; split; [by apply read_take_Ok; rewrite app_nil_r|].
    apply read_bind_Ok; eexists tt, []; split; [by apply expect_empty_Ok|]. read_step.
Qed.

Section Codec.
Context `{Sha256}.

(** The values of [SignedConfigurationV1], with a signature that fits the
    length field. *)
Definition signed_wf (s : SignedConfigurationV1) : Prop :=
  sc_version s = API_VERSION_V1 /\ envelope_wf (sc_envelope s) /\
  sc_key_id s <> [] /\ len (sc_key_id s) <= 65536 /\ utf8_valid (sc_key_id s) = true /\
  sc_signature s <> [] /\ len (sc_signature s) <= u32_max /\
  sc_content_digest s = sha256 (envelope_bytes (sc_envelope s)) /\
  sc_audience s = ce_device_id (sc_envelope s).

Lemma signed_new_Ok e k sg s :
  SignedConfigurationV1_new e k sg = Ok s <->
  s = mkSigned API_VERSION_V1 e k sg (sha256 (envelope_bytes e)) (ce_device_id e) /\
  k <> [] /\ len k <= 65536 /\ sg <> [].
Proof.
  unfold SignedConfigurationV1_new, mbind, result_bind.
  destruct (require_nonempty _ k) as [u|x] eqn:E.
  - apply require_nonempty_Ok in E as [? ?]. case_bool_decide.
    + split; [done|]. by intros (_ & _ & _ & ?).
    + split; [by intros <-%Ok_inj|by intros (-> & _)].
  - split; [done|]. intros (_ & Hk & Hl & _).
    rewrite (proj2 (require_nonempty_Ok "key identifier" k tt)) in E; done.
Qed.

Lemma deserialize_sound b s :
  deserialize_signed_configuration b = Ok s ->
  b = serialize_signed_configuration s /\ signed_wf s /\ len (sc_content_digest s) = 32.
Proof.
  unfold deserialize_signed_configuration, mbind, result_bind.
  destruct (read_signed b) as [[[[[[[[[v k] d] bv] i] p] sg] cd] r]|] eqn:ER; [|done].
  apply read_signed_Ok in ER
    as (-> & -> & Eb & [Hk Hk'] & [Hd Hd'] & [Hb Hb'] & Hi & [Hp Hp'] & Hs & Hc).
  destruct (DeviceId_parse d) as [d'|] eqn:ED; [|done]. cbn [map_err].
  destruct (BundleVersion_parse bv) as [bv'|] eqn:EB; [|done]. cbn [map_err].
  apply parse_identifier_Ok in ED as [-> Hid], EB as [-> Hiv].
  destruct (ConfigurationEnvelopeV1_new _ _ _ _ _) as [e|] eqn:EN; [|done]. cbn [map_err].
  apply envelope_new_Ok in EN as (-> & _ & Hpn & Hpl).
  case_bool_decide as EC; [|done]. cbn [negb].
  destruct (SignedConfigurationV1_new _ _ _) as [s'|] eqn:ES; [|done].
  intros <-%Ok_inj. apply signed_new_Ok in ES as (-> & Hkn & Hkl & Hsn).
  unfold serialize_signed_configuration, signed_wf, envelope_wf. cbn -[to_be byte_of] in *.
  rewrite EC. by repeat split.
Qed.

(** The cache's wire format: given that a SHA-256 digest is 32 bytes, the
    decoder of signed configurations accepts exactly the serializations of
    well-formed ones (identifiers parsed, payload and key identifier bounded
    UTF-8, a signature present, the digest that of the envelope, the audience
    that of the envelope) and returns the configuration that was serialized. *)
Theorem signed_codec (Hlaws : Sha256Laws sha256) b s :
  deserialize_signed_configuration b = Ok s <->
  b = serialize_signed_configuration s /\ signed_wf s.
Proof.
  split; [by intros (? & ? & _)%deserialize_sound|].
  intros [-> (Hv & He & Hk & Hkl & Hku & Hs & Hsl & Hc & Ha)].
  destruct s as [v e k sg cd a]. cbn in Hv, Hk, Hkl, Hku, Hs, Hsl, Hc, Ha, He. subst.
  pose proof He as (Hev & Hes & Hd & Hb & Hi & Hp & Hpl & Hpu).
  destruct (identifier_text _ _ Hd), (identifier_text _ _ Hb).
  unfold deserialize_signed_configuration, mbind, result_bind.
  unfold serialize_signed_configuration. cbn [sc_envelope sc_version sc_key_id sc_signature sc_content_digest].
  rewrite (proj2 (read_signed_Ok _ (ce_schema_version e) k (ce_device_id e)
    (ce_bundle_version e) (ce_issued_at_epoch_seconds e) (ce_payload e) sg
    (sha256 (envelope_bytes e)) [])).
  - unfold DeviceId_parse, BundleVersion_parse. rewrite Hd, Hb. cbn [map_err].
    rewrite (proj2 (envelope_new_Ok _ _ _ _ _ e)).
    + cbn [map_err]. rewrite bool_decide_eq_true_2 by done. cbn [negb].
      by rewrite (proj2 (signed_new_Ok e k sg _) (conj eq_refl (conj Hk (conj Hkl Hs)))).
    + rewrite <- Hev. by destruct e.
  - unfold u32_max in *. repeat split; try done; try lia. apply sha256_length.
Qed.
End Codec.

(** ** The pointer record *)

Lemma parse_digits_bound max acc s n :
  parse_digits max acc s = Some n -> acc <= max -> n <= max.
Proof.
  revert acc. induction s as [|b s IH]; intros acc; simpl; [by intros [= <-]|].
  destruct (digit_value b); [|done].
  destruct (N.leb_spec (acc * 10 + n0) max); [|done]. intros Hs _. by eapply IH.
Qed.

Lemma parse_uint_bound max s n : parse_uint max s = Some n -> n <= max.
Proof.
  unfold parse_uint. intros E.
  repeat case_match; simplify_eq; eapply parse_digits_bound; try done; lia.
Qed.

(** A digest and a version, both or neither, at their widths. *)
Definition slot_wf (digest : option bytes) (version : option N) : Prop :=
  match digest, version with
  | Some d, Some v => len d = 32 /\ v <= u64_max
  | None, None => True
  | _, _ => False
  end.

Lemma read_slot digest version rest :
  slot_wf digest version ->
  exists mid, read_optional_digest (slot_bytes digest version ++ rest) = Ok (digest, mid) /\
    read_version_for digest mid = Ok (version, rest).
Proof.
  unfold slot_bytes. destruct digest as [d|], version as [v|]; try done; simpl.
  - intros [Hd Hv]. exists (to_be 8 v ++ rest). unfold u64_max in Hv. split.
    + rewrite <- app_assoc. unfold read_optional_digest.
      apply read_bind_Ok. eexists x01, _. split; [reflexivity|]. simpl.
      apply read_bind_Ok. exists d, (to_be 8 v ++ rest). split; [by apply read_take_Ok|done].
    + unfold mbind, reader_bind, read_u64_or_0.
      rewrite (proj2 (read_be_Ok wire 8 v (to_be 8 v ++ rest) rest)); [done|].
      split; [done|]. simpl. lia.
  - intros _. by exists rest.
Qed.

Lemma pointers_roundtrip p g :
  slot_wf (cp_current_digest p) (cp_current_version p) ->
  slot_wf (cp_lkg_digest p) (cp_lkg_version p) -> g <= u64_max ->
  deserialize_pointers (serialize_pointers p g) = Ok p.
Proof.
  intros Hc Hl Hg. unfold u64_max in Hg. unfold deserialize_pointers, serialize_pointers.
  destruct (read_slot _ _ (slot_bytes (cp_lkg_digest p) (cp_lkg_version p)) Hc) as (m1 & R1 & V1).
  destruct (read_slot _ _ [] Hl) as (m2 & R2 & V2). rewrite app_nil_r in R2.
  enough (read_pointer_record (POINTER_MAGIC ++ to_be 8 POINTER_SCHEMA_VERSION ++ to_be 8 g
    ++ slot_bytes (cp_current_digest p) (cp_current_version p)
    ++ slot_bytes (cp_lkg_digest p) (cp_lkg_version p)) = Ok (p, [])) as -> by done.
  unfold read_pointer_record. read_step; [done|]. read_step; [done|]. read_step; [done|].
  read_step; [done|]. read_step; [simpl; lia|].
  apply read_bind_Ok. eexists _, _. split; [exact R1|].
  apply read_bind_Ok. eexists _, _. split; [exact V1|].
  apply read_bind_Ok. eexists _, _. split; [exact R2|].
  apply read_bind_Ok. eexists _, _. split; [exact V2|].
  apply read_bind_Ok. eexists tt, []. split; [by apply expect_empty_Ok|].
  apply read_ret_Ok. by destruct p.
Qed.

Lemma hex_parse_to_hex d : len d = 32 -> hex_parse (to_hex d) = Some d.
Proof. intros Hd. unfold hex_parse. rewrite len_to_hex, Hd. apply hex_pairs_to_hex. Qed.

(** ** Replacement of a file *)

(** [m] changes the cache's world only, and there only the paths in [W]. *)
Definition cache_within {A} (W : fspath -> Prop) (m : cache_m A) : Prop :=
  forall c, ca_root (snd (m c)) = ca_root c /\ ca_device_id (snd (m c)) = ca_device_id c /\
    touches W (ca_world c) (ca_world (snd (m c))).

Lemma cache_io_within {A} (W : fspath -> Prop) (m : io A) :
  io_within W m -> cache_within W (cache_io m).
Proof. intros Hm c. specialize (Hm (ca_world c)). unfold cache_io. by destruct (m (ca_world c)). Qed.

Lemma cache_within_bind {A B} W (m : cache_m A) (k : A -> cache_m B) :
  cache_within W m -> (forall a, cache_within W (k a)) -> cache_within W (m ≫= k).
Proof.
  intros Hm Hk c. destruct (Hm c) as (R1 & D1 & T1). unfold mbind, M_bind.
  destruct (m c) as [[a|e] c1]; [|done]. cbn [snd] in *. destruct (Hk a c1) as (R2 & D2 & T2).
  split; [congruence|]. split; [congruence|]. by eapply touches_trans.
Qed.

Lemma cache_within_mono {A} (W W' : fspath -> Prop) (m : cache_m A) :
  (forall q, W q -> W' q) -> cache_within W m -> cache_within W' m.
Proof.
  intros HW Hm c. destruct (Hm c) as (? & ? & ?). split; [done|]. split; [done|].
  by eapply touches_mono.
Qed.

Lemma cache_within_same {A} W (m : cache_m A) : (forall c, snd (m c) = c) -> cache_within W m.
Proof. intros Hm c. rewrite Hm. split; [done|]. split; [done|]. apply touches_refl. Qed.

Lemma cache_within_try {A} W (m : cache_m A) : cache_within W m -> cache_within W (try m).
Proof. intros Hm c. specialize (Hm c). unfold try. by destruct (m c). Qed.

(** The steps before the rename touch the temporary file only. *)
Definition write_temp (temp : fspath) (b : bytes) : cache_m unit :=
  _ ← cache_io (fs_create temp);
  _ ← cache_io (fs_write_all temp b);
  cache_io (fs_sync temp).

Lemma write_file_atomic_temp path temp b c :
  write_file_atomic path temp b c = (_ ← write_temp temp b; cache_io (fs_rename temp path)) c.
Proof. apply bind_group. Qed.

Lemma write_temp_within temp b : cache_within (eq temp) (write_temp temp b).
Proof.
  apply cache_within_bind; [apply cache_io_within, fs_create_within|intros _].
  apply cache_within_bind; [apply cache_io_within, fs_write_all_within|intros _].
  apply cache_io_within, fs_sync_within.
Qed.

Lemma cache_io_Ok {A} (m : io A) c a c' :
  cache_io m c = (Ok a, c') ->
  m (ca_world c) = (Ok a, ca_world c') /\ ca_root c' = ca_root c.
Proof.
  unfold cache_io. destruct (m (ca_world c)) as [[x|k] w]; simpl; intros E; [|done].
  apply pair_eq in E as [<-%Ok_inj <-]. done.
Qed.

Lemma write_temp_Ok temp b c u c' :
  write_temp temp b c = (Ok u, c') -> dk_files (ca_disk c') !! temp = Some b.
Proof.
  unfold write_temp. intros H.
  apply bind_Ok in H as (? & c1 & [H1 _]%cache_io_Ok & H).
  apply bind_Ok in H as (? & c2 & [H2 _]%cache_io_Ok & [H3 _]%cache_io_Ok).
  by eapply fs_stage_Ok.
Qed.

(** What a replacement leaves: the new content when it succeeded, the old one
    when it failed, and everything but the two paths as it was. *)
Lemma write_file_atomic_spec path temp b c r c' :
  temp <> path -> write_file_atomic path temp b c = (r, c') ->
  ca_root c' = ca_root c /\ ca_device_id c' = ca_device_id c /\
  touches (fun q => q = temp \/ q = path) (ca_world c) (ca_world c') /\
  match r with
  | Ok _ => path ∉ dk_unreadable (ca_disk c) -> fs_read (ca_disk c') path = Ok b
  | Err _ => fs_read (ca_disk c') path = fs_read (ca_disk c) path /\
             fs_exists (ca_disk c') path = fs_exists (ca_disk c) path
  end.
Proof.
  intros Hne. rewrite write_file_atomic_temp. intros H.
  pose proof (write_temp_within temp b c) as (R1 & D1 & T1).
  apply bind_run in H as [(u & c1 & E1 & E2)|(e & E1 & ->)]; rewrite E1 in R1, D1, T1;
    cbn [snd] in R1, D1, T1.
  - pose proof (cache_io_within _ _ (fs_rename_within temp path) c1) as (R2 & D2 & T2).
    rewrite E2 in R2, D2, T2. cbn [snd] in R2, D2, T2.
    split; [congruence|]. split; [congruence|].
    split; [eapply touches_trans; [eapply touches_mono; [|exact T1]; by intros q <-; left|exact T2]|].
    pose proof (to_agree _ _ _ T1 path Hne) as [A1 A2]. apply write_temp_Ok in E1.
    pose proof (to_unreadable _ _ _ T1) as U1.
    unfold cache_io, fs_rename, consult in E2. unfold ca_disk in *. rewrite E1 in E2.
    repeat case_match; simplify_eq/=; try by (rewrite A1, A2). intros Hun.
    unfold entry_error in *. repeat case_match; simplify_eq.
    unfold fs_read. simpl. rewrite lookup_insert_eq, U1, bool_decide_eq_false_2 by done.
    unfold dir_exists in *. simpl in *. by rewrite H2.
  - split; [congruence|]. split; [congruence|]. split.
    + eapply touches_mono; [|exact T1]. intros q <-. by left.
    + apply (to_agree _ _ _ T1 path). done.
Qed.

(** ** Cleaning *)

(** The paths of the staged bundles [p] does not refer to. *)
Definition stale (root : fspath) (p : CachePointers) (q : fspath) : Prop :=
  exists name, q = root ++ [lit "staging"; name] /\ unreferenced p name = true.

Lemma cache_within_fold {A} W (f : unit -> A -> cache_m unit) l :
  (forall x, x ∈ l -> cache_within W (f tt x)) -> cache_within W (fold_m f tt l).
Proof.
  induction l as [|x l IH]; intros Hf; cbn [fold_m]; [by apply cache_within_same|].
  apply cache_within_bind; [apply Hf; left|]. intros []. apply IH. intros y Hy. apply Hf. by right.
Qed.

Lemma clean_entry_within root p name :
  cache_within (stale root p) (clean_entry p tt (staging_dir root ++ [name])).
Proof.
  unfold clean_entry. rewrite last_snoc. simpl.
  destruct (unreferenced p name) eqn:E; [|by apply cache_within_same].
  apply cache_within_bind; [|intros; by apply cache_within_same].
  apply cache_within_try, cache_io_within.
  intros w. eapply touches_mono; [|apply fs_remove_file_within].
  intros q <-. exists name. unfold staging_dir. by rewrite <- app_assoc.
Qed.

Lemma clean_staging_touches p c :
  let c' := snd (clean_staging p c) in
  ca_root c' = ca_root c /\ ca_device_id c' = ca_device_id c /\
  touches (stale (ca_root c) p) (ca_world c) (ca_world c').
Proof.
  unfold clean_staging. cbv zeta.
  rewrite (bind_step _ _ _ _ _ (eq_refl : gets ca_root c = _)).
  rewrite (bind_step _ _ _ _ _ (eq_refl : gets ca_disk c = _)).
  destruct (fs_read_dir _ _) as [l|k] eqn:E; [|split; [done|split; [done|apply touches_refl]]].
  rewrite (bind_step _ _ _ l c); [|done].
  apply (cache_within_fold (stale (ca_root c) p) (clean_entry p) l). intros x Hx.
  unfold fs_read_dir in E. repeat case_match; simplify_eq.
  apply list_elem_of_In, in_map_iff in Hx as (n & <- & _). apply clean_entry_within.
Qed.

(** ** Refinement of the in-memory set *)

Section Refinement.
Context `{Sha256} `{Ed25519}.

Definition version_of (s : SignedConfigurationV1) : option N :=
  parse_uint u64_max (ce_bundle_version (sc_envelope s)).

(** The bundle file named by [digest] holds [s], of that digest and version. *)
Definition bundle_at (root : fspath) (d : Disk) (digest : bytes) (version : N)
    (s : SignedConfigurationV1) : Prop :=
  exists b, fs_read d (staging_path root digest) = Ok b /\
    deserialize_signed_configuration b = Ok s /\
    sc_content_digest s = digest /\ version_of s = Some version.

Definition slot_holds (root : fspath) (d : Disk) (digest : option bytes) (version : option N)
    (o : option SignedConfigurationV1) : Prop :=
  match o with
  | None => digest = None /\ version = None
  | Some s => exists dg v, digest = Some dg /\ version = Some v /\ bundle_at root d dg v s
  end.

(** The last-known-good configuration is older than the current one. *)
Definition ordered (S : ActiveConfigurationSet) : Prop :=
  forall l, ac_last_known_good S = Some l ->
  exists c vl vc, ac_current S = Some c /\ version_of l = Some vl /\ version_of c = Some vc /\ vl < vc.

(** The cache directory with pointer record [p] stands for the set [S]. *)
Definition represents_by (p : CachePointers) (c : Cache) (S : ActiveConfigurationSet) : Prop :=
  dk_unreadable (ca_disk c) = ∅ /\ ordered S /\
  read_pointers (ca_root c) (ca_disk c) = Ok p /\
  slot_holds (ca_root c) (ca_disk c) (cp_current_digest p) (cp_current_version p) (ac_current S) /\
  slot_holds (ca_root c) (ca_disk c) (cp_lkg_digest p) (cp_lkg_version p) (ac_last_known_good S).

Definition represents (c : Cache) (S : ActiveConfigurationSet) : Prop :=
  exists p, represents_by p c S.

(** The bundle in [b] does not share its digest with a different envelope of [S]. *)
Definition collision_free (b : bytes) (S : ActiveConfigurationSet) : Prop :=
  forall s old, deserialize_signed_configuration b = Ok s ->
    ac_current S = Some old \/ ac_last_known_good S = Some old ->
    sc_content_digest s = sc_content_digest old -> sc_envelope s = sc_envelope old.

(** The bundles the two loaders return. *)
Definition loads (c : Cache) (S : ActiveConfigurationSet) : Prop :=
  current_bundle (ca_root c) (ca_disk c) = Ok (ac_current S) /\
  lkg_bundle (ca_root c) (ca_disk c) = Ok (ac_last_known_good S).

Lemma load_bundle_holds root d dg v s :
  bundle_at root d dg v s -> load_bundle_at_digest root d dg = Ok (Some s).
Proof.
  intros (b & Hr & Hd & Hc & _). unfold load_bundle_at_digest, read_staged_bundle.
  rewrite Hr. cbn. rewrite Hd. cbn. by rewrite bool_decide_eq_true_2.
Qed.

Lemma represents_loads c S : represents c S -> loads c S.
Proof.
  intros (p & _ & _ & Hp & Hc & Hl). unfold loads, current_bundle, lkg_bundle.
  rewrite Hp. cbn. split.
  - destruct (ac_current S); [destruct Hc as (dg & v & -> & _ & Hb)|by destruct Hc as [-> _]].
    by eapply load_bundle_holds.
  - destruct (ac_last_known_good S); [destruct Hl as (dg & v & -> & _ & Hb)|by destruct Hl as [-> _]].
    by eapply load_bundle_holds.
Qed.

Definition same_at (c c' : Cache) (q : fspath) : Prop :=
  fs_read (ca_disk c') q = fs_read (ca_disk c) q /\
  fs_exists (ca_disk c') q = fs_exists (ca_disk c) q.

Lemma slot_frame c c' dg v o :
  ca_root c' = ca_root c -> (forall x, dg = Some x -> same_at c c' (staging_path (ca_root c) x)) ->
  slot_holds (ca_root c) (ca_disk c) dg v o -> slot_holds (ca_root c') (ca_disk c') dg v o.
Proof.
  intros -> Hs. unfold slot_holds, bundle_at. destruct o as [s|]; [|done].
  intros (x & y & -> & -> & b & Hb). exists x, y. split; [done|]. split; [done|].
  exists b. destruct (Hs x eq_refl) as [-> _]. done.
Qed.

Lemma represents_frame p c c' S :
  represents_by p c S -> ca_root c' = ca_root c ->
  dk_unreadable (ca_disk c') = dk_unreadable (ca_disk c) ->
  same_at c c' (pointers_path (ca_root c)) ->
  (forall x, cp_current_digest p = Some x \/ cp_lkg_digest p = Some x ->
     same_at c c' (staging_path (ca_root c) x)) ->
  represents_by p c' S.
Proof.
  intros (Hu & Ho & Hp & Hc & Hl) Hr Hu' [Hp1 Hp2] Hs.
  split; [congruence|]. split; [done|]. split; [|split].
  - rewrite <- Hp. unfold read_pointers. by rewrite Hr, Hp1, Hp2.
  - eapply slot_frame; [done| |done]. intros x Hx. apply Hs. by left.
  - eapply slot_frame; [done| |done]. intros x Hx. apply Hs. by right.
Qed.

Lemma admit_bundle_Ok b v dev s n :
  admit_bundle b v dev = Ok (s, n) ->
  deserialize_signed_configuration b = Ok s /\
  verify v (ce_schema_version (sc_envelope s)) (sc_key_id s) (envelope_bytes (sc_envelope s))
    (sc_signature s) = Ok tt /\
  sc_audience s = dev /\ version_of s = Some n.
Proof.
  unfold admit_bundle, version_of, mbind, result_bind.
  destruct (deserialize_signed_configuration b) as [s'|]; [|done].
  case_bool_decide; [|done]. cbn [negb].
  destruct (verify _ _ _ _ _) as [[]|] eqn:EV; [|done]. cbn [map_err].
  case_bool_decide; [|done]. cbn [negb]. unfold parse_bundle_version.
  destruct (parse_uint _ _) as [m|] eqn:EP; [|done]. cbn [ok_or].
  intros E%Ok_inj. apply pair_eq in E as [<- <-]. done.
Qed.

Lemma slot_wf_holds root d dg v o : slot_holds root d dg v o -> slot_wf dg v.
Proof.
  destruct o as [s|]; [|by intros [-> ->]].
  intros (x & n & -> & -> & b & _ & Hd & <- & Hv). apply deserialize_sound in Hd as (_ & _ & Hl).
  split; [done|]. by eapply parse_uint_bound.
Qed.

(** A version newer than the selected one is newer than the set's. *)
Lemma ensure_newer_Ok n p c u c' :
  ensure_newer n p c = (Ok u, c') ->
  c' = c /\ forall a, cp_current_version p = Some a -> a < n.
Proof.
  unfold ensure_newer, ensure. destruct (cp_current_version p) as [a|].
  - destruct (N.leb_spec n a); simpl; intros E; [done|]. apply pair_eq in E as [_ <-].
    split; [done|]. by intros ? [= <-].
  - intros E. apply pair_eq in E as [_ <-]. done.
Qed.

Lemma not_newer_slot root d dg v o n :
  slot_holds root d dg v o -> (forall a, v = Some a -> a < n) -> not_newer n o = false.
Proof.
  intros Ho Hn. destruct o as [s|]; [|done]. destruct Ho as (x & a & _ & -> & b & _ & _ & _ & Hv).
  unfold not_newer, configuration_version. unfold version_of in Hv. rewrite Hv. simpl.
  apply N.leb_gt. by apply Hn.
Qed.

(** The digest of a newer bundle is not that of a bundle the pointers name. *)
Lemma newer_digest_fresh b p c S s n :
  represents_by p c S -> collision_free b S -> deserialize_signed_configuration b = Ok s ->
  version_of s = Some n -> (forall a, cp_current_version p = Some a -> a < n) ->
  forall x, cp_current_digest p = Some x \/ cp_lkg_digest p = Some x -> x <> sc_content_digest s.
Proof.
  intros (_ & Ho & _ & Hc & Hl) Hf Hd Hv Hn x Hx ->.
  assert (forall old m, ac_current S = Some old \/ ac_last_known_good S = Some old ->
    sc_content_digest old = sc_content_digest s -> version_of old = Some m -> m = n) as Hsame.
  { intros old m Hold Hdg Hm. unfold version_of in *.
    rewrite <- (Hf s old Hd Hold (eq_sym Hdg)) in Hm. congruence. }
  assert (forall old m, ac_current S = Some old -> version_of old = Some m -> m < n) as Hcur.
  { intros old m Hold Hm. rewrite Hold in Hc.
    destruct Hc as (? & a & _ & Ha & _ & _ & _ & _ & Ha'). rewrite Hm in Ha'.
    apply Hn. congruence. }
  destruct Hx as [Hx|Hx].
  - destruct (ac_current S) as [old|] eqn:EC; [|by destruct Hc; congruence].
    destruct Hc as (y & m & Hy & _ & _ & _ & _ & Hdg & Hm).
    specialize (Hsame old m ltac:(by left)). specialize (Hcur old m eq_refl Hm).
    rewrite Hsame in Hcur; [lia|congruence|done].
  - destruct (ac_last_known_good S) as [old|] eqn:EL; [|by destruct Hl; congruence].
    destruct Hl as (y & m & Hy & _ & _ & _ & _ & Hdg & Hm).
    destruct (Ho old EL) as (c0 & vl & vc & Ec & El & Evc & Hlt).
    specialize (Hsame old m ltac:(by right)). specialize (Hcur c0 vc Ec Evc).
    rewrite Hsame in Hm; [|congruence|done]. rewrite El in Hm. injection Hm as ->. lia.
Qed.

(** ** The paths of the cache are apart *)

Lemma root_app_ne (root a b : fspath) : a <> b -> root ++ a <> root ++ b.
Proof. intros Hne E. by apply app_inv_head in E. Qed.

Lemma hex_tmp_ne a b : len a = 32 -> len b = 32 -> to_hex a ++ lit ".tmp" <> to_hex b.
Proof.
  intros Ha Hb E. apply (f_equal len) in E. rewrite len_app, !len_to_hex, Ha, Hb in E.
  vm_compute in E. discriminate.
Qed.

Lemma staging_path_ne root a b : a <> b -> staging_path root a <> staging_path root b.
Proof.
  intros Hne. apply root_app_ne. intros E. apply Hne, to_hex_inj. by injection E.
Qed.

Lemma staging_tmp_ne root a b :
  len a = 32 -> len b = 32 -> staging_tmp root a <> staging_path root b.
Proof.
  intros Ha Hb. apply root_app_ne. intros E. injection E as E. by apply (hex_tmp_ne a b).
Qed.

Lemma digest_lengths p c S x :
  represents_by p c S -> cp_current_digest p = Some x \/ cp_lkg_digest p = Some x -> len x = 32.
Proof.
  intros (_ & _ & _ & Hc & Hl) [Hx|Hx].
  - apply slot_wf_holds in Hc. rewrite Hx in Hc. by destruct (cp_current_version p), Hc.
  - apply slot_wf_holds in Hl. rewrite Hx in Hl. by destruct (cp_lkg_version p), Hl.
Qed.

Lemma touches_same W c c' q :
  touches W (ca_world c) (ca_world c') -> ~ W q -> same_at c c' q.
Proof. intros T Hq. apply (to_agree _ _ _ T q Hq). Qed.

Lemma staged_step p c S dg b r c1 :
  represents_by p c S -> len dg = 32 ->
  (forall x, cp_current_digest p = Some x \/ cp_lkg_digest p = Some x -> x <> dg) ->
  write_staged_bundle dg b c = (r, c1) ->
  represents_by p c1 S /\ ca_root c1 = ca_root c /\ ca_device_id c1 = ca_device_id c /\
  (is_ok r = true -> fs_read (ca_disk c1) (staging_path (ca_root c) dg) = Ok b).
Proof.
  intros Hrep Hdg Hfresh. unfold write_staged_bundle.
  rewrite (bind_step _ _ _ _ _ (eq_refl : gets ca_root c = _)). intros E.
  apply write_file_atomic_spec in E as (R & D & T & Hr); [|by apply staging_tmp_ne].
  split; [|split; [done|split; [done|]]].
  - eapply represents_frame; [done..| | |].
    + apply (to_unreadable _ _ _ T).
    + eapply touches_same; [done|]. intros [E|E]; by apply app_inv_head in E.
    + intros x Hx. eapply touches_same; [done|]. intros [E|E].
      * by apply (staging_tmp_ne (ca_root c) dg x Hdg (digest_lengths _ _ _ _ Hrep Hx)).
      * by apply (staging_path_ne (ca_root c) x dg (Hfresh x Hx)).
  - destruct r; [|done]. intros _. apply Hr. destruct Hrep as (-> & _). set_solver.
Qed.

Lemma published_step p p' c S S' g r c1 :
  represents_by p c S -> ordered S' -> g <= u64_max ->
  slot_holds (ca_root c) (ca_disk c) (cp_current_digest p') (cp_current_version p') (ac_current S') ->
  slot_holds (ca_root c) (ca_disk c) (cp_lkg_digest p') (cp_lkg_version p')
    (ac_last_known_good S') ->
  write_pointers p' g c = (r, c1) ->
  ca_root c1 = ca_root c /\ ca_device_id c1 = ca_device_id c /\
  if is_ok r then represents_by p' c1 S' else represents_by p c1 S.
Proof.
  intros Hrep Ho Hg Hc Hl. unfold write_pointers.
  rewrite (bind_step _ _ _ _ _ (eq_refl : gets ca_root c = _)). intros E.
  apply write_file_atomic_spec in E as (R & D & T & Hr);
    [|intros Ep; by apply app_inv_head in Ep].
  split; [done|]. split; [done|].
  assert (forall x, same_at c c1 (staging_path (ca_root c) x)) as Hs.
  { intros x. eapply touches_same; [done|]. intros [E|E]; by apply app_inv_head in E. }
  pose proof (to_unreadable _ _ _ T) as U. destruct r as [u|e]; simpl.
  - destruct Hrep as (Hu & _).
    split; [unfold ca_disk in *; by rewrite U|]. split; [done|]. split; [|split].
    + assert (fs_read (ca_disk c1) (pointers_path (ca_root c)) =
        Ok (serialize_pointers p' g)) as Hread by (apply Hr; rewrite Hu; set_solver).
      unfold read_pointers. rewrite R, (fs_read_exists _ _ _ Hread), Hread. cbn -[deserialize_pointers].
      apply pointers_roundtrip; [by eapply slot_wf_holds..|done].
    + by eapply slot_frame.
    + by eapply slot_frame.
  - eapply represents_frame; [done..|]. by intros x _.
Qed.

Lemma cleaned_step p c S g :
  represents_by p c S ->
  represents_by p (snd (try (clean_staging p) (set_generation g c))) S /\
  ca_device_id (snd (try (clean_staging p) (set_generation g c))) = ca_device_id c.
Proof.
  intros Hrep. pose proof (clean_staging_touches p (set_generation g c)) as (R & D & T).
  unfold try. destruct (clean_staging p (set_generation g c)) as [r c1]. cbn [snd] in *.
  split; [|exact D]. change (represents_by p c1 S).
  apply (represents_frame p (set_generation g c)); [exact Hrep|done|apply (to_unreadable _ _ _ T)| |].
  - eapply touches_same; [done|]. intros (name & E & _). by apply app_inv_head in E.
  - intros x Hx. eapply touches_same; [done|]. intros (name & E & Hun).
    apply app_inv_head in E. injection E as <-. unfold unreferenced in Hun.
    rewrite hex_parse_to_hex in Hun by (by eapply digest_lengths).
    apply andb_prop in Hun as [Hun1%negb_true_iff Hun2%negb_true_iff].
    apply bool_decide_eq_false in Hun1, Hun2. by destruct Hx.
Qed.

Lemma activate_ordered s n S :
  ordered S -> version_of s = Some n -> not_newer n (ac_current S) = false ->
  ordered (activate_verified s S).
Proof.
  intros _ Hv Hn l Hl. simpl in Hl. rewrite Hl in Hn. unfold not_newer, configuration_version in Hn.
  fold (version_of l) in Hn. destruct (version_of l) as [m|] eqn:E; [|done]. simpl in Hn.
  apply N.leb_gt in Hn. by exists s, m, n.
Qed.

Lemma activate_Ok s n v S :
  verify v (ce_schema_version (sc_envelope s)) (sc_key_id s) (envelope_bytes (sc_envelope s))
    (sc_signature s) = Ok tt ->
  version_of s = Some n -> not_newer n (ac_current S) = false ->
  activate s v S = (Ok tt, activate_verified s S).
Proof.
  intros HV Hv Hn. unfold activate, configuration_version. rewrite HV.
  fold (version_of s). rewrite Hv. simpl. by rewrite Hn.
Qed.

(** A cache whose record is [p], after a bundle of version [n] was admitted:
    what the rest of the activation leaves. *)
Lemma activation_tail p c S b s n v r c' :
  represents_by p c S -> collision_free b S -> deserialize_signed_configuration b = Ok s ->
  verify v (ce_schema_version (sc_envelope s)) (sc_key_id s) (envelope_bytes (sc_envelope s))
    (sc_signature s) = Ok tt ->
  version_of s = Some n ->
  (_ ← ensure_newer n p;
   let digest := sc_content_digest s in
   _ ← write_staged_bundle digest b;
   let g := saturating_add64 (ca_generation c) 1 in
   let p' := mkPointers (Some digest) (Some n) (cp_current_digest p) (cp_current_version p) in
   _ ← write_pointers p' g;
   _ ← modify (set_generation g);
   _ ← try (clean_staging p');
   mret (Activated n digest)) c = (r, c') ->
  ca_device_id c' = ca_device_id c /\
  match r with
  | Ok o => o = Activated n (sc_content_digest s) /\
            activate s v S = (Ok tt, activate_verified s S) /\
            represents c' (activate_verified s S)
  | Err _ => represents c' S
  end.
Proof.
  intros Hrep Hf Hd HV Hv Hrun.
  apply bind_run in Hrun as [([] & c0 & [-> Hn]%ensure_newer_Ok & Hrun)|(e & E0 & ->)].
  2: { unfold ensure_newer, ensure in E0. repeat case_match; simplify_eq. split; [done|by exists p]. }
  pose proof Hrep as (_ & Ho & _ & Hc & _). pose proof (not_newer_slot _ _ _ _ _ n Hc Hn) as Hnew.
  pose proof (deserialize_sound b s Hd) as (_ & _ & Hlen).
  pose proof (newer_digest_fresh _ _ _ _ _ _ Hrep Hf Hd Hv Hn) as Hfresh. cbv zeta in Hrun.
  apply bind_run in Hrun as [([] & c1 & E1 & Hrun)|(e & E1 & ->)];
    destruct (staged_step _ _ _ _ _ _ _ Hrep Hlen Hfresh E1) as (Hrep1 & R1 & D1 & Hb).
  2: { split; [done|by exists p]. }
  specialize (Hb eq_refl). pose proof Hrep1 as (_ & _ & _ & Hc1 & _).
  set (p' := mkPointers _ _ _ _) in Hrun. set (g := saturating_add64 _ _) in Hrun.
  assert (slot_holds (ca_root c1) (ca_disk c1) (cp_current_digest p') (cp_current_version p')
    (Some s)) as Hslot.
  { exists (sc_content_digest s), n. split; [done|]. split; [done|]. exists b.
    by rewrite R1. }
  assert (g <= u64_max) as Hg by (unfold g, saturating_add64; lia).
  pose proof (activate_ordered s n S Ho Hv Hnew) as Ho'.
  apply bind_run in Hrun as [([] & c2 & E2 & Hrun)|(e & E2 & ->)];
    destruct (published_step p p' c1 S (activate_verified s S) g _ _ Hrep1 Ho' Hg Hslot Hc1 E2)
      as (R2 & D2 & Hrep2); simpl in Hrep2.
  2: { split; [congruence|by exists p]. }
  destruct (cleaned_step _ _ _ g Hrep2) as [Hrep3 D3].
  rewrite (bind_step _ _ _ _ _ (eq_refl : modify (set_generation g) c2 = _)) in Hrun.
  destruct (try (clean_staging p') (set_generation g c2)) as [r3 c3] eqn:E3.
  cbn [snd] in Hrep3, D3. unfold mbind, M_bind in Hrun. rewrite E3 in Hrun.
  assert (exists x, r3 = Ok x) as [x ->].
  { unfold try in E3. destruct (clean_staging _ _). apply pair_eq in E3 as [<- _]. by eexists. }
  apply pair_eq in Hrun as [<- <-]. split; [congruence|]. split; [done|].
  split; [by eapply activate_Ok|by exists p'].
Qed.

(** What an activation attempt leaves of the set. *)
Lemma stage_refines b v c S r c' :
  represents c S -> collision_free b S -> stage_verify_activate b v c = (r, c') ->
  ca_device_id c' = ca_device_id c /\
  match r with
  | Ok o => exists s n S', deserialize_signed_configuration b = Ok s /\
      sc_audience s = ca_device_id c /\ configuration_version s = Ok n /\
      o = Activated n (sc_content_digest s) /\ activate s v S = (Ok tt, S') /\ represents c' S'
  | Err _ => represents c' S
  end.
Proof.
  intros [p Hrep] Hf Hrun. unfold stage_verify_activate in Hrun.
  rewrite (bind_step _ _ _ _ _ (eq_refl : gets id c = _)) in Hrun. unfold id in Hrun.
  destruct (admit_bundle b v (ca_device_id c)) as [[s n]|e] eqn:EA.
  2: { apply pair_eq in Hrun as [<- <-]. split; [done|]. by exists p. }
  rewrite (bind_step _ _ _ _ _ (eq_refl : lift (Ok (s, n)) c = _)) in Hrun. cbv beta iota in Hrun.
  pose proof Hrep as (_ & _ & Hp & _).
  rewrite Hp, (bind_step _ _ _ _ _ (eq_refl : lift (Ok p) c = _)) in Hrun.
  apply admit_bundle_Ok in EA as (Hd & HV & Ha & Hv).
  destruct (activation_tail p c S b s n v r c' Hrep Hf Hd HV Hv Hrun) as [D Hr]. split; [done|].
  destruct r as [o|e]; [|done]. destruct Hr as (-> & HA & Hr). exists s, n, (activate_verified s S).
  split; [done|]. split; [done|]. split; [|done].
  unfold configuration_version. fold (version_of s). by rewrite Hv.
Qed.

(** C8.  The durable cache refines the in-memory set.  While the cache directory
    stands for a set of current and last-known-good configurations, an activation
    attempt, wherever its disk operations fail, either succeeds, and then the
    in-memory activation of the same configuration succeeds too, the
    configuration is addressed to this device, and the directory stands for the
    set after it; or reports an error, and the directory still stands for the old
    set.  In both cases the bundles the cache loads are those of the set.  The
    digests are assumed not to collide on the bundles involved. *)
Theorem cache_refines_set b v c S r c' :
  represents c S -> collision_free b S -> stage_verify_activate b v c = (r, c') ->
  loads c S /\ ca_device_id c' = ca_device_id c /\
  match r with
  | Ok o => exists s n S', deserialize_signed_configuration b = Ok s /\
      sc_audience s = ca_device_id c /\ configuration_version s = Ok n /\
      o = Activated n (sc_content_digest s) /\ activate s v S = (Ok tt, S') /\
      represents c' S' /\ loads c' S'
  | Err _ => represents c' S /\ loads c' S
  end.
Proof.
  intros Hrep Hf Hrun. split; [by apply represents_loads|].
  apply (stage_refines _ _ _ S) in Hrun as [D Hr]; [|done..]. split; [done|].
  destruct r as [o|e]; [|split; [done|by apply represents_loads]].
  destruct Hr as (s & n & S' & Hd & Ha & Hv & Ho & HA & Hr). exists s, n, S'.
  split_and!; try done. by apply represents_loads.
Qed.
End Refinement.

(** ** Progress *)

Section Progress.
Context `{Sha256} `{Ed25519}.

(** A cache whose disk operations succeed: its two directories exist, and no
    directory stands where one of its files goes. *)
Definition healthy (c : Cache) : Prop :=
  let d := ca_disk c in
  let root := ca_root c in
  (forall i, w_plan (ca_world c) i = Done) /\
  dir_exists d root = true /\ dir_exists d (staging_dir root) = true /\
  dir_exists d (pointers_path root) = false /\ dir_exists d (temp_pointers_path root) = false /\
  (forall name, dir_exists d (staging_dir root ++ [name]) = false).

(** The parts of a cache no write of a file changes. *)
Definition steady (c : Cache) : fspath * (N -> outcome) * gset fspath :=
  (ca_root c, w_plan (ca_world c), dk_dirs (ca_disk c)).

Lemma steady_dirs c c' q : steady c' = steady c -> dir_exists (ca_disk c') q = dir_exists (ca_disk c) q.
Proof. unfold steady, dir_exists. intros [[_ _]%pair_eq ->]%pair_eq. done. Qed.

Lemma steady_healthy c c' : steady c' = steady c -> healthy c -> healthy c'.
Proof.
  intros E (Hp & Hd). pose proof (fun q => steady_dirs c c' q E) as Hdirs.
  apply pair_eq in E as [[Er Ep]%pair_eq _]. unfold healthy. rewrite Ep, Er. split; [done|].
  by setoid_rewrite Hdirs.
Qed.

Lemma write_file_atomic_done path temp b c :
  (forall i, w_plan (ca_world c) i = Done) -> removelast temp = removelast path ->
  dir_exists (ca_disk c) (removelast path) = true ->
  dir_exists (ca_disk c) temp = false -> dir_exists (ca_disk c) path = false ->
  exists c', write_file_atomic path temp b c = (Ok tt, c') /\ steady c' = steady c /\
    ca_device_id c' = ca_device_id c.
Proof.
  intros Hp Hr Hd Ht Hq. eexists. split; [|split].
  - unfold write_file_atomic, mbind, M_bind, cache_io, fs_create, fs_write_all, fs_sync,
      fs_rename, entry_error, consult, ca_disk in *.
    rewrite Hr, Hd, Ht. simpl. rewrite !Hp. simpl. rewrite !Hp. simpl. rewrite !Hp. simpl.
    rewrite lookup_insert_eq. unfold dir_exists in *. simpl. rewrite Hd, Hq. simpl.
    rewrite !Hp. reflexivity.
  - done.
  - done.
Qed.

Lemma write_staged_done dg b c :
  healthy c -> exists c', write_staged_bundle dg b c = (Ok tt, c') /\ steady c' = steady c.
Proof.
  intros (Hp & _ & Hs & _ & _ & Hn). unfold write_staged_bundle.
  rewrite (bind_step _ _ _ _ _ (eq_refl : gets ca_root c = _)).
  assert (forall name, removelast (ca_root c ++ [lit "staging"; name]) = staging_dir (ca_root c))
    as Hrl.
  { intros name. change [lit "staging"; name] with ([lit "staging"] ++ [name]).
    rewrite app_assoc. apply removelast_last. }
  assert (forall name, dir_exists (ca_disk c) (ca_root c ++ [lit "staging"; name]) = false) as Hf.
  { intros name. specialize (Hn name). unfold staging_dir in Hn. by rewrite <- app_assoc in Hn. }
  destruct (write_file_atomic_done (staging_path (ca_root c) dg) (staging_tmp (ca_root c) dg) b c)
    as (c' & E & St & _); [done| | | | |by exists c'].
  - unfold staging_path, staging_tmp. by rewrite !Hrl.
  - unfold staging_path. by rewrite Hrl.
  - apply Hf.
  - apply Hf.
Qed.

Lemma write_pointers_done p g c :
  healthy c -> exists c', write_pointers p g c = (Ok tt, c').
Proof.
  intros (Hp & Hr & _ & H1 & H2 & _). unfold write_pointers.
  rewrite (bind_step _ _ _ _ _ (eq_refl : gets ca_root c = _)).
  destruct (write_file_atomic_done (pointers_path (ca_root c)) (temp_pointers_path (ca_root c))
    (serialize_pointers p g) c) as (c' & E & _ & _); [done| | |done|done|by exists c'].
  - unfold pointers_path, temp_pointers_path. by rewrite !removelast_last.
  - unfold pointers_path. by rewrite removelast_last.
Qed.

Lemma admit_bundle_complete b v dev s n :
  deserialize_signed_configuration b = Ok s -> sc_audience s = dev ->
  verify v (ce_schema_version (sc_envelope s)) (sc_key_id s) (envelope_bytes (sc_envelope s))
    (sc_signature s) = Ok tt ->
  version_of s = Some n -> admit_bundle b v dev = Ok (s, n).
Proof.
  intros Hd Ha HV Hv. pose proof (deserialize_sound b s Hd) as (_ & Hw & _).
  destruct Hw as (_ & _ & _ & _ & _ & _ & _ & Hc & _).
  unfold admit_bundle, mbind, result_bind. rewrite Hd. cbv zeta.
  rewrite bool_decide_eq_true_2 by done. cbn [negb].
  rewrite HV. cbn [map_err]. rewrite bool_decide_eq_true_2 by done.
  cbn [negb]. unfold parse_bundle_version. unfold version_of in Hv. by rewrite Hv.
Qed.

Lemma ensure_newer_done n p c S root d :
  slot_holds root d (cp_current_digest p) (cp_current_version p) (ac_current S) ->
  not_newer n (ac_current S) = false -> ensure_newer n p c = (Ok tt, c).
Proof.
  unfold ensure_newer, not_newer, configuration_version. destruct (ac_current S) as [s|].
  - intros (dg & v & _ & -> & b & _ & _ & _ & Hv). unfold version_of in Hv. rewrite Hv.
    simpl. intros Hn. unfold ensure. by rewrite Hn.
  - by intros [_ ->].
Qed.

(** C9.  The cache makes progress: when its disk operations succeed, a
    configuration addressed to the device that the in-memory set would activate
    is activated by the cache. *)
Theorem cache_accepts b v c S s S' :
  represents c S -> healthy c -> deserialize_signed_configuration b = Ok s ->
  sc_audience s = ca_device_id c -> activate s v S = (Ok tt, S') ->
  exists n c', configuration_version s = Ok n /\
    stage_verify_activate b v c = (Ok (Activated n (sc_content_digest s)), c').
Proof.
  intros [p (_ & _ & Hp & Hc & _)] Hh Hd Ha HA. unfold activate in HA.
  destruct (verify _ _ _ _ _) as [[]|] eqn:HV; [|done].
  destruct (configuration_version s) as [n|] eqn:Hn; [|done].
  destruct (not_newer n (ac_current S)) eqn:Hnew; [done|].
  assert (version_of s = Some n) as Hv.
  { unfold configuration_version in Hn. unfold version_of.
    destruct (parse_uint _ _); [|done]. by apply Ok_inj in Hn as ->. }
  exists n. unfold stage_verify_activate.
  rewrite (bind_step _ _ _ _ _ (eq_refl : gets id c = _)). unfold id.
  rewrite (admit_bundle_complete b v _ s n Hd Ha HV Hv).
  rewrite (bind_step _ _ _ _ _ (eq_refl : lift (Ok (s, n)) c = _)). cbv beta iota.
  rewrite Hp, (bind_step _ _ _ _ _ (eq_refl : lift (Ok p) c = _)).
  rewrite (bind_step _ _ _ _ _ (ensure_newer_done n p c S _ _ Hc Hnew)). cbv zeta.
  destruct (write_staged_done (sc_content_digest s) b c Hh) as (c1 & E1 & St).
  rewrite (bind_step _ _ _ _ _ E1).
  match goal with |- context [write_pointers ?q ?g] =>
    destruct (write_pointers_done q g c1 (steady_healthy c c1 St Hh)) as [c2 E2] end.
  rewrite (bind_step _ _ _ _ _ E2).
  match goal with |- context [modify ?f] =>
    rewrite (bind_step _ _ _ _ _ (eq_refl : modify f c2 = _)) end.
  unfold mbind, M_bind, try.
  match goal with |- context [clean_staging ?q ?x] => destruct (clean_staging q x) as [r3 c3] end.
  by exists c3.
Qed.
End Progress.

(** ** A concrete cache *)

From S2P Require Import Toy.

Module Bundles.

Definition device : bytes := lit "device-01".
Definition key_name : bytes := lit "key-01".
Definition seed : bytes := repeat x07 32.

(** A configuration of the given version, signed for [device]. *)
Definition bundle (version : string) : SignedConfigurationV1 :=
  let e := mkEnvelope API_VERSION_V1 CONFIGURATION_SCHEMA_VERSION_V1 device (lit version)
             1700000000 (lit "allow") in
  mkSigned API_VERSION_V1 e key_name (sign_with_seed seed (envelope_bytes e))
    (sha256 (envelope_bytes e)) device.

Definition verifier : ConfigurationVerifier := mkVerifier key_name (public_of_seed seed).

Definition cache_root : fspath := [lit "c"].
Definition cache : Cache :=
  mkCache cache_root device 0
    (mkWorld (mkDisk ∅ (list_to_set [cache_root; staging_dir cache_root]) ∅) (fun _ => Done) 0
       (fun _ => []) 0 id 0 1 1 1 1).
Definition empty_set : ActiveConfigurationSet := mkActive None None.

Lemma cache_represents : represents cache empty_set.
Proof. exists pointers_default. repeat split; done. Qed.

Lemma cache_healthy : healthy cache.
Proof.
  repeat split; try done. intros name. apply bool_decide_eq_false_2.
  unfold cache, ca_disk, staging_dir. simpl. set_solver.
Qed.
End Bundles.

Import Bundles.

Lemma signed_codec_witness :
  deserialize_signed_configuration (serialize_signed_configuration (bundle "7")) = Ok (bundle "7").
Proof.
  apply (signed_codec toy_sha256_laws). split; [reflexivity|].
  repeat split; vm_compute; first [reflexivity|discriminate].
Defined.

Lemma cache_refines_set_witness :
  let b := serialize_signed_configuration (bundle "7") in
  let run := stage_verify_activate b verifier cache in
  is_ok (fst run) = true /\
  (loads cache empty_set /\ ca_device_id (snd run) = ca_device_id cache /\
   match fst run with
   | Ok o => exists s n S', deserialize_signed_configuration b = Ok s /\
       sc_audience s = ca_device_id cache /\ configuration_version s = Ok n /\
       o = Activated n (sc_content_digest s) /\ activate s verifier empty_set = (Ok tt, S') /\
       represents (snd run) S' /\ loads (snd run) S'
   | Err _ => represents (snd run) empty_set /\ loads (snd run) empty_set
   end).
Proof.
  cbv zeta. split; [vm_compute; reflexivity|].
  apply cache_refines_set; [exact cache_represents| |apply surjective_pairing].
  intros s old _ [E|E]; discriminate E.
Defined.

Lemma cache_accepts_witness :
  exists n c', configuration_version (bundle "7") = Ok n /\
    stage_verify_activate (serialize_signed_configuration (bundle "7")) verifier cache =
      (Ok (Activated n (sc_content_digest (bundle "7"))), c').
Proof.
  apply (cache_accepts _ verifier cache empty_set (bundle "7") (mkActive (Some (bundle "7")) None)).
  - exact cache_represents.
  - exact cache_healthy.
  - vm_compute. reflexivity.
  - reflexivity.
  - vm_compute. reflexivity.
Defined.

(** A pointer record that lost the version of its current bundle is not rejected
    as corrupt: the failed read counts as version zero, below which no version
    is stale. *)
Theorem truncated_pointer_accepted (d : bytes) :
  len d = 32 ->
  deserialize_pointers (POINTER_MAGIC ++ to_be 8 POINTER_SCHEMA_VERSION ++ to_be 8 1
    ++ x01 :: d ++ [x00]) = Ok (mkPointers (Some d) (Some 0) None None).
Proof.
  intros Hd. unfold deserialize_pointers.
  enough (read_pointer_record (POINTER_MAGIC ++ to_be 8 POINTER_SCHEMA_VERSION ++ to_be 8 1
    ++ x01 :: d ++ [x00]) = Ok (mkPointers (Some d) (Some 0) None None, [])) as -> by done.
  unfold read_pointer_record. do 5 (read_step; [done|]).
  apply read_bind_Ok. exists (Some d), [x00]. split; [|reflexivity].
  unfold read_optional_digest. apply read_bind_Ok. eexists x01, _. split; [reflexivity|].
  apply read_bind_Ok. exists d, [x00]. split; [by apply read_take_Ok|done].
Qed.
