(* ===== verification/Pipe.v ===== *)
(** * Pipe

    The authenticated pipe between the service and the drive host: framing,
    validation of requests, the service's side of the handshake
    (crates/dlp-windows-service/src/pipe.rs) and the host's side
    (crates/dlp-windows-drive/src/bin/dlp-drive-host.rs).

    A side of the handshake is a function of the bytes its peer will have sent,
    and returns its result with the bytes it sent itself.  What the kernel says
    of the connected client is an argument.  serde_json is third-party code: its
    calls are the members of the class [PipeJson]. *)

From S2P Require Import Prelude Bytes Text Reader Domain Fs Store Drive.

Definition MAX_MESSAGE_BYTES : N := 64 * 1024.

Record StorageRequest := mkRequest {
  rq_version : N;
  rq_session_id : N;
  rq_host_pid : N;
  rq_generation : N;
  rq_user_sid : bytes;
}.

Record StorageResponse := mkResponse {
  rs_accepted : bool;
  rs_code : bytes;
}.

Record StorageBootstrap := mkStorageBootstrap {
  sb_version : N;
  sb_session_id : N;
  sb_generation : N;
  sb_user_sid : bytes;
  sb_store_id : bytes;
  sb_store_root : fspath;
  sb_preferred_letter : N;
  sb_store_key : bytes;
}.

Definition StorageBootstrap_new (session_id generation : N) (user_sid store_id : bytes)
    (store_root : fspath) (preferred_letter : N) (store_key : bytes) : StorageBootstrap :=
  mkStorageBootstrap BOOTSTRAP_PROTOCOL_VERSION session_id generation user_sid store_id
    store_root preferred_letter store_key.

Inductive PipeAuthError :=
| InvalidMessage
| WrongIdentity
| StaleGeneration
| Oversized
| PipeUnavailable
| AuthenticationFailed
| BootstrapFailed
| ProtocolMismatch.

#[export] Instance PipeAuthError_eq_dec : EqDecision PipeAuthError.
Proof. solve_decision. Defined.

(** ** Frames *)

(** [to_be 4] keeps the low 32 bits, as the cast [as u32] does. *)
Definition encode_frame (b : bytes) : bytes := to_be 4 (len b) ++ b.

Definition decode_frame (b : bytes) : result PipeAuthError (bytes * N) :=
  if len b <? 4 then Err InvalidMessage
  else
    let length := from_be (fst (split_at 4 b)) in
    if MAX_MESSAGE_BYTES <? length then Err Oversized
    else if len b <? 4 + length then Err InvalidMessage
    else Ok (fst (split_at length (snd (split_at 4 b))), 4 + length).

(** Two [read_exact] calls: a length of at most [MAX_MESSAGE_BYTES], then that
    many bytes; [short_length] and [short_body] are the errors of an early end. *)
Definition read_frame {E} (short_length oversized short_body : E) : reader E bytes :=
  n ← read_be short_length 4;
  _ ← read_guard oversized (negb (MAX_MESSAGE_BYTES <? n));
  read_take short_body n.

(** A step that reads nothing: a decoded value or an error. *)
Definition read_option {E A} (e : E) (o : option A) : reader E A := fun s =>
  match o with Some a => Ok (a, s) | None => Err e end.

(** ** Requests *)

Definition validate_request (expected_sid : bytes) (expected_session expected_generation : N)
    (r : StorageRequest) : result PipeAuthError unit :=
  if negb (rq_version r =? BOOTSTRAP_PROTOCOL_VERSION) then Err ProtocolMismatch
  else if (rq_session_id r =? 0) || (rq_host_pid r =? 0) then Err InvalidMessage
  else if negb (rq_session_id r =? expected_session) then Err WrongIdentity
  else if negb (rq_generation r =? expected_generation) then Err StaleGeneration
  else if negb (bool_decide (rq_user_sid r = []))
          && negb (bool_decide (result_ok (UserSid_parse (rq_user_sid r)) = Some expected_sid))
  then Err WrongIdentity
  else Ok tt.

(** The calls to serde_json on the two sides of the pipe. *)
Class PipeJson := {
  host_request_to_vec : StorageRequest -> bytes;
  request_from_slice : bytes -> option StorageRequest;
  response_to_vec : StorageResponse -> bytes;
  (** [None]: not JSON; otherwise the boolean member [accepted], absent as [None]. *)
  response_accepted : bytes -> option (option bool);
  bootstrap_to_vec : StorageBootstrap -> option bytes;
  bootstrap_from_slice : bytes -> option HostBootstrap;
  ack_to_vec : N -> bytes;
  ack_from_slice : bytes -> option N;
}.

(** The host's mirror of the bootstrap. *)
Definition mirror (b : StorageBootstrap) : HostBootstrap :=
  mkBootstrap (sb_version b) (sb_session_id b) (sb_generation b) (sb_user_sid b) (sb_store_id b)
    (sb_store_root b) (sb_preferred_letter b) (sb_store_key b).

(** What the sources rely on: decoding inverts encoding of the same shape. *)
Class PipeJsonLaws (J : PipeJson) := {
  request_roundtrip r : request_from_slice (host_request_to_vec r) = Some r;
  response_roundtrip r : response_accepted (response_to_vec r) = Some (Some (rs_accepted r));
  bootstrap_roundtrip b x : bootstrap_to_vec b = Some x -> bootstrap_from_slice x = Some (mirror b);
  ack_roundtrip c : ack_from_slice (ack_to_vec c) = Some c;
}.

(** What the kernel reports of the connected client: whether the connection was
    made, the process, and the user and session of its token. *)
Record Client := mkClient {
  cl_connected : bool;
  cl_pid : option N;
  cl_impersonated : bool;
  cl_token : option (bytes * N);
}.

(** Who the service launched. *)
Record Expected := mkExpected {
  ex_pid : N;
  ex_sid : bytes;
  ex_session : N;
  ex_generation : N;
}.

(** The checks of [accept_and_authenticate] before it reads. *)
Definition check_client (c : Client) (e : Expected) : result PipeAuthError unit :=
  if negb (cl_connected c) then Err PipeUnavailable
  else
    pid ← ok_or AuthenticationFailed (cl_pid c);
    if negb (pid =? ex_pid e) then Err WrongIdentity
    else if negb (cl_impersonated c) then Err AuthenticationFailed
    else
      '(sid, session) ← ok_or AuthenticationFailed (cl_token c);
      if negb (session =? ex_session e) then Err WrongIdentity
      else if negb (bool_decide (sid = ex_sid e)) then Err WrongIdentity
      else Ok tt.

Section Handshake.
Context `{PipeJson}.

Definition decode_request (b : bytes) : result PipeAuthError StorageRequest :=
  if MAX_MESSAGE_BYTES <? len b then Err Oversized
  else ok_or InvalidMessage (request_from_slice b).

Definition accepted_response : StorageResponse := mkResponse true (lit "ok").

(** Read and validate the request; the rest of the input is returned. *)
Definition read_request (e : Expected) (input : bytes) : result PipeAuthError bytes :=
  '(b, rest) ← read_frame InvalidMessage Oversized InvalidMessage input;
  r ← ok_or InvalidMessage (request_from_slice b);
  _ ← validate_request (ex_sid e) (ex_session e) (ex_generation e) r;
  Ok rest.

(** Read the drive-letter acknowledgement. *)
Definition read_ack (input : bytes) : result PipeAuthError N :=
  '(b, _) ← read_frame InvalidMessage Oversized InvalidMessage input;
  letter ← ok_or InvalidMessage (ack_from_slice b);
  Ok (char_upper letter).

(** [accept_and_authenticate]: the drive letter or an error, and what was sent. *)
Definition accept_and_authenticate (c : Client) (e : Expected) (b : StorageBootstrap)
    (input : bytes) : result PipeAuthError N * bytes :=
  match check_client c e with
  | Err x => (Err x, [])
  | Ok _ =>
      match read_request e input with
      | Err x => (Err x, [])
      | Ok rest =>
          let accepted := encode_frame (response_to_vec accepted_response) in
          match bootstrap_to_vec b with
          | None => (Err BootstrapFailed, accepted)
          | Some v => (read_ack rest, accepted ++ encode_frame v)
          end
      end
  end.

(** ** The host's side *)

(** The request [authenticate_to_service] sends. *)
Definition host_request (session_id generation pid : N) : bytes :=
  encode_frame (host_request_to_vec
    (mkRequest BOOTSTRAP_PROTOCOL_VERSION session_id pid generation [])).

(** What [authenticate_to_service] makes of the service's answer; what follows it is
    left in the pipe. *)
Definition read_answer : reader string HostBootstrap :=
  r ← read_frame "pipe_read_length_failed"%string "bootstrap_oversized"%string
        "pipe_read_failed"%string;
  accepted ← read_option "response_decode_failed"%string (response_accepted r);
  _ ← read_guard "pipe_auth_rejected"%string (default false accepted);
  b ← read_frame "bootstrap_length_read_failed"%string "bootstrap_oversized"%string
        "bootstrap_read_failed"%string;
  read_option "bootstrap_decode_failed"%string (bootstrap_from_slice b).

Definition host_receive (input : bytes) : result string HostBootstrap :=
  '(b, _) ← read_answer input;
  Ok b.

(** [send_drive_letter_ack]. *)
Definition drive_letter_ack (letter : N) : bytes := encode_frame (ack_to_vec letter).
End Handshake.

(** [run_control_loop]: messages are read and dropped until the input ends, or
    one is too long; with fuel for each message, which takes four bytes at least. *)
Fixpoint control_loop (fuel : nat) (input : bytes) : option (result string unit) :=
  match fuel with
  | O => None
  | S f =>
      match read_be tt 4 input with
      | Err _ => Some (Ok tt)
      | Ok (n, rest) =>
          if MAX_MESSAGE_BYTES <? n then Some (Err "control_message_oversized"%string)
          else match read_take tt n rest with
               | Err _ => Some (Ok tt)
               | Ok (_, rest') => control_loop f rest'
               end
      end
  end.

Definition run_control_loop (input : bytes) : option (result string unit) :=
  control_loop (S (length input)) input.

(** ** Lemmas *)

Lemma max_message_u32 (b : bytes) : len b <= MAX_MESSAGE_BYTES -> len b < 256 ^ 4.
Proof. unfold MAX_MESSAGE_BYTES. simpl. lia. Qed.

Lemma read_frame_encode {E} (e1 e2 e3 : E) b rest :
  len b <= MAX_MESSAGE_BYTES -> read_frame e1 e2 e3 (encode_frame b ++ rest) = Ok (b, rest).
Proof.
  intros Hb. unfold read_frame, encode_frame. rewrite <- app_assoc.
  read_step; [by apply max_message_u32|].
  read_step; [by rewrite (proj2 (N.ltb_ge _ _))|]. by apply read_take_Ok.
Qed.

Lemma decode_encode_frame b rest :
  len b <= MAX_MESSAGE_BYTES -> decode_frame (encode_frame b ++ rest) = Ok (b, 4 + len b).
Proof.
  intros Hb. unfold decode_frame, encode_frame. rewrite <- app_assoc, !len_app, len_to_be.
  change (N.of_nat 4) with 4. rewrite (proj2 (N.ltb_ge _ 4)) by lia.
  assert (split_at 4 (to_be 4 (len b) ++ b ++ rest) = (to_be 4 (len b), b ++ rest)) as ->.
  { rewrite <- (split_at_app (to_be 4 (len b)) (b ++ rest)). by rewrite len_to_be. }
  cbn [fst snd].
  rewrite from_to_be by by apply max_message_u32. rewrite (proj2 (N.ltb_ge _ (len b))) by done.
  rewrite (proj2 (N.ltb_ge _ _)) by lia. by rewrite split_at_app.
Qed.

Lemma validate_request_Ok sid session generation r :
  validate_request sid session generation r = Ok tt ->
  rq_version r = BOOTSTRAP_PROTOCOL_VERSION /\ rq_session_id r = session /\
  rq_generation r = generation /\ rq_host_pid r <> 0 /\
  (rq_user_sid r = [] \/ rq_user_sid r = sid).
Proof.
  unfold validate_request. intros E.
  destruct (N.eqb_spec (rq_version r) BOOTSTRAP_PROTOCOL_VERSION); [|done]. simpl in E.
  destruct (N.eqb_spec (rq_session_id r) 0), (N.eqb_spec (rq_host_pid r) 0); try done. simpl in E.
  destruct (N.eqb_spec (rq_session_id r) session); [|done].
  destruct (N.eqb_spec (rq_generation r) generation); [|done]. simpl in E.
  repeat split; try done. case_bool_decide as Hs; [by left|]. simpl in E.
  case_bool_decide as Hp; [|done]. right.
  destruct (UserSid_parse (rq_user_sid r)) as [s|] eqn:EP; [|done]. simpl in Hp.
  apply parse_identifier_Ok in EP as [-> _]. by injection Hp.
Qed.

Lemma check_client_Ok c e :
  check_client c e = Ok tt <->
  cl_connected c = true /\ cl_pid c = Some (ex_pid e) /\ cl_impersonated c = true /\
  cl_token c = Some (ex_sid e, ex_session e).
Proof.
  unfold check_client, mbind, result_bind. split.
  - destruct (cl_connected c); [|done]. simpl. destruct (cl_pid c) as [p|]; [|done]. simpl.
    destruct (N.eqb_spec p (ex_pid e)) as [->|]; [|done]. simpl.
    destruct (cl_impersonated c); [|done]. simpl.
    destruct (cl_token c) as [[s n]|]; [|done]. simpl.
    destruct (N.eqb_spec n (ex_session e)) as [->|]; [|done]. simpl.
    by case_bool_decide as Hs; [rewrite Hs|].
  - intros (-> & -> & -> & ->). simpl. rewrite !N.eqb_refl. simpl.
    by rewrite bool_decide_eq_true_2.
Qed.

Section Theorems.
Context `{PipeJson}.

(** C26.  The service sends nothing on the pipe, and so no key, unless the kernel
    reported the connected client to be the process that was launched, running as
    the captured user in the captured session, and that client sent a framed
    request of the current protocol version that names the session and the
    generation of this launch and, if it names a user, this user. *)
Theorem bootstrap_only_to_host c e b input :
  snd (accept_and_authenticate c e b input) <> [] ->
  (cl_connected c = true /\ cl_pid c = Some (ex_pid e) /\
   cl_token c = Some (ex_sid e, ex_session e)) /\
  exists v r rest, len v <= MAX_MESSAGE_BYTES /\ input = encode_frame v ++ rest /\
    request_from_slice v = Some r /\ rq_version r = BOOTSTRAP_PROTOCOL_VERSION /\
    rq_session_id r = ex_session e /\ rq_generation r = ex_generation e /\
    (rq_user_sid r = [] \/ rq_user_sid r = ex_sid e).
Proof.
  unfold accept_and_authenticate. destruct (check_client c e) as [[]|] eqn:EC; [|done].
  apply check_client_Ok in EC as (HC & HP & _ & HT).
  destruct (read_request e input) as [rest|] eqn:ER; [|done]. intros _. split; [done|].
  unfold read_request, mbind, result_bind in ER.
  destruct (read_frame _ _ _ input) as [[v rest']|] eqn:EF; [|done].
  destruct (request_from_slice v) as [r|] eqn:EV; [|done]. simpl in ER.
  destruct (validate_request _ _ _ r) as [[]|] eqn:EA; [|done]. apply Ok_inj in ER as ->.
  apply validate_request_Ok in EA as (H1 & H2 & H3 & _ & H4).
  unfold read_frame in EF. inv_reader. exists v, r, rest.
  match goal with H : negb _ = true |- _ => apply negb_true_iff, N.ltb_ge in H end.
  unfold encode_frame. rewrite <- app_assoc. done.
Qed.

(** The host reads the bootstrap the service sends, and no more. *)
Lemma read_answer_Ok {Hlaws : PipeJsonLaws _} b v rest :
  bootstrap_to_vec b = Some v -> len v <= MAX_MESSAGE_BYTES ->
  len (response_to_vec accepted_response) <= MAX_MESSAGE_BYTES ->
  read_answer (encode_frame (response_to_vec accepted_response) ++ encode_frame v ++ rest) =
  Ok (mirror b, rest).
Proof.
  intros HV Lv La. apply read_bind_Ok. eexists _, _. split; [by apply read_frame_encode|].
  apply read_bind_Ok. eexists (Some true), _. split; [unfold read_option; by rewrite response_roundtrip|].
  read_step; [done|]. apply read_bind_Ok. eexists _, _. split; [by apply read_frame_encode|].
  unfold read_option. by rewrite (bootstrap_roundtrip _ _ HV).
Qed.

(** The handshake completes.  Given that JSON decoding inverts encoding and
    that the messages fit a frame: the service, connected to the host it launched
    and receiving the request the host sends and then its acknowledgement of a
    letter, answers with that letter; the host, receiving what the service sends,
    obtains the bootstrap; and the host admits that bootstrap, as the identity and
    key of the session it was launched for. *)
Theorem handshake_completes (Hlaws : PipeJsonLaws _) c e root preferred key store v letter args :
  let b := StorageBootstrap_new (ex_session e) (ex_generation e) (ex_sid e) store root preferred key in
  let request := mkRequest BOOTSTRAP_PROTOCOL_VERSION (ex_session e) (ex_pid e) (ex_generation e) [] in
  check_client c e = Ok tt -> ex_session e <> 0 -> ex_pid e <> 0 ->
  bootstrap_to_vec b = Some v -> len v <= MAX_MESSAGE_BYTES ->
  len (host_request_to_vec request) <= MAX_MESSAGE_BYTES ->
  len (response_to_vec accepted_response) <= MAX_MESSAGE_BYTES ->
  len (ack_to_vec letter) <= MAX_MESSAGE_BYTES ->
  identifier false (ex_sid e) -> identifier false store ->
  len key = 32 -> forallb (fun x => Byte.eqb x x00) key = false ->
  ha_session_id args = ex_session e -> ha_generation args = ex_generation e ->
  let '(r, sent) := accept_and_authenticate c e b
    (host_request (ex_session e) (ex_generation e) (ex_pid e) ++ drive_letter_ack letter) in
  r = Ok (char_upper letter) /\ host_receive sent = Ok (mirror b) /\
  admit_bootstrap args (mirror b) = Ok (mkIdentity (ex_sid e) store, key).
Proof.
  cbv zeta. intros HC Hs Hp HV Lv Lr La Lk Hsid Hst Hk Hz As Ag.
  unfold accept_and_authenticate. rewrite HC.
  unfold read_request, host_request, mbind, result_bind.
  rewrite read_frame_encode, request_roundtrip by done. cbn [ok_or].
  unfold validate_request. cbn [rq_version rq_session_id rq_host_pid rq_generation rq_user_sid].
  rewrite !N.eqb_refl, !(proj2 (N.eqb_neq _ _)) by done. cbn [negb orb].
  rewrite bool_decide_eq_true_2 by done. cbn [negb andb]. rewrite HV. split; [|split].
  - unfold read_ack, drive_letter_ack, mbind, result_bind.
    rewrite <- (app_nil_r (encode_frame _)), read_frame_encode, ack_roundtrip by done. done.
  - unfold host_receive. rewrite <- (app_nil_r (encode_frame v)).
    unfold mbind, result_bind. by rewrite (read_answer_Ok _ v [] HV).
  - unfold admit_bootstrap. cbn -[BOOTSTRAP_PROTOCOL_VERSION].
    rewrite As, Ag, !N.eqb_refl. cbn [negb orb]. unfold UserSid_parse, StoreId_parse.
    rewrite Hsid, Hst. cbn. by rewrite Hk, Hz.
Qed.
End Theorems.

(** The control loop always has the fuel to run to the end of its input. *)
Lemma control_loop_fuel f input : (length input < f)%nat -> is_Some (control_loop f input).
Proof.
  revert input. induction f as [|f IH]; intros input Hf; [lia|]. cbn [control_loop].
  destruct (read_be tt 4 input) as [[n rest]|] eqn:E1; [|by eexists].
  destruct (MAX_MESSAGE_BYTES <? n); [by eexists|].
  destruct (read_take tt n rest) as [[x rest']|] eqn:E2; [|by eexists].
  apply IH. apply read_be_Ok in E1 as [-> _]. apply read_take_Ok in E2 as [-> _].
  rewrite !length_app, length_to_be in Hf. lia.
Qed.

Lemma run_control_loop_total input : is_Some (run_control_loop input).
Proof. apply control_loop_fuel. lia. Qed.

(** ** A concrete encoding *)

(** Stand-in for serde_json: a value is its number in an enumeration. *)
Module ToyJson.

Definition to_vec {A} `{Countable A} (a : A) : bytes :=
  let n := Npos (encode a) in to_le (N.to_nat (N.size n / 8 + 1)) n.
Definition from_slice {A} `{Countable A} (b : bytes) : option A :=
  match from_le b with Npos p => decode p | N0 => None end.

Lemma from_to_vec {A} `{Countable A} (a : A) : from_slice (to_vec a) = Some a.
Proof.
  unfold from_slice, to_vec. rewrite from_to_le; [apply decode_encode|].
  set (n := Npos (encode a)). rewrite N2Nat.id. change 256 with (2 ^ 8). rewrite <- N.pow_mul_r.
  eapply N.lt_le_trans; [apply N.size_gt|]. apply N.pow_le_mono_r; [done|].
  pose proof (N.div_mod (N.size n) 8 ltac:(done)). pose proof (N.mod_lt (N.size n) 8 ltac:(done)). lia.
Qed.

Definition of_bootstrap (b : StorageBootstrap) : N * N * N * bytes * bytes * fspath * N * bytes :=
  (sb_version b, sb_session_id b, sb_generation b, sb_user_sid b, sb_store_id b, sb_store_root b,
   sb_preferred_letter b, sb_store_key b).
Definition to_bootstrap (x : N * N * N * bytes * bytes * fspath * N * bytes) : HostBootstrap :=
  let '(v, s, g, u, t, r, l, k) := x in mkBootstrap v s g u t r l k.
Definition of_request (r : StorageRequest) : N * N * N * N * bytes :=
  (rq_version r, rq_session_id r, rq_host_pid r, rq_generation r, rq_user_sid r).
Definition to_request (x : N * N * N * N * bytes) : StorageRequest :=
  let '(v, s, p, g, u) := x in mkRequest v s p g u.

#[export] Instance toy_json : PipeJson := {|
  host_request_to_vec r := to_vec (of_request r);
  request_from_slice b := to_request <$> from_slice b;
  response_to_vec r := to_vec (rs_accepted r, rs_code r);
  response_accepted b := (fun x : bool * bytes => Some x.1) <$> from_slice b;
  bootstrap_to_vec b := Some (to_vec (of_bootstrap b));
  bootstrap_from_slice b := to_bootstrap <$> from_slice b;
  ack_to_vec c := to_vec c;
  ack_from_slice b := from_slice b;
|}.

#[export] Instance toy_json_laws : PipeJsonLaws toy_json.
Proof.
  split; simpl.
  - intros []. by rewrite from_to_vec.
  - intros []. by rewrite from_to_vec.
  - intros [] x [= <-]. by rewrite from_to_vec.
  - intros c. apply from_to_vec.
Qed.

Definition expected : Expected := mkExpected 4242 (lit "S-1-5-21-7") 2 9.
Definition client : Client := mkClient true (Some 4242) true (Some (lit "S-1-5-21-7", 2)).
Definition args : HostArgs := mkHostArgs (lit "p") 2 9.
Definition key : bytes := repeat x07 32.
Definition sent_bootstrap : StorageBootstrap :=
  StorageBootstrap_new 2 9 (lit "S-1-5-21-7") (lit "sid-1") [lit "d"] 80 key.
Definition conversation : bytes := host_request 2 9 4242 ++ drive_letter_ack 113.
End ToyJson.

Import ToyJson.

Lemma bootstrap_only_to_host_witness :
  snd (accept_and_authenticate client expected sent_bootstrap conversation) <> [] /\
  cl_pid client = Some (ex_pid expected).
Proof.
  assert (snd (accept_and_authenticate client expected sent_bootstrap conversation) <> []) as Hs
    by (vm_compute; discriminate).
  split; [exact Hs|].
  exact (proj1 (proj2 (proj1 (bootstrap_only_to_host client expected sent_bootstrap conversation Hs)))).
Defined.

Lemma handshake_completes_witness :
  let '(r, sent) := accept_and_authenticate client expected sent_bootstrap conversation in
  r = Ok (char_upper 113) /\ host_receive sent = Ok (mirror sent_bootstrap) /\
  admit_bootstrap args (mirror sent_bootstrap) = Ok (mkIdentity (lit "S-1-5-21-7") (lit "sid-1"), key).
Proof.
  apply (handshake_completes toy_json_laws client expected [lit "d"] 80 key (lit "sid-1")
    (to_vec (of_bootstrap sent_bootstrap)) 113 args);
    solve [reflexivity | discriminate | vm_compute; reflexivity | vm_compute; discriminate].
Defined.
