(* ===== verification/Session.v ===== *)
(** * Session

    The session half of the Windows service
    (crates/dlp-windows-service/src/session.rs): eligible sessions, drive-letter
    selection, the retry timer, mount actors and the monitor that owns them.

    The monitor's providers (tokens, pipes, store keys, the launcher and the
    handshake on the launched host) are injected traits over Windows calls; here
    they are functions, and an event of the system is a step of the monitor. *)

From S2P Require Import Prelude Bytes Text Domain Crypto Fs Store Drive Pipe.

Inductive SessionDiagnostic :=
| IdentityRejected
| KeyUnavailable
| PipeAuthFailed
| HostLaunchFailed
| MountFailed
| DrainTimeout
| RecoveryFailed.

Inductive SessionError :=
| InvalidIdentity
| TokenUnavailable
| StoreKeyFailure
| SessionPipeUnavailable
| HostUnavailable
| NotImplemented.

#[export] Instance SessionDiagnostic_eq_dec : EqDecision SessionDiagnostic.
Proof. solve_decision. Defined.
#[export] Instance SessionError_eq_dec : EqDecision SessionError.
Proof. solve_decision. Defined.

(** ** Eligible sessions *)

Record EligibleSession := mkSession {
  se_session_id : N;
  se_user_sid : bytes;
  se_store_id : bytes;
  se_generation : N;
}.

#[export] Instance EligibleSession_eq_dec : EqDecision EligibleSession.
Proof. solve_decision. Defined.

(** [stable_sid_digest]: the first 64 hexadecimal digits. *)
Definition stable_sid_digest `{Sha256} (sid : bytes) : bytes := take 64 (to_hex (sha256 sid)).

(** [EligibleSession::new]; [next] is the static [ACTOR_GENERATION]. *)
Definition EligibleSession_new `{Sha256} (session_id : N) (user_sid : bytes) (next : N) :
    result SessionError EligibleSession * N :=
  if session_id =? 0 then (Err InvalidIdentity, next)
  else match StoreId_parse (lit "sid-" ++ stable_sid_digest user_sid) with
       | Err _ => (Err InvalidIdentity, next)
       | Ok store_id =>
           (Ok (mkSession session_id user_sid store_id next), wrapping_add64 next 1)
       end.

Definition store_identity (s : EligibleSession) : CapturedStoreIdentity :=
  mkIdentity (se_user_sid s) (se_store_id s).

(** ** Drive letters *)

(** [MountManager::select_target]: the preferred letter, then the following ones
    cyclically; without a preferred letter, all in order. *)
Definition ordered_letters (preferred : N) : list N :=
  match list_find (fun x => x = preferred) all_letters with
  | Some (idx, _) =>
      default 0 (all_letters !! idx)
      :: map (fun offset => default 0 (all_letters !! ((idx + offset) mod 24)%nat)) (seq 1 23)
  | None => all_letters
  end.

Definition select_target (preferred : N) (occupied : list N) : option N :=
  snd <$> list_find (fun c => c ∉ occupied) (ordered_letters preferred).

(** ** The retry timer, in seconds *)

Record RetryTimer := mkRetry {
  rt_last_attempt : option N;
  rt_next_delay : N;
  rt_cap : N;
}.

Definition RetryTimer_new (cap_seconds : N) : RetryTimer := mkRetry None 1 cap_seconds.

Definition record_attempt (now : N) (t : RetryTimer) : RetryTimer :=
  mkRetry (Some now) (N.min (rt_next_delay t * 2) (rt_cap t)) (rt_cap t).

Definition retry_reset (t : RetryTimer) : RetryTimer := mkRetry None 1 (rt_cap t).

(** [duration_since] is zero when [now] is earlier. *)
Definition retry_due (now : N) (t : RetryTimer) : bool :=
  match rt_last_attempt t with
  | Some last => rt_next_delay t <=? now - last
  | None => true
  end.

(** ** Actors *)

Inductive MountState :=
| Starting
| Mounted
| Draining
| Stopped
| Failed.

#[export] Instance MountState_eq_dec : EqDecision MountState.
Proof. solve_decision. Defined.

Record MountActor := mkActor {
  ma_session : EligibleSession;
  ma_state : MountState;
  ma_retry : RetryTimer;
  ma_diagnostic : option SessionDiagnostic;
  ma_drive_letter : option N;
  ma_host_pid : option N;
  ma_reject_new_opens : bool;
}.

Definition MountActor_new (s : EligibleSession) : MountActor :=
  mkActor s Starting (RetryTimer_new 300) None None None false.

Definition set_mounted (letter pid : N) (a : MountActor) : MountActor :=
  mkActor (ma_session a) Mounted (retry_reset (ma_retry a)) None (Some letter) (Some pid)
    (ma_reject_new_opens a).

Definition set_failed (d : SessionDiagnostic) (a : MountActor) : MountActor :=
  mkActor (ma_session a) Failed (ma_retry a) (Some d) (ma_drive_letter a) (ma_host_pid a)
    (ma_reject_new_opens a).

Definition begin_drain (a : MountActor) : MountActor :=
  mkActor (ma_session a) Draining (ma_retry a) (ma_diagnostic a) (ma_drive_letter a)
    (ma_host_pid a) true.

Definition actor_stop (a : MountActor) : MountActor :=
  mkActor (ma_session a) Stopped (ma_retry a) (ma_diagnostic a) None None true.

Definition actor_generation (a : MountActor) : N := se_generation (ma_session a).

(** ** The monitor *)

Record SessionConfig := mkSessionConfig {
  cf_data_directory : fspath;
  cf_preferred_drive_letter : N;
  cf_sign_out_grace_seconds : N;
  cf_host_binary_path : fspath;
}.

(** The actors by session and user, the runtimes (here the process identifier)
    by generation, the static [ACTOR_GENERATION], and the number of logons so
    far, which tells the token provider's answers apart. *)
Record Monitor := mkMonitor {
  mo_config : SessionConfig;
  mo_actors : gmap (N * bytes) MountActor;
  mo_runtimes : gmap N N;
  mo_next_generation : N;
  mo_logons : N;
}.

(** The injected traits.  The handshake's answer is the drive letter; no answer
    is an error or the timeout of thirty seconds. *)
Class Providers := {
  primary_token : N -> N -> option bytes;
  create_pipe : EligibleSession -> bool;
  load_key : EligibleSession -> option bytes;
  launch : EligibleSession -> result SessionError N;
  authenticate : EligibleSession -> N -> StorageBootstrap -> option N;
}.

Definition set_actors (actors : gmap (N * bytes) MountActor) (m : Monitor) : Monitor :=
  mkMonitor (mo_config m) actors (mo_runtimes m) (mo_next_generation m) (mo_logons m).

Section Monitor.
Context `{Sha256} `{Providers}.

(** The launch of a host for a new actor, once the session was found eligible.
    The file that records the name of the pipe is with Launcher; the log is left out. *)
Definition start_actor (key : N * bytes) (s : EligibleSession) (m : Monitor) :
    result SessionError MountActor * Monitor :=
  let actor := MountActor_new s in
  if negb (create_pipe s) then (Err SessionPipeUnavailable, m)
  else match load_key s with
  | None => (Err StoreKeyFailure, m)
  | Some k =>
      if forallb (fun c => Byte.eqb c x00) k then (Err StoreKeyFailure, m)
      else
        let bootstrap := StorageBootstrap_new (se_session_id s) (se_generation s)
          (se_user_sid s) (se_store_id s) (cf_data_directory (mo_config m))
          (cf_preferred_drive_letter (mo_config m)) k in
        match launch s with
        | Err e => (Err e, m)
        | Ok pid =>
            match authenticate s pid bootstrap with
            | Some letter =>
                let actor := set_mounted letter pid actor in
                (Ok actor, mkMonitor (mo_config m) (<[key := actor]> (mo_actors m))
                   (<[se_generation s := pid]> (mo_runtimes m)) (mo_next_generation m) (mo_logons m))
            | None =>
                let actor := set_failed PipeAuthFailed actor in
                (Err SessionPipeUnavailable, set_actors (<[key := actor]> (mo_actors m)) m)
            end
        end
  end.

Definition session_logon (session_id : N) (m0 : Monitor) : result SessionError MountActor * Monitor :=
  let m := mkMonitor (mo_config m0) (mo_actors m0) (mo_runtimes m0) (mo_next_generation m0)
             (mo_logons m0 + 1) in
  match primary_token (mo_logons m0) session_id with
  | None => (Err TokenUnavailable, m)
  | Some sid =>
      match mo_actors m !! (session_id, sid) with
      | Some actor => (Ok actor, m)
      | None =>
          let '(r, next) := EligibleSession_new session_id sid (mo_next_generation m) in
          let m := mkMonitor (mo_config m) (mo_actors m) (mo_runtimes m) next (mo_logons m) in
          match r with
          | Err e => (Err e, m)
          | Ok s => start_actor (session_id, sid) s m
          end
      end
  end.

Definition session_logoff (session_id : N) (m : Monitor) : result SessionError unit * Monitor :=
  let mine a := bool_decide (se_session_id (ma_session a) = session_id) in
  (if existsb mine (map_to_list (mo_actors m)).*2 then Ok tt else Err InvalidIdentity,
   set_actors ((fun a => if mine a then begin_drain a else a) <$> mo_actors m) m).

(** [stop_all]: the runtimes are drained, which closes their pipes. *)
Definition stop_all (m : Monitor) : Monitor :=
  mkMonitor (mo_config m) (actor_stop <$> mo_actors m) ∅ (mo_next_generation m) (mo_logons m).

(** The actors whose host has exited; [exited] is [wait_for_exit] by generation,
    and [actors] the entries in the order the map yields them. *)
Definition to_relaunch (exited : N -> bool) (runtimes : gmap N N) (actors : list MountActor) :
    list (N * N) :=
  omap (fun a =>
    if ma_reject_new_opens a then None
    else match runtimes !! actor_generation a with
         | Some _ => if exited (actor_generation a)
                     then Some (se_session_id (ma_session a), actor_generation a) else None
         | None => None
         end) actors.

(** One iteration of the second loop of [check_host_health]. *)
Definition relaunch (m : Monitor) (x : N * N) : Monitor :=
  let '(session_id, generation) := x in
  snd (session_logon session_id
    (mkMonitor (mo_config m)
       (filter (fun ka => actor_generation ka.2 <> generation) (mo_actors m))
       (delete generation (mo_runtimes m)) (mo_next_generation m) (mo_logons m))).

Definition check_host_health (exited : N -> bool) (order : list MountActor) (m : Monitor) : Monitor :=
  foldl relaunch m (to_relaunch exited (mo_runtimes m) order).

(** The events of the service. *)
Inductive step : Monitor -> Monitor -> Prop :=
| step_logon m session_id : step m (snd (session_logon session_id m))
| step_logoff m session_id : step m (snd (session_logoff session_id m))
| step_stop m : step m (stop_all m)
| step_health m exited order :
    order ≡ₚ (map_to_list (mo_actors m)).*2 -> step m (check_host_health exited order m).
End Monitor.

(** [SessionMonitor::new] in a fresh process. *)
Definition monitor_new (c : SessionConfig) : Monitor := mkMonitor c ∅ ∅ 1 0.

(** ** The invariant *)

Section Invariant.
Context `{Sha256} `{Providers}.

(** An actor under the key [k], when the next generation is [next]. *)
Record actor_wf (next : N) (k : N * bytes) (a : MountActor) : Prop := {
  aw_session : se_session_id (ma_session a) = k.1;
  aw_user : se_user_sid (ma_session a) = k.2;
  aw_store : se_store_id (ma_session a) = lit "sid-" ++ stable_sid_digest k.2;
  aw_nonzero : k.1 <> 0;
  aw_generation : actor_generation a < next;
  aw_settled : ma_state a <> Starting;
  aw_reject : ma_reject_new_opens a = true <-> ma_state a = Draining \/ ma_state a = Stopped;
}.

(** The monitor keeps one actor per session and user, bound to the store of that
    user; a host is tracked for exactly the actors that own one: every mounted
    actor has its host, and every tracked host belongs to one mounted or draining
    actor; generations are never shared. *)
Record monitor_wf (m : Monitor) : Prop := {
  mw_actor k a : mo_actors m !! k = Some a -> actor_wf (mo_next_generation m) k a;
  mw_unique k l a b : mo_actors m !! k = Some a -> mo_actors m !! l = Some b ->
    actor_generation a = actor_generation b -> k = l;
  mw_runtime g pid : mo_runtimes m !! g = Some pid ->
    exists k a, mo_actors m !! k = Some a /\ actor_generation a = g /\
      ma_host_pid a = Some pid /\ (ma_state a = Mounted \/ ma_state a = Draining);
  mw_mounted k a : mo_actors m !! k = Some a -> ma_state a = Mounted ->
    exists pid letter, ma_host_pid a = Some pid /\ ma_drive_letter a = Some letter /\
      ma_diagnostic a = None /\ mo_runtimes m !! actor_generation a = Some pid;
  mw_next : mo_next_generation m <= 1 + mo_logons m;
}.

Lemma monitor_new_wf c : monitor_wf (monitor_new c).
Proof. split; cbn; intros; by simplify_map_eq. Qed.

Lemma actor_wf_mono n n' k a : n <= n' -> actor_wf n k a -> actor_wf n' k a.
Proof. intros Hn []. split; try done. lia. Qed.

(** More logons and a later generation. *)
Lemma monitor_wf_tick m next logons :
  monitor_wf m -> mo_next_generation m <= next -> next <= 1 + logons ->
  monitor_wf (mkMonitor (mo_config m) (mo_actors m) (mo_runtimes m) next logons).
Proof. intros [] Hn Hl. split; cbn; try done. intros k a Ha. eapply actor_wf_mono; eauto. Qed.

(** A new actor under a free key, with a generation no actor has; [runtimes] gets
    its host when it is mounted. *)
Lemma monitor_wf_insert m k a runtimes :
  monitor_wf m -> mo_actors m !! k = None -> actor_wf (mo_next_generation m) k a ->
  (forall l b, mo_actors m !! l = Some b -> actor_generation b < actor_generation a) ->
  (ma_state a = Failed /\ runtimes = mo_runtimes m \/
   exists pid letter, ma_state a = Mounted /\ ma_host_pid a = Some pid /\
     ma_drive_letter a = Some letter /\ ma_diagnostic a = None /\
     runtimes = <[actor_generation a := pid]> (mo_runtimes m)) ->
  monitor_wf (mkMonitor (mo_config m) (<[k := a]> (mo_actors m)) runtimes
    (mo_next_generation m) (mo_logons m)).
Proof.
  intros [Ha Hu Hr Hm Hn] Hk Hw Hfresh Hcase. split; cbn; [| | | |done].
  - intros l b Hl. destruct (decide (l = k)) as [->|]; simplify_map_eq; auto.
  - intros l1 l2 b1 b2 H1 H2 E. destruct (decide (l1 = k)), (decide (l2 = k)); simplify_map_eq;
      try done; [apply Hfresh in H2; lia|apply Hfresh in H1; lia|by eapply Hu].
  - intros g pid Hg.
    assert (mo_runtimes m !! g = Some pid \/ g = actor_generation a /\ ma_state a = Mounted /\
      ma_host_pid a = Some pid) as [Hold|(-> & Hs & Hp)].
    { destruct Hcase as [[_ ->]|(p & l & Hs & Hp & _ & _ & ->)]; [by left|].
      destruct (decide (g = actor_generation a)) as [->|]; simplify_map_eq; auto. }
    + destruct (Hr g pid Hold) as (l & b & Hl & Hrest). exists l, b.
      rewrite lookup_insert_ne by congruence. done.
    + exists k, a. rewrite lookup_insert_eq. auto.
  - intros l b Hl Hs. destruct (decide (l = k)) as [->|]; simplify_map_eq.
    + destruct Hcase as [[? _]|(p & c & _ & Hp & Hc & Hd & ->)]; [congruence|].
      exists p, c. by rewrite lookup_insert_eq.
    + destruct (Hm l b Hl Hs) as (p & c & Hp & Hc & Hd & Hg). exists p, c.
      split; [done|]. split; [done|]. split; [done|].
      destruct Hcase as [[_ ->]|(q & d & _ & _ & _ & _ & ->)]; [done|].
      rewrite lookup_insert_ne; [done|]. apply Hfresh in Hl. lia.
Qed.

Lemma session_new_Ok session_id sid next s next' :
  EligibleSession_new session_id sid next = (Ok s, next') ->
  s = mkSession session_id sid (lit "sid-" ++ stable_sid_digest sid) next /\
  session_id <> 0 /\ next' = wrapping_add64 next 1.
Proof.
  unfold EligibleSession_new. destruct (N.eqb_spec session_id 0); [done|].
  destruct (StoreId_parse _) as [t|] eqn:E; [|done]. intros Hs.
  apply pair_eq in Hs as [<-%Ok_inj <-]. by apply parse_identifier_Ok in E as [-> _].
Qed.

Lemma session_new_Err session_id sid next e next' :
  EligibleSession_new session_id sid next = (Err e, next') -> next' = next.
Proof. unfold EligibleSession_new. by repeat case_match; intros [= _ <-]. Qed.

Lemma session_logon_logons session_id m :
  mo_logons (snd (session_logon session_id m)) = mo_logons m + 1.
Proof.
  unfold session_logon, start_actor. by repeat case_match; simplify_eq/=.
Qed.

(** What starting an actor does to the monitor: nothing, or one new entry. *)
Lemma start_actor_cases k s m r m' :
  start_actor k s m = (r, m') ->
  m' = m \/
  exists a runtimes, ma_session a = s /\ ma_reject_new_opens a = false /\
    m' = mkMonitor (mo_config m) (<[k := a]> (mo_actors m)) runtimes (mo_next_generation m)
           (mo_logons m) /\
    (ma_state a = Failed /\ runtimes = mo_runtimes m \/
     exists pid letter, ma_state a = Mounted /\ ma_host_pid a = Some pid /\
       ma_drive_letter a = Some letter /\ ma_diagnostic a = None /\
       runtimes = <[actor_generation a := pid]> (mo_runtimes m)).
Proof.
  unfold start_actor. intros E. repeat case_match; simplify_eq; try (by left).
  - right. eexists (set_mounted _ _ _), _. split; [|split; [|split; [reflexivity|]]]; [done..|].
    right. by eexists _, _.
  - right. eexists (set_failed _ _), _. split; [|split; [|split; [reflexivity|]]]; [done..|].
    by left.
Qed.

Lemma start_actor_wf k sid next s m r m' :
  monitor_wf m -> mo_actors m !! k = None -> k.2 = sid ->
  s = mkSession k.1 sid (lit "sid-" ++ stable_sid_digest sid) next -> k.1 <> 0 ->
  next < mo_next_generation m ->
  (forall l b, mo_actors m !! l = Some b -> actor_generation b < next) ->
  start_actor k s m = (r, m') -> monitor_wf m'.
Proof.
  intros Hm Hk Hsid -> Hne Hnext Hfresh E.
  apply start_actor_cases in E as [->|(a & rt & Hs & Hrej & -> & Hcase)]; [done|].
  apply monitor_wf_insert; [done|done| | |done].
  - split; unfold actor_generation; rewrite ?Hs; cbn; subst; try done.
    + destruct Hcase as [[-> _]|(? & ? & -> & _)]; done.
    + rewrite Hrej. split; [done|].
      destruct Hcase as [[-> _]|(? & ? & -> & _)]; by intros [].
  - intros l b Hl. unfold actor_generation at 2. rewrite Hs. by eapply Hfresh.
Qed.

Lemma session_logon_wf session_id m :
  monitor_wf m -> mo_logons (snd (session_logon session_id m)) < u64_max ->
  monitor_wf (snd (session_logon session_id m)).
Proof.
  intros Hm. rewrite session_logon_logons. intros Hl.
  pose proof (mw_next m Hm) as Hnext.
  assert (monitor_wf (mkMonitor (mo_config m) (mo_actors m) (mo_runtimes m) (mo_next_generation m)
    (mo_logons m + 1))) as Ht by (apply monitor_wf_tick; [done|lia|lia]).
  unfold session_logon. destruct (primary_token _ _) as [sid|]; [|done]. cbn [mo_actors].
  destruct (mo_actors m !! (session_id, sid)) as [a|] eqn:Ea; [done|].
  cbn [mo_next_generation mo_config mo_runtimes mo_logons].
  destruct (EligibleSession_new _ _ _) as [[s|e] next'] eqn:Es.
  2: { apply session_new_Err in Es as ->. done. }
  apply session_new_Ok in Es as (-> & Hne & ->).
  destruct (start_actor _ _ _) as [r m'] eqn:E. cbn [snd].
  assert (wrapping_add64 (mo_next_generation m) 1 = mo_next_generation m + 1) as Hw.
  { unfold wrapping_add64. apply N.mod_small. unfold u64_max in Hl. lia. }
  eapply (start_actor_wf (session_id, sid) sid (mo_next_generation m)); [| | | | | | |exact E]; try done.
  - rewrite Hw. apply monitor_wf_tick; [done|lia|lia].
  - cbn. rewrite Hw. lia.
  - intros l b Hlb. apply (aw_generation _ _ _ (mw_actor m Hm l b Hlb)).
Qed.

Lemma fmap_actors (f : MountActor -> MountActor) m k a :
  (f <$> mo_actors m) !! k = Some a -> exists b, mo_actors m !! k = Some b /\ a = f b.
Proof. rewrite lookup_fmap. destruct (mo_actors m !! k) as [b|]; [|done]. intros [= <-]. by exists b. Qed.

Lemma session_logoff_wf session_id m :
  monitor_wf m -> monitor_wf (snd (session_logoff session_id m)).
Proof.
  intros [Ha Hu Hr Hm Hn]. unfold session_logoff. cbn [snd].
  set (f := fun a => if bool_decide _ then begin_drain a else a).
  assert (forall a, ma_session (f a) = ma_session a /\ ma_host_pid (f a) = ma_host_pid a /\
    (f a = a \/ f a = begin_drain a)) as Hf.
  { intros a. unfold f. case_bool_decide; auto. }
  assert (forall a, actor_generation (f a) = actor_generation a) as Hg.
  { intros a. unfold actor_generation. by rewrite (proj1 (Hf a)). }
  split; cbn; [| | | |done].
  - intros k a (b & Hb & ->)%fmap_actors. destruct (Hf b) as (_ & _ & [-> | ->]); [by apply Ha|].
    destruct (Ha k b Hb). split; cbn; try done. split; auto.
  - intros k l a b (a' & Ha' & ->)%fmap_actors (b' & Hb' & ->)%fmap_actors E.
    rewrite !Hg in E. by eapply Hu.
  - intros g pid Hp. destruct (Hr g pid Hp) as (k & a & Hk & <- & Hpid & Hs). exists k, (f a).
    rewrite lookup_fmap, Hk, Hg. destruct (Hf a) as (_ & -> & Hcase). repeat split; try done.
    destruct Hcase as [-> | ->]; [done|by right].
  - intros k a (b & Hb & ->)%fmap_actors Hs. rewrite Hg.
    destruct (Hf b) as (_ & _ & [E|E]); rewrite E in *; [by eapply Hm|done].
Qed.

Lemma stop_all_wf m : monitor_wf m -> monitor_wf (stop_all m).
Proof.
  intros [Ha Hu Hr Hm Hn]. split; cbn; [| |by intros ? ?; rewrite lookup_empty| |done].
  - intros k a (b & Hb & ->)%fmap_actors. destruct (Ha k b Hb). split; cbn; try done. split; auto.
  - intros k l a b (a' & Ha' & ->)%fmap_actors (b' & Hb' & ->)%fmap_actors E. by eapply Hu.
  - by intros k a (b & Hb & ->)%fmap_actors Hs.
Qed.

(** Forgetting the actor and the host of a generation. *)
Lemma monitor_wf_forget g m :
  monitor_wf m ->
  monitor_wf (mkMonitor (mo_config m)
    (filter (fun ka => actor_generation ka.2 <> g) (mo_actors m))
    (delete g (mo_runtimes m)) (mo_next_generation m) (mo_logons m)).
Proof.
  intros [Ha Hu Hr Hm Hn]. split; cbn; [| | | |done].
  - intros k a [Hk _]%map_lookup_filter_Some. by apply Ha.
  - intros k l a b [Hk _]%map_lookup_filter_Some [Hl _]%map_lookup_filter_Some. by apply Hu.
  - intros h pid [Hne Hp]%lookup_delete_Some. destruct (Hr h pid Hp) as (k & a & Hk & Hg & Hrest).
    exists k, a. split; [|done]. apply map_lookup_filter_Some. split; [done|]. cbn. congruence.
  - intros k a [Hk Hne]%map_lookup_filter_Some Hs. cbn in Hne.
    destruct (Hm k a Hk Hs) as (p & l & ? & ? & ? & ?). exists p, l. by rewrite lookup_delete_ne.
Qed.

Lemma relaunch_logons m x : mo_logons (relaunch m x) = mo_logons m + 1.
Proof. destruct x as [s g]. unfold relaunch. by rewrite session_logon_logons. Qed.

Lemma relaunch_all_logons l m : mo_logons m <= mo_logons (foldl relaunch m l).
Proof.
  revert m. induction l as [|x l IH]; intros m; cbn; [lia|].
  specialize (IH (relaunch m x)). rewrite relaunch_logons in IH. lia.
Qed.

Lemma relaunch_wf m x :
  monitor_wf m -> mo_logons (relaunch m x) < u64_max -> monitor_wf (relaunch m x).
Proof.
  intros Hm. destruct x as [s g]. unfold relaunch. intros Hl.
  apply session_logon_wf; [by apply monitor_wf_forget|done].
Qed.

Lemma relaunch_all_wf l m :
  monitor_wf m -> mo_logons (foldl relaunch m l) < u64_max -> monitor_wf (foldl relaunch m l).
Proof.
  revert m. induction l as [|x l IH]; intros m Hm; cbn; [done|]. intros Hl.
  apply IH; [|done]. apply relaunch_wf; [done|].
  eapply N.le_lt_trans; [apply relaunch_all_logons|done].
Qed.

Lemma step_logons m m' : step m m' -> mo_logons m <= mo_logons m'.
Proof.
  intros [? s|? s|?|? ex order _]; cbn; try lia.
  - rewrite session_logon_logons. lia.
  - apply relaunch_all_logons.
Qed.

Lemma step_wf m m' : step m m' -> mo_logons m' < u64_max -> monitor_wf m -> monitor_wf m'.
Proof.
  intros [? s|? s|?|? ex order _] Hl Hm.
  - by apply session_logon_wf.
  - by apply session_logoff_wf.
  - by apply stop_all_wf.
  - by apply relaunch_all_wf.
Qed.

Lemma steps_logons m m' : rtc step m m' -> mo_logons m <= mo_logons m'.
Proof. induction 1 as [|? ? ? Hs%step_logons]; lia. Qed.

Lemma steps_wf m m' :
  rtc step m m' -> mo_logons m' < u64_max -> monitor_wf m -> monitor_wf m'.
Proof.
  intros Hs Hl. induction Hs as [|x y z Hxy Hyz IH]; [done|]. intros Hx. apply IH; [done|].
  eapply step_wf; [done| |done]. eapply N.le_lt_trans; [by apply steps_logons|done].
Qed.

(** C33.  The session monitor's invariant: in every state the service reaches by
    logons, logoffs, stops and health checks, whatever its providers answer and in
    whatever order the actors are visited, there is one actor per session and
    user, bound to the store derived from that user; every mounted actor has a
    tracked host and a drive letter; every tracked host belongs to an actor that
    is mounted or draining; and no two actors share a generation (below 2^64 - 1 logons, after
    which the counter of generations wraps). *)
Theorem monitor_invariant c m :
  rtc step (monitor_new c) m -> mo_logons m < u64_max ->
  monitor_wf m.
Proof. intros Hr Hl. by eapply steps_wf, monitor_new_wf. Qed.

(** ** Actors without a drive *)

(** The actor under [k] is past mounting: failed, draining or stopped. *)
Definition unmounted (k : N * bytes) (m : Monitor) : Prop :=
  exists a, mo_actors m !! k = Some a /\ ma_state a <> Mounted /\ ma_state a <> Starting.

Lemma session_logon_keeps session_id m k a :
  mo_actors m !! k = Some a -> mo_actors (snd (session_logon session_id m)) !! k = Some a.
Proof.
  intros Hk. unfold session_logon. destruct (primary_token _ _) as [sid|]; [|done]. cbn [mo_actors].
  destruct (mo_actors m !! (session_id, sid)) as [b|] eqn:Eb; [done|].
  destruct (EligibleSession_new _ _ _) as [[s|e] next']; [|done].
  destruct (start_actor _ _ _) as [r m'] eqn:E. cbn [snd].
  apply start_actor_cases in E as [->|(b & rt & _ & _ & -> & _)]; [done|]. cbn.
  rewrite lookup_insert_ne; [done|]. congruence.
Qed.

Lemma relaunch_all_keeps l m k a :
  (forall x, x ∈ l -> x.2 <> actor_generation a) -> mo_actors m !! k = Some a ->
  mo_actors (foldl relaunch m l) !! k = Some a.
Proof.
  revert m. induction l as [|x l IH]; intros m Hl Hk; cbn; [done|]. apply IH.
  - intros y Hy. apply Hl. by right.
  - specialize (Hl x ltac:(left)). destruct x as [s g]. unfold relaunch.
    apply session_logon_keeps. cbn. apply map_lookup_filter_Some. split; [done|]. cbn in *. congruence.
Qed.

(** The health check leaves an unmounted actor alone. *)
Lemma to_relaunch_other exited order m k a x :
  monitor_wf m -> order ≡ₚ (map_to_list (mo_actors m)).*2 -> mo_actors m !! k = Some a ->
  ma_state a <> Mounted -> ma_state a <> Starting ->
  x ∈ to_relaunch exited (mo_runtimes m) order -> x.2 <> actor_generation a.
Proof.
  intros Hm Ho Hk Hs1 Hs2 (b & Hb & Hx)%list_elem_of_omap E. rewrite Ho in Hb.
  apply list_elem_of_fmap in Hb as ([l b'] & -> & Hl%elem_of_map_to_list). cbn in Hx.
  destruct (ma_reject_new_opens b') eqn:Erej; [done|].
  destruct (mo_runtimes m !! actor_generation b') as [p|] eqn:Ep; [|done].
  destruct (exited _); [|done]. injection Hx as <-. cbn in E.
  assert (l = k) as -> by by eapply (mw_unique m Hm). simplify_eq.
  destruct (mw_runtime m Hm _ _ Ep) as (k' & a' & Hk' & Eg & _ & Hst).
  assert (k' = k) as -> by by eapply (mw_unique m Hm). simplify_eq.
  destruct Hst as [?|Hst]; [done|].
  destruct (mw_actor m Hm k a Hk) as [_ _ _ _ _ _ Hrej]. rewrite Erej in Hrej.
  destruct Hrej as [_ Hrej]. discriminate (Hrej (or_introl Hst)).
Qed.

Lemma step_unmounted k m m' : monitor_wf m -> step m m' -> unmounted k m -> unmounted k m'.
Proof.
  intros Hm Hs (a & Hk & Hs1 & Hs2). destruct Hs as [m s|m s|m|m ex order Ho].
  - exists a. split; [by apply session_logon_keeps|done].
  - eexists. cbn. rewrite lookup_fmap, Hk. split; [done|]. by case_bool_decide.
  - eexists. cbn. rewrite lookup_fmap, Hk. by split.
  - exists a. split; [|done]. apply relaunch_all_keeps; [|done].
    intros x Hx. by eapply to_relaunch_other.
Qed.

(** An actor that lost its drive never gets one again: once the handshake
    with its host failed, or its session logged off, no later logon, health check
    or other event of the service mounts a drive for that session and user, for
    the logon finds the old actor and the health check looks only at actors with
    a running host. *)
Theorem unmounted_never_remounts c k m m' :
  rtc step (monitor_new c) m -> rtc step m m' -> mo_logons m' < u64_max ->
  unmounted k m -> unmounted k m'.
Proof.
  intros Hr Hs Hl Hu.
  assert (monitor_wf m) as Hm.
  { eapply steps_wf; [done| |apply monitor_new_wf]. pose proof (steps_logons _ _ Hs). lia. }
  revert Hm Hu. clear Hr. induction Hs as [|x y z Hxy Hyz IH]; [done|]. intros Hx Hu.
  pose proof (steps_logons _ _ Hyz).
  apply IH; [done| |by eapply step_unmounted]. eapply step_wf; [done|lia|done].
Qed.
End Invariant.

(** ** The retry timer and the drive letters *)

(** The retry delay is bounded: after [n] recorded attempts it is 2^n
    seconds or the cap, whichever is less, so it is at least one second and at
    most the cap, the doubling in seconds never exceeds twice the cap, and a retry
    is due exactly when that delay has passed since the last attempt. *)
Theorem retry_bounds cap times :
  1 <= cap ->
  let t := foldl (fun t now => record_attempt now t) (RetryTimer_new cap) times in
  rt_next_delay t = N.min (2 ^ len times) cap /\ 1 <= rt_next_delay t <= cap /\
  rt_next_delay t * 2 <= 2 * cap /\
  forall now, retry_due now t =
    match last times with Some at_ => N.min (2 ^ len times) cap <=? now - at_ | None => true end.
Proof.
  intros Hcap. cbv zeta.
  assert (foldl (fun t now => record_attempt now t) (RetryTimer_new cap) times =
    mkRetry (last times) (N.min (2 ^ len times) cap) cap) as ->.
  { induction times as [|x l IH] using rev_ind.
    - cbn [foldl last]. unfold RetryTimer_new. change (2 ^ len (@nil N)) with 1. by rewrite N.min_l.
    - rewrite foldl_snoc, IH, last_snoc. unfold record_attempt. cbn.
      rewrite len_app, N.pow_add_r. f_equal. change (2 ^ len [x]) with 2. lia. }
  pose proof (N.pow_nonzero 2 (len times) ltac:(done)).
  cbn [rt_next_delay]. split; [done|]. split; [lia|]. split; [lia|].
  intros now. unfold retry_due. cbn. by destruct (last times).
Qed.

Lemma retry_bounds_witness :
  1 <= 300 /\
  (let t := foldl (fun t now => record_attempt now t) (RetryTimer_new 300) [0; 2; 6] in
   rt_next_delay t = N.min (2 ^ len [0; 2; 6]) 300 /\ 1 <= rt_next_delay t <= 300 /\
   rt_next_delay t * 2 <= 2 * 300 /\
   forall now, retry_due now t =
     match last [0; 2; 6] with
     | Some at_ => N.min (2 ^ len [0; 2; 6]) 300 <=? now - at_
     | None => true
     end).
Proof. split; [done|]. apply (retry_bounds 300 [0; 2; 6]). done. Defined.

Lemma letter_index_bound c i x :
  list_find (fun x => x = c) all_letters = Some (i, x) -> (i < 24)%nat.
Proof. intros (Hi%lookup_lt_Some & _)%list_find_Some. done. Qed.

(** The service and the host try the letters in the same order. *)
Lemma ordered_letters_candidates p :
  char_upper p = p -> ordered_letters p = drive_letter_candidates p.
Proof.
  intros Hp. unfold ordered_letters, drive_letter_candidates, letter_position. rewrite Hp.
  destruct (list_find _ all_letters) as [[i x]|] eqn:E; [|by vm_compute].
  apply letter_index_bound in E. change (seq 0 24) with (0%nat :: seq 1 23). cbn [map].
  by rewrite Nat.add_0_r, Nat.mod_small.
Qed.

(** ** A concrete service *)

From S2P Require Import Toy.

Module Service.

(** User [S-1-5-21-7] in every session; hosts start, and the handshake succeeds
    in session 3 only. *)
#[export] Instance providers : Providers := {|
  primary_token _ _ := Some (lit "S-1-5-21-7");
  create_pipe _ := true;
  load_key _ := Some (repeat x07 32);
  launch s := Ok (100 + se_generation s);
  authenticate s _ _ := if se_session_id s =? 3 then Some 80 else None;
|}.

Definition config : SessionConfig := mkSessionConfig [lit "d"] 80 30 [lit "h"].
Definition user : bytes := lit "S-1-5-21-7".
Definition after_failure : Monitor := snd (session_logon 2 (monitor_new config)).
Definition after_retry : Monitor := snd (session_logon 2 after_failure).
Definition after_logon : Monitor := snd (session_logon 3 after_retry).
End Service.

Import Service.

Lemma first_step : step (monitor_new config) after_failure.
Proof. exact (step_logon (monitor_new config) 2). Qed.
Lemma later_steps : rtc step after_failure after_logon.
Proof.
  exact (rtc_l _ _ _ _ (step_logon after_failure 2) (rtc_once _ _ (step_logon after_retry 3))).
Qed.

Lemma monitor_invariant_witness : monitor_wf after_logon.
Proof.
  apply (monitor_invariant config after_logon (rtc_l _ _ _ _ first_step later_steps)).
  vm_compute. reflexivity.
Defined.

Lemma unmounted_never_remounts_witness : unmounted (2, user) after_logon.
Proof.
  apply (unmounted_never_remounts config (2, user) after_failure after_logon
    (rtc_once _ _ first_step) later_steps).
  - vm_compute. reflexivity.
  - eexists. split; [vm_compute; reflexivity|]. split; discriminate.
Defined.
