(* ===== verification/Fingerprint.v ===== *)
(** * Fingerprint

    The hardware fingerprint of crates/dlp-windows-service/src/fingerprint.rs:
    normalization of the observed values, the digest over them, and the walk over
    the raw SMBIOS table from which the system identifier and serial number are
    read.  The table itself and the disk serial number come from Win32 calls. *)

From S2P Require Import Prelude Bytes Text Crypto.

Inductive FingerprintError :=
| MissingOrSentinel
| UnsupportedPlatform
| Changed.

#[export] Instance FingerprintError_eq_dec : EqDecision FingerprintError.
Proof. solve_decision. Defined.

(** ** Normalization *)

(** The UTF-8 encodings of the characters of the Unicode property White_Space. *)
Definition whitespace : list bytes :=
  map (fun b => [b]) [x09; x0a; x0b; x0c; x0d; x20]
  ++ [[xc2; x85]; [xc2; xa0]; [xe1; x9a; x80]]
  ++ map (fun b => [xe2; x80; b])
       [x80; x81; x82; x83; x84; x85; x86; x87; x88; x89; x8a; xa8; xa9; xaf]
  ++ [[xe2; x81; x9f]; [xe3; x80; x80]].

Fixpoint strip_leading (fuel : nat) (ws : list bytes) (s : bytes) : bytes :=
  match fuel with
  | O => s
  | S f => match list_find (fun w => starts_with w s = true) ws with
           | Some (_, w) => strip_leading f ws (drop (length w) s)
           | None => s
           end
  end.

(** [str::trim]: the leading, then the trailing white space. *)
Definition trim (s : bytes) : bytes :=
  let t := strip_leading (length s) whitespace s in
  rev (strip_leading (length t) (map (@rev byte) whitespace) (rev t)).

Definition sentinels : list bytes :=
  [lit "UNKNOWN"; lit "NONE"; lit "TO BE FILLED BY O.E.M.";
   lit "00000000-0000-0000-0000-000000000000"; lit "FFFFFFFF-FFFF-FFFF-FFFF-FFFFFFFFFFFF"].

(** The closure [normalize]. *)
Definition normalize (value : bytes) : result FingerprintError bytes :=
  let normalized := to_ascii_uppercase (trim value) in
  if bool_decide (normalized = []) || bool_decide (normalized ∈ sentinels)
  then Err MissingOrSentinel else Ok normalized.

Record HardwareFingerprintSources := mkSources {
  hf_system_uuid : bytes;
  hf_bios_serial : bytes;
  hf_disk_serial : bytes;
}.

Definition HardwareFingerprintSources_new (uuid bios disk : bytes) :
    result FingerprintError HardwareFingerprintSources :=
  uuid ← normalize uuid;
  bios ← normalize bios;
  disk ← normalize disk;
  Ok (mkSources uuid bios disk).

Definition FINGERPRINT_VERSION : bytes := lit "dlp-fingerprint/v1" ++ [x00].

Definition digest_field (name value : bytes) : bytes :=
  to_be 4 (len name) ++ name ++ to_be 4 (len value) ++ value.

(** What [digest] feeds to the hash. *)
Definition fingerprint_bytes (s : HardwareFingerprintSources) : bytes :=
  FINGERPRINT_VERSION ++ digest_field (lit "system_uuid") (hf_system_uuid s)
  ++ digest_field (lit "bios_serial") (hf_bios_serial s)
  ++ digest_field (lit "system_disk_serial") (hf_disk_serial s).

Definition fingerprint_digest `{Sha256} (s : HardwareFingerprintSources) : bytes :=
  sha256 (fingerprint_bytes s).

Definition verify_unchanged `{Sha256} (s : HardwareFingerprintSources) (prior : bytes) :
    result FingerprintError unit :=
  if bool_decide (fingerprint_digest s = prior) then Ok tt else Err Changed.

(** ** The SMBIOS table

    The sources walk the table with offsets; here the position is the part of the
    table from the offset on. *)

Record SmbiosStructure := mkStructure {
  sm_handle : N;
  sm_formatted : bytes;
  sm_strings : bytes;
}.

(** [find_string_area_end], relative to its start. *)
Fixpoint find_string_area_end (s : bytes) : option nat :=
  match s with
  | a :: s' =>
      match s' with
      | b :: _ => if Byte.eqb a x00 && Byte.eqb b x00 then Some O else S <$> find_string_area_end s'
      | [] => None
      end
  | [] => None
  end.

(** The outer [None] is out of fuel. *)
Fixpoint find_structure (fuel : nat) (rest : bytes) (target : byte) :
    option (option SmbiosStructure) :=
  match fuel with
  | O => None
  | S f =>
      match rest with
      | t :: l :: h0 :: h1 :: _ =>
          let length_ := N.to_nat (Byte.to_N l) in
          if (length_ <? 4)%nat || (length rest <? length_)%nat then Some None
          else match find_string_area_end (drop length_ rest) with
               | None => Some None
               | Some e =>
                   if Byte.eqb t target
                   then Some (Some (mkStructure (from_le [h0; h1]) (take length_ rest)
                                      (take e (drop length_ rest))))
                   else find_structure f (drop (e + 2) (drop length_ rest)) target
               end
      | _ => Some None
      end
  end.

Definition find_smbios_structure (table : bytes) (target : byte) : option SmbiosStructure :=
  default None (find_structure (S (length table)) table target).

(** [iter().position(|b| *b == 0)]. *)
Definition zero_position (s : bytes) : option nat :=
  fst <$> list_find (fun b => b = x00) s.

(** The loop of [read_smbios_string] from the string number [current] on. *)
Fixpoint read_string_from (fuel : nat) (s : bytes) (current index : N) : option bytes :=
  match fuel, s with
  | O, _ | _, [] => None
  | S f, _ =>
      match zero_position s with
      | None => None
      | Some e =>
          if current =? index
          then if utf8_valid (take e s) then Some (take e s) else None
          else read_string_from f (drop (S e) s) (current + 1) index
      end
  end.

Definition read_smbios_string (strings : bytes) (index : N) : option bytes :=
  if index =? 0 then None else read_string_from (length strings) strings 1 index.

(** [smbios_system_serial] on the table. *)
Definition smbios_system_serial (table : bytes) : result FingerprintError bytes :=
  type1 ← ok_or MissingOrSentinel (find_smbios_structure table x01);
  index ← ok_or MissingOrSentinel (sm_formatted type1 !! 7%nat);
  ok_or MissingOrSentinel (read_smbios_string (sm_strings type1) (Byte.to_N index)).

(** [{:02X}]. *)
Definition hex_upper (b : byte) : bytes := to_ascii_uppercase (hex_of_byte b).

(** [smbios_system_uuid] on the table: the first three fields are little-endian. *)
Definition smbios_system_uuid (table : bytes) : result FingerprintError bytes :=
  type1 ← ok_or MissingOrSentinel (find_smbios_structure table x01);
  if (length (sm_formatted type1) <? 24)%nat then Err MissingOrSentinel
  else
    let at_ i := hex_upper (default x00 (sm_formatted type1 !! (8 + i)%nat)) in
    let group l := concat (map at_ l) in
    Ok (group [3; 2; 1; 0] ++ lit "-" ++ group [5; 4] ++ lit "-" ++ group [7; 6] ++ lit "-"
        ++ group [8; 9] ++ lit "-" ++ group [10; 11; 12; 13; 14; 15])%nat.

(** ** Lemmas *)

(** Each round of the walk consumes at least a header. *)
Lemma find_structure_total fuel rest target :
  (length rest < fuel)%nat -> is_Some (find_structure fuel rest target).
Proof.
  revert rest. induction fuel as [|f IH]; intros rest Hf; [lia|]. cbn [find_structure].
  do 4 (destruct rest as [|? rest]; [by eexists|]).
  destruct (_ || _) eqn:E; [by eexists|]. apply orb_false_elim in E as [E _].
  apply Nat.ltb_ge in E. destruct (find_string_area_end _) as [e|]; [|by eexists].
  destruct (Byte.eqb _ _); [by eexists|]. apply IH. rewrite !length_drop. cbn [length] in *. lia.
Qed.

(** A string of the table: not empty, without a terminator, valid UTF-8. *)
Definition table_string (s : bytes) : Prop := s <> [] /\ (x00 ∉ s) /\ utf8_valid s = true.

Lemma area_end_skip a b s :
  a <> x00 \/ b <> x00 ->
  find_string_area_end (a :: b :: s) = S <$> find_string_area_end (b :: s).
Proof.
  intros Hne. cbn [find_string_area_end].
  destruct (byte_eqb_spec a x00), (byte_eqb_spec b x00); try done. by destruct Hne.
Qed.

Lemma area_end_string s t :
  x00 ∉ s -> t <> [] ->
  find_string_area_end (s ++ t) = (fun e => (length s + e)%nat) <$> find_string_area_end t.
Proof.
  intros Hs Ht. induction s as [|a s IH]; [cbn [app]; by destruct (find_string_area_end t)|].
  apply not_elem_of_cons in Hs as [Ha Hs]. specialize (IH Hs). cbn [app].
  destruct (s ++ t) as [|b u] eqn:E; [by destruct s|].
  rewrite area_end_skip by (left; congruence). rewrite IH. by destruct (find_string_area_end t).
Qed.

Lemma area_end_join ss rest :
  ss <> [] -> Forall table_string ss ->
  find_string_area_end (join [x00] ss ++ x00 :: x00 :: rest) = Some (length (join [x00] ss)).
Proof.
  intros Hne Hss. induction ss as [|s ss IH]; [done|].
  apply Forall_cons in Hss as [(Hs & Hz & _) Hss]. destruct ss as [|s2 ss].
  - cbn [join]. rewrite area_end_string by done. cbn. f_equal. lia.
  - rewrite join_cons, <- !app_assoc, area_end_string by done. specialize (IH ltac:(done) Hss).
    assert (exists b u, join [x00] (s2 :: ss) ++ x00 :: x00 :: rest = b :: u /\ b <> x00)
      as (b & u & Eb & Hb).
    { apply Forall_cons in Hss as [(H2 & Hz2 & _) _]. destruct s2 as [|b s2]; [done|].
      apply not_elem_of_cons in Hz2 as [Hz2 _]. destruct ss; eexists b, _; split; try done; congruence. }
    cbn [app]. rewrite Eb, area_end_skip, <- Eb, IH by (by right). cbn. f_equal.
    rewrite !length_app. cbn. lia.
Qed.

Lemma zero_position_app s t : x00 ∉ s -> zero_position (s ++ x00 :: t) = Some (length s).
Proof.
  intros Hs. unfold zero_position.
  enough (list_find (fun b => b = x00) (s ++ x00 :: t) = Some (length s, x00)) as -> by done.
  apply list_find_Some. rewrite lookup_app_r, Nat.sub_diag by done. split; [done|]. split; [done|].
  intros j y Hy Hj ->. rewrite lookup_app_l in Hy by done. apply Hs. by eapply list_elem_of_lookup_2.
Qed.

Lemma zero_position_free s : x00 ∉ s -> zero_position s = None.
Proof.
  intros Hs. unfold zero_position. rewrite (proj2 (list_find_None _ _)); [done|].
  apply Forall_forall. by intros x Hx ->.
Qed.

(** Reading from an area without its final terminator: the last string is lost. *)
Lemma read_string_join ss fuel (i : nat) cur :
  Forall table_string ss -> (length (join [x00] ss) <= fuel)%nat ->
  read_string_from fuel (join [x00] ss) cur (cur + N.of_nat i) =
  match ss !! i with
  | Some s => if (S i =? length ss)%nat then None else Some s
  | None => None
  end.
Proof.
  revert fuel i cur. induction ss as [|s ss IH]; intros fuel i cur Hss Hf; [by destruct fuel, i|].
  apply Forall_cons in Hss as [(Hs & Hz & Hu) Hss]. destruct ss as [|s2 ss].
  { cbn [join] in *. destruct fuel as [|f], s as [|b s]; try done; [cbn in Hf; lia|].
    cbn [read_string_from]. rewrite zero_position_free by done. by destruct i. }
  rewrite join_cons in *. cbn [app] in *. rewrite length_app in Hf. cbn [length] in Hf.
  destruct fuel as [|f]; [lia|]. cbn [read_string_from].
  destruct (s ++ x00 :: join [x00] (s2 :: ss)) as [|c u] eqn:E; [by destruct s|]. rewrite <- E. clear E c u.
  rewrite zero_position_app, take_app_length, Hu by done.
  replace (drop (S (length s)) (s ++ x00 :: join [x00] (s2 :: ss))) with (join [x00] (s2 :: ss)).
  2: { change (x00 :: join [x00] (s2 :: ss)) with ([x00] ++ join [x00] (s2 :: ss)).
       rewrite app_assoc, drop_app_length'; [done|]. rewrite length_app. cbn. lia. }
  destruct i as [|i].
  - rewrite N.add_0_r, N.eqb_refl. done.
  - rewrite (proj2 (N.eqb_neq _ _)) by lia.
    replace (cur + N.of_nat (S i)) with (cur + 1 + N.of_nat i) by lia. by rewrite IH by (done || lia).
Qed.

(** The walk over the SMBIOS table and a loss in it.  On a table that starts
    with a well-formed structure of the wanted type, the walk finds that
    structure with its formatted part.  The slice of strings it returns ends
    before the terminator of the last string, and the reader of strings wants a
    terminator: every string but the last is read back, and the last one, a
    serial number say, is reported missing. *)
Theorem smbios_last_string_lost t l h0 h1 body ss rest :
  let formatted := t :: l :: h0 :: h1 :: body in
  N.to_nat (Byte.to_N l) = length formatted -> ss <> [] -> Forall table_string ss ->
  exists st,
    find_smbios_structure (formatted ++ join [x00] ss ++ x00 :: x00 :: rest) t = Some st /\
    sm_formatted st = formatted /\
    forall (i : nat) s, ss !! i = Some s ->
      read_smbios_string (sm_strings st) (1 + N.of_nat i) =
      if (S i =? length ss)%nat then None else Some s.
Proof.
  cbv zeta. intros Hl Hne Hss. eexists. split; [|split].
  - unfold find_smbios_structure. cbn [find_structure app]. rewrite Hl.
    set (formatted := t :: l :: h0 :: h1 :: body).
    change (t :: l :: h0 :: h1 :: body ++ ?x) with (formatted ++ x).
    rewrite (proj2 (Nat.ltb_ge _ 4)) by (cbn; lia).
    rewrite (proj2 (Nat.ltb_ge _ (length formatted))) by (rewrite length_app; lia). cbn [orb].
    rewrite drop_app_length, area_end_join by done.
    rewrite byte_eqb_refl, take_app_length, take_app_length. reflexivity.
  - done.
  - intros i s Hi. cbn [sm_strings]. unfold read_smbios_string.
    rewrite (proj2 (N.eqb_neq _ _)) by lia. rewrite read_string_join by done. by rewrite Hi.
Qed.

Lemma smbios_last_string_lost_witness :
  exists st,
    find_smbios_structure ([x01; x08; x01; x00; x01; x02; x00; x03] ++
      join [x00] [lit "Contoso"; lit "Desk"; lit "SN-77"] ++ x00 :: x00 :: []) x01 = Some st /\
    sm_formatted st = [x01; x08; x01; x00; x01; x02; x00; x03] /\
    forall (i : nat) s, [lit "Contoso"; lit "Desk"; lit "SN-77"] !! i = Some s ->
      read_smbios_string (sm_strings st) (1 + N.of_nat i) =
      if (S i =? length [lit "Contoso"; lit "Desk"; lit "SN-77"])%nat then None else Some s.
Proof.
  apply (smbios_last_string_lost x01 x08 x01 x00 [x01; x02; x00; x03]); [reflexivity|discriminate|].
  repeat constructor; try discriminate; apply (bool_decide_eq_true_1 _); vm_compute; reflexivity.
Defined.
