(* ===== verification/Credential.v ===== *)
(** * Credential

    Custody of the device credential
    (crates/dlp-windows-service/src/credential.rs): the length-delimited format,
    and the store that protects it with DPAPI in one file.  DPAPI and the Windows
    access-control lists are outside the sources: their calls are members of the
    class [Custody].  The store's mutex serialises its operations. *)

From S2P Require Import Prelude Bytes Text Reader Effects Fs.

Definition CREDENTIAL_FORMAT : bytes := lit "dlp-device-credential/v1" ++ [x00].
Definition MAX_FIELD : N := 1048576.
Definition MAX_TOTAL : N := 4194304.

Inductive CredentialError :=
| Missing
| InvalidCredential
| CredentialIntegrity
| Protection
| CredentialIo
| WrongMachine
| AclInvalid.

#[export] Instance CredentialError_eq_dec : EqDecision CredentialError.
Proof. solve_decision. Defined.

Record DeviceCredential := mkCredential {
  dc_device_id : bytes;
  dc_private_key : bytes;
  dc_certificate_chain : bytes;
  dc_serial : bytes;
  dc_expires_after_days : N;
}.

Definition DeviceCredential_new (device_id private_key chain serial : bytes) (days : N) :
    result CredentialError DeviceCredential :=
  if bool_decide (device_id = []) || bool_decide (private_key = []) || bool_decide (chain = [])
     || bool_decide (serial = []) || negb (days =? 30)
  then Err InvalidCredential
  else Ok (mkCredential device_id private_key chain serial days).

(** One field; [to_be 4] keeps the low 32 bits, as the cast [as u32] does. *)
Definition credential_field (s : bytes) : bytes := to_be 4 (len s) ++ s.

Definition credential_encode (c : DeviceCredential) : bytes :=
  CREDENTIAL_FORMAT ++ credential_field (dc_device_id c) ++ credential_field (dc_private_key c)
  ++ credential_field (dc_certificate_chain c) ++ credential_field (dc_serial c)
  ++ [byte_of (dc_expires_after_days c)].

(** One round of the loop of [decode]. *)
Definition read_credential_field : reader CredentialError bytes :=
  n ← read_be CredentialIntegrity 4;
  _ ← read_guard CredentialIntegrity (negb ((n =? 0) || (MAX_FIELD <? n)));
  read_take CredentialIntegrity n.

Definition read_credential : reader CredentialError (bytes * bytes * bytes * bytes * byte) :=
  device_id ← read_credential_field;
  private_key ← read_credential_field;
  chain ← read_credential_field;
  serial ← read_credential_field;
  expiry ← read_byte CredentialIntegrity;
  mret (device_id, private_key, chain, serial, expiry).

Definition credential_decode (input : bytes) : result CredentialError DeviceCredential :=
  if (MAX_TOTAL <? len input) || negb (starts_with CREDENTIAL_FORMAT input)
  then Err CredentialIntegrity
  else
    '(fields, rest) ← read_credential (drop (length CREDENTIAL_FORMAT) input);
    let '(device_id, private_key, chain, serial, expiry) := fields in
    if negb (bool_decide (rest = [])) then Err CredentialIntegrity
    else if negb (utf8_valid device_id) then Err CredentialIntegrity
    else DeviceCredential_new device_id private_key chain serial (Byte.to_N expiry).

(** ** The store *)

(** The calls to DPAPI and to the access-control functions. *)
Class Custody := {
  protect_bytes : bytes -> option bytes;
  unprotect_bytes : bytes -> option bytes;
  enforce_acl : fspath -> bool;
  validate_acl : fspath -> bool;
}.

(** Data protected on this machine is unprotected on it. *)
Class CustodyLaws (C : Custody) := {
  unprotect_protect p b : protect_bytes p = Some b -> unprotect_bytes b = Some p;
}.

Notation credential_m := (M World CredentialError).

Definition credential_io {A} (m : io A) : credential_m A := fun w =>
  let '(r, w') := m w in (map_err (fun _ => CredentialIo) r, w').

Definition credential_path (dir : fspath) : fspath := dir ++ [lit "device.dpapi"].
Definition credential_tmp (dir : fspath) : fspath := dir ++ [lit "device.dpapi.tmp"].

Section Custody.
Context `{Custody}.

(** [DpapiCredentialStore::protect] on Windows. *)
Definition protect (dir : fspath) (c : DeviceCredential) : credential_m unit :=
  protected ← lift (ok_or Protection (protect_bytes (credential_encode c)));
  _ ← credential_io (fs_create (credential_tmp dir));
  _ ← credential_io (fs_write_all (credential_tmp dir) protected);
  _ ← credential_io (fs_sync (credential_tmp dir));
  _ ← credential_io (fs_rename (credential_tmp dir) (credential_path dir));
  _ ← ensure (enforce_acl dir) AclInvalid;
  _ ← ensure (enforce_acl (credential_path dir)) AclInvalid;
  d ← gets w_disk;
  blob ← lift (map_err (fun _ => CredentialIo) (fs_read d (credential_path dir)));
  plain ← lift (ok_or Protection (unprotect_bytes blob));
  validated ← lift (credential_decode plain);
  ensure (negb (bool_decide (dc_private_key validated = []))) CredentialIntegrity.

Definition read_error (k : IoKind) : CredentialError :=
  match k with KNotFound => Missing | _ => CredentialIo end.

(** [DpapiCredentialStore::load] on Windows. *)
Definition load (dir : fspath) (d : Disk) : result CredentialError DeviceCredential :=
  if negb (fs_exists d (credential_path dir)) then Err Missing
  else if negb (validate_acl dir) then Err AclInvalid
  else if negb (validate_acl (credential_path dir)) then Err AclInvalid
  else
    blob ← map_err read_error (fs_read d (credential_path dir));
    plain ← ok_or WrongMachine (unprotect_bytes blob);
    credential_decode plain.

Definition validate_protection (dir : fspath) (d : Disk) : result CredentialError bool :=
  blob ← map_err read_error (fs_read d (credential_path dir));
  plain ← ok_or WrongMachine (unprotect_bytes blob);
  c ← credential_decode plain;
  Ok (negb (bool_decide (dc_private_key c = []))).
End Custody.

(** ** The codec *)

Definition field_wf (s : bytes) : Prop := s <> [] /\ len s <= MAX_FIELD.

(** The credentials the format can carry. *)
Definition credential_wf (c : DeviceCredential) : Prop :=
  field_wf (dc_device_id c) /\ field_wf (dc_private_key c) /\ field_wf (dc_certificate_chain c) /\
  field_wf (dc_serial c) /\ utf8_valid (dc_device_id c) = true /\ dc_expires_after_days c = 30 /\
  len (credential_encode c) <= MAX_TOTAL.

Lemma read_credential_field_Ok f s r :
  read_credential_field s = Ok (f, r) <-> s = credential_field f ++ r /\ field_wf f.
Proof.
  unfold read_credential_field, credential_field, field_wf, MAX_FIELD. split.
  - intros E. inv_reader.
    match goal with E : negb _ = true |- _ => apply negb_true_iff, orb_false_elim in E as [E1 E2] end.
    apply N.eqb_neq in E1. apply N.ltb_ge in E2. rewrite <- app_assoc. split; [done|].
    split; [|done]. by intros ->.
  - intros (-> & Hne & Hl). rewrite <- app_assoc. read_step; [simpl; lia|].
    read_step; [|by apply read_take_Ok].
    rewrite (proj2 (N.eqb_neq _ _)) by (intros E%len_0; done).
    by rewrite (proj2 (N.ltb_ge _ _)).
Qed.

Lemma credential_new_Ok i k ch s d c :
  DeviceCredential_new i k ch s d = Ok c <->
  c = mkCredential i k ch s d /\ i <> [] /\ k <> [] /\ ch <> [] /\ s <> [] /\ d = 30.
Proof.
  unfold DeviceCredential_new.
  repeat case_bool_decide; simpl; try (split; [done|]; by intros (_ & ? & ? & ? & ? & _)).
  destruct (N.eqb_spec d 30); simpl; split; try done.
  - by intros <-%Ok_inj.
  - by intros (-> & _).
  - by intros (_ & _ & _ & _ & _ & ?).
Qed.

(** The decoder accepts exactly the encodings of the credentials the format can
    carry. *)
Theorem credential_codec b c :
  credential_decode b = Ok c <-> b = credential_encode c /\ credential_wf c.
Proof.
  unfold credential_decode, mbind, result_bind. split.
  - destruct (N.ltb_spec MAX_TOTAL (len b)) as [|Hl]; [done|]. cbn [orb].
    destruct (starts_with CREDENTIAL_FORMAT b) eqn:ES; [|done]. cbn [negb].
    apply starts_with_spec in ES as [u ->]. rewrite drop_app_length.
    destruct (read_credential u) as [[[[[[i k] ch] s] x] r]|] eqn:ER; [|done].
    case_bool_decide as Hr; [|done]. cbn [negb]. destruct (utf8_valid i) eqn:EU; [|done]. cbn [negb].
    intros (-> & _ & _ & _ & _ & Hd)%credential_new_Ok. unfold read_credential in ER.
    repeat (apply read_bind_Ok in ER as (? & ? & ? & ER)). apply read_ret_Ok in ER as [E ->].
    simplify_eq.
    repeat match goal with
    | E : read_credential_field _ = Ok _ |- _ => apply read_credential_field_Ok in E as [-> ?]
    | E : read_byte _ _ = Ok _ |- _ => apply read_byte_Ok in E as ->
    end.
    unfold credential_wf, credential_encode. cbn -[CREDENTIAL_FORMAT credential_field byte_of].
    rewrite byte_of_to_N. done.
  - intros [-> (Hi & Hk & Hc & Hs & Hu & Hd & Hl)].
    rewrite (proj2 (N.ltb_ge _ _)) by done. cbn [orb]. unfold credential_encode at 1.
    rewrite starts_with_app. cbn [negb]. unfold credential_encode. rewrite drop_app_length.
    assert (read_credential (credential_field (dc_device_id c) ++ credential_field (dc_private_key c)
      ++ credential_field (dc_certificate_chain c) ++ credential_field (dc_serial c)
      ++ [byte_of (dc_expires_after_days c)]) =
      Ok (dc_device_id c, dc_private_key c, dc_certificate_chain c, dc_serial c,
          byte_of (dc_expires_after_days c), [])) as ->.
    { unfold read_credential.
      do 4 (apply read_bind_Ok; eexists _, _; split; [by apply read_credential_field_Ok|]).
      by read_step. }
    rewrite bool_decide_eq_true_2, Hu by done. cbn [negb].
    rewrite to_N_byte_of, Hd. change (30 mod 256) with 30.
    apply credential_new_Ok. unfold field_wf in *. rewrite <- Hd. destruct c; simpl in *. naive_solver.
Qed.

(** ** Protect, then load *)

Section ProtectLoad.
Context `{Custody}.

Lemma credential_field_inj a b x y :
  len a <= MAX_TOTAL -> len b <= MAX_TOTAL ->
  credential_field a ++ x = credential_field b ++ y -> a = b /\ x = y.
Proof.
  unfold credential_field, MAX_TOTAL. intros Ha Hb E. rewrite <- !app_assoc in E.
  apply app_inj_len in E as [El E]; [|by rewrite !len_to_be].
  apply to_be_inj in El; [|cbn; lia..]. by apply app_inj_len in E.
Qed.

Lemma credential_encode_inj c v :
  len (credential_encode c) <= MAX_TOTAL -> dc_expires_after_days c = dc_expires_after_days v ->
  credential_encode c = credential_encode v -> c = v.
Proof.
  intros Hl Hd E. pose proof Hl as Hl'. rewrite E in Hl'.
  destruct c as [i k ch s d], v as [i' k' ch' s' d']. unfold credential_encode in *. cbn in Hd. subst.
  cbn -[CREDENTIAL_FORMAT credential_field byte_of] in *.
  rewrite !len_app in Hl, Hl'. apply app_inv_head in E.
  assert (forall x : bytes, len x <= len (credential_field x)) as Hf.
  { intros x. unfold credential_field. rewrite len_app. lia. }
  pose proof (Hf i). pose proof (Hf k). pose proof (Hf ch). pose proof (Hf s).
  pose proof (Hf i'). pose proof (Hf k'). pose proof (Hf ch'). pose proof (Hf s').
  do 4 (apply credential_field_inj in E as [-> E]; [|lia..]). done.
Qed.

(** A run of [protect] that succeeds: the file holds the protected bytes, and
    they were read back and decoded. *)
Lemma protect_Ok dir c w w' :
  protect dir c w = (Ok tt, w') ->
  exists b plain v, protect_bytes (credential_encode c) = Some b /\
    fs_read (w_disk w') (credential_path dir) = Ok b /\
    unprotect_bytes b = Some plain /\ credential_decode plain = Ok v.
Proof.
  intros E. unfold protect in E. apply bind_Ok in E as (b & w0 & E0 & E).
  unfold lift in E0. apply pair_eq in E0 as [E0 <-].
  destruct (protect_bytes (credential_encode c)) as [b'|]; [|done]. apply Ok_inj in E0 as ->.
  do 4 (apply bind_Ok in E as (? & ? & ? & E)).
  repeat match goal with
  | E : credential_io ?m ?x = (Ok _, ?y) |- _ =>
      unfold credential_io in E; destruct (m x) as [[?|?] ?] eqn:?; simplify_eq/=
  end.
  do 2 (apply bind_Ok in E as (? & ? & Eacl & E); unfold ensure in Eacl;
        destruct (enforce_acl _); [apply pair_eq in Eacl as [_ <-]|done]).
  match goal with Hr : fs_rename _ _ _ = (Ok _, ?wr) |- _ =>
    assert (dk_files (w_disk wr) !! credential_path dir = Some b) as Hfile
      by (eapply fs_rename_Ok; [by eapply fs_stage_Ok|done]) end.
  apply bind_Ok in E as (dk & ? & Eg & E). unfold gets in Eg. apply pair_eq in Eg as [<-%Ok_inj <-].
  apply bind_Ok in E as (blob & ? & Er & E). unfold lift in Er. apply pair_eq in Er as [Er <-].
  apply bind_Ok in E as (plain & ? & Eu & E). unfold lift in Eu. apply pair_eq in Eu as [Eu <-].
  apply bind_Ok in E as (v & ? & Ev & E). unfold lift in Ev. apply pair_eq in Ev as [Ev <-].
  unfold ensure in E. destruct (negb _); [apply pair_eq in E as [_ <-]|done].
  destruct (fs_read _ (credential_path dir)) as [b'|] eqn:ER; [|done]. apply Ok_inj in Er as ->.
  assert (blob = b) as ->.
  { unfold fs_read in ER. rewrite Hfile in ER. repeat case_match; by simplify_eq. }
  destruct (unprotect_bytes b) as [plain'|] eqn:EU; [|done]. apply Ok_inj in Eu as ->.
  by exists b, plain, v.
Qed.

(** A protected credential is what the file decodes to. *)
Lemma protect_decodes (Hlaws : CustodyLaws _) dir c w w' :
  dc_expires_after_days c = 30 -> protect dir c w = (Ok tt, w') ->
  exists b, fs_exists (w_disk w') (credential_path dir) = true /\
    fs_read (w_disk w') (credential_path dir) = Ok b /\
    unprotect_bytes b = Some (credential_encode c) /\ credential_decode (credential_encode c) = Ok c.
Proof.
  intros Hd (b & plain & v & EP & ER & Eu & Ev)%protect_Ok.
  rewrite (unprotect_protect _ _ EP) in Eu. injection Eu as <-.
  pose proof Ev as [Ee Hw]%credential_codec. destruct Hw as (_ & _ & _ & _ & _ & Hv & Hl).
  assert (c = v) as -> by (apply credential_encode_inj; congruence).
  exists b. split; [|by rewrite (unprotect_protect _ _ EP)].
  unfold fs_exists. unfold fs_read in ER.
  destruct (dk_files (w_disk w') !! credential_path dir) as [x|]; [by rewrite bool_decide_eq_true_2|].
  repeat case_match; by simplify_eq.
Qed.

(** A credential that was protected is the one that is loaded: when protect
    reports success, load afterwards returns exactly that credential, provided
    the access-control lists it set validate. *)
Theorem protect_load (Hlaws : CustodyLaws _) dir c w w' :
  dc_expires_after_days c = 30 -> validate_acl dir = true ->
  validate_acl (credential_path dir) = true ->
  protect dir c w = (Ok tt, w') -> load dir (w_disk w') = Ok c.
Proof.
  intros Hd Ha Hp Hrun. destruct (protect_decodes Hlaws dir c w w' Hd Hrun) as (b & Hex & Hr & Hu & Hdec).
  unfold load, mbind, result_bind. by rewrite Hex, Ha, Hp, Hr; cbn; rewrite Hu.
Qed.
End ProtectLoad.

(** ** A concrete machine *)

Module Machine.
#[export] Instance custody : Custody := {|
  protect_bytes p := Some (x5a :: p);
  unprotect_bytes b := match b with x5a :: p => Some p | _ => None end;
  enforce_acl _ := true;
  validate_acl _ := true;
|}.

#[export] Instance custody_laws : CustodyLaws custody.
Proof. split. by intros p b [= <-]. Qed.

Definition directory : fspath := [lit "agent"].
Definition credential : DeviceCredential :=
  mkCredential (lit "device-01") (lit "key") (lit "chain") [x01] 30.
Definition world : World :=
  mkWorld (mkDisk ∅ {[ directory ]} ∅) (fun _ => Done) 0 (fun _ => []) 0 id 0 1 1 1 1.
Definition run : result CredentialError unit * World := protect directory credential world.
End Machine.

Import Machine.

Lemma protect_load_witness :
  fst run = Ok tt /\ load directory (w_disk (snd run)) = Ok credential.
Proof.
  assert (fst run = Ok tt) as E by (vm_compute; reflexivity). split; [exact E|].
  exact (protect_load custody_laws directory credential world (snd run) eq_refl eq_refl eq_refl
    (eq_trans (surjective_pairing run) (f_equal (fun r => (r, snd run)) E))).
Defined.
