(* ===== verification/Calendar.v ===== *)
(** The civil date arithmetic of [dlp-server/src/pki.rs] that dates a device
    certificate: [utc_date_after_days] is the calendar's own day count. *)

From Stdlib Require Import ZArith Lia.
From stdpp Require Import base list numbers.
From S2P Require Import Prelude.

Local Open Scope Z_scope.

(** * Machine casts of the source *)

(** [x as i64] of a [u64], [x as i32] of an [i64] and [x as u8] of an [i64]. *)
Definition to_i64 (x : Z) : Z := (x + 2 ^ 63) mod 2 ^ 64 - 2 ^ 63.
Definition to_i32 (x : Z) : Z := (x + 2 ^ 31) mod 2 ^ 32 - 2 ^ 31.
Definition to_u8 (x : Z) : Z := x mod 2 ^ 8.

(** * The conversion *)

(** The date of a count of days since 0000-03-01, [i64] division truncating. *)
Definition civil_of_days (z : Z) : Z * Z * Z :=
  let era := Z.quot (if 0 <=? z then z else z - 146096) 146097 in
  let doe := z - era * 146097 in
  let yoe := Z.quot (doe - Z.quot doe 1460 + Z.quot doe 36524 - Z.quot doe 146096) 365 in
  let year := yoe + era * 400 in
  let day_of_year := doe - (365 * yoe + Z.quot yoe 4 - Z.quot yoe 100) in
  let month_prime := Z.quot (5 * day_of_year + 2) 153 in
  let day := day_of_year - Z.quot (153 * month_prime + 2) 5 + 1 in
  let month := month_prime + (if month_prime <? 10 then 3 else -9) in
  let year := year + (if month <=? 2 then 1 else 0) in
  (to_i32 year, to_u8 month, to_u8 day).

(** [now] is the whole seconds since the epoch, 0 for a clock before it. *)
Definition utc_date_after_days (now additional_days : Z) : Z * Z * Z :=
  let unix_days := Z.quot (to_i64 now) 86400 + additional_days in
  civil_of_days (unix_days + 719468).

(** * The Gregorian calendar *)

Definition leap (y : Z) : bool :=
  (y mod 4 =? 0) && (negb (y mod 100 =? 0) || (y mod 400 =? 0)).

Definition month_days (y m : Z) : Z :=
  if m =? 2 then (if leap y then 29 else 28)
  else if (m =? 4) || (m =? 6) || (m =? 9) || (m =? 11) then 30 else 31.

Definition next_day (d : Z * Z * Z) : Z * Z * Z :=
  let '(y, m, day) := d in
  if day <? month_days y m then (y, m, day + 1)
  else if m =? 12 then (y + 1, 1, 1) else (y, m + 1, 1).

Definition epoch : Z * Z * Z := (1970, 1, 1).

(** * Days of an era *)

Local Ltac divs := Z.to_euclidean_division_equations; lia.

(** The days before year [y] of an era, and the date of a day of that year. *)
Definition year_start (y : Z) : Z := 365 * y + y / 4 - y / 100.
Definition year_days (y : Z) : Z := if leap (y + 1) then 366 else 365.

Definition day_date (year doy : Z) : Z * Z * Z :=
  let mp := (5 * doy + 2) / 153 in
  let month := mp + (if mp <? 10 then 3 else -9) in
  (year + (if month <=? 2 then 1 else 0), month, doy - (153 * mp + 2) / 5 + 1).

(** A count of days is an era of 400 years, a year of it and a day of the year. *)
Lemma era_parts z : 0 <= z ->
  exists era yoe doy, 0 <= era /\ 0 <= yoe < 400 /\ 0 <= doy < year_days yoe /\
    z = 146097 * era + year_start yoe + doy.
Proof.
  intros Hz. set (doe := z mod 146097).
  set (yoe := (doe - doe / 1460 + doe / 36524 - doe / 146096) / 365).
  exists (z / 146097), yoe, (doe - year_start yoe).
  assert (Hdoe : 0 <= doe < 146097) by (subst doe; divs).
  assert (Hyoe : 0 <= yoe < 400) by (subst yoe; divs).
  assert (Hlo : year_start yoe <= doe) by (subst yoe; unfold year_start; divs).
  assert (Hhi : doe - year_start yoe < year_days yoe).
  { unfold year_days, leap, year_start.
    destruct ((yoe + 1) mod 4 =? 0) eqn:H4, ((yoe + 1) mod 100 =? 0) eqn:H100,
      ((yoe + 1) mod 400 =? 0) eqn:H400; cbn [andb orb negb]; subst yoe; divs. }
  repeat split; try lia; subst doe; divs.
Qed.

Lemma year_days_cases y :
  (year_days y = 365 \/ year_days y = 366) /\
  (0 <= y < 399 -> year_start (y + 1) = year_start y + year_days y) /\
  (y = 399 -> year_start y + year_days y = 146097).
Proof.
  unfold year_days, leap, year_start.
  split; [destruct (_ && _); lia|]. split.
  - intros Hy.
    destruct ((y + 1) mod 4 =? 0) eqn:H4, ((y + 1) mod 100 =? 0) eqn:H100,
      ((y + 1) mod 400 =? 0) eqn:H400; cbn [andb orb negb]; divs.
  - intros ->. reflexivity.
Qed.

Lemma as_u8_small x : 0 <= x < 256 -> to_u8 x = x.
Proof. intros H. by apply Z.mod_small. Qed.

Lemma as_i32_small x : 0 <= x < 2 ^ 31 -> to_i32 x = x.
Proof. intros H. unfold to_i32. rewrite Z.mod_small; lia. Qed.

(** The year of an era is found from the day of the era. *)
Lemma year_of_era_day yoe doy :
  0 <= yoe < 400 -> 0 <= doy < year_days yoe ->
  let doe := year_start yoe + doy in
  0 <= doe < 146097 /\
  (doe - doe / 1460 + doe / 36524 - doe / 146096) / 365 = yoe.
Proof.
  intros Hy Hd doe. subst doe. revert Hd. unfold year_days, leap, year_start.
  destruct ((yoe + 1) mod 4 =? 0) eqn:H4, ((yoe + 1) mod 100 =? 0) eqn:H100,
    ((yoe + 1) mod 400 =? 0) eqn:H400; cbn [andb orb negb]; intros; split; divs.
Qed.

Lemma day_date_bounds year doy :
  0 <= doy <= 365 ->
  let '(y, m, d) := day_date year doy in year <= y <= year + 1 /\ 1 <= m <= 12 /\ 1 <= d <= 31.
Proof.
  intros Hd. unfold day_date.
  destruct ((5 * doy + 2) / 153 <? 10) eqn:H10;
    match goal with |- context [?m <=? 2] => destruct (m <=? 2) eqn:H2 end;
    repeat split; divs.
Qed.

(** The source's conversion on the parts of the count. *)
Lemma civil_of_parts era yoe doy :
  0 <= era < 2 ^ 22 -> 0 <= yoe < 400 -> 0 <= doy < year_days yoe ->
  civil_of_days (146097 * era + year_start yoe + doy) = day_date (yoe + era * 400) doy.
Proof.
  intros He Hy Hd.
  destruct (year_of_era_day yoe doy Hy Hd) as [Hdoe Hyoe].
  pose proof (year_days_cases yoe) as [Hlen _].
  pose proof (day_date_bounds (yoe + era * 400) doy ltac:(lia)) as Hb.
  unfold civil_of_days. rewrite (proj2 (Z.leb_le _ _)) by lia.
  rewrite (Z.quot_div_nonneg (146097 * era + year_start yoe + doy)) by lia.
  replace ((146097 * era + year_start yoe + doy) / 146097) with era by divs.
  replace (146097 * era + year_start yoe + doy - era * 146097) with (year_start yoe + doy) by lia.
  set (doe := year_start yoe + doy) in *.
  rewrite !(Z.quot_div_nonneg doe) by lia.
  rewrite (Z.quot_div_nonneg (doe - _ + _ - _)) by divs. rewrite Hyoe.
  rewrite !(Z.quot_div_nonneg yoe) by lia.
  replace (doe - (365 * yoe + yoe / 4 - yoe / 100)) with doy by (subst doe; unfold year_start; lia).
  rewrite (Z.quot_div_nonneg (5 * doy + 2)) by lia.
  rewrite (Z.quot_div_nonneg (153 * _ + 2)) by divs.
  unfold day_date in Hb. destruct Hb as (Hby & Hbm & Hbd).
  rewrite as_i32_small, !as_u8_small by lia. reflexivity.
Qed.

(** Within a year, and across its end, the dates follow the calendar. *)
Lemma leap_shift y k : leap (y + k * 400) = leap y.
Proof.
  unfold leap.
  replace ((y + k * 400) mod 4) with (y mod 4) by divs.
  replace ((y + k * 400) mod 100) with (y mod 100) by divs.
  by replace ((y + k * 400) mod 400) with (y mod 400) by divs.
Qed.

(** The month and day of a day of the year, the years to add, and the day after. *)
Definition month_day (doy : Z) : Z * Z * Z := day_date 0 doy.

Definition month_day_after (lp : bool) (d : Z * Z * Z) : Z * Z * Z :=
  let '(carry, m, day) := d in
  let length := if m =? 2 then (if lp then 29 else 28)
    else if (m =? 4) || (m =? 6) || (m =? 9) || (m =? 11) then 30 else 31 in
  if day <? length then (carry, m, day + 1)
  else if m =? 12 then (carry + 1, 1, 1) else (carry, m + 1, 1).

Definition months_follow (lp : bool) : bool :=
  forallb (fun n : nat => let doy := Z.of_nat n in
    bool_decide (month_day_after lp (month_day doy) =
      (if doy + 1 <? (if lp then 366 else 365) then month_day (doy + 1) else (1, 3, 1))) &&
    bool_decide (((month_day doy).1.2 = 2 -> (month_day doy).1.1 = 1)))
    (seq 0 (if lp then 366 else 365)).

Lemma months_follow_spec (lp : bool) doy :
  0 <= doy < (if lp then 366 else 365) ->
  month_day_after lp (month_day doy) =
    (if doy + 1 <? (if lp then 366 else 365) then month_day (doy + 1) else (1, 3, 1)) /\
  ((month_day doy).1.2 = 2 -> (month_day doy).1.1 = 1).
Proof.
  intros Hd. assert (Hc : months_follow lp = true) by (destruct lp; vm_compute; reflexivity).
  unfold months_follow in Hc. rewrite forallb_forall in Hc.
  specialize (Hc (Z.to_nat doy)). rewrite Z2Nat.id in Hc by lia.
  apply andb_prop in Hc as [H1 H2].
  - by apply bool_decide_eq_true in H1, H2.
  - apply in_seq. destruct lp; lia.
Qed.

Definition add_years (year : Z) (d : Z * Z * Z) : Z * Z * Z := (year + d.1.1, d.1.2, d.2).

Lemma day_date_shift year doy : day_date year doy = add_years year (month_day doy).
Proof. unfold month_day, day_date, add_years. cbn. repeat f_equal. Qed.

Lemma next_day_add year d :
  (d.1.2 = 2 -> d.1.1 = 1) ->
  next_day (add_years year d) = add_years year (month_day_after (leap (year + 1)) d).
Proof.
  destruct d as [[c m] d]. cbn. intros Hf. unfold month_days.
  destruct (m =? 2) eqn:Hm.
  - apply Z.eqb_eq in Hm as ->. by rewrite (Hf eq_refl); destruct (d <? _).
  - destruct (d <? _); [done|]. destruct (m =? 12); [|done].
    unfold add_years. cbn. by rewrite Z.add_assoc.
Qed.

Lemma next_day_date year doy :
  0 <= doy < (if leap (year + 1) then 366 else 365) ->
  next_day (day_date year doy) =
    (if doy + 1 <? (if leap (year + 1) then 366 else 365)
     then day_date year (doy + 1) else day_date (year + 1) 0).
Proof.
  intros Hd. destruct (months_follow_spec _ _ Hd) as [Hn Hf].
  rewrite !day_date_shift, next_day_add by done. rewrite Hn.
  destruct (doy + 1 <? _); [done|].
  unfold add_years. replace (month_day 0) with (0, 3, 1) by reflexivity. cbn. by rewrite Z.add_0_r.
Qed.

(** The conversion steps through the calendar a day at a time. *)
Lemma civil_next z :
  0 <= z < 146097 * (2 ^ 22 - 1) -> civil_of_days (z + 1) = next_day (civil_of_days z).
Proof.
  intros Hz. destruct (era_parts z ltac:(lia)) as (era & yoe & doy & He & Hy & Hd & Hparts).
  pose proof (year_days_cases yoe) as (Hlen & Hstart & Hend).
  assert (0 <= year_start yoe) by (unfold year_start; divs).
  assert (Hl : year_days yoe = if leap (yoe + era * 400 + 1) then 366 else 365).
  { unfold year_days. by replace (yoe + era * 400 + 1) with (yoe + 1 + era * 400) by lia; rewrite leap_shift. }
  rewrite Hparts at 2. rewrite civil_of_parts by lia.
  rewrite next_day_date, <- Hl by (rewrite <- Hl; lia).
  destruct (Z.ltb_spec (doy + 1) (year_days yoe)).
  - rewrite <- civil_of_parts by lia. f_equal. lia.
  - destruct (decide (yoe = 399)) as [->|].
    + replace (399 + era * 400 + 1) with (0 + (era + 1) * 400) by lia.
      specialize (Hend eq_refl).
      rewrite <- civil_of_parts; [|lia|lia|by cbv]. f_equal.
      change (year_start 0) with 0. lia.
    + replace (yoe + era * 400 + 1) with (yoe + 1 + era * 400) by lia.
      rewrite <- civil_of_parts; [f_equal; rewrite Hstart by lia; lia| | |]; try lia.
      pose proof (year_days_cases (yoe + 1)); lia.
Qed.

(** ** The number of a day *)

Definition days_before_year (y : Z) : Z := 365 * y + (y - 1) / 4 - (y - 1) / 100 + (y - 1) / 400.

Definition days_before_month (y m : Z) : Z :=
  (if m =? 1 then 0 else if m =? 2 then 31 else if m =? 3 then 59 else if m =? 4 then 90
   else if m =? 5 then 120 else if m =? 6 then 151 else if m =? 7 then 181 else if m =? 8 then 212
   else if m =? 9 then 243 else if m =? 10 then 273 else if m =? 11 then 304 else 334)
  + (if (2 <? m) && leap y then 1 else 0).

(** The days from 1970-01-01 to a date. *)
Definition day_number (date : Z * Z * Z) : Z :=
  let '(y, m, d) := date in
  days_before_year y - days_before_year 1970 + days_before_month y m + d - 1.

Definition is_date (date : Z * Z * Z) : Prop :=
  let '(y, m, d) := date in 1 <= m <= 12 /\ 1 <= d <= month_days y m.

Lemma days_before_next_year y :
  days_before_year (y + 1) = days_before_year y + 365 + (if leap y then 1 else 0).
Proof.
  unfold days_before_year, leap. replace (y + 1 - 1) with y by lia.
  destruct (Z.eqb_spec (y mod 4) 0), (Z.eqb_spec (y mod 100) 0), (Z.eqb_spec (y mod 400) 0); cbn [andb orb negb]; divs.
Qed.

Lemma month_cases m : 1 <= m <= 12 -> m = 12 \/
  (m = 1 \/ m = 2 \/ m = 3 \/ m = 4 \/ m = 5 \/ m = 6 \/ m = 7 \/ m = 8 \/ m = 9 \/ m = 10 \/ m = 11).
Proof. lia. Qed.

Lemma days_before_next_month y m :
  1 <= m <= 12 ->
  1 <= month_days y m /\
  days_before_month y m + month_days y m =
    if m =? 12 then 365 + (if leap y then 1 else 0) else days_before_month y (m + 1).
Proof.
  intros Hm. unfold month_days, days_before_month.
  destruct (month_cases m Hm) as [->|H]; [by destruct (leap y)|].
  repeat destruct H as [H|H]; subst m; by destruct (leap y).
Qed.

Lemma day_number_next date :
  is_date date -> is_date (next_day date) /\ day_number (next_day date) = day_number date + 1.
Proof.
  destruct date as [[y m] d]. intros [Hm Hd]. unfold next_day, day_number, is_date.
  pose proof (days_before_next_month y m Hm) as [_ Hnext].
  destruct (Z.ltb_spec d (month_days y m)) as [Hlt|Hge]; [lia|].
  destruct (Z.eqb_spec m 12) as [->|Hne].
  - pose proof (days_before_next_year y). pose proof (days_before_next_month (y + 1) 1 ltac:(lia)) as [? _].
    change (days_before_month (y + 1) 1) with 0. lia.
  - pose proof (days_before_next_month y (m + 1) ltac:(lia)) as [? _]. lia.
Qed.

Lemma day_number_iter n : day_number (N.iter n next_day epoch) = Z.of_N n.
Proof.
  assert (H : is_date (N.iter n next_day epoch) /\ day_number (N.iter n next_day epoch) = Z.of_N n); [|tauto].
  induction n as [|n [IHd IHn]] using N.peano_ind; [by vm_compute|].
  rewrite N.iter_succ. apply day_number_next in IHd as [Hd Hn]. split; [done|]. rewrite Hn, IHn. lia.
Qed.

(** ** The certificate dates *)

Lemma civil_calendar n :
  (n <= 2 * 10 ^ 9)%N -> civil_of_days (Z.of_N n + 719468) = N.iter n next_day epoch.
Proof.
  induction n as [|n IH] using N.peano_ind; intros Hb; [reflexivity|].
  rewrite N.iter_succ, <- IH by lia. rewrite <- civil_next by lia. f_equal. lia.
Qed.

(** The date as a day number. *)
Lemma utc_date_civil (now k : N) :
  (Z.of_N now < 86400 * 10 ^ 9) ->
  utc_date_after_days (Z.of_N now) (Z.of_N k) = civil_of_days (Z.of_N (now / 86400 + k) + 719468).
Proof.
  intros Hn. unfold utc_date_after_days.
  assert (Hi : to_i64 (Z.of_N now) = Z.of_N now) by (unfold to_i64; rewrite Z.mod_small; lia).
  rewrite Hi, Z.quot_div_nonneg by lia. f_equal. rewrite N2Z.inj_add, N2Z.inj_div. done.
Qed.

Lemma days_bound (now k : N) :
  (Z.of_N now < 86400 * 10 ^ 9) -> (Z.of_N k <= 10 ^ 6) -> (now / 86400 + k <= 2 * 10 ^ 9)%N.
Proof. intros Hn Hk. apply N2Z.inj_le. rewrite N2Z.inj_add, N2Z.inj_div. divs. Qed.

(** C38.  The hand-written civil date conversion that dates a device certificate
    is the Gregorian calendar: for any clock up to a billion days after the epoch, the date
    [k] days after today is the date reached from 1970-01-01 by stepping day by
    day, leap years and century rules included, [days since the epoch + k] times.
    In particular two dates computed on one day, 30 days apart, are 30 days apart in
    the calendar. *)
Theorem utc_date_calendar (now k : N) :
  (Z.of_N now < 86400 * 10 ^ 9) -> (Z.of_N k <= 10 ^ 6) ->
  utc_date_after_days (Z.of_N now) (Z.of_N k) = N.iter (now / 86400 + k) next_day epoch.
Proof. intros Hn Hk. rewrite utc_date_civil by done. by apply civil_calendar, days_bound. Qed.

(** 2024-02-28 and 30 days later, across the leap day. *)
Lemma utc_date_calendar_witness :
  utc_date_after_days 1709078400 0 = (2024, 2, 28) /\
  utc_date_after_days (Z.of_N 1709078400) (Z.of_N 30) = N.iter (1709078400 / 86400 + 30) next_day epoch.
Proof. split; [reflexivity|]. apply (utc_date_calendar 1709078400 30); lia. Defined.
