(* ===== verification/Tls.v ===== *)
(** * Tls

    The TLS identity boundary of the server (crates/dlp-server/src/tls.rs): how a
    verified client certificate becomes the identity of an administrator or a
    device, what the listener admits, and the loading of the mounted material.
    The certificate parser, the PEM parser and the handshake are third-party code:
    a parsed certificate is the record of what the source asks of it, and the
    parsers are the members of the class [Certificates]. *)

From S2P Require Import Prelude Bytes Text.

(** ** Certificates *)

(** A certificate as crate x509-parser shows it.  An accessor of an extension
    fails when the extension is malformed or repeated; otherwise the extension is
    absent or has a value. *)
Inductive GeneralName := UriName (uri : bytes) | OtherName.

Record Certificate := mkCertificate {
  ct_is_ca : bool;
  ct_not_before : Z;
  ct_not_after : Z;
  ct_digital_signature : result unit (option bool);
  ct_client_auth : result unit (option bool);
  ct_alternative_names : result unit (option (list GeneralName));
  ct_subject : bytes;
  ct_issuer : bytes;
  ct_raw_serial : bytes;
  ct_public_key : bytes;
}.

(** [validity().is_valid()] at the time [now]. *)
Definition is_valid (now : Z) (c : Certificate) : bool :=
  (ct_not_before c <=? now)%Z && (now <=? ct_not_after c)%Z.

(** The calls to crates x509-parser, rustls-pemfile and rustls: the certificate of a
    DER string with the bytes left over, the certificates and the key of a PEM text,
    whether a trust store takes a certificate, a verifier can be built on roots and
    a key serves a chain, and whether a key verifies the signature of a certificate. *)
Class Certificates := {
  parse_x509_certificate : bytes -> option (bytes * Certificate);
  pem_certificates : bytes -> option (list bytes);
  pem_private_key : bytes -> option bytes;
  root_store_add : bytes -> bool;
  client_verifier : list bytes -> bool;
  single_certificate : list bytes -> bytes -> bool;
  verify_signature : bytes -> bytes -> bool;
}.

(** ** Identities *)

Inductive CredentialStatus := StatusActive | StatusRevoked | StatusExpired.
#[export] Instance CredentialStatus_eq_dec : EqDecision CredentialStatus.
Proof. solve_decision. Defined.

Inductive PeerRole := Administrator | Device.
#[export] Instance PeerRole_eq_dec : EqDecision PeerRole.
Proof. solve_decision. Defined.

Record PeerIdentity := mkPeer {
  pe_role : PeerRole;
  pe_subject : bytes;
  pe_serial : bytes;
}.

Inductive TlsError := MissingConfiguration | InvalidMaterial | Unauthorized.
#[export] Instance TlsError_eq_dec : EqDecision TlsError.
Proof. solve_decision. Defined.

Record AuthenticatedAdmin := mkAdmin { aa_subject : bytes }.

Record AuthenticatedDevice := mkDevice {
  ad_device_id : bytes;
  ad_credential_serial : bytes;
}.

Definition admin_from_peer (peer : PeerIdentity) : result TlsError AuthenticatedAdmin :=
  if negb (bool_decide (pe_role peer = Administrator)) || bool_decide (pe_subject peer = [])
  then Err Unauthorized else Ok (mkAdmin (pe_subject peer)).

Definition device_from_peer (peer : PeerIdentity) (status : CredentialStatus) :
    result TlsError AuthenticatedDevice :=
  if negb (bool_decide (pe_role peer = Device)) || bool_decide (pe_subject peer = [])
     || bool_decide (pe_serial peer = []) || negb (bool_decide (status = StatusActive))
  then Err Unauthorized else Ok (mkDevice (pe_subject peer) (pe_serial peer)).

(** A connection: the identity of its verified peer, or none. *)
Definition TlsConnectionInfo : Type := option PeerIdentity.

(** ** Leaf certificates *)

Definition device_uri_prefix : bytes := lit "urn:dlp:device:".

(** The extension accessors: an error is [InvalidMaterial], an absent extension
    [Unauthorized]. *)
Definition extension {A} (r : result unit (option A)) : result TlsError A :=
  o ← map_err (fun _ => InvalidMaterial) r; ok_or Unauthorized o.

(** [find_map] over the alternative names: the first URI with the prefix. *)
Fixpoint device_name (names : list GeneralName) : option bytes :=
  match names with
  | [] => None
  | UriName uri :: names' =>
      match strip_prefix device_uri_prefix uri with
      | Some id => Some id
      | None => device_name names'
      end
  | OtherName :: names' => device_name names'
  end.

Section Leaves.
Context `{Certificates} (now : Z).

(** The check every path starts with. *)
Definition leaf_certificate (leaf_der : bytes) : result TlsError Certificate :=
  '(remainder, certificate) ← ok_or InvalidMaterial (parse_x509_certificate leaf_der);
  if negb (bool_decide (remainder = [])) || ct_is_ca certificate || negb (is_valid now certificate)
  then Err Unauthorized else Ok certificate.

Definition device_from_verified_leaf (leaf_der : bytes) : result TlsError PeerIdentity :=
  certificate ← leaf_certificate leaf_der;
  key_usage ← extension (ct_digital_signature certificate);
  extended_usage ← extension (ct_client_auth certificate);
  if negb key_usage || negb extended_usage then Err Unauthorized else
  names ← extension (ct_alternative_names certificate);
  device_id ← ok_or Unauthorized
    (match device_name names with
     | Some id => if bool_decide (id = []) then None else Some id
     | None => None
     end);
  Ok (mkPeer Device device_id (ct_raw_serial certificate)).

(** The administrator identity of a leaf. *)
Definition admin_of_leaf (certificate : Certificate) : result TlsError PeerIdentity :=
  if bool_decide (ct_subject certificate = []) || bool_decide (ct_raw_serial certificate = [])
  then Err Unauthorized
  else Ok (mkPeer Administrator (ct_subject certificate) (ct_raw_serial certificate)).

Definition from_verified_leaf (leaf_der : bytes) : result TlsError PeerIdentity :=
  match device_from_verified_leaf leaf_der with
  | Ok device => Ok device
  | Err Unauthorized =>
      certificate ← leaf_certificate leaf_der;
      admin_of_leaf certificate
  | Err error => Err error
  end.

Record IdentityRoots := mkRoots {
  ir_administrator_issuer : bytes;
  ir_device_issuer : bytes;
}.

Definition peer_identity (roots : IdentityRoots) (leaf_der : bytes) : result TlsError PeerIdentity :=
  certificate ← leaf_certificate leaf_der;
  if bool_decide (ct_issuer certificate = ir_device_issuer roots)
  then device_from_verified_leaf leaf_der
  else if negb (bool_decide (ct_issuer certificate = ir_administrator_issuer roots))
  then Err Unauthorized
  else admin_of_leaf certificate.

(** ** The listener *)

(** One turn of the accept loop: the accept failed, the handshake failed, or it
    completed with the certificates the peer sent, if any. *)
Inductive attempt := AcceptFailed | HandshakeFailed | Handshake (chain : option (list bytes)).

Definition admit_connection (roots : IdentityRoots) (a : attempt) : option TlsConnectionInfo :=
  match a with
  | AcceptFailed | HandshakeFailed => None
  | Handshake chain =>
      match (chain ≫= head) with
      | Some certificate =>
          match peer_identity roots certificate with
          | Ok peer => Some (Some peer)
          | Err _ => None
          end
      | None => Some None
      end
  end.

(** [accept]: the connection of the first attempt that is admitted, and the
    attempts after it. *)
Fixpoint accept (roots : IdentityRoots) (attempts : list attempt) :
    option (TlsConnectionInfo * list attempt) :=
  match attempts with
  | [] => None
  | a :: rest =>
      match admit_connection roots a with
      | Some connection => Some (connection, rest)
      | None => accept roots rest
      end
  end.
End Leaves.

(** ** Mounted material *)

(** The process environment and the files it names. *)
Record Host := mkHost {
  ho_variable : bytes -> option bytes;
  ho_file : bytes -> option bytes;
}.

Record TlsPaths := mkTlsPaths {
  tp_server_certificate : bytes;
  tp_server_private_key : bytes;
  tp_administrator_ca : bytes;
  tp_phase1_root_ca : bytes;
  tp_device_issuing_ca : bytes;
}.

Definition required_path (h : Host) (variable : bytes) : result TlsError bytes :=
  value ← ok_or MissingConfiguration (ho_variable h variable);
  if bool_decide (value = []) then Err MissingConfiguration
  else if bool_decide (ho_file h value = None) then Err InvalidMaterial
  else Ok value.

Definition TlsPaths_from_environment (h : Host) : result TlsError TlsPaths :=
  server_certificate ← required_path h (lit "DLP_SERVER_CERT_PEM");
  server_private_key ← required_path h (lit "DLP_SERVER_KEY_PEM");
  administrator_ca ← required_path h (lit "DLP_ADMIN_CA_CERT_PEM");
  phase1_root_ca ← required_path h (lit "DLP_PHASE1_ROOT_CA_CERT_PEM");
  device_issuing_ca ← required_path h (lit "DLP_DEVICE_ISSUING_CA_CERT_PEM");
  Ok (mkTlsPaths server_certificate server_private_key administrator_ca phase1_root_ca
        device_issuing_ca).

Section Material.
Context `{Certificates} (h : Host).

Definition load_certificates (path : bytes) : result TlsError (list bytes) :=
  text ← ok_or InvalidMaterial (ho_file h path);
  certificates ← ok_or InvalidMaterial (pem_certificates text);
  if bool_decide (certificates = []) then Err InvalidMaterial else Ok certificates.

Definition load_private_key (path : bytes) : result TlsError bytes :=
  text ← ok_or InvalidMaterial (ho_file h path);
  ok_or InvalidMaterial (pem_private_key text).

(** Every certificate goes into a trust store, or none is usable. *)
Definition trust_store (certificates : list bytes) : result TlsError (list bytes) :=
  if forallb root_store_add certificates then Ok certificates else Err InvalidMaterial.

(** What [server_config] configures: the chain and key served, the roots that
    client certificates are verified against, and the protocols. A client that
    presents no certificate is admitted. *)
Record TlsServerConfig := mkTlsServerConfig {
  ts_certificates : list bytes;
  ts_private_key : bytes;
  ts_client_roots : list bytes;
  ts_client_required : bool;
  ts_protocols : list bytes;
}.

Definition server_config (p : TlsPaths) : result TlsError TlsServerConfig :=
  certificates ← load_certificates (tp_server_certificate p);
  private_key ← load_private_key (tp_server_private_key p);
  administrators ← load_certificates (tp_administrator_ca p);
  issuers ← load_certificates (tp_device_issuing_ca p);
  client_roots ← trust_store (administrators ++ issuers);
  bootstrap ← load_certificates (tp_phase1_root_ca p);
  bootstrap_roots ← trust_store bootstrap;
  if bool_decide (bootstrap_roots = []) then Err InvalidMaterial
  else if negb (client_verifier client_roots) then Err InvalidMaterial
  else if negb (single_certificate certificates private_key) then Err InvalidMaterial
  else Ok (mkTlsServerConfig certificates private_key client_roots false
             [lit "h2"; lit "http/1.1"]).

Definition certificate_subject (path : bytes) : result TlsError bytes :=
  certificates ← load_certificates path;
  first ← ok_or InvalidMaterial (head certificates);
  '(_, certificate) ← ok_or InvalidMaterial (parse_x509_certificate first);
  Ok (ct_subject certificate).

Definition identity_roots (p : TlsPaths) : result TlsError IdentityRoots :=
  administrator ← certificate_subject (tp_administrator_ca p);
  device ← certificate_subject (tp_device_issuing_ca p);
  Ok (mkRoots administrator device).
End Material.

(** ** What an identity proves *)

Lemma leaf_certificate_Ok `{Certificates} now der c :
  leaf_certificate now der = Ok c ->
  parse_x509_certificate der = Some ([], c) /\ ct_is_ca c = false /\ is_valid now c = true.
Proof.
  unfold leaf_certificate. destruct (parse_x509_certificate der) as [[rest c']|]; [|done]. cbn.
  destruct (bool_decide_reflect (rest = [])) as [->|]; [|done].
  destruct (ct_is_ca c') eqn:?, (is_valid now c') eqn:?; cbn; try done. by intros [= ->].
Qed.

Lemma extension_Ok {A} (r : result unit (option A)) a : extension r = Ok a <-> r = Ok (Some a).
Proof. unfold extension. destruct r as [[x|]|]; cbn; split; intros [= ->] || done; done. Qed.

(** The device leaf profile. *)
Definition device_profile (c : Certificate) (device_id : bytes) : Prop :=
  ct_digital_signature c = Ok (Some true) /\ ct_client_auth c = Ok (Some true) /\
  exists names, ct_alternative_names c = Ok (Some names) /\ device_name names = Some device_id /\
    device_id <> [].

Lemma device_from_verified_leaf_Ok `{Certificates} now der peer :
  device_from_verified_leaf now der = Ok peer ->
  exists c, leaf_certificate now der = Ok c /\ device_profile c (pe_subject peer) /\
    pe_role peer = Device /\ pe_serial peer = ct_raw_serial c.
Proof.
  unfold device_from_verified_leaf. destruct (leaf_certificate now der) as [c|] eqn:Hc; [|done]. cbn.
  destruct (extension (ct_digital_signature c)) as [[]|] eqn:Hk; cbn; try done;
    [|by destruct (extension (ct_client_auth c)) as [[]|]].
  destruct (extension (ct_client_auth c)) as [[]|] eqn:He; cbn; try done.
  destruct (extension (ct_alternative_names c)) as [names|] eqn:Hn; cbn; [|done].
  destruct (device_name names) as [id|] eqn:Hid; [|done].
  destruct (bool_decide_reflect (id = [])) as [|Hne]; [done|]. cbn. intros [= <-].
  apply extension_Ok in Hk, He, Hn. exists c. cbn. repeat split; eauto.
Qed.

Section Connections.
Context `{Certificates}.

(** A connection the listener hands to the application has no identity, or
    the identity of a certificate that one of the accepted handshakes presented
    first: an end-entity certificate valid now.  It is a device only if the device
    issuer issued it with the device profile, its name the one in the URI; it is an
    administrator only if the administrator issuer issued it and the device issuer
    did not.  In both cases the serial is the certificate's. *)
Theorem connection_identity now roots attempts peer rest :
  accept now roots attempts = Some (Some peer, rest) ->
  exists chain der c, Handshake (Some (der :: chain)) ∈ attempts /\
    parse_x509_certificate der = Some ([], c) /\ ct_is_ca c = false /\ is_valid now c = true /\
    pe_serial peer = ct_raw_serial c /\
    match pe_role peer with
    | Device => ct_issuer c = ir_device_issuer roots /\ device_profile c (pe_subject peer)
    | Administrator =>
        ct_issuer c = ir_administrator_issuer roots /\ ct_issuer c <> ir_device_issuer roots /\
        pe_subject peer = ct_subject c /\ pe_subject peer <> [] /\ pe_serial peer <> []
    end.
Proof.
  induction attempts as [|a attempts IH]; [done|]. cbn [accept].
  destruct (admit_connection now roots a) as [conn|] eqn:Ha.
  2:{ intros (chain & der & c & Hin & Hc)%IH. exists chain, der, c. split; [by right|done]. }
  intros [= -> ->]. destruct a as [| |[[|der chain]|]]; try done. cbn in Ha.
  destruct (peer_identity now roots der) as [p|] eqn:Hp; [|done]. injection Ha as ->.
  unfold peer_identity in Hp. destruct (leaf_certificate now der) as [c|] eqn:Hl; [|done].
  cbn in Hp. pose proof (leaf_certificate_Ok _ _ _ Hl) as (Hparse & Hca & Hv).
  exists chain, der, c. split; [by left|]. split; [done|]. split; [done|]. split; [done|].
  destruct (bool_decide_reflect (ct_issuer c = ir_device_issuer roots)) as [Hd|Hd].
  - apply device_from_verified_leaf_Ok in Hp as (c' & Hc' & Hprof & Hrole & Hser).
    rewrite Hl in Hc'. injection Hc' as <-. by rewrite Hrole.
  - destruct (bool_decide_reflect (ct_issuer c = ir_administrator_issuer roots)) as [Hi|]; [|done].
    cbn in Hp. unfold admin_of_leaf in Hp.
    destruct (bool_decide_reflect (ct_subject c = [])), (bool_decide_reflect (ct_raw_serial c = []));
      try done. by injection Hp as <-.
Qed.
End Connections.

(** ** Witness: two refused attempts, then a device *)

Definition sample_leaf : Certificate :=
  mkCertificate false 0 100 (Ok (Some true)) (Ok (Some true))
    (Ok (Some [OtherName; UriName (device_uri_prefix ++ lit "pc.lab")])) (lit "pc") (lit "D") [x07] [].

Definition sample_certificates : Certificates := {|
  parse_x509_certificate der := if bool_decide (der = [x01]) then Some ([], sample_leaf) else None;
  pem_certificates pem := Some [pem];
  pem_private_key pem := Some pem;
  root_store_add _ := true;
  client_verifier _ := true;
  single_certificate _ _ := true;
  verify_signature _ _ := true;
|}.

Lemma connection_identity_witness :
  let '(attempts, peer) := ([HandshakeFailed; Handshake (Some [[x02]]); Handshake (Some [[x01]])],
                            mkPeer Device (lit "pc.lab") [x07]) in
  exists chain der, Handshake (Some (der :: chain)) ∈ attempts /\
    device_profile sample_leaf (pe_subject peer).
Proof.
  destruct (connection_identity (H := sample_certificates) 50 (mkRoots (lit "A") (lit "D"))
    [HandshakeFailed; Handshake (Some [[x02]]); Handshake (Some [[x01]])]
    (mkPeer Device (lit "pc.lab") [x07]) [] ltac:(vm_compute; reflexivity))
    as (chain & der & c & Hin & Hparse & _ & _ & _ & _ & Hprof).
  exists chain, der. split; [exact Hin|]. cbn [parse_x509_certificate sample_certificates] in Hparse.
  destruct (bool_decide (der = [x01])); [|discriminate]. injection Hparse as <-. exact Hprof.
Defined.
