(* ===== verification/Directory.v ===== *)
(** * Directory

    Corroboration of a computer by two domain controllers
    (crates/dlp-server/src/ad.rs).  The LDAP client is third-party code: what a
    controller answers is a member of the class [Ldap]; the Unicode lower-case
    mapping is a parameter. *)

From S2P Require Import Prelude Bytes Text Fingerprint Tls.

Record VerifiedComputerIdentity := mkComputer {
  vc_object_guid : bytes;
  vc_object_sid : bytes;
  vc_dns_name : bytes;
  vc_domain : bytes;
  vc_enabled : bool;
}.
#[export] Instance VerifiedComputerIdentity_eq_dec : EqDecision VerifiedComputerIdentity.
Proof. solve_decision. Defined.

Inductive DirectoryError :=
| DirInvalidConfiguration
| DirUnavailable
| DirNotFound
| DirDisabled
| DirDisagreement.
#[export] Instance DirectoryError_eq_dec : EqDecision DirectoryError.
Proof. solve_decision. Defined.

(** ** Configuration *)

(** A decimal octet as [Ipv4Addr::from_str] reads it: one to three digits, no
    leading zero, at most 255. *)
Definition is_octet (s : bytes) : bool :=
  (1 <=? len s) && (len s <=? 3)
  && (match s with x30 :: _ :: _ => false | _ => true end)
  && match parse_digits 255 0 s with Some _ => true | None => false end.

(** [IpAddr::from_str(s).is_ok()] for a text without a colon, which is no IPv6
    address. *)
Definition is_ipv4 (s : bytes) : bool :=
  match split_byte x2e s with
  | [a; b; c; d] => is_octet a && is_octet b && is_octet c && is_octet d
  | _ => false
  end.

Definition first_piece (c : byte) (s : bytes) : bytes := default [] (head (split_byte c s)).

Definition is_hostname_ldaps_url (value : bytes) : bool :=
  match strip_prefix (lit "ldaps://") value with
  | None => false
  | Some authority =>
      let host := first_piece x3a (first_piece x2f authority) in
      negb (bool_decide (host = [])) && negb (is_ipv4 host) && contains (lit ".") host
  end.

Record LdapDirectoryVerifier := mkDirectoryVerifier {
  lv_primary_ldaps_url : bytes;
  lv_secondary_ldaps_url : bytes;
  lv_base_dn : bytes;
}.

Definition LdapDirectoryVerifier_new (primary secondary base_dn : bytes) :
    result DirectoryError LdapDirectoryVerifier :=
  if negb (is_hostname_ldaps_url primary) || negb (is_hostname_ldaps_url secondary)
     || bool_decide (primary = secondary) || bool_decide (trim base_dn = [])
  then Err DirInvalidConfiguration
  else Ok (mkDirectoryVerifier primary secondary base_dn).

Record LdapDirectoryAdapter := mkDirectoryAdapter {
  la_verifier : LdapDirectoryVerifier;
  la_bind_dn : bytes;
  la_bind_password : bytes;
  la_ca_cert_path : bytes;
  la_domain : bytes;
  la_timeout_seconds : N;
}.

Definition LdapDirectoryAdapter_new (h : Host) (primary secondary base_dn bind_dn bind_password
    ca_cert_path domain : bytes) (timeout : N) : result DirectoryError LdapDirectoryAdapter :=
  verifier ← LdapDirectoryVerifier_new primary secondary base_dn;
  if bool_decide (trim bind_dn = []) || bool_decide (bind_password = [])
     || bool_decide (trim domain = []) || bool_decide (ho_file h ca_cert_path = None)
  then Err DirInvalidConfiguration
  else Ok (mkDirectoryAdapter verifier bind_dn bind_password ca_cert_path domain timeout).

(** [std::env::var]: the variable is set and is text. *)
Definition env_var (h : Host) (name : bytes) : option bytes :=
  match ho_variable h name with
  | Some v => if utf8_valid v then Some v else None
  | None => None
  end.

Definition LdapDirectoryAdapter_from_environment (h : Host) :
    result DirectoryError LdapDirectoryAdapter :=
  let required name := ok_or DirInvalidConfiguration (env_var h name) in
  primary ← required (lit "DLP_AD_PRIMARY_LDAPS_URL");
  secondary ← required (lit "DLP_AD_SECONDARY_LDAPS_URL");
  base_dn ← required (lit "DLP_AD_BASE_DN");
  bind_dn ← required (lit "DLP_AD_BIND_DN");
  bind_password ← required (lit "DLP_AD_BIND_PASSWORD");
  ca_cert ← required (lit "DLP_AD_CA_CERT_PEM");
  domain ← required (lit "DLP_AD_DOMAIN");
  LdapDirectoryAdapter_new h primary secondary base_dn bind_dn bind_password ca_cert domain
    (match env_var h (lit "DLP_AD_TIMEOUT_SECONDS") with
     | Some v => default 10 (parse_uint u64_max v)
     | None => 10
     end).

(** ** Corroboration *)

Definition corroborate (primary secondary : result DirectoryError VerifiedComputerIdentity) :
    result DirectoryError VerifiedComputerIdentity :=
  primary ← primary;
  secondary ← secondary;
  if negb (vc_enabled primary) || negb (vc_enabled secondary) then Err DirDisabled
  else if negb (bool_decide (primary = secondary)) then Err DirDisagreement
  else Ok primary.

(** [LdapDirectoryVerifier::corroborate_computer]: the lookup is a callback. *)
Definition corroborate_with
    (lookup : bytes -> bytes -> bytes -> result DirectoryError VerifiedComputerIdentity)
    (v : LdapDirectoryVerifier) (computer_dns_name : bytes) :
    result DirectoryError VerifiedComputerIdentity :=
  if bool_decide (computer_dns_name = []) || negb (contains (lit ".") computer_dns_name)
  then Err DirNotFound
  else corroborate (lookup (lv_primary_ldaps_url v) (lv_base_dn v) computer_dns_name)
         (lookup (lv_secondary_ldaps_url v) (lv_base_dn v) computer_dns_name).

(** ** A query of one controller *)

(** Only ASCII letters, digits, dots and hyphens are kept; a character outside
    ASCII has none of their bytes. *)
Definition filter_byte (b : byte) : bool :=
  is_ascii_alphanumeric b || Byte.eqb b x2e || Byte.eqb b x2d.
Definition sanitize_filter_value (value : bytes) : bytes := List.filter filter_byte value.

Definition ldap_filter (computer_dns_name : bytes) : bytes :=
  lit "(&(objectClass=computer)(dNSHostName=" ++ sanitize_filter_value computer_dns_name ++ lit "))".

(** An entry as crate ldap3 constructs it: text attributes and binary ones. *)
Record SearchEntry := mkEntry {
  en_attrs : gmap bytes (list bytes);
  en_bin_attrs : gmap bytes (list bytes);
}.

(** The calls to crate ldap3 and its TLS client: a client configuration from a CA
    file, a connection, a bind and a search that were answered in time. *)
Class Ldap := {
  ldap_client_config : bytes -> bool;
  ldap_connect : bytes -> bool;
  ldap_bind : bytes -> bytes -> bytes -> bool;
  ldap_search : bytes -> bytes -> bytes -> option (list SearchEntry);
}.

(** [str::to_lowercase]. *)
Class StrLower := str_to_lowercase : bytes -> bytes.

Definition first_value (attrs : gmap bytes (list bytes)) (name : bytes) : option bytes :=
  attrs !! name ≫= head.

Definition filtered {A} (keep : A -> bool) (o : option A) : option A :=
  match o with Some a => if keep a then Some a else None | None => None end.

Section Queries.
Context `{Ldap} `{StrLower} (h : Host).

Definition query_dc (a : LdapDirectoryAdapter) (url computer_dns_name : bytes) :
    result DirectoryError VerifiedComputerIdentity :=
  ca_pem ← ok_or DirInvalidConfiguration (ho_file h (la_ca_cert_path a));
  if negb (ldap_client_config ca_pem) then Err DirInvalidConfiguration
  else if negb (ldap_connect url) then Err DirUnavailable
  else if negb (ldap_bind url (la_bind_dn a) (la_bind_password a)) then Err DirUnavailable
  else
  entries ← ok_or DirUnavailable
    (ldap_search url (lv_base_dn (la_verifier a)) (ldap_filter computer_dns_name));
  entry ← ok_or DirNotFound (head entries);
  object_guid ← ok_or DirUnavailable
    (filtered (fun v => len v =? 16) (first_value (en_bin_attrs entry) (lit "objectGUID")));
  object_sid ← ok_or DirUnavailable
    (filtered (fun v => (8 <=? len v) && (len v <=? 68))
       (first_value (en_bin_attrs entry) (lit "objectSid")));
  dns_name ← ok_or DirUnavailable
    (filtered (fun v => negb (bool_decide (v = []))) (first_value (en_attrs entry) (lit "dNSHostName")));
  user_account_control ← ok_or DirUnavailable
    (first_value (en_attrs entry) (lit "userAccountControl") ≫= parse_uint u32_max);
  let enabled := N.land user_account_control 2 =? 0 in
  if negb (bool_decide (str_to_lowercase dns_name = str_to_lowercase computer_dns_name))
  then Err DirNotFound
  else Ok (mkComputer object_guid object_sid dns_name (la_domain a) enabled).

(** [DirectoryVerifier::corroborate_computer] of the adapter. *)
Definition corroborate_computer (a : LdapDirectoryAdapter) (computer_dns_name : bytes) :
    result DirectoryError VerifiedComputerIdentity :=
  if bool_decide (computer_dns_name = []) || negb (contains (lit ".") computer_dns_name)
  then Err DirNotFound
  else corroborate (query_dc a (lv_primary_ldaps_url (la_verifier a)) computer_dns_name)
         (query_dc a (lv_secondary_ldaps_url (la_verifier a)) computer_dns_name).
End Queries.

(** ** What corroboration proves *)

Lemma corroborate_Ok p s c :
  corroborate p s = Ok c <-> p = Ok c /\ s = Ok c /\ vc_enabled c = true.
Proof.
  unfold corroborate. split.
  - intros Hc. destruct p as [a|], s as [b|]; try done. cbn in Hc.
    destruct (vc_enabled a) eqn:Ha, (vc_enabled b) eqn:Hb; try done. cbn in Hc.
    destruct (bool_decide_reflect (a = b)) as [->|]; [|done]. by injection Hc as <-.
  - intros (-> & -> & He). cbn. rewrite He. cbn. by rewrite bool_decide_eq_true_2.
Qed.

Section Corroboration.
Context `{Ldap} `{StrLower}.

Lemma filtered_Some {A} (keep : A -> bool) o a : filtered keep o = Some a -> o = Some a.
Proof. destruct o as [x|]; cbn; [|done]. destruct (keep x); [done|done]. Qed.

Lemma query_dc_Ok h a url name c :
  query_dc h a url name = Ok c ->
  (exists entry rest,
     ldap_search url (lv_base_dn (la_verifier a)) (ldap_filter name) = Some (entry :: rest) /\
     first_value (en_attrs entry) (lit "dNSHostName") = Some (vc_dns_name c) /\
     first_value (en_bin_attrs entry) (lit "objectGUID") = Some (vc_object_guid c) /\
     first_value (en_bin_attrs entry) (lit "objectSid") = Some (vc_object_sid c)) /\
  str_to_lowercase (vc_dns_name c) = str_to_lowercase name.
Proof.
  unfold query_dc. intros (pem & _ & Hq)%result_bind_Ok.
  do 3 (destruct (negb _) in Hq; [done|]).
  apply result_bind_Ok in Hq as (entries & Hs%ok_or_Ok & Hq).
  apply result_bind_Ok in Hq as (entry & He%ok_or_Ok & Hq).
  apply result_bind_Ok in Hq as (guid & Hg%ok_or_Ok%filtered_Some & Hq).
  apply result_bind_Ok in Hq as (sid & Hsid%ok_or_Ok%filtered_Some & Hq).
  apply result_bind_Ok in Hq as (dns & Hd%ok_or_Ok%filtered_Some & Hq).
  apply result_bind_Ok in Hq as (uac & _ & Hq).
  destruct (bool_decide_reflect (str_to_lowercase dns = str_to_lowercase name)); [|done].
  injection Hq as <-. cbn. split; [|done].
  destruct entries as [|entry' rest]; [done|]. injection He as ->. by exists entry, rest.
Qed.

Lemma sanitize_safe name : Forall (fun b => filter_byte b = true) (sanitize_filter_value name).
Proof. apply List.Forall_forall. by intros b [_ Hb]%filter_In. Qed.

(** An adapter built from a configuration corroborates a computer only if both
    controllers, at two different hostname URLs, were each asked with a filter in
    which the name has only letters, digits, dots and hyphens, and each answered
    with the same enabled computer, whose DNS name is the requested one up to case. *)
Theorem computer_corroborated h primary secondary base_dn bind_dn password ca domain timeout a name c :
  LdapDirectoryAdapter_new h primary secondary base_dn bind_dn password ca domain timeout = Ok a ->
  corroborate_computer h a name = Ok c ->
  primary <> secondary /\ is_hostname_ldaps_url primary = true /\ is_hostname_ldaps_url secondary = true /\
  (forall url, url = primary \/ url = secondary ->
     exists entry rest, ldap_search url base_dn (ldap_filter name) = Some (entry :: rest) /\
       first_value (en_attrs entry) (lit "dNSHostName") = Some (vc_dns_name c) /\
       first_value (en_bin_attrs entry) (lit "objectGUID") = Some (vc_object_guid c) /\
       first_value (en_bin_attrs entry) (lit "objectSid") = Some (vc_object_sid c)) /\
  Forall (fun b => filter_byte b = true) (sanitize_filter_value name) /\
  vc_enabled c = true /\ str_to_lowercase (vc_dns_name c) = str_to_lowercase name.
Proof.
  unfold LdapDirectoryAdapter_new, LdapDirectoryVerifier_new. intros Hnew Hc.
  destruct (is_hostname_ldaps_url primary) eqn:Hp, (is_hostname_ldaps_url secondary) eqn:Hs; try done.
  destruct (bool_decide_reflect (primary = secondary)) as [|Hne]; [done|].
  destruct (bool_decide (trim base_dn = [])); [done|]. cbn in Hnew.
  destruct (_ || _ || _ || _) in Hnew; [done|]. injection Hnew as <-.
  unfold corroborate_computer in Hc. destruct (_ || _) in Hc; [done|].
  apply corroborate_Ok in Hc as (H1%query_dc_Ok & H2%query_dc_Ok & He). cbn in H1, H2.
  repeat split; try done; [|by apply sanitize_safe|by destruct H1].
  intros url [->| ->]; [by destruct H1|by destruct H2].
Qed.
End Corroboration.

(** ** Witness: both controllers know the computer *)

Definition sample_entry : SearchEntry :=
  mkEntry (<[lit "dNSHostName" := [lit "pc.lab"]]> {[lit "userAccountControl" := [lit "4096"]]})
    (<[lit "objectGUID" := [replicate 16 x01]]> {[lit "objectSid" := [replicate 12 x02]]}).

Definition sample_ldap : Ldap := {|
  ldap_client_config _ := true;
  ldap_connect _ := true;
  ldap_bind _ _ _ := true;
  ldap_search _ _ _ := Some [sample_entry];
|}.
Definition sample_lower : StrLower := fun s => s.

Definition sample_host : Host := mkHost (fun _ => None) (fun path => Some path).

Definition sample_adapter : LdapDirectoryAdapter :=
  mkDirectoryAdapter (mkDirectoryVerifier (lit "ldaps://a.lab:636") (lit "ldaps://b.lab:636") (lit "DC=lab"))
    (lit "CN=svc") (lit "pw") (lit "ca.pem") (lit "LAB") 10.

Lemma computer_corroborated_witness :
  corroborate_computer (H := sample_ldap) (H0 := sample_lower) sample_host sample_adapter (lit "pc.lab")
    = Ok (mkComputer (replicate 16 x01) (replicate 12 x02) (lit "pc.lab") (lit "LAB") true) /\
  lit "ldaps://a.lab:636" <> lit "ldaps://b.lab:636".
Proof.
  assert (Hc : corroborate_computer (H := sample_ldap) (H0 := sample_lower) sample_host sample_adapter (lit "pc.lab")
    = Ok (mkComputer (replicate 16 x01) (replicate 12 x02) (lit "pc.lab") (lit "LAB") true)).
  { vm_compute. reflexivity. }
  split; [exact Hc|].
  exact (proj1 (computer_corroborated (H := sample_ldap) (H0 := sample_lower) sample_host
    (lit "ldaps://a.lab:636") (lit "ldaps://b.lab:636") (lit "DC=lab") (lit "CN=svc") (lit "pw") (lit "ca.pem")
    (lit "LAB") 10 sample_adapter (lit "pc.lab") _ ltac:(vm_compute; reflexivity) Hc)).
Defined.
