(* ===== verification/Ledger.v ===== *)
(** * Ledger

    The PostgreSQL tables of the server (migrations/*.sql) with their constraints,
    the statements that the repositories of crates/dlp-server/src/repository.rs
    send to them, and the connection they are sent over.  A statement is a partial
    function on the ledger: no result is a constraint violation.  Every exchange
    with the database consults a plan, under which it is answered, refused, or
    performed with its answer lost, so that a theorem about every plan covers every
    network failure.  A transaction is one step of the ledger: each of them locks
    the row of its device first, or is decided by a unique constraint. *)

From S2P Require Import Prelude Bytes Text Effects Protocol.

(** ** Tables *)

(** Timestamps are microseconds. *)
Definition microseconds (seconds : N) : N := seconds * 1000000.
Definition ten_minutes : N := microseconds 600.
Definition thirty_days : N := microseconds 2592000.

Record AuthorityRow := mkAuthority {
  au_fingerprint_version : N;
  au_fingerprint_digest : bytes;
  au_object_guid : bytes;
  au_object_sid : bytes;
  au_dns_name : bytes;
  au_domain : bytes;
  au_drive_letter : N;
  au_token_digest : bytes;
  au_token_expires_at : N;
  au_token_consumed_at : option N;
  au_active_serial : option bytes;
  au_created_at : N;
}.

Inductive RowStatus := RowActive | RowRevoked.
#[export] Instance RowStatus_eq_dec : EqDecision RowStatus.
Proof. solve_decision. Defined.

Record CredentialRow := mkCredentialRow {
  cr_device_id : bytes;
  cr_status : RowStatus;
  cr_certificate_digest : bytes;
  cr_expires_at : N;
  cr_created_at : N;
  cr_revoked_at : option N;
}.

Record ConfigurationRow := mkConfigurationRow {
  cf_device_id : bytes;
  cf_bundle_version : Z;
  cf_schema_version : Z;
  cf_key_id : bytes;
  cf_canonical_bundle : bytes;
  cf_signature : bytes;
  cf_content_digest : bytes;
  cf_audience : bytes;
}.

(** Tables by primary key; the two with a generated key are kept in its order. *)
Record Ledger := mkLedger {
  enrollment_authority : gmap bytes AuthorityRow;
  revoked_device_credentials : gmap bytes (bytes * N);
  device_route_credentials : gmap bytes CredentialRow;
  device_allowlist : gset bytes;
  signed_configurations : list ConfigurationRow;
  health_reports : list (bytes * bytes);
}.

(** What the migrations leave: they insert no row. *)
Definition migrated : Ledger := mkLedger ∅ ∅ ∅ ∅ [] [].

Definition set_authority (t : gmap bytes AuthorityRow) (l : Ledger) : Ledger :=
  mkLedger t (revoked_device_credentials l) (device_route_credentials l)
    (device_allowlist l) (signed_configurations l) (health_reports l).
Definition set_revoked (t : gmap bytes (bytes * N)) (l : Ledger) : Ledger :=
  mkLedger (enrollment_authority l) t (device_route_credentials l)
    (device_allowlist l) (signed_configurations l) (health_reports l).
Definition set_credentials (t : gmap bytes CredentialRow) (l : Ledger) : Ledger :=
  mkLedger (enrollment_authority l) (revoked_device_credentials l) t
    (device_allowlist l) (signed_configurations l) (health_reports l).
Definition set_configurations (t : list ConfigurationRow) (l : Ledger) : Ledger :=
  mkLedger (enrollment_authority l) (revoked_device_credentials l) (device_route_credentials l)
    (device_allowlist l) t (health_reports l).
Definition set_health (t : list (bytes * bytes)) (l : Ledger) : Ledger :=
  mkLedger (enrollment_authority l) (revoked_device_credentials l) (device_route_credentials l)
    (device_allowlist l) (signed_configurations l) t.

(** ** Constraints *)

Definition char_length (s : bytes) : N := len (chars s).
Definition between (lo hi n : N) : bool := (lo <=? n) && (n <=? hi).

(** The CHECK constraints of [enrollment_authority]. *)
Definition authority_check (device_id : bytes) (r : AuthorityRow) : bool :=
  between 1 128 (char_length device_id)
  && (au_fingerprint_version r =? 1)
  && (len (au_fingerprint_digest r) =? 32)
  && (len (au_object_guid r) =? 16)
  && between 8 68 (len (au_object_sid r))
  && between 1 255 (char_length (au_dns_name r))
  && between 1 255 (char_length (au_domain r))
  && char_is_upper (au_drive_letter r)
  && (len (au_token_digest r) =? 32)
  && (match au_active_serial r with None => true | Some s => between 1 20 (len s) end)
  && (au_created_at r <? au_token_expires_at r)
  && (match au_token_consumed_at r with None => true | Some t => au_created_at r <=? t end).

(** Its UNIQUE columns, against the rows of the other devices; a NULL serial
    equals none. *)
Definition authority_clash (a b : AuthorityRow) : bool :=
  bool_decide (au_fingerprint_digest a = au_fingerprint_digest b)
  || bool_decide (au_token_digest a = au_token_digest b)
  || match au_active_serial a, au_active_serial b with
     | Some s, Some t => bool_decide (s = t)
     | _, _ => false
     end.

Definition authority_unique (device_id : bytes) (r : AuthorityRow)
    (t : gmap bytes AuthorityRow) : bool :=
  forallb (fun kr => negb (authority_clash r kr.2)) (map_to_list (delete device_id t)).

(** Writing the row of a device, by INSERT or UPDATE. *)
Definition put_authority (device_id : bytes) (r : AuthorityRow) (l : Ledger) : option Ledger :=
  if authority_check device_id r && authority_unique device_id r (enrollment_authority l)
  then Some (set_authority (<[device_id := r]> (enrollment_authority l)) l)
  else None.

(** The foreign key of an inserted row into [enrollment_authority(device_id)]. *)
Definition has_authority (device_id : bytes) (l : Ledger) : bool :=
  bool_decide (is_Some (enrollment_authority l !! device_id)).

(** The CHECK constraints of [device_route_credentials], and its partial unique
    index: one active row per device. *)
Definition credential_check (serial : bytes) (r : CredentialRow) : bool :=
  between 1 20 (len serial) && (len (cr_certificate_digest r) =? 32)
  && match cr_status r, cr_revoked_at r with
     | RowActive, None | RowRevoked, Some _ => true
     | _, _ => false
     end.

Definition one_active (serial : bytes) (r : CredentialRow) (t : gmap bytes CredentialRow) : bool :=
  forallb (fun kr => negb (bool_decide (cr_status r = RowActive) && bool_decide (cr_status kr.2 = RowActive)
                           && bool_decide (cr_device_id r = cr_device_id kr.2)))
    (map_to_list (delete serial t)).

Definition put_credential (serial : bytes) (r : CredentialRow) (l : Ledger) : option Ledger :=
  if credential_check serial r && one_active serial r (device_route_credentials l)
  then Some (set_credentials (<[serial := r]> (device_route_credentials l)) l)
  else None.

(** ** Statements *)

Definition statement (A : Type) : Type := Ledger -> option (A * Ledger).

(** SELECT active_serial FROM enrollment_authority WHERE device_id = $1 FOR UPDATE. *)
Definition select_active_serial (device_id : bytes) : statement (option (option bytes)) :=
  fun l => Some (au_active_serial <$> enrollment_authority l !! device_id, l).

(** UPDATE device_route_credentials SET credential_status = 'revoked', revoked_at =
    CURRENT_TIMESTAMP WHERE device_id = $1 AND credential_serial = $2 AND
    credential_status = 'active'. *)
Definition revoke_row (now : N) (r : CredentialRow) : CredentialRow :=
  mkCredentialRow (cr_device_id r) RowRevoked (cr_certificate_digest r) (cr_expires_at r)
    (cr_created_at r) (Some now).

Definition update_revoke_active (now : N) (device_id serial : bytes) : statement unit :=
  fun l =>
    match device_route_credentials l !! serial with
    | Some r =>
        if bool_decide (cr_device_id r = device_id) && bool_decide (cr_status r = RowActive)
        then l' ← put_credential serial (revoke_row now r) l; Some (tt, l')
        else Some (tt, l)
    | None => Some (tt, l)
    end.

(** INSERT INTO revoked_device_credentials (serial, device_id) VALUES ($1, $2), and
    the same with ON CONFLICT (serial) DO NOTHING. *)
Definition insert_revoked (now : N) (on_conflict_nothing : bool) (serial device_id : bytes) :
    statement unit :=
  fun l =>
    if negb (between 1 20 (len serial)) then None
    else match revoked_device_credentials l !! serial with
         | Some _ => if on_conflict_nothing then Some (tt, l) else None
         | None =>
             if has_authority device_id l
             then Some (tt, set_revoked (<[serial := (device_id, now)]> (revoked_device_credentials l)) l)
             else None
         end.

Definition with_active_serial (s : option bytes) (r : AuthorityRow) : AuthorityRow :=
  mkAuthority (au_fingerprint_version r) (au_fingerprint_digest r) (au_object_guid r)
    (au_object_sid r) (au_dns_name r) (au_domain r) (au_drive_letter r) (au_token_digest r)
    (au_token_expires_at r) (au_token_consumed_at r) s (au_created_at r).

Definition with_consumed_at (t : N) (r : AuthorityRow) : AuthorityRow :=
  mkAuthority (au_fingerprint_version r) (au_fingerprint_digest r) (au_object_guid r)
    (au_object_sid r) (au_dns_name r) (au_domain r) (au_drive_letter r) (au_token_digest r)
    (au_token_expires_at r) (Some t) (au_active_serial r) (au_created_at r).

(** UPDATE enrollment_authority SET active_serial = NULL WHERE device_id = $1 AND
    active_serial = $2. *)
Definition update_clear_active (device_id serial : bytes) : statement unit :=
  fun l =>
    match enrollment_authority l !! device_id with
    | Some r =>
        if bool_decide (au_active_serial r = Some serial)
        then l' ← put_authority device_id (with_active_serial None r) l; Some (tt, l')
        else Some (tt, l)
    | None => Some (tt, l)
    end.

(** The INSERT of [provision]: the proposed row meets the CHECK constraints before
    the conflict on [device_id] turns it into an update that keeps [active_serial]
    and [created_at]. *)
Definition proposed_authority (now : N) (q : ProvisionDeviceRequestV1) (token_digest : bytes) :
    AuthorityRow :=
  mkAuthority (pr_fingerprint_version q) (pr_fingerprint_digest q) (pr_ad_object_guid q)
    (pr_ad_object_sid q) (pr_ad_dns_name q) (pr_ad_domain q) (pr_preferred_drive_letter q)
    token_digest (now + ten_minutes) None None now.

Definition upsert_authority (now : N) (q : ProvisionDeviceRequestV1) (token_digest : bytes) :
    statement unit :=
  fun l =>
    let fresh := proposed_authority now q token_digest in
    if negb (authority_check (pr_device_id q) fresh) then None
    else
      let row := match enrollment_authority l !! pr_device_id q with
                 | None => fresh
                 | Some r =>
                     mkAuthority (au_fingerprint_version fresh) (au_fingerprint_digest fresh)
                       (au_object_guid fresh) (au_object_sid fresh) (au_dns_name fresh)
                       (au_domain fresh) (au_drive_letter fresh) (au_token_digest fresh)
                       (au_token_expires_at fresh) None (au_active_serial r) (au_created_at r)
                 end in
      l' ← put_authority (pr_device_id q) row l; Some (tt, l').

(** SELECT ... FROM enrollment_authority WHERE device_id = $1 AND token_consumed_at
    IS NULL AND token_expires_at > CURRENT_TIMESTAMP FOR UPDATE. *)
Definition select_open_token (now : N) (device_id : bytes) : statement (option AuthorityRow) :=
  fun l =>
    Some (match enrollment_authority l !! device_id with
          | Some r =>
              if bool_decide (au_token_consumed_at r = None) && (now <? au_token_expires_at r)
              then Some r else None
          | None => None
          end, l).

(** UPDATE enrollment_authority SET token_consumed_at = CURRENT_TIMESTAMP WHERE
    device_id = $1 AND token_consumed_at IS NULL, and the same with
    active_serial = $2; the rows affected. *)
Definition update_consume (now : N) (device_id : bytes) (activate : option bytes) : statement N :=
  fun l =>
    match enrollment_authority l !! device_id with
    | Some r =>
        if bool_decide (au_token_consumed_at r = None)
        then
          let row := with_consumed_at now r in
          let row := match activate with Some s => with_active_serial (Some s) row | None => row end in
          l' ← put_authority device_id row l; Some (1, l')
        else Some (0, l)
    | None => Some (0, l)
    end.

(** INSERT INTO device_route_credentials (...) VALUES ($1, $2, 'active', $3,
    CURRENT_TIMESTAMP + INTERVAL '30 days'). *)
Definition active_row (now : N) (device_id digest : bytes) : CredentialRow :=
  mkCredentialRow device_id RowActive digest (now + thirty_days) now None.

Definition insert_credential (now : N) (device_id serial digest : bytes) : statement unit :=
  fun l =>
    match device_route_credentials l !! serial with
    | Some _ => None
    | None =>
        if has_authority device_id l
        then l' ← put_credential serial (active_row now device_id digest) l; Some (tt, l')
        else None
    end.

(** The statements of the route repository: INSERT ... ON CONFLICT
    (credential_serial) DO UPDATE SET credential_status = 'active', revoked_at =
    NULL. *)
Definition upsert_credential (now : N) (device_id serial digest : bytes) : statement unit :=
  fun l =>
    let fresh := active_row now device_id digest in
    if negb (credential_check serial fresh) then None
    else match device_route_credentials l !! serial with
         | Some r =>
             l' ← put_credential serial
                    (mkCredentialRow (cr_device_id r) RowActive (cr_certificate_digest r)
                       (cr_expires_at r) (cr_created_at r) None) l;
             Some (tt, l')
         | None => insert_credential now device_id serial digest l
         end.

(** UPDATE device_route_credentials SET credential_status = 'revoked', revoked_at =
    CURRENT_TIMESTAMP WHERE device_id = $1 AND credential_serial = $2. *)
Definition update_revoke (now : N) (device_id serial : bytes) : statement unit :=
  fun l =>
    match device_route_credentials l !! serial with
    | Some r =>
        if bool_decide (cr_device_id r = device_id)
        then l' ← put_credential serial (revoke_row now r) l; Some (tt, l')
        else Some (tt, l)
    | None => Some (tt, l)
    end.

(** SELECT credential_status FROM device_route_credentials WHERE device_id = $1 AND
    credential_serial = $2. *)
Definition select_status (device_id serial : bytes) : statement (option RowStatus) :=
  fun l =>
    Some (match device_route_credentials l !! serial with
          | Some r => if bool_decide (cr_device_id r = device_id) then Some (cr_status r) else None
          | None => None
          end, l).

(** INSERT INTO health_reports (device_id, status) VALUES ($1, $2): the device is a
    row of [device_allowlist]. *)
Definition insert_health (device_id status : bytes) : statement unit :=
  fun l =>
    if between 1 256 (char_length status) && bool_decide (device_id ∈ device_allowlist l)
    then Some (tt, set_health (health_reports l ++ [(device_id, status)]) l)
    else None.

(** SELECT COUNT of the reports of a device. *)
Definition count_health (device_id : bytes) : statement N :=
  fun l => Some (len (filter (fun r => r.1 = device_id) (health_reports l)), l).

Definition configuration_check (r : ConfigurationRow) : bool :=
  (0 <? cf_bundle_version r)%Z && (cf_schema_version r =? 1)%Z
  && between 1 128 (char_length (cf_key_id r)) && (0 <? len (cf_canonical_bundle r))
  && (len (cf_signature r) =? 64) && (len (cf_content_digest r) =? 32)
  && between 1 128 (char_length (cf_audience r)).

(** INSERT INTO signed_configurations (...), with UNIQUE (device_id,
    bundle_version) and the reference to [device_allowlist]. *)
Definition insert_configuration (r : ConfigurationRow) : statement unit :=
  fun l =>
    if configuration_check r && bool_decide (cf_device_id r ∈ device_allowlist l)
       && forallb (fun q => negb (bool_decide (cf_device_id q = cf_device_id r)
                                  && (cf_bundle_version q =? cf_bundle_version r)%Z))
            (signed_configurations l)
    then Some (tt, set_configurations (signed_configurations l ++ [r]) l)
    else None.

(** ... WHERE device_id = $1 ORDER BY bundle_version DESC LIMIT 1. *)
Fixpoint latest (device_id : bytes) (t : list ConfigurationRow) : option ConfigurationRow :=
  match t with
  | [] => None
  | r :: t' =>
      match latest device_id t' with
      | None => if bool_decide (cf_device_id r = device_id) then Some r else None
      | Some q =>
          if bool_decide (cf_device_id r = device_id) && (cf_bundle_version q <? cf_bundle_version r)%Z
          then Some r else Some q
      end
  end.

Definition select_latest (device_id : bytes) : statement (option ConfigurationRow) :=
  fun l => Some (latest device_id (signed_configurations l), l).

(** ** The connection *)

Inductive reply := Answered | Refused | Unanswered.

Record Pool := mkPool {
  pl_ledger : Ledger;
  pl_plan : N -> reply;
  pl_sent : N;
}.

Definition set_ledger (l : Ledger) (p : Pool) : Pool := mkPool l (pl_plan p) (pl_sent p).

Definition exchange (p : Pool) : reply * Pool :=
  (pl_plan p (pl_sent p), mkPool (pl_ledger p) (pl_plan p) (pl_sent p + 1)).

(** A statement sent on the connection; a lost answer leaves its effect. *)
Definition execute {E A} (e : E) (stmt : statement A) : M Pool E A := fun p =>
  let '(r, p') := exchange p in
  match r, stmt (pl_ledger p) with
  | Answered, Some (a, l) => (Ok a, set_ledger l p')
  | Unanswered, Some (_, l) => (Err e, set_ledger l p')
  | _, _ => (Err e, p')
  end.

(** BEGIN, the statements on the transaction's view, and COMMIT; an early return
    drops the transaction, which rolls it back. *)
Definition transaction {E A} (e : E) (body : M Pool E A) : M Pool E A := fun p =>
  match exchange p with
  | (Answered, p1) =>
      match body p1 with
      | (Ok a, p2) =>
          match exchange p2 with
          | (Answered, p3) => (Ok a, p3)
          | (Unanswered, p3) => (Err e, p3)
          | (Refused, p3) => (Err e, set_ledger (pl_ledger p) p3)
          end
      | (Err e', p2) => (Err e', set_ledger (pl_ledger p) p2)
      end
  | (_, p1) => (Err e, p1)
  end.

(** ** Lemmas *)

Lemma execute_Ok {E A} (e : E) (stmt : statement A) p a p' :
  execute e stmt p = (Ok a, p') -> stmt (pl_ledger p) = Some (a, pl_ledger p').
Proof.
  unfold execute, exchange. destruct (pl_plan p _), (stmt (pl_ledger p)) as [[x l]|]; intros [= <- <-] || done.
  done.
Qed.

(** Under a plan that answers, a statement runs. *)
Definition answers (p : Pool) : Prop := forall n, pl_plan p n = Answered.

Lemma execute_answers {E A} (e : E) (stmt : statement A) p a l :
  answers p -> stmt (pl_ledger p) = Some (a, l) ->
  execute e stmt p = (Ok a, mkPool l (pl_plan p) (pl_sent p + 1)).
Proof. intros Hp Hs. unfold execute, exchange. by rewrite Hp, Hs. Qed.

(** A transaction has the effect of its body, or none. *)
Lemma transaction_run {E A} (e : E) (body : M Pool E A) p r p' :
  transaction e body p = (r, p') ->
  (exists a p1 p2, body p1 = (Ok a, p2) /\ pl_ledger p1 = pl_ledger p /\
     pl_ledger p' = pl_ledger p2 /\ (r = Ok a \/ r = Err e)) \/
  (pl_ledger p' = pl_ledger p /\ exists e', r = Err e').
Proof.
  unfold transaction. destruct (exchange p) as [[] p1] eqn:Hx;
    unfold exchange in Hx; injection Hx as Hr Hp1.
  - destruct (body p1) as [[a|e'] p2] eqn:Hb.
    + unfold exchange. destruct (pl_plan p2 _); intros [= <- <-].
      * left. exists a, p1, p2. subst p1. eauto 10.
      * right. split; [done|eauto].
      * left. exists a, p1, p2. subst p1. eauto 10.
    + intros [= <- <-]. right. split; [done|eauto].
  - intros [= <- <-]. right. subst p1. split; [done|eauto].
  - intros [= <- <-]. right. subst p1. split; [done|eauto].
Qed.

Lemma transaction_answers {E A} (e : E) (body : M Pool E A) p a p1 :
  pl_plan p (pl_sent p) = Answered ->
  body (mkPool (pl_ledger p) (pl_plan p) (pl_sent p + 1)) = (Ok a, p1) ->
  pl_plan p1 (pl_sent p1) = Answered ->
  transaction e body p = (Ok a, mkPool (pl_ledger p1) (pl_plan p1) (pl_sent p1 + 1)).
Proof. intros H0 Hb H1. unfold transaction, exchange. by rewrite H0, Hb, H1. Qed.

Lemma transaction_Ok {E A} (e : E) (body : M Pool E A) p a p' :
  transaction e body p = (Ok a, p') ->
  exists p1 p2, body p1 = (Ok a, p2) /\ pl_ledger p1 = pl_ledger p /\ pl_ledger p' = pl_ledger p2.
Proof.
  intros Ht. apply transaction_run in Ht as [(a' & p1 & p2 & Hb & H1 & H2 & [[= ->]|?])|(_ & ? & ?)];
    [by exists p1, p2|done|done].
Qed.

Lemma put_authority_Some d r l l' :
  put_authority d r l = Some l' <->
  authority_check d r = true /\ authority_unique d r (enrollment_authority l) = true /\
  l' = set_authority (<[d := r]> (enrollment_authority l)) l.
Proof.
  unfold put_authority. destruct (authority_check d r), (authority_unique _ _ _); cbn;
    split; try (by intros (? & ? & ?)); try done; [by intros [= <-]|by intros (_ & _ & ->)].
Qed.

Lemma put_credential_Some s r l l' :
  put_credential s r l = Some l' <->
  credential_check s r = true /\ one_active s r (device_route_credentials l) = true /\
  l' = set_credentials (<[s := r]> (device_route_credentials l)) l.
Proof.
  unfold put_credential. destruct (credential_check s r), (one_active _ _ _); cbn;
    split; try (by intros (? & ? & ?)); try done; [by intros [= <-]|by intros (_ & _ & ->)].
Qed.

Lemma has_authority_true d l : has_authority d l = true <-> is_Some (enrollment_authority l !! d).
Proof. unfold has_authority. by rewrite bool_decide_eq_true. Qed.
