(* ===== verification/Authority.v ===== *)
(** * Authority

    The PostgreSQL authority of device enrollment (PgAuthorityRepository of
    crates/dlp-server/src/repository.rs): provisioning, token consumption and
    credential activation as transactions on the ledger, the invariant they keep,
    and what an enrollment promises: a token is used once, a revoked credential
    stays revoked, a failed exchange leaves all of an operation or none of it. *)

From S2P Require Import Prelude Bytes Text Effects Crypto Protocol Ledger.

Inductive RepositoryError := RepoDenied | RepoUnavailable.
#[export] Instance RepositoryError_eq_dec : EqDecision RepositoryError.
Proof. solve_decision. Defined.

Abbreviation repo_m := (M Pool RepositoryError).

Section Repository.
Context `{Sha256}.

(** The revocation of [provision] when recovery is authorized. *)
Definition recover (now : N) (device_id serial : bytes) : repo_m unit :=
  _ ← execute RepoUnavailable (update_revoke_active now device_id serial);
  _ ← execute RepoUnavailable (insert_revoked now true serial device_id);
  execute RepoUnavailable (update_clear_active device_id serial).

(** [provision]; the random UUID is the argument [uuid] and the token its simple
    form. *)
Definition provision (now : N) (uuid : bytes) (q : ProvisionDeviceRequestV1) : repo_m bytes :=
  let token := to_hex uuid in
  let token_digest := sha256 token in
  transaction RepoUnavailable (
    existing ← execute RepoUnavailable (select_active_serial (pr_device_id q));
    _ ← match existing with
        | Some (Some active_serial) =>
            if pr_recovery q then recover now (pr_device_id q) active_serial else mret tt
        | _ => mret tt
        end;
    _ ← execute RepoDenied (upsert_authority now q token_digest);
    mret token).

Definition consume_token (now : N) (device_id fingerprint_digest token : bytes) : repo_m unit :=
  let token_digest := sha256 token in
  transaction RepoUnavailable (
    row ← execute RepoUnavailable (select_open_token now device_id);
    row ← lift (ok_or RepoDenied row);
    _ ← ensure (bool_decide (au_fingerprint_digest row = fingerprint_digest)
                && bool_decide (au_token_digest row = token_digest)) RepoDenied;
    consumed ← execute RepoUnavailable (update_consume now device_id None);
    ensure (consumed =? 1) RepoDenied).

(** The statements that revoke the credential an activation replaces. *)
Definition revoke_previous (now : N) (device_id : bytes) (active_serial : option bytes) : repo_m unit :=
  match active_serial with
  | Some previous =>
      _ ← execute RepoUnavailable (update_revoke_active now device_id previous);
      execute RepoUnavailable (insert_revoked now false previous device_id)
  | None => mret tt
  end.

(** [consume_and_activate]; the random UUID is the new serial, and [issue] the
    certificate callback with its result and the digest of the certificate. *)
Definition consume_and_activate {T} (now : N) (uuid device_id token : bytes)
    (prior_serial : option bytes) (issue : bytes -> result RepositoryError (T * bytes)) : repo_m T :=
  let token_digest := sha256 token in
  transaction RepoUnavailable (
    row ← execute RepoUnavailable (select_open_token now device_id);
    row ← lift (ok_or RepoDenied row);
    _ ← ensure (bool_decide (au_token_digest row = token_digest)
                && bool_decide (au_active_serial row = prior_serial)) RepoDenied;
    let new_serial := uuid in
    issued ← lift (issue new_serial);
    _ ← revoke_previous now device_id (au_active_serial row);
    consumed ← execute RepoUnavailable (update_consume now device_id (Some new_serial));
    _ ← ensure (consumed =? 1) RepoDenied;
    _ ← execute RepoUnavailable (insert_credential now device_id new_serial (snd issued));
    mret (fst issued)).
End Repository.

(** ** The invariant of the ledger *)

(** The serial [s] is an accepted credential of the device [d]. *)
Definition active_for (l : Ledger) (d s : bytes) : Prop :=
  exists c, device_route_credentials l !! s = Some c /\ cr_device_id c = d /\ cr_status c = RowActive.

(** The serial [s] was accepted and is no longer. *)
Definition revoked (l : Ledger) (s : bytes) : Prop :=
  exists c, device_route_credentials l !! s = Some c /\ cr_status c = RowRevoked.

(** The authority row of a device names its accepted credential, and the revoked
    credentials are the rows of the revocation table. *)
Record ledger_wf (l : Ledger) : Prop := {
  wf_active : forall d s, active_for l d s <->
    exists r, enrollment_authority l !! d = Some r /\ au_active_serial r = Some s;
  wf_revoked : forall s, revoked l s <-> is_Some (revoked_device_credentials l !! s);
}.

Lemma migrated_wf : ledger_wf migrated.
Proof.
  split.
  - intros d s. split; [intros (c & Hc & _)|intros (r & Hr & _)]; cbn in *; simplify_map_eq.
  - intros s. split; [intros (c & Hc & _)|intros [r Hr]]; cbn in *; simplify_map_eq.
Qed.

(** A device has at most one accepted credential. *)
Lemma active_unique l d s t : ledger_wf l -> active_for l d s -> active_for l d t -> s = t.
Proof.
  intros Hw Hs Ht. apply (wf_active l Hw) in Hs as (r & Hr & Ha), Ht as (r' & Hr' & Ha').
  congruence.
Qed.

(** The ledger after the credential [s] of [d] is revoked, and after [t] is
    activated in its place. *)
Definition revoke_in (now : N) (d s : bytes) (l : Ledger) : Ledger :=
  set_revoked (<[s := (d, now)]> (revoked_device_credentials l))
    (set_credentials (alter (revoke_row now) s (device_route_credentials l)) l).

Definition set_row (d : bytes) (r : AuthorityRow) (l : Ledger) : Ledger :=
  set_authority (<[d := r]> (enrollment_authority l)) l.

Definition add_credential (s : bytes) (c : CredentialRow) (l : Ledger) : Ledger :=
  set_credentials (<[s := c]> (device_route_credentials l)) l.

(** Revoking the accepted credential of a device and clearing its serial. *)
Lemma revoke_wf now d s r r' l :
  ledger_wf l -> enrollment_authority l !! d = Some r -> au_active_serial r = Some s ->
  au_active_serial r' = None -> ledger_wf (set_row d r' (revoke_in now d s l)).
Proof.
  intros Hw Hr Hs Hr'. pose proof (wf_active l Hw) as Ha. pose proof (wf_revoked l Hw) as Hv.
  destruct (proj2 (Ha d s) ltac:(eauto)) as (c & Hc & Hd & Hst).
  split.
  - intros d' s'. unfold active_for. cbn.
    setoid_rewrite lookup_alter_Some. split.
    + intros (c' & [(-> & c0 & ? & ->)|(Hne & Hc')] & Hd' & Hst'); [done|].
      destruct (proj1 (Ha d' s')) as (q & Hq & Hqs); [by exists c'|].
      destruct (decide (d = d')) as [<-|Hdd]; [congruence|].
      exists q. by rewrite lookup_insert_ne.
    + intros (q & Hq & Hqs). destruct (decide (d = d')) as [<-|Hdd].
      { rewrite lookup_insert_eq in Hq. congruence. }
      rewrite lookup_insert_ne in Hq by done.
      destruct (proj2 (Ha d' s')) as (c' & Hc' & Hd' & Hst'); [eauto|].
      exists c'. split; [|done]. right. split; [|done]. intros ->. congruence.
  - intros s'. unfold revoked. cbn. setoid_rewrite lookup_alter_Some. rewrite lookup_insert_is_Some.
    split.
    + intros (c' & [(-> & _)|(Hne & Hc')] & Hst'); [by left|].
      right. split; [done|]. apply Hv. by exists c'.
    + intros [<-|(Hne & Hv')].
      * exists (revoke_row now c). split; [left; eauto|done].
      * apply Hv in Hv' as (c' & Hc' & Hst'). exists c'. split; [right|]; done.
Qed.

(** Accepting a fresh serial for a device that has none. *)
Lemma activate_wf d t r r' c l :
  ledger_wf l -> enrollment_authority l !! d = Some r -> au_active_serial r = None ->
  device_route_credentials l !! t = None ->
  au_active_serial r' = Some t -> cr_device_id c = d -> cr_status c = RowActive ->
  ledger_wf (add_credential t c (set_row d r' l)).
Proof.
  intros Hw Hr Hs Ht Hr' Hcd Hcs. pose proof (wf_active l Hw) as Ha. pose proof (wf_revoked l Hw) as Hv.
  split.
  - intros d' s'. unfold active_for. cbn. setoid_rewrite lookup_insert_Some. split.
    + intros (c' & [(<- & <-)|(Hne & Hc')] & Hd' & Hst').
      { exists r'. split; [left; split; congruence|done]. }
      destruct (proj1 (Ha d' s')) as (q & Hq & Hqs); [by exists c'|].
      exists q. split; [right; split; [congruence|done]|done].
    + intros (q & [(<- & <-)|(Hne & Hq)] & Hqs).
      { exists c. split; [left; split; congruence|done]. }
      destruct (proj2 (Ha d' s')) as (c' & Hc' & Hd' & Hst'); [eauto|].
      exists c'. split; [right; split; congruence|done].
  - intros s'. unfold revoked. cbn. rewrite <- (Hv s'). setoid_rewrite lookup_insert_Some. split.
    + intros (c' & [(<- & <-)|(Hne & Hc')] & Hst'); [congruence|by exists c'].
    + intros (c' & Hc' & Hst'). exists c'. split; [right; split; congruence|done].
Qed.

(** Writing a row that keeps the serial. *)
Lemma row_wf d r' l :
  ledger_wf l -> au_active_serial r' = (enrollment_authority l !! d ≫= au_active_serial) ->
  ledger_wf (set_row d r' l).
Proof.
  intros Hw Hr'. pose proof (wf_active l Hw) as Ha. pose proof (wf_revoked l Hw) as Hv.
  split; [|done]. intros d' s'.
  change (active_for (set_row d r' l) d' s') with (active_for l d' s'). rewrite Ha. cbn.
  setoid_rewrite lookup_insert_Some. split.
  - intros (r & Hr & Hs). destruct (decide (d = d')) as [<-|]; [|by eauto].
    rewrite Hr in Hr'. exists r'. split; [by left|by rewrite Hr'].
  - intros (r & [(<- & <-)|(Hne & Hr)] & Hs); [|by eauto].
    rewrite Hr' in Hs. destruct (enrollment_authority l !! d) as [q|] eqn:Hq; [|done]. by exists q.
Qed.

(** ** What the statements do to the ledger *)

Lemma select_active_serial_run d l a l' :
  select_active_serial d l = Some (a, l') ->
  a = (au_active_serial <$> enrollment_authority l !! d) /\ l' = l.
Proof. by intros [= <- <-]. Qed.

Lemma select_open_token_run now d l a l' :
  select_open_token now d l = Some (a, l') ->
  l' = l /\ forall r, a = Some r ->
    enrollment_authority l !! d = Some r /\ au_token_consumed_at r = None /\ now < au_token_expires_at r.
Proof.
  unfold select_open_token. intros [= <- <-]. split; [done|]. intros r.
  destruct (enrollment_authority l !! d) as [q|]; [|done].
  destruct (bool_decide_reflect (au_token_consumed_at q = None)); [|done].
  destruct (N.ltb_spec now (au_token_expires_at q)); [|done]. by intros [= ->].
Qed.

Lemma update_revoke_active_run now d s c l a l' :
  update_revoke_active now d s l = Some (a, l') ->
  device_route_credentials l !! s = Some c -> cr_device_id c = d -> cr_status c = RowActive ->
  l' = set_credentials (alter (revoke_row now) s (device_route_credentials l)) l.
Proof.
  intros Hu Hc Hd Hs. unfold update_revoke_active in Hu. rewrite Hc in Hu.
  rewrite !bool_decide_eq_true_2 in Hu by done. cbn in Hu.
  destruct (put_credential _ _ l) as [l1|] eqn:Hp; [|done]. injection Hu as _ <-.
  apply put_credential_Some in Hp as (_ & _ & ->). f_equal.
  symmetry. by apply alter_insert_Some || (apply map_eq; intros i; destruct (decide (s = i)) as [<-|];
    [rewrite lookup_alter_eq, lookup_insert_eq, Hc|rewrite lookup_alter_ne, lookup_insert_ne]).
Qed.

Lemma insert_revoked_run now b s d l a l' :
  insert_revoked now b s d l = Some (a, l') -> revoked_device_credentials l !! s = None ->
  l' = set_revoked (<[s := (d, now)]> (revoked_device_credentials l)) l.
Proof.
  unfold insert_revoked. intros Hi Hn. rewrite Hn in Hi.
  destruct (negb _); [done|]. destruct (has_authority d l); [|done]. by injection Hi as _ <-.
Qed.

Lemma update_clear_active_run d s r l a l' :
  update_clear_active d s l = Some (a, l') ->
  enrollment_authority l !! d = Some r -> au_active_serial r = Some s ->
  l' = set_row d (with_active_serial None r) l.
Proof.
  unfold update_clear_active. intros Hu Hr Hs. rewrite Hr, bool_decide_eq_true_2 in Hu by done.
  destruct (put_authority _ _ l) as [l1|] eqn:Hp; [|done]. injection Hu as _ <-.
  by apply put_authority_Some in Hp as (_ & _ & ->).
Qed.

Lemma upsert_authority_run now q dg l a l' :
  upsert_authority now q dg l = Some (a, l') ->
  exists r, l' = set_row (pr_device_id q) r l /\ au_token_digest r = dg /\
    au_token_consumed_at r = None /\ au_token_expires_at r = now + ten_minutes /\
    au_fingerprint_digest r = pr_fingerprint_digest q /\
    au_active_serial r = (enrollment_authority l !! pr_device_id q ≫= au_active_serial).
Proof.
  unfold upsert_authority. intros Hu. destruct (negb _); [done|].
  destruct (put_authority _ _ l) as [l1|] eqn:Hp; [|done]. injection Hu as _ <-.
  apply put_authority_Some in Hp as (_ & _ & ->). eexists. split; [done|].
  by destruct (enrollment_authority l !! pr_device_id q).
Qed.

Lemma update_consume_run now d act r l a l' :
  update_consume now d act l = Some (a, l') ->
  enrollment_authority l !! d = Some r -> au_token_consumed_at r = None ->
  a = 1 /\ l' = set_row d (match act with Some s => with_active_serial (Some s) (with_consumed_at now r)
                           | None => with_consumed_at now r end) l.
Proof.
  unfold update_consume. intros Hu Hr Hc. rewrite Hr, bool_decide_eq_true_2 in Hu by done.
  destruct (put_authority _ _ l) as [l1|] eqn:Hp; [|done]. injection Hu as <- <-.
  by apply put_authority_Some in Hp as (_ & _ & ->).
Qed.

Lemma insert_credential_run now d s dg l a l' :
  insert_credential now d s dg l = Some (a, l') ->
  device_route_credentials l !! s = None /\ l' = add_credential s (active_row now d dg) l.
Proof.
  unfold insert_credential. destruct (device_route_credentials l !! s); [done|].
  destruct (has_authority d l); [|done].
  destruct (put_credential _ _ l) as [l1|] eqn:Hp; [|done]. intros [= _ <-].
  by apply put_credential_Some in Hp as (_ & _ & ->).
Qed.

(** ** What the operations do to the ledger *)

(** The ledger in which [provision] writes the token: the accepted credential of
    the device revoked when recovery is authorized. *)
Definition before_token (now : N) (q : ProvisionDeviceRequestV1) (l : Ledger) : Ledger :=
  match enrollment_authority l !! pr_device_id q with
  | Some r =>
      match au_active_serial r with
      | Some s =>
          if pr_recovery q
          then set_row (pr_device_id q) (with_active_serial None r) (revoke_in now (pr_device_id q) s l)
          else l
      | None => l
      end
  | None => l
  end.

Definition provisioned (now : N) (q : ProvisionDeviceRequestV1) (dg : bytes) (l l' : Ledger) : Prop :=
  exists r, l' = set_row (pr_device_id q) r (before_token now q l) /\ au_token_digest r = dg /\
    au_token_consumed_at r = None /\ au_token_expires_at r = now + ten_minutes /\
    au_fingerprint_digest r = pr_fingerprint_digest q /\
    au_active_serial r = (enrollment_authority (before_token now q l) !! pr_device_id q ≫= au_active_serial).

(** An open token of the device, spent. *)
Definition open_token (now : N) (d dg : bytes) (r : AuthorityRow) (l : Ledger) : Prop :=
  enrollment_authority l !! d = Some r /\ au_token_consumed_at r = None /\
  now < au_token_expires_at r /\ au_token_digest r = dg.

Definition consumed (now : N) (d dg : bytes) (l l' : Ledger) : Prop :=
  exists r, open_token now d dg r l /\ l' = set_row d (with_consumed_at now r) l.

Definition activated (now : N) (t d dg cert : bytes) (prior : option bytes) (l l' : Ledger) : Prop :=
  exists r, open_token now d dg r l /\ au_active_serial r = prior /\
    device_route_credentials l !! t = None /\
    l' = add_credential t (active_row now d cert)
           (set_row d (with_active_serial (Some t) (with_consumed_at now r))
              (match prior with Some s => revoke_in now d s l | None => l end)).

Lemma provisioned_wf now q dg l l' : ledger_wf l -> provisioned now q dg l l' -> ledger_wf l'.
Proof.
  intros Hw (r & -> & _ & _ & _ & _ & Hs). apply row_wf; [|done].
  unfold before_token in *. destruct (enrollment_authority l !! pr_device_id q) as [r0|] eqn:Hr; [|done].
  destruct (au_active_serial r0) as [s|] eqn:Ha; [|done]. destruct (pr_recovery q); [|done].
  by apply (revoke_wf now _ s r0).
Qed.

Lemma consumed_wf now d dg l l' : ledger_wf l -> consumed now d dg l l' -> ledger_wf l'.
Proof. intros Hw (r & (Hr & _) & ->). apply row_wf; [done|]. by rewrite Hr. Qed.

Lemma set_row_twice d r r' l : set_row d r' (set_row d r l) = set_row d r' l.
Proof. unfold set_row, set_authority. cbn. by rewrite insert_insert_eq. Qed.

Lemma activated_wf now t d dg cert prior l l' :
  ledger_wf l -> activated now t d dg cert prior l l' -> ledger_wf l'.
Proof.
  intros Hw (r & (Hr & _) & <- & Ht & ->). destruct (au_active_serial r) as [s|] eqn:Hs.
  - rewrite <- (set_row_twice d (with_active_serial None r)).
    apply (activate_wf d t (with_active_serial None r)); try done.
    + by apply (revoke_wf now d s r).
    + cbn. by rewrite lookup_insert_eq.
    + cbn. by rewrite lookup_alter_None.
  - by apply (activate_wf d t r).
Qed.

(** The run of a sequence of exchanges, taken apart. *)
Ltac inv_run :=
  repeat match goal with
  | H : (_ ≫= _) _ = (Ok _, _) |- _ => apply bind_Ok in H as (? & ? & ? & H)
  | H : (mret _) _ = (Ok _, _) |- _ => injection H as ? ?; subst
  | H : lift _ _ = (Ok _, _) |- _ => injection H as ? ?; subst
  | H : ensure ?c _ _ = (Ok _, _) |- _ => unfold ensure in H; destruct c eqn:?; [injection H as ? ?; subst|done]
  | H : execute _ _ _ = (Ok _, _) |- _ => apply execute_Ok in H
  end.

Lemma recover_Ok now d s r p u p' :
  ledger_wf (pl_ledger p) -> enrollment_authority (pl_ledger p) !! d = Some r ->
  au_active_serial r = Some s -> recover now d s p = (Ok u, p') ->
  pl_ledger p' = set_row d (with_active_serial None r) (revoke_in now d s (pl_ledger p)).
Proof.
  intros Hw Hr Hs Hrun. unfold recover in Hrun. inv_run.
  destruct (proj2 (wf_active _ Hw d s) ltac:(eauto)) as (c & Hc & Hd & Hst).
  assert (Hn : revoked_device_credentials (pl_ledger p) !! s = None).
  { apply eq_None_not_Some. intros Hv%(wf_revoked _ Hw). destruct Hv as (c' & ? & ?). congruence. }
  eapply update_revoke_active_run in H; [|done..].
  eapply insert_revoked_run in H0; [|by rewrite H].
  eapply (update_clear_active_run _ _ r) in Hrun; [|by rewrite H0, H|done].
  by rewrite Hrun, H0, H.
Qed.

Section Operations.
Context `{Sha256}.

(** Every run of an operation leaves the ledger as it was, or as the operation
    completed makes it; an [Ok] is the second. *)
Definition all_or_nothing {A} (effect : A -> Ledger -> Ledger -> Prop) (op : repo_m A) : Prop :=
  forall p r p', ledger_wf (pl_ledger p) -> op p = (r, p') ->
    match r with
    | Ok a => effect a (pl_ledger p) (pl_ledger p')
    | Err _ => pl_ledger p' = pl_ledger p \/ exists a, effect a (pl_ledger p) (pl_ledger p')
    end.

Lemma all_or_nothing_transaction {A} (effect : A -> Ledger -> Ledger -> Prop) (body : repo_m A) :
  (forall p a p', ledger_wf (pl_ledger p) -> body p = (Ok a, p') ->
     effect a (pl_ledger p) (pl_ledger p')) ->
  all_or_nothing effect (transaction RepoUnavailable body).
Proof.
  intros Hbody p r p' Hw Ht.
  apply transaction_run in Ht as [(a & p1 & p2 & Hb & H1 & H2 & Hr)|(Hl & e & ->)]; [|by left].
  assert (He : effect a (pl_ledger p) (pl_ledger p')).
  { rewrite H2, <- H1. apply Hbody; [by rewrite H1|done]. }
  destruct Hr as [->| ->]; [done|]. right. by exists a.
Qed.

Lemma provision_effect now uuid q :
  all_or_nothing (fun token l l' => token = to_hex uuid /\ provisioned now q (sha256 token) l l')
    (provision now uuid q).
Proof.
  apply all_or_nothing_transaction. intros p a p' Hw Hb. inv_run. split; [done|].
  apply select_active_serial_run in H0 as [-> He].
  assert (Hbefore : pl_ledger x2 = before_token now q (pl_ledger p)).
  { unfold before_token. rewrite <- He in *.
    destruct (enrollment_authority (pl_ledger x0) !! pr_device_id q) as [r|] eqn:Hr; cbn in H1; [|by inv_run].
    destruct (au_active_serial r) as [s|] eqn:Hs; [|by inv_run].
    destruct (pr_recovery q); [by eapply recover_Ok|by inv_run]. }
  apply upsert_authority_run in H2 as (r & -> & Hr). rewrite Hbefore in *. by exists r.
Qed.

Lemma open_token_run now d a r l l' :
  select_open_token now d l = Some (a, l') -> ok_or RepoDenied a = Ok r ->
  l' = l /\ open_token now d (au_token_digest r) r l.
Proof.
  intros Ha Hr. destruct a as [r'|]; [|done]. injection Hr as ->.
  apply select_open_token_run in Ha as [-> Ha]. by destruct (Ha r eq_refl) as (? & ? & ?).
Qed.

Lemma consume_token_effect now d fp token :
  all_or_nothing (fun _ l l' => consumed now d (sha256 token) l l') (consume_token now d fp token).
Proof.
  apply all_or_nothing_transaction. intros p a p' Hw Hb. inv_run.
  destruct (open_token_run _ _ _ _ _ _ H0 H1) as [Hl Ho]. rewrite Hl in *.
  apply andb_prop in Heqb0 as [_ Htok%bool_decide_eq_true]. rewrite Htok in Ho.
  destruct Ho as (Hr & Hc & Ho). eapply update_consume_run in H3 as [_ ->]; [|done..].
  by exists x1.
Qed.

Lemma revoke_previous_Ok now d r p u p' :
  ledger_wf (pl_ledger p) -> enrollment_authority (pl_ledger p) !! d = Some r ->
  revoke_previous now d (au_active_serial r) p = (Ok u, p') ->
  pl_ledger p' = match au_active_serial r with
                 | Some s => revoke_in now d s (pl_ledger p) | None => pl_ledger p end.
Proof.
  intros Hw Hr Hrun. destruct (au_active_serial r) as [s|] eqn:Hs; cbn in Hrun; inv_run; [|done].
  destruct (proj2 (wf_active _ Hw d s) ltac:(eauto)) as (c & Hc & Hd & Hst).
  assert (Hn : revoked_device_credentials (pl_ledger p) !! s = None).
  { apply eq_None_not_Some. intros Hv%(wf_revoked _ Hw). destruct Hv as (c' & ? & ?). congruence. }
  eapply update_revoke_active_run in H0; [|done..].
  eapply insert_revoked_run in Hrun; [|by rewrite H0]. by rewrite Hrun, H0.
Qed.

Lemma revoke_previous_fresh now d o t l :
  device_route_credentials (match o with Some s => revoke_in now d s l | None => l end) !! t = None ->
  device_route_credentials l !! t = None.
Proof. destruct o as [s|]; cbn; [by rewrite lookup_alter_None|done]. Qed.

Lemma activate_effect {T} now uuid d token prior (issue : bytes -> result RepositoryError (T * bytes)) :
  all_or_nothing (fun a l l' => exists cert, issue uuid = Ok (a, cert) /\
      activated now uuid d (sha256 token) cert prior l l')
    (consume_and_activate now uuid d token prior issue).
Proof.
  apply all_or_nothing_transaction. intros p a p' Hw Hb. inv_run.
  destruct (open_token_run _ _ _ _ _ _ H0 H1) as [Hl Ho]. rewrite Hl in *.
  apply andb_prop in Heqb as [Htok%bool_decide_eq_true Hprior%bool_decide_eq_true].
  rewrite Htok in Ho. destruct Ho as (Hr & Hc & Ho). cbv zeta in Hb. inv_run.
  destruct x0 as [out cert]. exists cert. split; [done|]. cbn [snd] in H6.
  eapply revoke_previous_Ok in H3; [|by rewrite Hl|by rewrite Hl]. rewrite Hl in H3.
  eapply update_consume_run in H4 as [_ Hrow]; [|rewrite H3; by destruct (au_active_serial x1)|done].
  apply insert_credential_run in H6 as [Hfresh ->]. rewrite Hrow, H3 in *.
  exists x1. split; [by destruct Ho|]. split; [done|].
  split; [exact (revoke_previous_fresh now d (au_active_serial x1) uuid _ Hfresh)|done].
Qed.
End Operations.
