(* ===== verification/Enrollment.v ===== *)
(** * Enrollment

    The enrollment authority of the server: the constrained issuer of device
    certificates (crates/dlp-server/src/pki.rs), the enrollment and provisioning
    services (enrollment.rs) over the PostgreSQL authority and the directory, and
    the deterministic fixtures of the two files.  The certificate library is
    third-party code: its calls are the members of the class [Rcgen]. *)

From S2P Require Import Prelude Bytes Text Effects Crypto Protocol Calendar Tls Directory Ledger Authority.

(** ** The certificate issuer *)

Inductive CertificateError := CertInvalidConfiguration | CertInvalidCsr | CertIssuanceFailed.
#[export] Instance CertificateError_eq_dec : EqDecision CertificateError.
Proof. solve_decision. Defined.

Record IssuedDeviceCredential := mkIssued {
  is_certificate_chain_pem : bytes;
  is_serial : bytes;
  is_expires_after_days : N;
}.

Record RcgenDeviceCertificateIssuer := mkIssuer {
  ri_root_certificate_path : bytes;
  ri_issuing_certificate_path : bytes;
  ri_issuing_key_path : bytes;
}.

Definition RcgenDeviceCertificateIssuer_new (root certificate key : bytes)
    (root_private_key : option bytes) : result CertificateError RcgenDeviceCertificateIssuer :=
  if bool_decide (is_Some root_private_key) || bool_decide (root = key) || bool_decide (certificate = key)
  then Err CertInvalidConfiguration
  else Ok (mkIssuer root certificate key).

(** The parameters a certificate is signed with; what the request contributes is
    kept as it is. *)
Record CertificateParams := mkParams {
  cp_request : bytes;
  cp_is_ca : bool;
  cp_digital_signature : bool;
  cp_client_auth : bool;
  cp_uri : bytes;
  cp_serial : bytes;
  cp_not_before : Z * Z * Z;
  cp_not_after : Z * Z * Z;
}.

(** The calls to crate rcgen: a request whose signature verifies, with whether its
    key is ECDSA P-256; a key pair; an issuer from a CA certificate and its key;
    whether a text is a URI name; and a signed certificate in PEM. *)
Class Rcgen := {
  csr_from_pem : bytes -> option (bool * bytes);
  key_pair_from_pem : bytes -> option bytes;
  issuer_from_ca_pem : bytes -> bytes -> option bytes;
  is_uri_name : bytes -> bool;
  signed_by : CertificateParams -> bytes -> option bytes;
}.

(** [fs::read_to_string]. *)
Definition read_text (h : Host) (path : bytes) : option bytes :=
  match ho_file h path with
  | Some b => if utf8_valid b then Some b else None
  | None => None
  end.

Section Issuer.
Context `{Rcgen} (h : Host).

(** The clock is read once for each of the two dates, in whole seconds since the
    epoch. *)
Definition leaf_params (clock : Z * Z) (request device_uri serial : bytes) : CertificateParams :=
  mkParams request false true true device_uri serial
    (utc_date_after_days (fst clock) 0) (utc_date_after_days (snd clock) 30).

Definition issue_from_csr (issuer : RcgenDeviceCertificateIssuer) (clock : Z * Z)
    (device_uuid csr_pem serial : bytes) : result CertificateError IssuedDeviceCredential :=
  if bool_decide (device_uuid = []) || bool_decide (serial = []) || (20 <? len serial)
  then Err CertInvalidCsr else
  '(p256, request) ← ok_or CertInvalidCsr (csr_from_pem csr_pem);
  if negb p256 then Err CertInvalidCsr else
  root ← ok_or CertInvalidConfiguration (read_text h (ri_root_certificate_path issuer));
  issuer_certificate ← ok_or CertInvalidConfiguration (read_text h (ri_issuing_certificate_path issuer));
  issuer_key ← ok_or CertInvalidConfiguration (read_text h (ri_issuing_key_path issuer));
  if contains (lit "PRIVATE KEY") root || contains (lit "PRIVATE KEY") issuer_certificate
  then Err CertInvalidConfiguration else
  key ← ok_or CertInvalidConfiguration (key_pair_from_pem issuer_key);
  ca ← ok_or CertInvalidConfiguration (issuer_from_ca_pem issuer_certificate key);
  let device_uri := device_uri_prefix ++ device_uuid in
  if negb (is_uri_name device_uri) then Err CertInvalidCsr else
  certificate ← ok_or CertIssuanceFailed (signed_by (leaf_params clock request device_uri serial) ca);
  Ok (mkIssued (certificate ++ [x0a] ++ issuer_certificate ++ [x0a] ++ root) serial 30).
End Issuer.

(** ** The enrollment service *)

Inductive EnrollmentError := EnrollDenied | EnrollAlreadyUsed | EnrollIntegrityFailure.
#[export] Instance EnrollmentError_eq_dec : EqDecision EnrollmentError.
Proof. solve_decision. Defined.

Record EnrollmentSubmission := mkSubmission {
  su_device_id : bytes;
  su_token : bytes;
  su_csr_pem : bytes;
  su_prior_serial : option bytes;
}.

Definition EnrollmentSubmission_new (device_id token csr_pem : bytes) (prior_serial : option bytes) :
    result EnrollmentError EnrollmentSubmission :=
  if bool_decide (device_id = []) || (128 <? len device_id)
     || bool_decide (token = []) || (512 <? len token)
     || bool_decide (csr_pem = []) || (65536 <? len csr_pem)
     || match prior_serial with
        | Some serial => bool_decide (serial = []) || (20 <? len serial)
        | None => false
        end
  then Err EnrollDenied
  else Ok (mkSubmission device_id token csr_pem prior_serial).

Definition directory_denial (e : DirectoryError) : EnrollmentError :=
  match e with
  | DirInvalidConfiguration | DirUnavailable => EnrollIntegrityFailure
  | DirNotFound | DirDisabled | DirDisagreement => EnrollDenied
  end.

Definition authority_denial (e : RepositoryError) : EnrollmentError :=
  match e with RepoDenied => EnrollDenied | RepoUnavailable => EnrollIntegrityFailure end.

Abbreviation enroll_m := (M Pool EnrollmentError).

Section Service.
Context `{Sha256} `{Rcgen}.

(** The closure that issues the certificate inside the transaction. *)
Definition issue_for (h : Host) (issuer : RcgenDeviceCertificateIssuer) (clock : Z * Z)
    (s : EnrollmentSubmission) (serial : bytes) :
    result RepositoryError (IssuedDeviceCredential * bytes) :=
  issued ← map_err (fun _ => RepoDenied)
             (issue_from_csr h issuer clock (su_device_id s) (su_csr_pem s) serial);
  Ok (issued, sha256 (is_certificate_chain_pem issued)).

(** [EnrollmentService::enroll]; [directory] is the verifier. *)
Definition enroll (h : Host) (issuer : RcgenDeviceCertificateIssuer)
    (directory : bytes -> result DirectoryError VerifiedComputerIdentity)
    (now : N) (clock : Z * Z) (uuid : bytes) (s : EnrollmentSubmission) : enroll_m IssuedDeviceCredential :=
  _ ← lift (map_err directory_denial (directory (su_device_id s)));
  with_error authority_denial
    (consume_and_activate now uuid (su_device_id s) (su_token s) (su_prior_serial s)
       (issue_for h issuer clock s)).

(** [AdminProvisioningService::provision]. *)
Definition admin_provision (now : N) (uuid : bytes) (q : ProvisionDeviceRequestV1) :
    enroll_m ProvisionDeviceResponseV1 :=
  token ← with_error (fun _ => EnrollIntegrityFailure) (provision now uuid q);
  lift (map_err (fun _ => EnrollIntegrityFailure)
          (ProvisionDeviceResponseV1_new 1 (pr_device_id q) token)).
End Service.

(** ** The deterministic fixtures *)

Record EnrollmentRecord := mkEnrollmentRecord {
  nr_fingerprint_digest : bytes;
  nr_token_digest : bytes;
  nr_active_serial : option bytes;
  nr_revoked_serials : list bytes;
}.

(** The field [records] of [TestAuthorityRepository]. *)
Abbreviation TestRecords := (gmap bytes EnrollmentRecord).
Abbreviation fixture_m := (M TestRecords RepositoryError).

Record EnrollmentAttempt := mkAttempt {
  ea_device_id : bytes;
  ea_fingerprint_digest : bytes;
  ea_token : bytes;
  ea_serial : bytes;
  ea_directory_verified : bool;
  ea_csr_valid : bool;
}.

Section Fixtures.
Context `{Sha256}.

Definition create_for_test (device_id fingerprint_digest token : bytes) (m : TestRecords) : TestRecords :=
  <[device_id := mkEnrollmentRecord fingerprint_digest (sha256 token) None []]> m.

Definition test_provision (uuid device_id fingerprint_digest : bytes) : fixture_m bytes :=
  let token := to_hex uuid in
  _ ← modify (create_for_test device_id fingerprint_digest token);
  mret token.

Definition consume_and_replace (device_id fingerprint_digest token serial : bytes) : fixture_m unit :=
  record ← gets (fun m : TestRecords => m !! device_id);
  record ← lift (ok_or RepoDenied record);
  _ ← ensure (bool_decide (nr_fingerprint_digest record = fingerprint_digest)
              && bool_decide (nr_token_digest record = sha256 token)
              && negb (bool_decide (serial = []))) RepoDenied;
  modify (<[device_id :=
             mkEnrollmentRecord (nr_fingerprint_digest record) (repeat x00 32) (Some serial)
               (match nr_active_serial record with
                | Some old => nr_revoked_serials record ++ [old]
                | None => nr_revoked_serials record
                end)]>).

(** [TestEnrollmentService::enroll]. *)
Definition test_enroll (a : EnrollmentAttempt) : M TestRecords EnrollmentError unit :=
  _ ← ensure (ea_directory_verified a && ea_csr_valid a) EnrollDenied;
  with_error authority_denial
    (consume_and_replace (ea_device_id a) (ea_fingerprint_digest a) (ea_token a) (ea_serial a)).

(** [supplied.iter().zip(..).fold(0_u8, |acc, (left, right)| acc | (left ^ right))]. *)
Definition difference (supplied expected : bytes) : N :=
  foldl (fun acc lr => N.lor acc (N.lxor (Byte.to_N (fst lr)) (Byte.to_N (snd lr)))) 0
    (zip supplied expected).

Definition TestAdminProvisioningService_new (admin_key : bytes) : result EnrollmentError bytes :=
  if bool_decide (admin_key = []) then Err EnrollDenied else Ok (sha256 admin_key).

Definition test_admin_provision (admin_key_digest supplied_admin_key uuid device_id fingerprint_digest : bytes) :
    M TestRecords EnrollmentError bytes :=
  _ ← ensure ((difference (sha256 supplied_admin_key) admin_key_digest =? 0)
              && negb (bool_decide (device_id = []))) EnrollDenied;
  with_error (fun _ => EnrollIntegrityFailure) (test_provision uuid device_id fingerprint_digest).
End Fixtures.

(** ** Comparison without early exit *)

Lemma difference_from acc a b :
  length a = length b ->
  foldl (fun acc lr => N.lor acc (N.lxor (Byte.to_N (fst lr)) (Byte.to_N (snd lr)))) acc (zip a b) = 0 <->
  acc = 0 /\ a = b.
Proof.
  revert acc b. induction a as [|x a IH]; intros acc [|y b] Hl; try done; cbn [zip zip_with foldl].
  - by split; [|intros [? _]].
  - rewrite IH by (by injection Hl). cbn [fst snd]. rewrite N.lor_eq_0_iff, N.lxor_eq_0_iff.
    split; [|by intros [-> [= <- <-]]]. by intros [[-> ->%byte_to_N_inj] ->].
Qed.

Lemma difference_equal a b : length a = length b -> difference a b = 0 <-> a = b.
Proof. intros Hl. unfold difference. rewrite difference_from by done. naive_solver. Qed.
