(* ===== verification/Client.v ===== *)
(** * Client

    The HTTP client of the agent (crates/dlp-agent-core/src/client.rs): the
    bootstrap and device-authenticated configurations, the requests for enrollment,
    health and configuration, and the validation of a returned certificate chain.
    The HTTP and JSON crates are third-party code: the members of the class
    [HttpClient], with the network a state they change. *)

From S2P Require Import Prelude Bytes Text Effects Protocol Tls.

Definition ENROLLMENT_URL_PATH : bytes := lit "/api/v1/enrollment".
Definition HEALTH_URL_PATH : bytes := lit "/api/v1/device/health".
Definition CONFIGURATION_URL_PATH : bytes := lit "/api/v1/device/configuration".
Definition MAX_BODY_BYTES : N := 262144.
Definition EXPECTED_SECONDS : N := 30 * 24 * 60 * 60.

Inductive ClientError :=
| InvalidServerUrl
| InvalidTrustAnchor
| MissingDeviceCredential
| TlsConfiguration
| RequestDenied
| InvalidResponse
| ProfileRejected
| NetworkUnavailable
| ConfigurationFetchFailed.
#[export] Instance ClientError_eq_dec : EqDecision ClientError.
Proof. solve_decision. Defined.

Record ValidatedDeviceIdentity := mkIdentity {
  vi_device_id : bytes;
  vi_certificate_chain_pem : bytes;
  vi_serial : bytes;
  vi_expires_after_epoch_seconds : N;
}.

Record AgentHttpClient := mkClient {
  hc_server_url : bytes;
  hc_root_pem : bytes;
  hc_certificate_chain_pem : option bytes;
  hc_private_key_pem : option bytes;
  hc_timeout_seconds : N;
}.

Definition bootstrap (server_url root_pem : bytes) : result ClientError AgentHttpClient :=
  if negb (starts_with (lit "https://") server_url) then Err InvalidServerUrl
  else if negb (contains (lit "BEGIN CERTIFICATE") root_pem) then Err InvalidTrustAnchor
  else Ok (mkClient server_url root_pem None None 30).

Definition with_device_identity (certificate_chain_pem private_key_pem : bytes) (c : AgentHttpClient) :
    result ClientError AgentHttpClient :=
  if bool_decide (certificate_chain_pem = []) || bool_decide (private_key_pem = [])
  then Err MissingDeviceCredential
  else if negb (contains (lit "BEGIN CERTIFICATE") certificate_chain_pem)
          || negb (contains (lit "BEGIN PRIVATE KEY") private_key_pem)
  then Err MissingDeviceCredential
  else Ok (mkClient (hc_server_url c) (hc_root_pem c) (Some certificate_chain_pem)
             (Some private_key_pem) (hc_timeout_seconds c)).

Definition uses_device_mtls (c : AgentHttpClient) : bool :=
  bool_decide (is_Some (hc_certificate_chain_pem c)).

(** ** Requests *)

Record EnrollmentRequestBody := mkEnrollmentBody {
  eb_version : N;
  eb_device_id : bytes;
  eb_token : bytes;
  eb_csr_pem : bytes;
  eb_prior_serial : option bytes;
}.

Record HealthRequestBody := mkHealthBody { hb_version : N; hb_drive_state : bytes }.

(** What a built client authenticates with: its root and its identity. *)
Record TlsClient := mkTlsClient { tc_root : bytes; tc_identity : option bytes }.

Inductive RequestBody :=
| GetRequest
| PostEnrollment (body : EnrollmentRequestBody)
| PostHealth (body : HealthRequestBody).

(** A response: its status and, when it could be read, its body. *)
Record HttpResponse := mkHttpResponse { hr_status : N; hr_body : option bytes }.

Definition is_success (r : HttpResponse) : bool := (200 <=? hr_status r) && (hr_status r <? 300).

(** The calls to crates reqwest and serde_json: a root certificate and an identity
    from PEM, the building of a client, a request sent over the network (a body is
    sent in its JSON form) and the chain in an enrollment response. *)
Class HttpClient (S : Type) := {
  certificate_from_pem : bytes -> bool;
  identity_from_pem : bytes -> bool;
  client_builds : TlsClient -> bool;
  send : TlsClient -> bytes -> RequestBody -> S -> option HttpResponse * S;
  response_chain : bytes -> option bytes;
}.

Section Requests.
Context {S : Type} `{HttpClient S} `{Certificates}.

Abbreviation client_m := (M S ClientError).

Definition build_client (require_device_identity : bool) (c : AgentHttpClient) :
    result ClientError TlsClient :=
  if negb (certificate_from_pem (hc_root_pem c)) then Err InvalidTrustAnchor
  else
    identity ← match hc_certificate_chain_pem c, hc_private_key_pem c with
               | Some chain, Some key =>
                   let identity_pem := chain ++ [x0a] ++ key in
                   if identity_from_pem identity_pem then Ok (Some identity_pem) else Err TlsConfiguration
               | _, _ => if require_device_identity then Err MissingDeviceCredential else Ok None
               end;
    let client := mkTlsClient (hc_root_pem c) identity in
    if client_builds client then Ok client else Err TlsConfiguration.

(** The sending of a request; no response is a network error. *)
Definition request (client : TlsClient) (url : bytes) (body : RequestBody) : client_m HttpResponse :=
  fun s => let '(r, s') := send client url body s in (ok_or NetworkUnavailable r, s').

(** ** The certificate chain *)

(** [timestamp() as u64]. *)
Definition epoch_u64 (t : Z) : N := Z.to_N (t mod 2 ^ 64).

Definition has_uri (expected : bytes) (names : list GeneralName) : bool :=
  existsb (fun n => match n with UriName uri => bool_decide (uri = expected) | OtherName => false end) names.

(** An extension that is malformed or absent is refused. *)
Definition required {A} (r : result unit (option A)) : result ClientError A :=
  match r with Ok (Some a) => Ok a | _ => Err ProfileRejected end.

(** The checks of the leaf alone. *)
Definition check_leaf (now : Z) (device_id : bytes) (leaf : Certificate) : result ClientError unit :=
  if ct_is_ca leaf || negb (is_valid now leaf) then Err ProfileRejected else
  key_usage ← required (ct_digital_signature leaf);
  if negb key_usage then Err ProfileRejected else
  extended_usage ← required (ct_client_auth leaf);
  if negb extended_usage then Err ProfileRejected else
  names ← required (ct_alternative_names leaf);
  if negb (has_uri (device_uri_prefix ++ device_id) names) then Err ProfileRejected
  else if bool_decide (ct_raw_serial leaf = []) then Err ProfileRejected
  else if EXPECTED_SECONDS <? epoch_u64 (ct_not_after leaf) - epoch_u64 (ct_not_before leaf)
  then Err ProfileRejected
  else Ok tt.

(** The issuer is the second certificate: a self-signed CA that signed the leaf. *)
Definition check_issuer (leaf_der : bytes) (leaf : Certificate) (certs : list bytes) :
    result ClientError unit :=
  issuer_der ← ok_or ProfileRejected (certs !! 1%nat);
  '(_, issuer) ← ok_or ProfileRejected (parse_x509_certificate issuer_der);
  if negb (ct_is_ca issuer) || negb (bool_decide (ct_issuer leaf = ct_subject issuer))
  then Err ProfileRejected
  else if negb (verify_signature (ct_public_key issuer) leaf_der) then Err ProfileRejected
  else if negb (verify_signature (ct_public_key issuer) issuer_der) then Err ProfileRejected
  else Ok tt.

Definition validate_device_chain (now : Z) (device_id chain_pem trusted_root_pem : bytes) :
    result ClientError ValidatedDeviceIdentity :=
  if (MAX_BODY_BYTES <? len chain_pem) || negb (contains (lit "BEGIN CERTIFICATE") chain_pem)
  then Err InvalidResponse else
  certs ← ok_or InvalidResponse (pem_certificates chain_pem);
  leaf_der ← ok_or InvalidResponse (head certs);
  '(_, leaf) ← ok_or ProfileRejected (parse_x509_certificate leaf_der);
  _ ← check_leaf now device_id leaf;
  roots ← ok_or InvalidTrustAnchor (pem_certificates trusted_root_pem);
  if bool_decide (roots = []) then Err InvalidTrustAnchor else
  _ ← check_issuer leaf_der leaf certs;
  if negb (existsb (fun returned => bool_decide (returned ∈ roots)) (drop 2 certs))
  then Err ProfileRejected
  else Ok (mkIdentity device_id chain_pem (ct_raw_serial leaf) (epoch_u64 (ct_not_after leaf))).

(** ** Operations *)

Definition post_enrollment (now : Z) (c : AgentHttpClient) (device_id token csr_pem : bytes)
    (prior_serial : option bytes) : client_m ValidatedDeviceIdentity :=
  client ← lift (build_client false c);
  response ← request client (hc_server_url c ++ ENROLLMENT_URL_PATH)
    (PostEnrollment (mkEnrollmentBody 1 device_id token csr_pem (to_hex <$> prior_serial)));
  _ ← ensure (is_success response) RequestDenied;
  text ← lift (ok_or InvalidResponse (hr_body response));
  _ ← ensure (len text <=? MAX_BODY_BYTES) InvalidResponse;
  chain ← lift (ok_or InvalidResponse (response_chain text));
  lift (validate_device_chain now device_id chain (hc_root_pem c)).

Definition client_post_health (c : AgentHttpClient) (device_id drive_state : bytes) : client_m unit :=
  _ ← ensure (uses_device_mtls c) MissingDeviceCredential;
  client ← lift (build_client true c);
  report ← lift (map_err (fun _ => InvalidResponse) (HealthReportV1_new 1 device_id drive_state));
  response ← request client (hc_server_url c ++ HEALTH_URL_PATH)
    (PostHealth (mkHealthBody (hr_version report) drive_state));
  ensure (is_success response) RequestDenied.

(** [AgentConfigurationTransport]: a client with a device identity and the URL. *)
Record AgentConfigurationTransport := mkTransport { at_client : TlsClient; at_url : bytes }.

Definition AgentConfigurationTransport_new (c : AgentHttpClient) :
    result ClientError AgentConfigurationTransport :=
  client ← build_client true c;
  Ok (mkTransport client (hc_server_url c ++ CONFIGURATION_URL_PATH)).

Definition fetch_configuration_bytes (t : AgentConfigurationTransport) : client_m bytes :=
  response ← request (at_client t) (at_url t) GetRequest;
  _ ← ensure (is_success response) ConfigurationFetchFailed;
  b ← lift (ok_or InvalidResponse (hr_body response));
  _ ← ensure (len b <=? MAX_BODY_BYTES) InvalidResponse;
  mret b.

Definition poll_configuration (c : AgentHttpClient) (t : AgentConfigurationTransport) : client_m bytes :=
  _ ← ensure (uses_device_mtls c) MissingDeviceCredential;
  fetch_configuration_bytes t.

(** An enrollment that succeeded: one exchange, and the validation of its chain. *)
Lemma post_enrollment_sent now c d token csr prior s identity s' :
  post_enrollment now c d token csr prior s = (Ok identity, s') ->
  exists client response text chain,
    send client (hc_server_url c ++ ENROLLMENT_URL_PATH)
      (PostEnrollment (mkEnrollmentBody 1 d token csr (to_hex <$> prior))) s = (Some response, s') /\
    is_success response = true /\ hr_body response = Some text /\ response_chain text = Some chain /\
    validate_device_chain now d chain (hc_root_pem c) = Ok identity.
Proof.
  unfold post_enrollment. intros (client & s1 & Hc & Hrun)%bind_Ok. injection Hc as _ <-.
  apply bind_Ok in Hrun as (response & s2 & Hreq & Hrun). apply bind_Ok in Hrun as ([] & s3 & Hs & Hrun).
  apply bind_Ok in Hrun as (text & s4 & Ht & Hrun). apply bind_Ok in Hrun as ([] & s5 & Hl & Hrun).
  apply bind_Ok in Hrun as (chain & s6 & Hch & Hrun).
  unfold ensure in Hs, Hl. destruct (is_success response) eqn:Hok; [|done]. injection Hs as <-.
  injection Ht as Ht%ok_or_Ok <-. destruct (len text <=? MAX_BODY_BYTES); [|done]. injection Hl as <-.
  injection Hch as Hch%ok_or_Ok <-. injection Hrun as Hv <-. unfold request in Hreq.
  destruct (send _ _ _ s) as [[r|] s7] eqn:Hsend; [|done]. injection Hreq as -> <-.
  by exists client, response, text, chain.
Qed.
End Requests.

(** ** What a validated chain proves *)

Section Validation.
Context `{Certificates}.

(** The steps of a validation that succeeded. *)
Lemma validate_device_chain_Ok now d chain trusted identity :
  validate_device_chain now d chain trusted = Ok identity ->
  exists certs leaf_der leaf rest roots root,
    pem_certificates chain = Some certs /\ head certs = Some leaf_der /\
    parse_x509_certificate leaf_der = Some (rest, leaf) /\ check_leaf now d leaf = Ok tt /\
    check_issuer leaf_der leaf certs = Ok tt /\ pem_certificates trusted = Some roots /\
    root ∈ drop 2 certs /\ root ∈ roots /\
    identity = mkIdentity d chain (ct_raw_serial leaf) (epoch_u64 (ct_not_after leaf)).
Proof.
  unfold validate_device_chain. intros Hv. destruct (_ || _) in Hv; [done|].
  apply result_bind_Ok in Hv as (certs & Hc%ok_or_Ok & Hv).
  apply result_bind_Ok in Hv as (leaf_der & Hl%ok_or_Ok & Hv).
  apply result_bind_Ok in Hv as ([rest leaf] & Hp%ok_or_Ok & Hv).
  apply result_bind_Ok in Hv as ([] & Hleaf & Hv).
  apply result_bind_Ok in Hv as (roots & Hr%ok_or_Ok & Hv).
  destruct (bool_decide (roots = [])); [done|].
  apply result_bind_Ok in Hv as ([] & Hi & Hv).
  destruct (existsb _ _) eqn:Hroot; [|done]. injection Hv as <-.
  apply existsb_exists in Hroot as (root & Hin%list_elem_of_In & Hroot%bool_decide_eq_true).
  by exists certs, leaf_der, leaf, rest, roots, root.
Qed.

Lemma required_Ok {A} (r : result unit (option A)) a : required r = Ok a -> r = Ok (Some a).
Proof. destruct r as [[x|]|]; cbn; intros [= ->] || done; done. Qed.

Lemma check_leaf_Ok now d leaf :
  check_leaf now d leaf = Ok tt ->
  ct_is_ca leaf = false /\ is_valid now leaf = true /\ ct_digital_signature leaf = Ok (Some true) /\
  ct_client_auth leaf = Ok (Some true) /\ ct_raw_serial leaf <> [] /\
  (exists names, ct_alternative_names leaf = Ok (Some names) /\ UriName (device_uri_prefix ++ d) ∈ names) /\
  epoch_u64 (ct_not_after leaf) <= epoch_u64 (ct_not_before leaf) + EXPECTED_SECONDS.
Proof.
  unfold check_leaf. intros Hv. destruct (ct_is_ca leaf), (is_valid now leaf); try done. cbn [negb orb] in Hv.
  apply result_bind_Ok in Hv as ([] & Hku%required_Ok & Hv); [|done]. cbn [negb] in Hv.
  apply result_bind_Ok in Hv as ([] & Hek%required_Ok & Hv); [|done]. cbn [negb] in Hv.
  apply result_bind_Ok in Hv as (names & Hn%required_Ok & Hv).
  destruct (has_uri _ names) eqn:Hu; [|done]. cbn [negb] in Hv.
  destruct (bool_decide_reflect (ct_raw_serial leaf = [])) as [|Hs]; [done|].
  destruct (N.ltb_spec EXPECTED_SECONDS (epoch_u64 (ct_not_after leaf) - epoch_u64 (ct_not_before leaf))); [done|].
  unfold has_uri in Hu. apply existsb_exists in Hu as ([uri|] & Hin%list_elem_of_In & Hu); [|done].
  apply bool_decide_eq_true in Hu as ->. split_and!; try done; [by exists names|lia].
Qed.

(** From 1970 on the comparison of the [u64] values is that of the times. *)
Lemma validity_bound now leaf :
  is_valid now leaf = true ->
  epoch_u64 (ct_not_after leaf) <= epoch_u64 (ct_not_before leaf) + EXPECTED_SECONDS ->
  (0 <= ct_not_before leaf)%Z -> (ct_not_after leaf < 2 ^ 63)%Z ->
  (ct_not_after leaf <= ct_not_before leaf + 30 * 24 * 60 * 60)%Z.
Proof.
  unfold is_valid, epoch_u64, EXPECTED_SECONDS. intros Hv Hd Hb Ha. rewrite !Z.mod_small in Hd by lia. lia.
Qed.

(** The defect of the length test: a certificate that began before 1970 passes
    whenever it ends, because [not_before as u64] is then larger than [not_after as
    u64] and the subtraction saturates at zero. *)
Theorem early_leaf_accepted now d leaf names :
  ct_is_ca leaf = false -> is_valid now leaf = true ->
  ct_digital_signature leaf = Ok (Some true) -> ct_client_auth leaf = Ok (Some true) ->
  ct_alternative_names leaf = Ok (Some names) -> UriName (device_uri_prefix ++ d) ∈ names ->
  ct_raw_serial leaf <> [] ->
  (- 2 ^ 63 <= ct_not_before leaf < 0)%Z -> (0 <= ct_not_after leaf < 2 ^ 63)%Z ->
  check_leaf now d leaf = Ok tt.
Proof.
  intros Hca Hv Hku Hek Hn Hin Hs Hb Ha. unfold check_leaf. rewrite Hca, Hv, Hku, Hek, Hn.
  cbn [required mbind result_bind negb orb].
  assert (has_uri (device_uri_prefix ++ d) names = true) as ->.
  { apply existsb_exists. exists (UriName (device_uri_prefix ++ d)). split; [by apply list_elem_of_In|].
    by apply bool_decide_eq_true. }
  rewrite bool_decide_eq_false_2 by done. cbn.
  replace (epoch_u64 (ct_not_after leaf) - epoch_u64 (ct_not_before leaf)) with 0; [done|].
  unfold epoch_u64. rewrite (Z.mod_small (ct_not_after leaf)) by lia.
  replace (ct_not_before leaf) with (ct_not_before leaf + 2 ^ 64 + (-1) * 2 ^ 64)%Z by lia.
  rewrite Z.mod_add, Z.mod_small by lia. lia.
Qed.

Lemma check_issuer_Ok leaf_der leaf certs :
  check_issuer leaf_der leaf certs = Ok tt ->
  exists issuer_der rest issuer, certs !! 1%nat = Some issuer_der /\
    parse_x509_certificate issuer_der = Some (rest, issuer) /\ ct_is_ca issuer = true /\
    ct_issuer leaf = ct_subject issuer /\ verify_signature (ct_public_key issuer) leaf_der = true /\
    verify_signature (ct_public_key issuer) issuer_der = true.
Proof.
  unfold check_issuer. intros Hv.
  apply result_bind_Ok in Hv as (issuer_der & Hi%ok_or_Ok & Hv).
  apply result_bind_Ok in Hv as ([rest issuer] & Hp%ok_or_Ok & Hv).
  destruct (ct_is_ca issuer) eqn:Hca, (bool_decide_reflect (ct_issuer leaf = ct_subject issuer)); try done.
  cbn [negb orb] in Hv. destruct (verify_signature _ leaf_der) eqn:H1; [|done].
  destruct (verify_signature _ issuer_der) eqn:H2; [|done].
  by exists issuer_der, rest, issuer.
Qed.

(** C23.  The agent accepts a certificate chain only if its first certificate is an
    end-entity certificate, valid now, for signing and client authentication, with
    the URI of this very device and a serial; its second is a self-signed CA that
    issued and signed the first; and one of the others is, byte for byte, a root the
    agent pins.  The validity is at most 30 days when it begins in 1970 or later and
    ends at a time of 63 bits, as every [i64] timestamp does; the test is made on
    [u64] values, which for an earlier beginning is no bound (see
    [early_leaf_accepted]).  The identity it returns is this device's, with that
    certificate's serial and expiry. *)
Theorem chain_validated now d chain trusted identity :
  validate_device_chain now d chain trusted = Ok identity ->
  exists leaf_der leaf issuer_der issuer others roots root rest rest',
    pem_certificates chain = Some (leaf_der :: issuer_der :: others) /\
    parse_x509_certificate leaf_der = Some (rest, leaf) /\
    parse_x509_certificate issuer_der = Some (rest', issuer) /\
    ct_is_ca leaf = false /\ is_valid now leaf = true /\
    ct_digital_signature leaf = Ok (Some true) /\ ct_client_auth leaf = Ok (Some true) /\
    (exists names, ct_alternative_names leaf = Ok (Some names) /\ UriName (device_uri_prefix ++ d) ∈ names) /\
    epoch_u64 (ct_not_after leaf) <= epoch_u64 (ct_not_before leaf) + EXPECTED_SECONDS /\
    ((0 <= ct_not_before leaf)%Z -> (ct_not_after leaf < 2 ^ 63)%Z ->
     (ct_not_after leaf <= ct_not_before leaf + 30 * 24 * 60 * 60)%Z) /\
    ct_is_ca issuer = true /\ ct_issuer leaf = ct_subject issuer /\
    verify_signature (ct_public_key issuer) leaf_der = true /\
    verify_signature (ct_public_key issuer) issuer_der = true /\
    pem_certificates trusted = Some roots /\ root ∈ others /\ root ∈ roots /\ ct_raw_serial leaf <> [] /\
    identity = mkIdentity d chain (ct_raw_serial leaf) (epoch_u64 (ct_not_after leaf)).
Proof.
  intros (certs & leaf_der & leaf & rest & roots & root & Hc & Hl & Hp & Hleaf & Hi & Hr & Hin & Hin' & ->)
    %validate_device_chain_Ok.
  apply check_leaf_Ok in Hleaf as (Hca & Hv & Hku & Hek & Hs & Hn & Hd).
  apply check_issuer_Ok in Hi as (issuer_der & rest' & issuer & Hi & Hpi & Hica & Hname & H1 & H2).
  destruct certs as [|x [|y others]]; try done. injection Hl as ->. injection Hi as ->.
  exists leaf_der, leaf, issuer_der, issuer, others, roots, root, rest, rest'.
  split_and!; try done. by apply (validity_bound now).
Qed.
End Validation.
