(* ===== verification/Agent.v ===== *)
(** * Agent

    The enrollment coordinator of the agent (crates/dlp-agent-core/src/enrollment.rs)
    over a transport and a credential store given as classes, the two
    implementations the service gives it (the HTTP client of client.rs and the DPAPI
    store of crates/dlp-windows-service/src/credential.rs), and health snapshots
    (health.rs). *)

From S2P Require Import Prelude Bytes Text Effects Fs Protocol ConfigCache Credential Tls Client.

(** ** Enrollment *)

Inductive EnrollmentMode := Initial | Replacement | Existing.
#[export] Instance EnrollmentMode_eq_dec : EqDecision EnrollmentMode.
Proof. solve_decision. Defined.

Inductive AgentEnrollmentError :=
| CredentialUnavailable
| TransportDenied
| CsrGeneration
| ResponseInvalid
| ResponseProfileRejected.
#[export] Instance AgentEnrollmentError_eq_dec : EqDecision AgentEnrollmentError.
Proof. solve_decision. Defined.

(** [From<ClientError>]. *)
Definition from_client_error (e : ClientError) : AgentEnrollmentError :=
  match e with
  | InvalidServerUrl | InvalidTrustAnchor | TlsConfiguration | NetworkUnavailable
  | RequestDenied | ConfigurationFetchFailed => TransportDenied
  | InvalidResponse => ResponseInvalid
  | ProfileRejected => ResponseProfileRejected
  | MissingDeviceCredential => CredentialUnavailable
  end.

Record EnrollmentCredential := mkEnrollmentCredential {
  en_device_id : bytes;
  en_private_key : bytes;
  en_certificate_chain : bytes;
  en_serial : bytes;
  en_expires_after_days : N;
}.

Definition EnrollmentCredential_new (device_id private_key certificate_chain serial : bytes)
    (expires_after_days : N) : result AgentEnrollmentError EnrollmentCredential :=
  if bool_decide (device_id = []) || bool_decide (private_key = []) || bool_decide (certificate_chain = [])
     || bool_decide (serial = []) || negb (expires_after_days =? 30)
  then Err ResponseInvalid
  else Ok (mkEnrollmentCredential device_id private_key certificate_chain serial expires_after_days).

Abbreviation enrollment_m S := (M S AgentEnrollmentError).

(** The trait [EnrollmentTransport]; the state is the network's and the store's. *)
Class EnrollmentTransport (S : Type) := transport_enroll :
  EnrollmentRequestV1 -> bytes -> option bytes -> enrollment_m S ValidatedDeviceIdentity.

(** The trait [EnrollmentCredentialStore]. *)
Class EnrollmentCredentialStore (S : Type) := {
  load_credential : S -> result AgentEnrollmentError EnrollmentCredential;
  save_credential : EnrollmentCredential -> enrollment_m S unit;
}.

Section Coordinator.
Context {S : Type} `{EnrollmentTransport S} `{EnrollmentCredentialStore S}.

(** The generated key pair is an argument: the private key and the request for a
    certificate in PEM, or a failure to make them. *)
Definition enroll_fresh (generated : option (bytes * bytes)) (device_id token : bytes)
    (prior_serial : option bytes) : enrollment_m S ValidatedDeviceIdentity :=
  '(private_key, csr) ← lift (ok_or CsrGeneration generated);
  request ← lift (map_err (fun _ => TransportDenied) (EnrollmentRequestV1_new 1 device_id token));
  identity ← transport_enroll request csr prior_serial;
  credential ← lift (EnrollmentCredential_new (vi_device_id identity) private_key
                       (vi_certificate_chain_pem identity) (vi_serial identity) 30);
  _ ← save_credential credential;
  mret identity.

Definition coordinator_startup (generated : option (bytes * bytes)) (device_id token : bytes)
    (prior_serial : option bytes) : enrollment_m S EnrollmentMode :=
  loaded ← gets load_credential;
  if is_ok loaded then mret Existing
  else
    let mode := match prior_serial with Some _ => Replacement | None => Initial end in
    _ ← enroll_fresh generated device_id token prior_serial;
    mret mode.
End Coordinator.

(** ** The ports of the service *)

(** The disk of the endpoint and the network. *)
Record Endpoint (S : Type) := mkEndpoint { ep_world : World; ep_net : S }.
Arguments mkEndpoint {S} _ _.
Arguments ep_world {S} _.
Arguments ep_net {S} _.

(** A computation on the network alone, and on the disk alone. *)
Definition on_net {S E F A} (f : E -> F) (m : M S E A) : M (Endpoint S) F A := fun p =>
  let '(r, s') := m (ep_net p) in (map_err f r, mkEndpoint (ep_world p) s').
Definition on_disk {S E F A} (f : E -> F) (m : M World E A) : M (Endpoint S) F A := fun p =>
  let '(r, w') := m (ep_world p) in (map_err f r, mkEndpoint w' (ep_net p)).

Section Ports.
Context {S : Type} `{HttpClient S} `{Certificates} `{Custody} (now : Z) (client : AgentHttpClient) (dir : fspath).

Definition client_transport : EnrollmentTransport (Endpoint S) := fun request csr_pem prior_serial =>
  on_net from_client_error
    (post_enrollment now client (er_device_id request) (er_enrollment_token request) csr_pem prior_serial).

(** The private key of a [DeviceCredential] becomes the credential's; its chain is
    read as text. *)
Definition dpapi_load_credential (d : Disk) : result AgentEnrollmentError EnrollmentCredential :=
  c ← map_err (fun _ => CredentialUnavailable) (load dir d);
  map_err (fun _ => CredentialUnavailable)
    (EnrollmentCredential_new (dc_device_id c) (dc_private_key c) (utf8_lossy (dc_certificate_chain c))
       (dc_serial c) (dc_expires_after_days c)).

Definition dpapi_save_credential (c : EnrollmentCredential) : enrollment_m (Endpoint S) unit :=
  device ← lift (map_err (fun _ => ResponseInvalid)
    (DeviceCredential_new (en_device_id c) (en_private_key c) (en_certificate_chain c) (en_serial c)
       (en_expires_after_days c)));
  on_disk (fun _ => CredentialUnavailable) (protect dir device).

Definition dpapi_store : EnrollmentCredentialStore (Endpoint S) := {|
  load_credential p := dpapi_load_credential (w_disk (ep_world p));
  save_credential := dpapi_save_credential;
|}.
End Ports.

(** ** Health *)

Inductive RedactedDiagnostic :=
| EnrollmentDeniedDiagnostic
| CredentialUnavailableDiagnostic
| ConfigurationRejectedDiagnostic
| NetworkUnavailableDiagnostic
| CacheCorruptDiagnostic
| SessionHostLaunchFailedDiagnostic
| DriveMountFailedDiagnostic
| DriveLetterUnavailableDiagnostic
| SessionDrainTimeoutDiagnostic
| StoreRecoveryFailedDiagnostic.

Definition diagnostic_code (d : RedactedDiagnostic) : bytes :=
  match d with
  | EnrollmentDeniedDiagnostic => lit "enrollment_denied"
  | CredentialUnavailableDiagnostic => lit "credential_unavailable"
  | ConfigurationRejectedDiagnostic => lit "configuration_rejected"
  | NetworkUnavailableDiagnostic => lit "network_unavailable"
  | CacheCorruptDiagnostic => lit "cache_corrupt"
  | SessionHostLaunchFailedDiagnostic => lit "session_host_launch_failed"
  | DriveMountFailedDiagnostic => lit "drive_mount_failed"
  | DriveLetterUnavailableDiagnostic => lit "drive_letter_unavailable"
  | SessionDrainTimeoutDiagnostic => lit "session_drain_timeout"
  | StoreRecoveryFailedDiagnostic => lit "store_recovery_failed"
  end.

Record HealthSnapshot := mkSnapshot {
  hs_agent_version : bytes;
  hs_service_state : bytes;
  hs_config_state : bytes;
  hs_drive_state : bytes;
  hs_active_bundle_version : option bytes;
  hs_last_successful_contact : option N;
  hs_diagnostic : option RedactedDiagnostic;
}.

Definition not_mounted (agent_version : bytes) : HealthSnapshot :=
  mkSnapshot agent_version (lit "running") (lit "unconfigured") (lit "not_mounted") None None None.

Definition with_diagnostic (diagnostic : RedactedDiagnostic) (s : HealthSnapshot) : HealthSnapshot :=
  mkSnapshot (hs_agent_version s) (hs_service_state s) (hs_config_state s) (hs_drive_state s)
    (hs_active_bundle_version s) (hs_last_successful_contact s) (Some diagnostic).

(** [HealthSnapshot::from_cache] on the cache at [root]. *)
Definition from_cache (agent_version service_state drive_state : bytes) (root : fspath) (d : Disk)
    (last_successful_contact : option N) (diagnostic : option RedactedDiagnostic) : HealthSnapshot :=
  let '(config_state, active_bundle_version) :=
    match read_pointers root d with
    | Ok p => (match cp_current_version p with Some _ => lit "active" | None => lit "unconfigured" end,
               dec <$> cp_current_version p)
    | Err CacheCorruptPointer | Err CacheMissingBundle => (lit "corrupt", None)
    | Err _ => (lit "error", None)
    end in
  mkSnapshot agent_version service_state config_state drive_state active_bundle_version
    last_successful_contact diagnostic.

(** ** What enrollment leaves on the endpoint *)

Section Enrolled.
Context {S : Type} `{HttpClient S} `{Certificates} `{Custody} (Hlaws : CustodyLaws _).
Context (now : Z) (client : AgentHttpClient) (dir : fspath).
Hypothesis acl_dir : validate_acl dir = true.
Hypothesis acl_path : validate_acl (credential_path dir) = true.
(** A string of a JSON text is valid UTF-8. *)
Hypothesis chain_text : forall text chain, response_chain text = Some chain -> utf8_valid chain = true.

#[local] Instance the_transport : EnrollmentTransport (Endpoint S) := client_transport now client.
#[local] Instance the_store : EnrollmentCredentialStore (Endpoint S) := dpapi_store dir.

Lemma post_enrollment_Ok d token csr prior s identity s' :
  post_enrollment now client d token csr prior s = (Ok identity, s') ->
  utf8_valid (vi_certificate_chain_pem identity) = true /\
  validate_device_chain now d (vi_certificate_chain_pem identity) (hc_root_pem client) = Ok identity.
Proof.
  intros (c & response & text & chain & _ & _ & _ & Hc & Hv)%post_enrollment_sent. pose proof Hv as Hid.
  apply validate_device_chain_Ok in Hid as (? & ? & ? & ? & ? & ? & _ & _ & _ & _ & _ & _ & _ & _ & ->).
  split; [by eapply chain_text|done].
Qed.

Lemma EnrollmentCredential_new_Ok d k ch s days c :
  EnrollmentCredential_new d k ch s days = Ok c <->
  c = mkEnrollmentCredential d k ch s days /\ d <> [] /\ k <> [] /\ ch <> [] /\ s <> [] /\ days = 30.
Proof.
  unfold EnrollmentCredential_new.
  repeat case_bool_decide; simpl; try (split; [done|]; by intros (_ & ? & ? & ? & ? & _)).
  destruct (N.eqb_spec days 30); simpl; split; try done.
  - by intros <-%Ok_inj.
  - by intros (-> & _).
  - by intros (_ & _ & _ & _ & _ & ?).
Qed.

(** What the store saved is what it loads. *)
Lemma saved_loads d k ch s p p' c :
  utf8_valid ch = true -> EnrollmentCredential_new d k ch s 30 = Ok c ->
  save_credential c p = (Ok tt, p') -> load_credential p' = Ok c.
Proof.
  intros Hu Hnew. pose proof Hnew as (-> & Hd & Hk & Hch & Hs & _)%EnrollmentCredential_new_Ok.
  cbn. unfold dpapi_save_credential. intros (device & p1 & Hdev & Hrun)%bind_Ok.
  injection Hdev as Hdev <-. cbn in Hdev.
  destruct (DeviceCredential_new d k ch s 30) as [dc|] eqn:Hdc; [|done]. injection Hdev as ->.
  apply credential_new_Ok in Hdc as (-> & _). unfold on_disk in Hrun.
  destruct (protect dir _ (ep_world p)) as [[[]|e] w'] eqn:Hp; [|done]. injection Hrun as <-. cbn.
  destruct (protect_decodes Hlaws dir _ _ _ (eq_refl : dc_expires_after_days (mkCredential d k ch s 30) = 30) Hp)
    as (b & Hex & Hr & Hun & Hdec).
  assert (Hload : load dir (w_disk w') = Ok (mkCredential d k ch s 30)).
  { unfold load, mbind, result_bind. rewrite Hex, acl_dir, acl_path, Hr. cbn [negb map_err].
    by rewrite Hun. }
  unfold dpapi_load_credential. rewrite Hload. cbn. by rewrite utf8_lossy_valid, Hnew.
Qed.

Lemma keeps_on_disk {E F A} (f : E -> F) (m : M World E A) : keeps (S := Endpoint S) ep_net (on_disk f m).
Proof. intros p. unfold on_disk. by destruct (m (ep_world p)). Qed.

(** A run of the coordinator that reported an enrollment: nothing was loaded, one
    exchange with the server returned the identity, and the store loads the
    credential made of it. *)
Lemma enrollment_run generated d token prior p mode p' :
  coordinator_startup generated d token prior p = (Ok mode, p') ->
  (mode = Existing /\ p' = p /\ is_ok (load_credential p) = true) \/
  mode = (match prior with Some _ => Replacement | None => Initial end) /\
  is_ok (load_credential p) = false /\ exists key csr identity,
    generated = Some (key, csr) /\
    post_enrollment now client d token csr prior (ep_net p) = (Ok identity, ep_net p') /\
    load_credential p' = Ok (mkEnrollmentCredential d key (vi_certificate_chain_pem identity)
                               (vi_serial identity) 30).
Proof.
  unfold coordinator_startup. unfold mbind at 1, M_bind at 1, gets.
  destruct (is_ok (load_credential p)) eqn:Hl; [intros [= <- <-]; by left|].
  intros (identity & p1 & Hrun & [= <- <-])%bind_Ok. right. split; [done|]. split; [done|].
  unfold enroll_fresh in Hrun. apply bind_Ok in Hrun as ([key csr] & p2 & Hg & Hrun).
  injection Hg as Hg%ok_or_Ok <-. apply bind_Ok in Hrun as (request & p3 & Hreq & Hrun). injection Hreq as Hreq <-.
  apply bind_Ok in Hrun as (identity' & p4 & Hsend & Hrun).
  apply bind_Ok in Hrun as (credential & p5 & Hnew & Hrun). injection Hnew as Hnew <-.
  apply bind_Ok in Hrun as ([] & p6 & Hsave & [= <- <-]).
  unfold transport_enroll, the_transport, client_transport, on_net in Hsend.
  assert (er_device_id request = d /\ er_enrollment_token request = token) as [Hdev Htok].
  { unfold EnrollmentRequestV1_new in Hreq. repeat (destruct (require_v1 _ _) || destruct (require_nonempty _ _));
      cbn in Hreq; try done. by injection Hreq as <-. }
  rewrite Hdev, Htok in Hsend.
  destruct (post_enrollment _ _ _ _ _ _ _) as [[ident|e] s1] eqn:Hpost; [|done].
  injection Hsend as -> <-. exists key, csr, identity'. split; [done|].
  assert (Hnet : ep_net p6 = s1).
  { assert (Hk : keeps ep_net (save_credential credential)).
    { apply (keeps_bind ep_net); [apply keeps_lift|intros; apply keeps_on_disk]. }
    specialize (Hk (mkEndpoint (ep_world p) s1)). by rewrite Hsave in Hk. }
  rewrite Hnet. split; [done|]. apply post_enrollment_Ok in Hpost as [Hu Hv].
  pose proof Hnew as (-> & _)%EnrollmentCredential_new_Ok.
  pose proof Hv as (? & ? & ? & ? & ? & ? & _ & _ & _ & _ & _ & _ & _ & _ & Hid)%validate_device_chain_Ok.
  assert (Hdid : vi_device_id identity' = d) by by rewrite Hid. rewrite Hdid in *.
  by eapply saved_loads.
Qed.

(** When the coordinator reports an enrollment, the credential store loads a
    credential for this device with the private key that was generated and the very
    chain that passed validation against the pinned root; when it reports an
    existing credential, nothing was sent and nothing changed. *)
Theorem enrollment_stored generated d token prior p mode p' :
  coordinator_startup generated d token prior p = (Ok mode, p') ->
  match mode with
  | Existing => p' = p /\ is_ok (load_credential p) = true
  | _ => is_ok (load_credential p) = false /\ exists key csr identity,
      generated = Some (key, csr) /\
      validate_device_chain now d (vi_certificate_chain_pem identity) (hc_root_pem client) = Ok identity /\
      load_credential p' = Ok (mkEnrollmentCredential d key (vi_certificate_chain_pem identity)
                                 (vi_serial identity) 30)
  end.
Proof.
  intros [(-> & Hrun)|(Hm & Hl & key & csr & identity & Hg & Hpost & Hload)]%enrollment_run; [done|].
  apply post_enrollment_Ok in Hpost as [_ Hv].
  destruct mode; [split; [done|by exists key, csr, identity]..|by destruct prior].
Qed.

Lemma enroll_fresh_net key csr d token prior p :
  ep_net (snd (enroll_fresh (Some (key, csr)) d token prior p)) =
  match EnrollmentRequestV1_new 1 d token with
  | Ok request => ep_net (snd (transport_enroll request csr prior p))
  | Err _ => ep_net p
  end.
Proof.
  unfold enroll_fresh. rewrite bind_lift. cbn [ok_or]. rewrite bind_lift.
  destruct (EnrollmentRequestV1_new 1 d token) as [request|]; cbn [map_err]; [|done].
  unfold mbind at 1, M_bind at 1. destruct (transport_enroll request csr prior p) as [[identity|e] p1]; [|done].
  cbn [snd]. apply (keeps_bind ep_net); [apply keeps_lift|]. intros credential.
  apply (keeps_bind ep_net); [|intros; apply keeps_ret].
  apply (keeps_bind ep_net); [apply keeps_lift|]. intros device. apply keeps_on_disk.
Qed.

(** C25.  The private key of the endpoint stays on it: what enrollment sends over
    the network is the same whatever the private key is, for one and the same
    certificate request. *)
Theorem private_key_not_sent key1 key2 csr d token prior p :
  ep_net (snd (coordinator_startup (Some (key1, csr)) d token prior p)) =
  ep_net (snd (coordinator_startup (Some (key2, csr)) d token prior p)).
Proof.
  assert (Hnet : forall key, is_ok (load_credential p) = false ->
    ep_net (snd (coordinator_startup (Some (key, csr)) d token prior p)) =
    ep_net (snd (enroll_fresh (Some (key, csr)) d token prior p))).
  { intros key Hl. unfold coordinator_startup. unfold mbind at 1, M_bind at 1, gets. rewrite Hl.
    unfold mbind, M_bind. by destruct (enroll_fresh _ _ _ _ p) as [[] ?]. }
  destruct (is_ok (load_credential p)) eqn:Hl; [|by rewrite !Hnet, !enroll_fresh_net].
  unfold coordinator_startup, mbind, M_bind, gets. by rewrite Hl.
Qed.
End Enrolled.
