(* ===== verification/Issuance.v ===== *)
(** * Issuance

    What the server issues and what the agent accepts: the documented behaviour of
    the certificate crates as laws of the classes [Certificates] and [Rcgen], and
    the composition of [issue_from_csr] (crates/dlp-server/src/pki.rs) with
    [validate_device_chain] (crates/dlp-agent-core/src/client.rs). *)

From S2P Require Import Prelude Bytes Text Calendar Tls Enrollment Client.

(** The contents of a DER INTEGER for an unsigned big-endian number: no leading
    zero bytes but the one that keeps the number positive. *)
Fixpoint strip_zeros (b : bytes) : bytes :=
  match b with
  | x00 :: ((_ :: _) as rest) => strip_zeros rest
  | _ => b
  end.

Definition der_integer (b : bytes) : bytes :=
  match strip_zeros b with
  | x :: rest => if 128 <=? Byte.to_N x then x00 :: x :: rest else x :: rest
  | [] => []
  end.

Lemma der_integer_cons x b :
  0 < Byte.to_N x -> der_integer (x :: b) = if 128 <=? Byte.to_N x then x00 :: x :: b else x :: b.
Proof. intros Hx. unfold der_integer. by replace (strip_zeros (x :: b)) with (x :: b) by (by destruct x). Qed.

Lemma der_integer_nonempty b : b <> [] -> der_integer b <> [].
Proof.
  intros Hb. unfold der_integer. assert (Hs : strip_zeros b <> []).
  { induction b as [|x b IH]; [done|]. destruct b as [|y b]; [by destruct x|].
    destruct x; try done. by apply IH. }
  destruct (strip_zeros b); [done|]. by destruct (128 <=? _).
Qed.

(** A date stands for midnight UTC of its day. *)
Definition midnight (date : Z * Z * Z) : Z := (86400 * day_number date)%Z.

(** The leaf of a signed certificate has what its parameters ask for. *)
Record leaf_of (params : CertificateParams) (leaf : Certificate) : Prop := {
  lo_is_ca : ct_is_ca leaf = cp_is_ca params;
  lo_not_before : ct_not_before leaf = midnight (cp_not_before params);
  lo_not_after : ct_not_after leaf = midnight (cp_not_after params);
  lo_digital_signature : ct_digital_signature leaf = Ok (Some (cp_digital_signature params));
  lo_client_auth : ct_client_auth leaf = Ok (Some (cp_client_auth params));
  lo_names : ct_alternative_names leaf = Ok (Some [UriName (cp_uri params)]);
  lo_serial : ct_raw_serial leaf = der_integer (cp_serial params);
}.

(** Crate rcgen signs its parameters into one certificate, named after the issuing
    certificate and, when the key is that certificate's, verified by it; the
    certificates of two PEM texts on separate lines are those of the one and the
    other. *)
Class IssuanceLaws `{Certificates} `{Rcgen} := {
  public_key_of : bytes -> bytes;
  signed_leaf params ca pem : signed_by params ca = Some pem ->
    contains (lit "BEGIN CERTIFICATE") pem = true /\
    exists der leaf, pem_certificates pem = Some [der] /\
      parse_x509_certificate der = Some ([], leaf) /\ leaf_of params leaf;
  signed_issuer params ca_pem key ca pem der leaf ca_der rest remainder issuer :
    issuer_from_ca_pem ca_pem key = Some ca -> signed_by params ca = Some pem ->
    pem_certificates pem = Some [der] -> parse_x509_certificate der = Some ([], leaf) ->
    pem_certificates ca_pem = Some (ca_der :: rest) ->
    parse_x509_certificate ca_der = Some (remainder, issuer) ->
    ct_issuer leaf = ct_subject issuer /\
    (public_key_of key = ct_public_key issuer -> verify_signature (ct_public_key issuer) der = true);
  pem_concat a b x y : pem_certificates a = Some x -> pem_certificates b = Some y ->
    pem_certificates (a ++ [x0a] ++ b) = Some (x ++ y);
}.

(** ** An issued chain at the agent *)

(** What the files of the issuer hold: a self-signed CA with the key that signs, and
    a root text with certificates. *)
Record issuing_material `{IssuanceLaws} (h : Host) (issuer : RcgenDeviceCertificateIssuer)
    (ca_certs root_certs : list bytes) : Prop := {
  im_root : (read_text h (ri_root_certificate_path issuer) ≫= pem_certificates) = Some root_certs;
  im_ca : (read_text h (ri_issuing_certificate_path issuer) ≫= pem_certificates) = Some ca_certs;
  im_key : exists key ca_der remainder ca,
    (read_text h (ri_issuing_key_path issuer) ≫= key_pair_from_pem) = Some key /\
    head ca_certs = Some ca_der /\ parse_x509_certificate ca_der = Some (remainder, ca) /\
    ct_is_ca ca = true /\ public_key_of key = ct_public_key ca /\
    verify_signature (ct_public_key ca) ca_der = true;
}.

Section Acceptance.
Context `{IssuanceLaws}.

Lemma issue_from_csr_Ok h issuer clock d csr s issued :
  issue_from_csr h issuer clock d csr s = Ok issued ->
  s <> [] /\ is_serial issued = s /\ exists request root ca_pem key_pem key ca pem,
    read_text h (ri_root_certificate_path issuer) = Some root /\
    read_text h (ri_issuing_certificate_path issuer) = Some ca_pem /\
    read_text h (ri_issuing_key_path issuer) = Some key_pem /\
    key_pair_from_pem key_pem = Some key /\ issuer_from_ca_pem ca_pem key = Some ca /\
    signed_by (leaf_params clock request (device_uri_prefix ++ d) s) ca = Some pem /\
    is_certificate_chain_pem issued = pem ++ [x0a] ++ ca_pem ++ [x0a] ++ root.
Proof.
  unfold issue_from_csr. intros Hi.
  destruct (bool_decide_reflect (d = [])), (bool_decide_reflect (s = [])); cbn [orb] in Hi; try done.
  destruct (20 <? len s); [done|].
  apply result_bind_Ok in Hi as ([p256 request] & _ & Hi). destruct (negb p256); [done|].
  apply result_bind_Ok in Hi as (root & Hroot%ok_or_Ok & Hi).
  apply result_bind_Ok in Hi as (ca_pem & Hca%ok_or_Ok & Hi).
  apply result_bind_Ok in Hi as (key_pem & Hkp%ok_or_Ok & Hi).
  destruct (_ || _) in Hi; [done|].
  apply result_bind_Ok in Hi as (key & Hkey%ok_or_Ok & Hi).
  apply result_bind_Ok in Hi as (ca & Hiss%ok_or_Ok & Hi).
  cbv zeta in Hi. destruct (negb _) in Hi; [done|].
  apply result_bind_Ok in Hi as (pem & Hsig%ok_or_Ok & Hi). injection Hi as <-.
  split; [done|]. split; [done|]. by exists request, root, ca_pem, key_pem, key, ca, pem.
Qed.

(** The seconds of validity of a certificate dated by two readings of the clock. *)
Lemma issued_validity request uri s (t1 t2 : N) :
  (Z.of_N t1 < 86400 * 10 ^ 9)%Z -> (Z.of_N t2 < 86400 * 10 ^ 9)%Z ->
  midnight (cp_not_before (leaf_params (Z.of_N t1, Z.of_N t2) request uri s))
    = (86400 * Z.of_N (t1 / 86400))%Z /\
  midnight (cp_not_after (leaf_params (Z.of_N t1, Z.of_N t2) request uri s))
    = (86400 * Z.of_N (t2 / 86400 + 30))%Z.
Proof.
  intros Ht1 Ht2. unfold midnight. cbn [cp_not_before cp_not_after leaf_params fst snd].
  change 0%Z with (Z.of_N 0). change 30%Z with (Z.of_N 30).
  rewrite !utc_date_civil, !civil_calendar, !day_number_iter by (done || (apply days_bound; lia)).
  by rewrite N.add_0_r.
Qed.

(** The leaf alone: the agent refuses a validity of more than 30 days. *)
Lemma check_issued_leaf now params leaf (t1 t2 : N) d request s :
  (Z.of_N t1 < 86400 * 10 ^ 9)%Z -> (Z.of_N t2 < 86400 * 10 ^ 9)%Z -> s <> [] ->
  params = leaf_params (Z.of_N t1, Z.of_N t2) request (device_uri_prefix ++ d) s -> leaf_of params leaf ->
  is_valid now leaf = true ->
  epoch_u64 (ct_not_after leaf) = 86400 * (t2 / 86400 + 30) /\
  check_leaf now d leaf = if t2 / 86400 <=? t1 / 86400 then Ok tt else Err ProfileRejected.
Proof.
  intros Ht1 Ht2 Hs -> [Hca Hnb Hna Hku Hek Hnames Hser] Hv.
  destruct (issued_validity request (device_uri_prefix ++ d) s t1 t2 Ht1 Ht2) as [E1 E2].
  rewrite E1 in Hnb. rewrite E2 in Hna.
  assert (Hb : forall n : N, (n <= 2 * 10 ^ 9)%N -> epoch_u64 (86400 * Z.of_N n) = 86400 * n).
  { intros n Hn. unfold epoch_u64. rewrite Z.mod_small; lia. }
  pose proof (days_bound t1 0 Ht1 ltac:(lia)). pose proof (days_bound t2 30 Ht2 ltac:(lia)).
  rewrite Hna, Hb by done. split; [done|].
  unfold check_leaf. rewrite Hca, Hv, Hku, Hek, Hnames. cbn.
  rewrite bool_decide_eq_true_2 by done. cbn. rewrite Hser, bool_decide_eq_false_2 by by apply der_integer_nonempty.
  rewrite Hna, Hnb, !Hb by lia. unfold EXPECTED_SECONDS.
  destruct (N.leb_spec (t2 / 86400) (t1 / 86400)), (N.ltb_spec (30 * 24 * 60 * 60)
    (86400 * (t2 / 86400 + 30) - 86400 * (t1 / 86400))); try done; lia.
Qed.

(** C24.  What the server issues, the agent accepts: given issuing files that hold a
    self-signed CA with its own key, a root the agent pins and an agent clock within
    the validity, the chain of [issue_from_csr] passes [validate_device_chain] for
    the device, and the identity has the DER form of the serial, if the two readings
    of the server's clock that date the certificate are on one day.  If midnight UTC
    passes between them the certificate is valid for 31 days and the agent refuses
    it. *)
Theorem issued_chain_accepted h issuer (t1 t2 : N) d csr s issued ca_certs root_certs
    now trusted roots root :
  issuing_material h issuer ca_certs root_certs ->
  issue_from_csr h issuer (Z.of_N t1, Z.of_N t2) d csr s = Ok issued ->
  (Z.of_N t1 < 86400 * 10 ^ 9)%Z -> (Z.of_N t2 < 86400 * 10 ^ 9)%Z ->
  len (is_certificate_chain_pem issued) <= MAX_BODY_BYTES ->
  pem_certificates trusted = Some roots -> root ∈ root_certs -> root ∈ roots ->
  (86400 * Z.of_N (t1 / 86400) <= now <= 86400 * Z.of_N (t2 / 86400 + 30))%Z ->
  validate_device_chain now d (is_certificate_chain_pem issued) trusted =
    if t2 / 86400 <=? t1 / 86400
    then Ok (mkIdentity d (is_certificate_chain_pem issued) (der_integer s) (86400 * (t2 / 86400 + 30)))
    else Err ProfileRejected.
Proof.
  intros [Hroot Hca (key & ca_der & remainder & ca & Hkey & Hhead & Hparse & Hisca & Hpub & Hself)]
    Hi Ht1 Ht2 Hlen Htrusted Hr1 Hr2 Hnow.
  apply issue_from_csr_Ok in Hi as (Hs & _ & request & root_pem & ca_pem & key_pem & key' & ca' & pem &
    Er & Ec & Ek & Hkp & Hiss & Hsig & Hchain).
  rewrite Er in Hroot. rewrite Ec in Hca. rewrite Ek in Hkey. cbn in Hroot, Hca, Hkey.
  rewrite Hkp in Hkey. injection Hkey as ->. destruct ca_certs as [|x rest]; [done|]. injection Hhead as ->.
  destruct (signed_leaf _ _ _ Hsig) as (Hbegin & der & leaf & Hpem & Hleaf & Hof).
  destruct (signed_issuer _ _ _ _ _ _ _ _ _ _ _ Hiss Hsig Hpem Hleaf Hca Hparse) as [Hname Hverify].
  specialize (Hverify Hpub). destruct (issued_validity request (device_uri_prefix ++ d) s t1 t2 Ht1 Ht2) as [E1 E2].
  assert (Hv : is_valid now leaf = true).
  { unfold is_valid. rewrite (lo_not_before _ _ Hof), (lo_not_after _ _ Hof), E1, E2.
    apply andb_true_iff. rewrite !Z.leb_le. lia. }
  destruct (check_issued_leaf now _ leaf t1 t2 d request s Ht1 Ht2 Hs eq_refl Hof Hv) as [Hexp Hleaf_ok].
  unfold validate_device_chain. rewrite Hchain in *.
  destruct (N.ltb_spec MAX_BODY_BYTES (len (pem ++ [x0a] ++ ca_pem ++ [x0a] ++ root_pem))); [lia|].
  rewrite (contains_app_l _ _ _ Hbegin). cbn [negb orb].
  rewrite (pem_concat _ _ _ _ Hpem (pem_concat _ _ _ _ Hca Hroot)). cbn -[check_leaf check_issuer].
  rewrite Hleaf. cbn -[check_leaf check_issuer]. rewrite Hleaf_ok, Htrusted.
  destruct (t2 / 86400 <=? t1 / 86400); [|done]. cbn -[check_issuer].
  rewrite bool_decide_eq_false_2 by (intros ->; by apply not_elem_of_nil in Hr2).
  unfold check_issuer. cbn. rewrite Hparse. cbn. rewrite Hisca, Hname, bool_decide_eq_true_2 by done. cbn.
  rewrite Hverify, Hself. cbn.
  rewrite (proj2 (existsb_exists _ (rest ++ root_certs))), Hexp, (lo_serial _ _ Hof); [done|].
  exists root. split; [apply list_elem_of_In, elem_of_app; by right|by apply bool_decide_eq_true].
Qed.
End Acceptance.

(** ** A concrete certificate authority *)

(** Certificates as texts: a certificate is a line with a header and the parameters
    it was signed with, written as bits; any other line with the header is a CA. *)
Module Certs.
Definition to_tuple (p : CertificateParams) :=
  (cp_request p, cp_is_ca p, cp_digital_signature p, cp_client_auth p, cp_uri p, cp_serial p,
   cp_not_before p, cp_not_after p).
Definition of_tuple (t : bytes * bool * bool * bool * bytes * bytes * (Z * Z * Z) * (Z * Z * Z)) :
    CertificateParams :=
  let '(r, a, b, c, u, s, n, m) := t in mkParams r a b c u s n m.

#[export] Instance params_eq_dec : EqDecision CertificateParams.
Proof. solve_decision. Defined.
#[export] Instance byte_countable : Countable byte.
Proof.
  refine (inj_countable Byte.to_N Byte.of_N _). intros x. apply Byte.of_to_N.
Defined.
#[export] Instance params_countable : Countable CertificateParams.
Proof. refine (inj_countable' to_tuple of_tuple _). by intros []. Defined.

Fixpoint write_bits (p : positive) : bytes :=
  match p with xH => [x32] | xO q => x30 :: write_bits q | xI q => x31 :: write_bits q end.
Fixpoint read_bits (s : bytes) : option positive :=
  match s with
  | [x32] => Some xH
  | x30 :: s' => xO <$> read_bits s'
  | x31 :: s' => xI <$> read_bits s'
  | _ => None
  end.

Lemma read_write_bits p : read_bits (write_bits p) = Some p.
Proof.
  induction p as [p IH|p IH|]; [| |done]; cbn [write_bits].
  - change (xI <$> read_bits (write_bits p) = Some (xI p)). by rewrite IH.
  - change (xO <$> read_bits (write_bits p) = Some (xO p)). by rewrite IH.
Qed.

Lemma write_bits_line p : free_of (Byte.eqb x0a) (write_bits p).
Proof. induction p; cbn [write_bits]; by repeat constructor. Qed.

Definition authority (der : bytes) : Certificate :=
  mkCertificate true 0 (2 ^ 40) (Ok None) (Ok None) (Ok None) (lit "D") (lit "D") [x01] [].

Definition leaf (p : CertificateParams) : Certificate :=
  mkCertificate (cp_is_ca p) (midnight (cp_not_before p)) (midnight (cp_not_after p))
    (Ok (Some (cp_digital_signature p))) (Ok (Some (cp_client_auth p)))
    (Ok (Some [UriName (cp_uri p)])) (lit "D") (lit "D") (der_integer (cp_serial p)) [].

Definition certificate (der : bytes) : Certificate :=
  match (read_bits der ≫= decode) with Some p => leaf p | None => authority der end.

Definition header : bytes := lit "BEGIN CERTIFICATE".

#[export] Instance toy_certificates : Certificates := {|
  parse_x509_certificate der := Some ([], certificate der);
  pem_certificates pem := Some (omap (strip_prefix header) (split_byte x0a pem));
  pem_private_key pem := Some pem;
  root_store_add _ := true;
  client_verifier _ := true;
  single_certificate _ _ := true;
  verify_signature _ _ := true;
|}.

#[export] Instance toy_rcgen : Rcgen := {|
  csr_from_pem pem := Some (true, pem);
  key_pair_from_pem pem := Some pem;
  issuer_from_ca_pem pem key := Some (pem ++ key);
  is_uri_name _ := true;
  signed_by params ca := Some (header ++ write_bits (encode params));
|}.

Lemma certificate_signed p : certificate (write_bits (encode p)) = leaf p.
Proof. unfold certificate. rewrite read_write_bits. cbn. by rewrite decode_encode. Qed.

Lemma certificate_names der : ct_subject (certificate der) = lit "D" /\ ct_issuer (certificate der) = lit "D".
Proof. unfold certificate. by destruct (_ ≫= _). Qed.

#[export] Program Instance toy_issuance : IssuanceLaws := {| public_key_of _ := [] |}.
Next Obligation.
  intros params ca pem Hs. cbn [signed_by toy_rcgen] in Hs. apply (inj Some) in Hs as <-.
  split; [by apply (contains_app_l _ header)|].
  exists (write_bits (encode params)), (leaf params). split; [|split].
  - cbn [pem_certificates toy_certificates]. unfold split_byte. rewrite split_pred_free.
    + cbn [omap list_omap]. by rewrite strip_prefix_app.
    + apply Forall_app. split; [by repeat constructor|apply write_bits_line].
  - cbn. by rewrite certificate_signed.
  - by split.
Qed.
Next Obligation.
  intros params ca_pem key ca pem der l ca_der rest remainder issuer _ _ _ [= <-] _ [= _ <-].
  split; [|done]. rewrite (proj1 (certificate_names ca_der)). apply certificate_names.
Qed.
Next Obligation.
  intros a b x y [= <-] [= <-]. cbn [pem_certificates toy_certificates]. unfold split_byte.
  cbn [app]. rewrite split_pred_at by done. by rewrite omap_app.
Qed.

(** *** Witness: a certificate issued in the afternoon *)

Definition files : list (bytes * bytes) :=
  [(lit "root.pem", header ++ lit "root"); (lit "ca.pem", header ++ lit "ca"); (lit "ca.key", lit "key")].
Definition host : Host :=
  mkHost (fun _ => None) (fun path => snd <$> List.find (fun f => bool_decide (fst f = path)) files).
Definition issuer : RcgenDeviceCertificateIssuer := mkIssuer (lit "root.pem") (lit "ca.pem") (lit "ca.key").
Definition serial : bytes := xc1 :: replicate 15 x05.
Definition issued : IssuedDeviceCredential :=
  match issue_from_csr host issuer (Z.of_N 1700000000, Z.of_N 1700000001) (lit "pc.lab") (lit "csr") serial with
  | Ok i => i
  | Err _ => mkIssued [] [] 0
  end.

Lemma material : issuing_material host issuer [lit "ca"] [lit "root"].
Proof. split; [reflexivity|reflexivity|]. by exists (lit "key"), (lit "ca"), [], (authority (lit "ca")). Qed.

Lemma issued_chain_accepted_witness :
  validate_device_chain 1700003600 (lit "pc.lab") (is_certificate_chain_pem issued) (header ++ lit "root")
  = Ok (mkIdentity (lit "pc.lab") (is_certificate_chain_pem issued) (x00 :: serial) 1702512000).
Proof.
  refine (issued_chain_accepted host issuer 1700000000 1700000001 (lit "pc.lab") (lit "csr") serial issued
    [lit "ca"] [lit "root"] 1700003600 (header ++ lit "root") [lit "root"] (lit "root") material _ _ _ _ _ _ _ _).
  - vm_compute. reflexivity.
  - reflexivity.
  - reflexivity.
  - vm_compute. discriminate.
  - reflexivity.
  - by left.
  - by left.
  - vm_compute. split; discriminate.
Defined.

(** The chain the agent accepts, taken apart. *)
Lemma chain_validated_witness :
  exists leaf_der leaf issuer_der issuer others roots root rest rest',
    pem_certificates (is_certificate_chain_pem issued) = Some (leaf_der :: issuer_der :: others) /\
    parse_x509_certificate leaf_der = Some (rest, leaf) /\
    parse_x509_certificate issuer_der = Some (rest', issuer) /\ ct_is_ca leaf = false /\
    pem_certificates (header ++ lit "root") = Some roots /\ root ∈ others /\ root ∈ roots.
Proof.
  destruct (chain_validated 1700003600 (lit "pc.lab") (is_certificate_chain_pem issued) (header ++ lit "root")
    (mkIdentity (lit "pc.lab") (is_certificate_chain_pem issued) (x00 :: serial) 1702512000))
    as (leaf_der & leaf & issuer_der & issuer & others & roots & root & rest & rest' &
        H1 & H2 & H3 & H4 & _ & _ & _ & _ & _ & _ & _ & _ & _ & _ & H5 & H6 & H7 & _).
  - vm_compute. reflexivity.
  - exists leaf_der, leaf, issuer_der, issuer, others, roots, root, rest, rest'.
    exact (conj H1 (conj H2 (conj H3 (conj H4 (conj H5 (conj H6 H7)))))).
Defined.
End Certs.
