(* ===== verification/Service.v ===== *)
(** * Service

    The agent service (crates/dlp-windows-service/src/service.rs): its configuration
    from the environment, its start over the credential store, the cache and the
    client, the loop that polls for configurations and reports health, the thread
    that owns the session monitor, and the statuses it reports to the service
    manager.  The registration with the service manager is Win32; readings of the
    clock, the shutdown signal and the snapshots of the other thread are inputs. *)

From S2P Require Import Prelude Bytes Text Effects Domain Crypto Fs Protocol ConfigCache Session Credential Tls Directory Enrollment Client Agent.

(** ** Configuration *)

Inductive ServiceStartError :=
| ConfigMissing
| ConfigInvalid
| CredentialLoadFailed
| EnrollmentFailed
| CacheLoadFailed
| RuntimeFailed.
#[export] Instance ServiceStartError_eq_dec : EqDecision ServiceStartError.
Proof. solve_decision. Defined.

(** Durations are in milliseconds; a path is the root it names. *)
Record ServiceConfig := mkServiceConfig {
  sf_device_id : bytes;
  sf_server_url : bytes;
  sf_phase1_root_ca_pem : bytes;
  sf_data_directory : bytes;
  sf_cache_directory : bytes;
  sf_enrollment_token : option bytes;
  sf_configuration_key_id : bytes;
  sf_configuration_public_key : bytes;
  sf_poll_interval : N;
  sf_health_interval : N;
  sf_start_timeout : N;
  sf_stop_timeout : N;
}.

Definition credential_store_path (c : ServiceConfig) : fspath := [sf_data_directory c; lit "credentials"].
Definition cache_root_path (c : ServiceConfig) : fspath := [sf_cache_directory c].

Definition decode_to_array (input : bytes) : option bytes :=
  if negb (len input =? 64) then None else hex_pairs input.

Definition parse_duration (h : Host) (key : string) (default_secs : N) : N :=
  1000 * default default_secs (env_var h (lit key) ≫= parse_uint u64_max).

Definition load_service_config (h : Host) : result ServiceStartError ServiceConfig :=
  let required name := ok_or ConfigMissing (env_var h (lit name)) in
  device ← required "DLP_DEVICE_ID";
  device_id ← map_err (fun _ => ConfigInvalid) (DeviceId_parse device);
  server_url ← required "DLP_SERVER_URL";
  root_value ← required "DLP_ROOT_CA_PEM";
  phase1_root_ca_pem ← (if contains (lit "BEGIN CERTIFICATE") root_value then Ok root_value
                        else ok_or ConfigInvalid (read_text h root_value));
  data_directory ← required "DLP_DATA_DIRECTORY";
  cache_directory ← required "DLP_CACHE_DIRECTORY";
  let configuration_key_id :=
    default (lit "phase1-config-signer") (env_var h (lit "DLP_CONFIGURATION_KEY_ID")) in
  key_hex ← required "DLP_CONFIGURATION_PUBLIC_KEY_HEX";
  configuration_public_key ← ok_or ConfigInvalid (decode_to_array key_hex);
  Ok (mkServiceConfig device_id server_url phase1_root_ca_pem data_directory cache_directory
        (env_var h (lit "DLP_AGENT_ENROLLMENT_TOKEN")) configuration_key_id configuration_public_key
        (parse_duration h "DLP_POLL_INTERVAL_SECONDS" 300)
        (parse_duration h "DLP_HEALTH_INTERVAL_SECONDS" 60)
        (parse_duration h "DLP_START_TIMEOUT_SECONDS" 60)
        (parse_duration h "DLP_STOP_TIMEOUT_SECONDS" 10)).

(** [char::to_ascii_uppercase]. *)
Definition char_upper (c : N) : N := if (97 <=? c) && (c <=? 122) then c - 32 else c.

Definition build_session_config (h : Host) (data_directory : bytes) : SessionConfig :=
  mkSessionConfig [data_directory]
    (char_upper (default 80 (env_var h (lit "DLP_PREFERRED_DRIVE_LETTER") ≫= fun v => head (chars v))))
    (default 30 (env_var h (lit "DLP_SIGN_OUT_GRACE_SECONDS") ≫= parse_uint u64_max))
    [default (lit "C:\Program Files\DLP\dlp-drive-host.exe")
       (env_var h (lit "DLP_DRIVE_HOST_BINARY_PATH"))].

(** ** Start *)

Record ServiceContext := mkContext {
  sx_config : ServiceConfig;
  sx_cache : Cache;
  sx_client : AgentHttpClient;
}.

Abbreviation start_service_m S := (M (Endpoint S) ServiceStartError).

Section Startup.
Context {S : Type} `{HttpClient S} `{Certificates} `{Custody}.

(** [ensure_credential]; the key pair and the clock of an enrollment are arguments. *)
Definition ensure_credential (now : Z) (generated : option (bytes * bytes)) (config : ServiceConfig)
    (bootstrap_client : AgentHttpClient) : enrollment_m (Endpoint S) EnrollmentMode :=
  let dir := credential_store_path config in
  p ← gets id;
  let d := w_disk (ep_world p) in
  if (match validate_protection dir d with Ok b => b | Err _ => false end) then mret Existing
  else
    token ← lift (ok_or CredentialUnavailable (sf_enrollment_token config));
    let prior_serial := match load dir d with Ok c => Some (dc_serial c) | Err _ => None end in
    coordinator_startup (H := client_transport now bootstrap_client) (H0 := dpapi_store dir)
      generated (sf_device_id config) token prior_serial.

Definition client_with_identity (dir : fspath) (bootstrap_client : AgentHttpClient) (d : Disk) :
    result AgentEnrollmentError AgentHttpClient :=
  credential ← dpapi_load_credential dir d;
  if negb (utf8_valid (en_private_key credential)) then Err CredentialUnavailable
  else map_err (fun _ => CredentialUnavailable)
         (with_device_identity (en_certificate_chain credential) (en_private_key credential) bootstrap_client).

(** [ServiceContext::startup]. *)
Definition service_startup (now : Z) (generated : option (bytes * bytes)) (config : ServiceConfig) :
    start_service_m S (ServiceContext * EnrollmentMode) :=
  _ ← on_disk (fun _ => CredentialLoadFailed) (fs_create_dir_all (credential_store_path config));
  cache ← on_disk (fun _ => CacheLoadFailed) (cache_open (cache_root_path config) (sf_device_id config));
  p ← gets id;
  _ ← lift (map_err (fun _ => CacheLoadFailed)
              (read_pointers (cache_root_path config) (w_disk (ep_world p))));
  bootstrap_client ← lift (map_err (fun _ => ConfigInvalid)
    (bootstrap (sf_server_url config) (sf_phase1_root_ca_pem config)));
  mode ← with_error (fun _ => EnrollmentFailed) (ensure_credential now generated config bootstrap_client);
  p ← gets id;
  client ← lift (map_err (fun _ => CredentialLoadFailed)
    (client_with_identity (credential_store_path config) bootstrap_client (w_disk (ep_world p))));
  mret (mkContext config (mkCache (ca_root cache) (ca_device_id cache) (ca_generation cache) (ep_world p))
          client, mode).
End Startup.

Inductive ServiceState := ServiceStarting | ServiceRunning | ReplacementEnrollmentRequired | ServiceFailed.

Definition startup_state (has_usable_credential : bool) : ServiceState :=
  if has_usable_credential then ServiceRunning else ReplacementEnrollmentRequired.

(** ** Drive state *)

Definition SessionDiagnostic_code (d : SessionDiagnostic) : bytes :=
  match d with
  | IdentityRejected => lit "session_identity_rejected"
  | KeyUnavailable => lit "session_key_unavailable"
  | PipeAuthFailed => lit "session_pipe_auth_failed"
  | HostLaunchFailed => lit "session_host_launch_failed"
  | MountFailed => lit "session_mount_failed"
  | DrainTimeout => lit "session_drain_timeout"
  | RecoveryFailed => lit "session_recovery_failed"
  end.

Record MountAttempt := mkMountAttempt {
  mt_generation : N;
  mt_session_id : N;
  mt_drive_letter : option bytes;
  mt_diagnostic : option SessionDiagnostic;
}.

(** [char::to_string]. *)
Definition char_to_string (c : N) : bytes :=
  if c <? 128 then [byte_of c]
  else if c <? 2048 then [byte_of (192 + c / 64); byte_of (128 + c mod 64)]
  else if c <? 65536
  then [byte_of (224 + c / 4096); byte_of (128 + c / 64 mod 64); byte_of (128 + c mod 64)]
  else [byte_of (240 + c / 262144); byte_of (128 + c / 4096 mod 64); byte_of (128 + c / 64 mod 64);
        byte_of (128 + c mod 64)].

(** [SessionMonitor::snapshot]; [actors] is the order in which the map yields them. *)
Definition snapshot (actors : list MountActor) : list MountAttempt :=
  map (fun a => mkMountAttempt (se_generation (ma_session a)) (se_session_id (ma_session a))
                  (char_to_string <$> ma_drive_letter a) (ma_diagnostic a)) actors.

Definition mount_text (m : MountAttempt) : bytes :=
  default (lit "-") (mt_drive_letter m) ++ lit ":" ++
  match mt_diagnostic m with Some d => SessionDiagnostic_code d | None => lit "mounted" end.

Definition drive_state (mounts : list MountAttempt) : bytes :=
  match mounts with
  | [] => lit "not_mounted"
  | _ => join (lit ",") (map mount_text mounts)
  end.

(** ** The service loop *)

(** One turn of the loop sees whether shutdown was signalled, two readings of the
    monotonic clock in milliseconds, the epoch seconds and the mount snapshot. *)
Record LoopInput := mkLoopInput {
  li_shutdown : bool;
  li_now_poll : N;
  li_now_health : N;
  li_epoch_seconds : N;
  li_mounts : list MountAttempt;
}.

Record LoopState (S : Type) := mkLoopState {
  lp_cache : Cache;
  lp_net : S;
  lp_last_contact : option N;
  lp_last_poll : N;
  lp_last_health : N;
}.
Arguments mkLoopState {S} _ _ _ _ _.
Arguments lp_cache {S} _.
Arguments lp_net {S} _.
Arguments lp_last_contact {S} _.
Arguments lp_last_poll {S} _.
Arguments lp_last_health {S} _.

(** [Instant::checked_sub] with the instant itself when it is too early. *)
Definition before (now interval : N) : N := if interval <=? now then now - interval else now.

Section Loop.
Context {S : Type} `{HttpClient S} `{Sha256} `{Ed25519} (config : ServiceConfig) (client : AgentHttpClient).
Context (pkg_version : bytes).

Definition poll_and_activate (t : AgentConfigurationTransport) (v : ConfigurationVerifier) (c : Cache) (s : S) :
    result ClientError unit * Cache * S :=
  match poll_configuration client t s with
  | (Err e, s') => (Err e, c, s')
  | (Ok b, s') =>
      let '(r, c') := stage_verify_activate b v c in
      (match r with Ok _ => Ok tt | Err _ => Err ConfigurationFetchFailed end, c', s')
  end.

(** The report of a snapshot; its outcome is ignored. *)
Definition report_snapshot (snapshot : HealthSnapshot) (s : S) : S :=
  snd (client_post_health client (sf_device_id config) (hs_drive_state snapshot) s).

Definition post_health_diagnostic (diagnostic : RedactedDiagnostic) (c : Cache) (s : S) : S :=
  report_snapshot (from_cache pkg_version (lit "running") (lit "not_mounted") (ca_root c) (ca_disk c) None
                     (Some diagnostic)) s.

(** The first half of a turn: the poll, when it is due. *)
Definition poll_turn (transport : option AgentConfigurationTransport) (verifier : option ConfigurationVerifier)
    (i : LoopInput) (st : LoopState S) : LoopState S :=
  if sf_poll_interval config <=? li_now_poll i - lp_last_poll st then
    match transport, verifier with
    | Some t, Some v =>
        match poll_and_activate t v (lp_cache st) (lp_net st) with
        | (Ok _, c', s') => mkLoopState c' s' (Some (li_epoch_seconds i)) (li_now_poll i) (lp_last_health st)
        | (Err _, c', s') =>
            mkLoopState c' (post_health_diagnostic ConfigurationRejectedDiagnostic c' s') (lp_last_contact st)
              (li_now_poll i) (lp_last_health st)
        end
    | _, _ => mkLoopState (lp_cache st) (lp_net st) (lp_last_contact st) (li_now_poll i) (lp_last_health st)
    end
  else st.

(** The second half: the health report, when it is due. *)
Definition health_turn (i : LoopInput) (st : LoopState S) : LoopState S :=
  if sf_health_interval config <=? li_now_health i - lp_last_health st then
    mkLoopState (lp_cache st)
      (report_snapshot (from_cache pkg_version (lit "running") (drive_state (li_mounts i))
         (ca_root (lp_cache st)) (ca_disk (lp_cache st)) (lp_last_contact st) None) (lp_net st))
      (lp_last_contact st) (lp_last_poll st) (li_now_health i)
  else st.

Fixpoint loop_turns (transport : option AgentConfigurationTransport) (verifier : option ConfigurationVerifier)
    (inputs : list LoopInput) (st : LoopState S) : LoopState S :=
  match inputs with
  | [] => st
  | i :: rest =>
      if li_shutdown i then st
      else loop_turns transport verifier rest (health_turn i (poll_turn transport verifier i st))
  end.

Definition configuration_verifier : option ConfigurationVerifier :=
  match from_public_key_bytes (sf_configuration_key_id config) (sf_configuration_public_key config) with
  | Ok v => Some v
  | Err _ => None
  end.

(** [run_service_loop], started at the instant [start]. *)
Definition run_service_loop (start : N) (cache : Cache) (inputs : list LoopInput) (s : S) : LoopState S :=
  let transport := match AgentConfigurationTransport_new client with Ok t => Some t | Err _ => None end in
  loop_turns transport configuration_verifier inputs
    (mkLoopState cache s None (before start (sf_poll_interval config)) (before start (sf_health_interval config))).
End Loop.

(** ** The session thread *)

Inductive SessionEvent := Logon (session_id : N) | Logoff (session_id : N) | StopEvent.

(** What the service manager's controls send to the thread and the loop: a session
    event and whether shutdown is signalled; [None] is a control that is refused. *)
Inductive ServiceControl :=
| ControlStop
| ControlShutdown
| SessionLogon (session_id : N)
| SessionLogoff (session_id : N)
| SessionOther (session_id : N)
| ControlOther.

Definition on_control (c : ServiceControl) : option (option SessionEvent * bool) :=
  match c with
  | ControlStop | ControlShutdown => Some (Some StopEvent, true)
  | SessionLogon id => Some (Some (Logon id), false)
  | SessionLogoff id => Some (Some (Logoff id), false)
  | SessionOther _ => Some (None, false)
  | ControlOther => None
  end.

Section Thread.
Context `{Sha256} `{Providers}.

(** What the thread receives: an event, or nothing within two seconds, when it looks
    at the hosts that exited, in the order the map yields the actors. *)
Inductive ThreadInput :=
| Received (e : SessionEvent)
| TimedOut (exited : N -> bool) (order : list MountActor).

Fixpoint session_thread (inputs : list ThreadInput) (m : Monitor) : Monitor :=
  match inputs with
  | [] => m
  | Received (Logon id) :: rest => session_thread rest (snd (session_logon id m))
  | Received (Logoff id) :: rest => session_thread rest (snd (session_logoff id m))
  | Received StopEvent :: _ => stop_all m
  | TimedOut exited order :: rest => session_thread rest (check_host_health exited order m)
  end.
End Thread.

(** ** The statuses of the service *)

Inductive ScmStatus := StartPending (checkpoint : N) | Running | ScmStopped (exit_code : N).

(** The outcomes of the steps of [service_main] outside this file. *)
Record MainOutcomes := mkMainOutcomes {
  mn_runtime : bool;
  mn_config : result ServiceStartError ServiceConfig;
  mn_startup : ServiceConfig -> result ServiceStartError EnrollmentMode;
  mn_key_provider : bool;
  mn_monitor : bool;
}.

Definition service_main (o : MainOutcomes) : list ScmStatus :=
  [StartPending 0] ++
  if negb (mn_runtime o) then [ScmStopped 1] else
  [StartPending 1] ++
  match mn_config o with
  | Err _ => [ScmStopped 1]
  | Ok config =>
      [StartPending 2] ++
      match mn_startup o config with
      | Err _ => [ScmStopped 1]
      | Ok mode =>
          if negb (mn_key_provider o) then [ScmStopped 1]
          else if negb (mn_monitor o) then [ScmStopped 1]
          else [Running; ScmStopped 0]
      end
  end.

(** ** The start and a damaged credential *)

Section Damaged.
Context {S : Type} `{HttpClient S} `{Certificates} `{Custody}.

Lemma load_Ok dir d c :
  load dir d = Ok c ->
  validate_acl dir = true /\ validate_acl (credential_path dir) = true /\ validate_protection dir d = Ok true.
Proof.
  unfold load, validate_protection. destruct (negb (fs_exists _ _)); [done|].
  destruct (validate_acl dir); [|done]. destruct (validate_acl (credential_path dir)); [|done]. cbn [negb].
  intros (blob & Hb & Hl)%result_bind_Ok. apply result_bind_Ok in Hl as (plain & Hp & Hl).
  split; [done|]. split; [done|]. rewrite Hb. cbn. rewrite Hp. cbn. rewrite Hl. cbn.
  apply credential_codec in Hl as [_ (_ & [Hk _] & _)]. by rewrite bool_decide_eq_false_2.
Qed.

(** The start never replaces a stored credential: it reports a replacement for
    no state of the disk and no answer of the server, and where it enrolls it names
    no prior serial.  A credential that still decodes but whose access list does not
    validate is reported as existing, and then the start fails when it loads it,
    whether or not a token to enroll with was provided. *)
Theorem credential_never_replaced now generated config bootstrap_client p :
  let dir := credential_store_path config in
  (forall r p', ensure_credential now generated config bootstrap_client p = (r, p') ->
     r <> Ok Replacement /\
     (p' = p \/ exists token, sf_enrollment_token config = Some token /\
        (r, p') = coordinator_startup (H := client_transport now bootstrap_client) (H0 := dpapi_store dir)
                    generated (sf_device_id config) token None p)) /\
  (validate_protection dir (w_disk (ep_world p)) = Ok true -> validate_acl (credential_path dir) = false ->
     ensure_credential now generated config bootstrap_client p = (Ok Existing, p) /\
     client_with_identity dir bootstrap_client (w_disk (ep_world p)) = Err CredentialUnavailable).
Proof.
  intros dir. split.
  - intros r p'. unfold ensure_credential. fold dir. unfold mbind at 1, M_bind at 1, gets, id. cbv zeta.
    destruct (validate_protection dir (w_disk (ep_world p))) as [[]|] eqn:Hv;
      [intros [= <- <-]; split; [done|by left]|..];
      (rewrite bind_lift; destruct (sf_enrollment_token config) as [token|]; cbn [ok_or];
        [|intros [= <- <-]; split; [done|by left]]);
      (destruct (load dir (w_disk (ep_world p))) as [c|] eqn:Hl;
        [apply load_Ok in Hl as (_ & _ & Hl); congruence|]);
      intros Hrun; (split; [|right; by exists token]); intros ->;
      unfold coordinator_startup in Hrun; apply bind_Ok in Hrun as (l & q & _ & Hrun);
      (destruct (is_ok l); [done|]); by apply bind_Ok in Hrun as (? & ? & _ & [= ?]).
  - intros Hv Ha. split.
    + unfold ensure_credential. fold dir. unfold mbind at 1, M_bind at 1, gets, id. by rewrite Hv.
    + unfold client_with_identity, dpapi_load_credential.
      destruct (load dir _) as [c|] eqn:Hl; [|done]. apply load_Ok in Hl as (_ & Hl & _). congruence.
Qed.
End Damaged.

(** ** The cache under the service loop *)

Section CacheLoop.
Context {S : Type} `{HttpClient S} `{Sha256} `{Ed25519} (config : ServiceConfig) (client : AgentHttpClient).
Context (pkg_version : bytes) (known : SignedConfigurationV1 -> Prop).

(** The configurations the network delivers are among the known ones, on which
    digests do not collide. *)
Hypothesis known_digests : forall a b, known a -> known b ->
  sc_content_digest a = sc_content_digest b -> sc_envelope a = sc_envelope b.
Hypothesis known_network : forall c url body s resp s' b x,
  send c url body s = (Some resp, s') -> hr_body resp = Some b ->
  deserialize_signed_configuration b = Ok x -> known x.

Definition all_known (S0 : ActiveConfigurationSet) : Prop :=
  forall x, ac_current S0 = Some x \/ ac_last_known_good S0 = Some x -> known x.

(** [S1] has the same current configuration as [S0], or a newer one that the
    verifier accepts and that is addressed to the device. *)
Definition advances (v : ConfigurationVerifier) (device : bytes) (S0 S1 : ActiveConfigurationSet) : Prop :=
  ac_current S1 = ac_current S0 \/
  exists x n, ac_current S1 = Some x /\ version_of x = Some n /\ sc_audience x = device /\
    verify v (ce_schema_version (sc_envelope x)) (sc_key_id x) (envelope_bytes (sc_envelope x))
      (sc_signature x) = Ok tt /\
    forall old m, ac_current S0 = Some old -> version_of old = Some m -> m < n.

Lemma advances_trans v d S0 S1 S2 : advances v d S0 S1 -> advances v d S1 S2 -> advances v d S0 S2.
Proof.
  intros H01 [E|(x & n & Hx & Hn & Ha & Hv & Hlt)]; [unfold advances in *; by rewrite E|].
  right. exists x, n. split_and!; try done. intros old m Ho Hm.
  destruct H01 as [E|(y & k & Hy & Hk & _ & _ & Hlt1)]; [apply (Hlt old m); congruence|].
  specialize (Hlt1 old m Ho Hm). specialize (Hlt y k Hy Hk). lia.
Qed.

Lemma activate_advances v s S0 S1 :
  activate s v S0 = (Ok tt, S1) ->
  S1 = activate_verified s S0 /\ advances v (sc_audience s) S0 S1.
Proof.
  unfold activate. destruct (verify v _ _ _ _) as [[]|] eqn:Hv; [|done].
  destruct (configuration_version s) as [n|] eqn:Hn; [|done].
  destruct (not_newer n (ac_current S0)) eqn:Hnew; [done|]. intros [= <-]. split; [done|]. right.
  unfold configuration_version in Hn. apply ok_or_Ok in Hn. exists s, n. split_and!; try done.
  intros old m Ho Hm. rewrite Ho in Hnew. cbn in Hnew. unfold configuration_version in Hnew.
  change (version_of old = Some m) with (parse_uint u64_max (ce_bundle_version (sc_envelope old)) = Some m) in Hm.
  rewrite Hm in Hnew. cbn in Hnew. by apply N.leb_gt in Hnew.
Qed.

(** The state of the loop between turns. *)
Definition loop_inv (v : option ConfigurationVerifier) (device : bytes) (S0 : ActiveConfigurationSet)
    (st : LoopState S) : Prop :=
  ca_device_id (lp_cache st) = device /\
  exists S1, represents (lp_cache st) S1 /\ all_known S1 /\
    match v with Some v => advances v device S0 S1 | None => ac_current S1 = ac_current S0 end.

Lemma poll_inv v device S0 c s r c' s' t :
  ca_device_id c = device -> (exists S1, represents c S1 /\ all_known S1 /\ advances v device S0 S1) ->
  poll_and_activate client t v c s = (r, c', s') ->
  ca_device_id c' = device /\ exists S1, represents c' S1 /\ all_known S1 /\ advances v device S0 S1.
Proof.
  intros Hdev (S1 & Hrep & Hk & Hadv). unfold poll_and_activate.
  destruct (poll_configuration client t s) as [[b|e] s1] eqn:Hpoll; [|intros [= _ <- _]; eauto].
  destruct (stage_verify_activate b v c) as [rs c1] eqn:Hstage. intros [= _ <- _].
  assert (Hknown : forall x, deserialize_signed_configuration b = Ok x -> known x).
  { intros x Hx. unfold poll_configuration in Hpoll. apply bind_Ok in Hpoll as (u & s2 & _ & Hpoll).
    unfold fetch_configuration_bytes in Hpoll. apply bind_Ok in Hpoll as (resp & s3 & Hreq & Hpoll).
    apply bind_Ok in Hpoll as (? & s4 & _ & Hpoll). apply bind_Ok in Hpoll as (b' & s5 & Hb & Hpoll).
    apply bind_Ok in Hpoll as (? & s6 & _ & [= -> _]). injection Hb as Hb%ok_or_Ok _.
    unfold request in Hreq. destruct (send _ _ _ s2) as [[r0|] s7] eqn:Hsend; [|done].
    injection Hreq as -> _. by eapply known_network. }
  assert (Hfree : collision_free b S1).
  { intros x old Hx Hin Hd. apply known_digests; [by apply Hknown|by apply Hk|done]. }
  apply (stage_refines _ _ _ S1) in Hstage as [Hd Hr]; [|done..]. split; [congruence|].
  destruct rs as [o|e]; [|by exists S1].
  destruct Hr as (x & n & S2 & Hx & Ha & _ & _ & Hact & Hrep2). exists S2. split; [done|].
  apply activate_advances in Hact as [-> Hadv2]. rewrite Ha, Hdev in Hadv2. split.
  - intros y [[= <-]|Hy]; [by apply Hknown|]. apply Hk. by left.
  - by eapply advances_trans.
Qed.

Lemma turn_inv t v device S0 i st :
  loop_inv v device S0 st -> loop_inv v device S0 (health_turn config client pkg_version i
                                                    (poll_turn config client pkg_version t v i st)).
Proof.
  intros Hinv. assert (Hp : loop_inv v device S0 (poll_turn config client pkg_version t v i st)).
  { unfold poll_turn. destruct (_ <=? _); [|done]. destruct t as [t|], v as [v|]; try exact Hinv.
    destruct (poll_and_activate client t v (lp_cache st) (lp_net st)) as [[r c'] s'] eqn:Hrun.
    destruct Hinv as [Hdev Hex]. eapply (poll_inv v device S0) in Hrun; [|done..].
    by destruct r. }
  unfold health_turn. by destruct (_ <=? _).
Qed.

Lemma turns_inv t v device S0 inputs st :
  loop_inv v device S0 st -> loop_inv v device S0 (loop_turns config client pkg_version t v inputs st).
Proof.
  revert st. induction inputs as [|i inputs IH]; intros st Hinv; [done|]. cbn.
  destruct (li_shutdown i); [done|]. by apply IH, turn_inv.
Qed.

(** C20.  Whatever the server answers, for however long the service runs and
    wherever its disk operations fail, the configuration the cache loads is the one
    it had at the start or one that the configured key signed, addressed to this
    device and of a higher version: a run of the service never goes back to an older
    configuration and never accepts another device's.  Without a usable key the
    configuration stays the same. *)
Theorem service_loop_safe start cache inputs s S0 :
  represents cache S0 -> all_known S0 ->
  let st := run_service_loop config client pkg_version start cache inputs s in
  exists S1, represents (lp_cache st) S1 /\ loads (lp_cache st) S1 /\
    match configuration_verifier config with
    | Some v => advances v (ca_device_id cache) S0 S1
    | None => ac_current S1 = ac_current S0
    end.
Proof.
  intros Hrep Hk. cbv zeta. unfold run_service_loop.
  set (st0 := mkLoopState _ _ _ _ _).
  assert (Hinv : loop_inv (configuration_verifier config) (ca_device_id cache) S0 st0).
  { split; [done|]. exists S0. split; [done|]. split; [done|].
    destruct (configuration_verifier config); [by left|done]. }
  set (t := match AgentConfigurationTransport_new client with Ok _ => _ | Err _ => _ end).
  destruct (turns_inv t _ _ _ inputs _ Hinv) as (_ & S1 & Hr & _ & Ha).
  exists S1. split; [done|]. split; [by apply represents_loads|done].
Qed.
End CacheLoop.

(** ** Reports *)

Section Reports.
Context {S : Type} `{HttpClient S} `{Sha256} `{Ed25519} (config : ServiceConfig) (client : AgentHttpClient).
Context (pkg_version : bytes).

(** When the transport could not be built at the start, or the key is unusable, no
    later turn polls: the cache stays as it is.  The log line says it is retried. *)
Theorem offline_never_polls t v inputs st :
  t = None \/ v = None -> lp_cache (loop_turns config client pkg_version t v inputs st) = lp_cache st.
Proof.
  intros Hoff. revert st. induction inputs as [|i inputs IH]; intros st; [done|]. cbn.
  destruct (li_shutdown i); [done|]. rewrite IH.
  assert (Hh : forall st', lp_cache (health_turn config client pkg_version i st') = lp_cache st').
  { intros st'. unfold health_turn. by destruct (_ <=? _). }
  rewrite Hh. unfold poll_turn. destruct (_ <=? _); [|done]. destruct Hoff as [->| ->]; [done|by destruct t].
Qed.
End Reports.

(** ** A run of the loop *)

From S2P Require Import Toy.

Module Rounds.
Import Bundles.

Definition signed : bytes := serialize_signed_configuration (bundle "7").

(** A server that always sends the same configuration. *)
#[local] Instance http : HttpClient unit := {|
  certificate_from_pem _ := true;
  identity_from_pem _ := true;
  client_builds _ := true;
  send _ _ body s :=
    (Some (match body with GetRequest => mkHttpResponse 200 (Some signed) | _ => mkHttpResponse 204 None end), s);
  response_chain _ := None;
|}.

Definition client : AgentHttpClient :=
  mkClient (lit "https://dlp.lab") (lit "root") (Some (lit "chain")) (Some (lit "key")) 30.

Definition known (x : SignedConfigurationV1) : Prop := deserialize_signed_configuration signed = Ok x.

Lemma digests a b : known a -> known b -> sc_content_digest a = sc_content_digest b -> sc_envelope a = sc_envelope b.
Proof. intros Ha Hb _. unfold known in *. rewrite Ha in Hb. apply Ok_inj in Hb as <-. reflexivity. Qed.

Lemma from_network c url body s resp s' b x :
  send c url body s = (Some resp, s') -> hr_body resp = Some b ->
  deserialize_signed_configuration b = Ok x -> known x.
Proof.
  cbn [send http]. intros Hs Hb Hx. apply (f_equal fst), (inj Some) in Hs as <-.
  destruct body; [|discriminate Hb..]. cbn [hr_body] in Hb. apply (inj Some) in Hb as <-. exact Hx.
Qed.

Definition config : ServiceConfig :=
  mkServiceConfig device (lit "https://dlp.lab") (lit "root") (lit "d") (lit "c") None
    key_name (public_of_seed seed) 100 100 0 0.
Definition turn (now : N) : LoopInput := mkLoopInput false now now 1700000000 [].
Definition rounds : LoopState unit :=
  run_service_loop config client (lit "0.1") 1000 cache [turn 1000; turn 1050; turn 1200] tt.

(** The configuration was activated, then sent again and refused as no newer. *)
Lemma service_loop_safe_witness :
  is_Some (lp_last_contact rounds) /\
  exists S1, represents (lp_cache rounds) S1 /\ loads (lp_cache rounds) S1 /\
    match configuration_verifier config with
    | Some v => advances v device empty_set S1
    | None => ac_current S1 = ac_current empty_set
    end.
Proof.
  split; [assert (lp_last_contact rounds = Some 1700000000) as -> by (vm_compute; reflexivity); by eexists|].
  refine (service_loop_safe config client (lit "0.1") known digests from_network 1000 cache
    [turn 1000; turn 1050; turn 1200] tt empty_set cache_represents _).
  intros x [E|E]; discriminate E.
Defined.
End Rounds.
