(* ===== verification/RouteStore.v ===== *)
(** * RouteStore

    The persistence port of the authenticated device routes
    (crates/dlp-server/src/repository.rs): the trait [RouteRepositoryPort] as a
    class, its PostgreSQL implementation over the ledger, its mutex-backed
    implementation, and the laws the route handlers are proved against, discharged
    for both. *)

From S2P Require Import Prelude Bytes Text Effects Crypto Protocol Tls Ledger.

Inductive RouteRepositoryError := RouteDenied | RouteReplay | RouteUnavailable.
#[export] Instance RouteRepositoryError_eq_dec : EqDecision RouteRepositoryError.
Proof. solve_decision. Defined.

Abbreviation route_m S := (M S RouteRepositoryError).

(** ** The port *)

(** [now] is the clock of the store. *)
Class RouteRepositoryPort (S : Type) := {
  activate_device : N -> bytes -> bytes -> S -> S;
  revoke_device : N -> bytes -> bytes -> S -> S;
  credential_status : bytes -> bytes -> S -> CredentialStatus * S;
  authorize_device : AuthenticatedDevice -> route_m S unit;
  record_health : bytes -> bytes -> route_m S unit;
  persist_configuration : bytes -> SignedConfigurationV1 -> route_m S unit;
  selected_configuration : bytes -> route_m S (option SignedConfigurationV1);
  health_report_count : bytes -> S -> N * S;
}.

(** [authorize_device] in both implementations: the status decides. *)
Definition authorize_with {S} (status : bytes -> bytes -> S -> CredentialStatus * S)
    (device : AuthenticatedDevice) : route_m S unit := fun s =>
  let '(st, s') := status (ad_device_id device) (ad_credential_serial device) s in
  (match st with StatusActive => Ok tt | StatusRevoked | StatusExpired => Err RouteDenied end, s').

(** ** PostgreSQL *)

(** [str::parse::<i64>] and [i64::to_string]. *)
Definition parse_i64 (s : bytes) : option Z :=
  match s with
  | x2d :: [] => None
  | x2d :: s' => (fun n => (- Z.of_N n)%Z) <$> parse_digits (2 ^ 63) 0 s'
  | _ => Z.of_N <$> parse_uint (2 ^ 63 - 1) s
  end.
Definition dec_i64 (z : Z) : bytes :=
  if (z <? 0)%Z then x2d :: dec (Z.to_N (- z)) else dec (Z.to_N z).

(** [let _ = ...execute(&self.pool).await]. *)
Definition execute_ignored {A} (stmt : statement A) (p : Pool) : Pool := snd (execute tt stmt p).

Definition pg_activate_device (now : N) (device_id serial : bytes) : Pool -> Pool :=
  execute_ignored (upsert_credential now device_id serial (repeat x00 32)).

Definition pg_revoke_device (now : N) (device_id serial : bytes) : Pool -> Pool :=
  execute_ignored (update_revoke now device_id serial).

Definition pg_credential_status (device_id serial : bytes) (p : Pool) : CredentialStatus * Pool :=
  match execute tt (select_status device_id serial) p with
  | (Ok (Some RowActive), p') => (StatusActive, p')
  | (Ok (Some RowRevoked), p') => (StatusRevoked, p')
  | (_, p') => (StatusExpired, p')
  end.

Definition pg_record_health (device_id drive_state : bytes) : route_m Pool unit :=
  execute RouteUnavailable (insert_health device_id drive_state).

Definition configuration_row (device_id : bytes) (version : Z) (c : SignedConfigurationV1) :
    ConfigurationRow :=
  mkConfigurationRow device_id version (Z.of_N (ce_schema_version (sc_envelope c))) (sc_key_id c)
    (envelope_bytes (sc_envelope c)) (sc_signature c) (sc_content_digest c) (sc_audience c).

Definition pg_persist_configuration (device_id : bytes) (c : SignedConfigurationV1) :
    route_m Pool unit :=
  _ ← ensure (bool_decide (sc_audience c = device_id)) RouteDenied;
  version ← lift (ok_or RouteDenied (parse_i64 (ce_bundle_version (sc_envelope c))));
  existing ← execute RouteUnavailable (select_latest device_id);
  _ ← ensure (match existing with
              | Some row => (cf_bundle_version row <? version)%Z
              | None => true
              end) RouteReplay;
  _ ← ensure (ce_schema_version (sc_envelope c) <=? 32767) RouteDenied;
  execute RouteUnavailable (insert_configuration (configuration_row device_id version c)).

Section Selected.
Context `{Sha256}.

(** The checks of [selected_configuration] on a row. *)
Definition signed_of_row (device_id : bytes) (row : ConfigurationRow) :
    result RouteRepositoryError SignedConfigurationV1 :=
  envelope ← map_err (fun _ => RouteUnavailable) (from_canonical_bytes (cf_canonical_bundle row));
  if negb (bool_decide (ce_bundle_version envelope = dec_i64 (cf_bundle_version row)))
     || negb (bool_decide (ce_device_id envelope = device_id))
  then Err RouteUnavailable else
  signed ← map_err (fun _ => RouteUnavailable)
             (SignedConfigurationV1_new envelope (cf_key_id row) (cf_signature row));
  if negb (bool_decide (cf_content_digest row = sc_content_digest signed))
     || negb (bool_decide (cf_audience row = device_id))
     || negb (bool_decide (sc_audience signed = cf_audience row))
  then Err RouteUnavailable else Ok signed.

Definition pg_selected_configuration (device_id : bytes) :
    route_m Pool (option SignedConfigurationV1) :=
  row ← execute RouteUnavailable (select_latest device_id);
  match row with
  | None => mret None
  | Some row => signed ← lift (signed_of_row device_id row); mret (Some signed)
  end.

Definition pg_health_report_count (device_id : bytes) (p : Pool) : N * Pool :=
  match execute tt (count_health device_id) p with
  | (Ok n, p') => (n, p')
  | (Err _, p') => (0, p')
  end.

#[export] Instance PgRouteRepository : RouteRepositoryPort Pool := {|
  activate_device := pg_activate_device;
  revoke_device := pg_revoke_device;
  credential_status := pg_credential_status;
  authorize_device := authorize_with pg_credential_status;
  record_health := pg_record_health;
  persist_configuration := pg_persist_configuration;
  selected_configuration := pg_selected_configuration;
  health_report_count := pg_health_report_count;
|}.
End Selected.

(** ** The mutex-backed store *)

Record DeviceRouteRecord := mkRouteRecord {
  dr_active_serial : option bytes;
  dr_revoked_serials : list bytes;
  dr_health_reports : list bytes;
  dr_configurations : gmap N SignedConfigurationV1;
}.

Definition record_default : DeviceRouteRecord := mkRouteRecord None [] [] ∅.

(** The field [devices]. *)
Abbreviation RouteDevices := (gmap bytes DeviceRouteRecord).

(** [last_key_value] of a BTreeMap. *)
Definition last_key_value {V} (m : gmap N V) : option (N * V) :=
  foldr (fun kv acc => match acc with
                       | Some (k, _) => if k <? fst kv then Some kv else acc
                       | None => Some kv
                       end) None (map_to_list m).

Definition mem_activate_device (now : N) (device_id serial : bytes) (m : RouteDevices) : RouteDevices :=
  let record := default record_default (m !! device_id) in
  <[device_id :=
      mkRouteRecord (Some serial)
        (match dr_active_serial record with
         | Some previous => dr_revoked_serials record ++ [previous]
         | None => dr_revoked_serials record
         end)
        (dr_health_reports record) (dr_configurations record)]> m.

Definition mem_revoke_device (now : N) (device_id serial : bytes) (m : RouteDevices) : RouteDevices :=
  match m !! device_id with
  | None => m
  | Some record =>
      <[device_id :=
          mkRouteRecord
            (if bool_decide (dr_active_serial record = Some serial) then None
             else dr_active_serial record)
            (if bool_decide (serial ∈ dr_revoked_serials record) then dr_revoked_serials record
             else dr_revoked_serials record ++ [serial])
            (dr_health_reports record) (dr_configurations record)]> m
  end.

Definition mem_status (device_id serial : bytes) (m : RouteDevices) : CredentialStatus :=
  match m !! device_id with
  | None => StatusExpired
  | Some record =>
      if bool_decide (serial ∈ dr_revoked_serials record) then StatusRevoked
      else if bool_decide (dr_active_serial record = Some serial) then StatusActive
      else StatusExpired
  end.

Definition mem_credential_status (device_id serial : bytes) (m : RouteDevices) :
    CredentialStatus * RouteDevices := (mem_status device_id serial m, m).

(** [devices.get_mut(device_id).ok_or(Denied)?] and the write back. *)
Definition mem_record (device_id : bytes) : route_m RouteDevices DeviceRouteRecord :=
  record ← gets (fun m : RouteDevices => m !! device_id);
  lift (ok_or RouteDenied record).

Definition mem_record_health (device_id drive_state : bytes) : route_m RouteDevices unit :=
  record ← mem_record device_id;
  modify (<[device_id :=
             mkRouteRecord (dr_active_serial record) (dr_revoked_serials record)
               (dr_health_reports record ++ [drive_state]) (dr_configurations record)]>).

Definition mem_persist_configuration (device_id : bytes) (c : SignedConfigurationV1) :
    route_m RouteDevices unit :=
  _ ← ensure (bool_decide (sc_audience c = device_id)) RouteDenied;
  version ← lift (ok_or RouteDenied (parse_uint u64_max (ce_bundle_version (sc_envelope c))));
  record ← mem_record device_id;
  _ ← ensure (match last_key_value (dr_configurations record) with
              | Some (current, _) => current <? version
              | None => true
              end) RouteReplay;
  modify (<[device_id :=
             mkRouteRecord (dr_active_serial record) (dr_revoked_serials record)
               (dr_health_reports record) (<[version := c]> (dr_configurations record))]>).

Definition mem_selected_configuration (device_id : bytes) :
    route_m RouteDevices (option SignedConfigurationV1) :=
  record ← mem_record device_id;
  mret (snd <$> last_key_value (dr_configurations record)).

Definition mem_health_report_count (device_id : bytes) (m : RouteDevices) : N * RouteDevices :=
  (match m !! device_id with Some record => len (dr_health_reports record) | None => 0 end, m).

#[export] Instance RouteRepository : RouteRepositoryPort RouteDevices := {|
  activate_device := mem_activate_device;
  revoke_device := mem_revoke_device;
  credential_status := mem_credential_status;
  authorize_device := authorize_with mem_credential_status;
  record_health := mem_record_health;
  persist_configuration := mem_persist_configuration;
  selected_configuration := mem_selected_configuration;
  health_report_count := mem_health_report_count;
|}.

(** ** The laws of the port *)

(** What the handlers rely on, over the content of a store: which serials are
    accepted, the newest configuration of a device and its health reports.  The
    reading operations leave the content; a writing operation has its whole effect,
    even when its answer is lost, or fails and has none. *)
Class RouteLaws (S : Type) `{RouteRepositoryPort S} := {
  content : Type;
  content_of : S -> content;
  consistent : content -> Prop;
  accepted : content -> bytes -> bytes -> Prop;
  newest : content -> bytes -> option SignedConfigurationV1 -> Prop;
  reports : content -> bytes -> list bytes;
  status_reads d serial s st s' :
    credential_status d serial s = (st, s') ->
    content_of s' = content_of s /\ (st = StatusActive -> accepted (content_of s) d serial);
  authorize_reads device s r s' :
    authorize_device device s = (r, s') ->
    content_of s' = content_of s /\
    (r = Ok tt -> accepted (content_of s) (ad_device_id device) (ad_credential_serial device));
  selected_reads d s r s' :
    selected_configuration d s = (r, s') -> consistent (content_of s) ->
    content_of s' = content_of s /\
    forall o, r = Ok o -> newest (content_of s) d o /\
      match o with Some c => sc_audience c = d | None => True end;
  persist_writes d c s r s' :
    persist_configuration d c s = (r, s') -> consistent (content_of s) ->
    (sc_audience c = d /\ newest (content_of s') d (Some c) /\ consistent (content_of s') /\
     (forall d' o, d' <> d -> newest (content_of s') d' o <-> newest (content_of s) d' o) /\
     (forall d', reports (content_of s') d' = reports (content_of s) d') /\
     (forall d' t, accepted (content_of s') d' t <-> accepted (content_of s) d' t)) \/
    content_of s' = content_of s /\ exists e, r = Err e;
  health_writes d st s r s' :
    record_health d st s = (r, s') -> consistent (content_of s) ->
    (consistent (content_of s') /\
     (forall d', reports (content_of s') d' =
        if bool_decide (d' = d) then reports (content_of s) d ++ [st] else reports (content_of s) d') /\
     (forall d' o, newest (content_of s') d' o <-> newest (content_of s) d' o) /\
     (forall d' t, accepted (content_of s') d' t <-> accepted (content_of s) d' t)) \/
    content_of s' = content_of s /\ exists e, r = Err e;
}.

(** *** PostgreSQL *)

(** The row holds the configuration. *)
Definition row_holds (row : ConfigurationRow) (c : SignedConfigurationV1) : Prop :=
  cf_canonical_bundle row = envelope_bytes (sc_envelope c) /\
  cf_key_id row = sc_key_id c /\ cf_signature row = sc_signature c.

Definition pg_newest (l : Ledger) (d : bytes) (o : option SignedConfigurationV1) : Prop :=
  match latest d (signed_configurations l), o with
  | None, None => True
  | Some row, Some c => row_holds row c
  | _, _ => False
  end.

Definition pg_reports (l : Ledger) (d : bytes) : list bytes :=
  map snd (filter (fun r => r.1 = d) (health_reports l)).

Definition pg_accepted (l : Ledger) (d s : bytes) : Prop :=
  exists c, device_route_credentials l !! s = Some c /\ cr_device_id c = d /\ cr_status c = RowActive.

(** A statement that only reads. *)
Lemma execute_reads {E A} (e : E) (stmt : statement A) p r p' :
  execute e stmt p = (r, p') -> (forall l a l', stmt l = Some (a, l') -> l' = l) ->
  pl_ledger p' = pl_ledger p.
Proof.
  intros Hx Hro. revert Hx. unfold execute, exchange.
  destruct (pl_plan p _), (stmt (pl_ledger p)) as [[a l]|] eqn:Hs; intros [= <- <-]; try done;
    by apply Hro in Hs.
Qed.

(** A statement either has its effect, whatever its answer, or none and fails. *)
Lemma execute_writes {E A} (e : E) (stmt : statement A) p r p' :
  execute e stmt p = (r, p') ->
  (exists a, stmt (pl_ledger p) = Some (a, pl_ledger p') /\ (r = Ok a \/ r = Err e)) \/
  (pl_ledger p' = pl_ledger p /\ r = Err e).
Proof.
  unfold execute, exchange.
  destruct (pl_plan p _), (stmt (pl_ledger p)) as [[a l]|] eqn:Hs; intros [= <- <-];
    try (by right); left; eauto.
Qed.

Lemma latest_insert d (r : ConfigurationRow) t :
  cf_device_id r = d ->
  (match latest d t with Some q => (cf_bundle_version q < cf_bundle_version r)%Z | None => True end) ->
  latest d (t ++ [r]) = Some r.
Proof.
  intros Hd. induction t as [|q t IH]; intros Hl; cbn [app latest] in *.
  { by rewrite bool_decide_eq_true_2. }
  destruct (latest d t) as [q'|] eqn:Hq.
  - destruct (bool_decide (cf_device_id q = d)) eqn:Hqd; cbn in Hl |- *.
    + destruct (Z.ltb_spec (cf_bundle_version q') (cf_bundle_version q)); cbn in Hl;
        rewrite IH by lia; destruct (Z.ltb_spec (cf_bundle_version r) (cf_bundle_version q)); done || lia.
    + by rewrite IH.
  - rewrite IH by done. destruct (bool_decide (cf_device_id q = d)) eqn:Hqd; cbn in Hl |- *; [|done].
    destruct (Z.ltb_spec (cf_bundle_version r) (cf_bundle_version q)); done || lia.
Qed.

Lemma latest_other d (r : ConfigurationRow) t :
  cf_device_id r <> d -> latest d (t ++ [r]) = latest d t.
Proof.
  intros Hd. induction t as [|q t IH]; cbn [app latest]; [by rewrite bool_decide_eq_false_2|].
  by rewrite IH.
Qed.

Lemma from_canonical_bytes_Ok c e : from_canonical_bytes c = Ok e -> envelope_bytes e = c.
Proof.
  unfold from_canonical_bytes. intros (? & _ & Hf)%result_bind_Ok.
  apply result_bind_Ok in Hf as ([[[[[v d] b] i] py] rest] & _ & Hf).
  destruct (negb _); [done|].
  apply result_bind_Ok in Hf as (? & _ & Hf). apply result_bind_Ok in Hf as (? & _ & Hf).
  apply result_bind_Ok in Hf as (e' & _ & Hf).
  destruct (bool_decide_reflect (envelope_bytes e' = c)); [|done]. by injection Hf as ->.
Qed.

Section Postgres.
Context `{Sha256}.

Lemma signed_of_row_Ok d row c : signed_of_row d row = Ok c -> row_holds row c /\ sc_audience c = d.
Proof.
  unfold signed_of_row.
  intros (e & He & Hf)%result_bind_Ok. destruct (from_canonical_bytes _) as [e'|] eqn:Hc; [|done].
  injection He as <-. apply from_canonical_bytes_Ok in Hc.
  destruct (bool_decide_reflect (ce_bundle_version e' = dec_i64 (cf_bundle_version row))); [|done].
  destruct (bool_decide_reflect (ce_device_id e' = d)) as [Hd|]; [|done]. cbn in Hf.
  apply result_bind_Ok in Hf as (s & Hs & Hf).
  destruct (SignedConfigurationV1_new _ _ _) as [s'|] eqn:Hn; [|done]. injection Hs as ->.
  destruct (negb _ || negb _ || negb _); [done|]. injection Hf as ->.
  unfold SignedConfigurationV1_new in Hn. apply result_bind_Ok in Hn as (? & _ & Hn).
  destruct (bool_decide (cf_signature row = [])); [done|]. injection Hn as <-. done.
Qed.

Lemma pg_status_reads d serial p st p' :
  pg_credential_status d serial p = (st, p') ->
  pl_ledger p' = pl_ledger p /\ (st = StatusActive -> pg_accepted (pl_ledger p) d serial).
Proof.
  unfold pg_credential_status. destruct (execute tt (select_status d serial) p) as [r q] eqn:Hx.
  pose proof (execute_reads _ _ _ _ _ Hx ltac:(by intros ? ? ? [= _ <-])) as Hl.
  destruct r as [[[]|]|]; intros [= <- <-]; split; try done. intros _.
  apply execute_Ok in Hx. unfold select_status in Hx. injection Hx as Hx _.
  destruct (device_route_credentials (pl_ledger p) !! serial) as [c|] eqn:Hc; [|done].
  destruct (bool_decide_reflect (cr_device_id c = d)); [|done]. injection Hx as Hx. by exists c.
Qed.

Lemma pg_persist_writes d c p r p' :
  pg_persist_configuration d c p = (r, p') ->
  (sc_audience c = d /\ pg_newest (pl_ledger p') d (Some c) /\
   (forall d' o, d' <> d -> pg_newest (pl_ledger p') d' o <-> pg_newest (pl_ledger p) d' o) /\
   (forall d', pg_reports (pl_ledger p') d' = pg_reports (pl_ledger p) d') /\
   (forall d' t, pg_accepted (pl_ledger p') d' t <-> pg_accepted (pl_ledger p) d' t)) \/
  pl_ledger p' = pl_ledger p /\ exists e, r = Err e.
Proof.
  unfold pg_persist_configuration. rewrite bind_ensure.
  destruct (bool_decide_reflect (sc_audience c = d)) as [Ha|]; [|intros [= <- <-]; eauto].
  rewrite bind_lift. destruct (parse_i64 _) as [v|]; cbn [ok_or]; [|intros [= <- <-]; eauto].
  intros [(row & p1 & Hs & Hr)|(e & Hs & ->)]%bind_run.
  2:{ right. split; [|eauto]. by apply (execute_reads _ _ _ _ _ Hs); intros ? ? ? [= _ <-]. }
  apply execute_Ok in Hs. unfold select_latest in Hs. injection Hs as Hrow Hl.
  rewrite bind_ensure in Hr.
  destruct (match row with Some q => _ | None => _ end) eqn:Hnew;
    [|injection Hr as <- <-; right; split; [done|eauto]].
  rewrite bind_ensure in Hr. destruct (_ <=? 32767); [|injection Hr as <- <-; right; split; [done|eauto]].
  apply execute_writes in Hr as [(u & Hi & _)|(Hp & ->)]; [|right; split; [congruence|eauto]].
  left. unfold insert_configuration in Hi.
  destruct (_ && _ && _); [|done]. injection Hi as _ Hi. rewrite <- Hl in Hi.
  split; [done|]. rewrite <- Hi. unfold pg_newest. cbn [signed_configurations set_configurations].
  split; [|split; [|done]].
  - rewrite latest_insert; [done..|]. rewrite Hrow. destruct row; [by apply Z.ltb_lt|done].
  - intros d' o Hd. by rewrite latest_other by (cbn; congruence).
Qed.

Lemma pg_selected_reads d p r p' :
  pg_selected_configuration d p = (r, p') ->
  pl_ledger p' = pl_ledger p /\ forall o, r = Ok o -> pg_newest (pl_ledger p) d o /\
    match o with Some c => sc_audience c = d | None => True end.
Proof.
  unfold pg_selected_configuration. intros [(row & p1 & Hs & Hr)|(e & Hs & ->)]%bind_run.
  2:{ split; [|done]. by apply (execute_reads _ _ _ _ _ Hs); intros ? ? ? [= _ <-]. }
  apply execute_Ok in Hs. unfold select_latest in Hs. injection Hs as Hrow Hl.
  unfold pg_newest. rewrite Hrow. destruct row as [row|].
  - rewrite bind_lift in Hr. destruct (signed_of_row d row) as [c|] eqn:Hc; injection Hr as <- <-;
      (split; [done|]); [|done]. intros o [= <-]. by apply signed_of_row_Ok in Hc.
  - injection Hr as <- <-. split; [done|]. by intros o [= <-].
Qed.

Lemma pg_health_writes d st p r p' :
  pg_record_health d st p = (r, p') ->
  (forall d', pg_reports (pl_ledger p') d' =
     if bool_decide (d' = d) then pg_reports (pl_ledger p) d ++ [st] else pg_reports (pl_ledger p) d') /\
    (forall d' o, pg_newest (pl_ledger p') d' o <-> pg_newest (pl_ledger p) d' o) /\
    (forall d' t, pg_accepted (pl_ledger p') d' t <-> pg_accepted (pl_ledger p) d' t) \/
  pl_ledger p' = pl_ledger p /\ exists e, r = Err e.
Proof.
  intros [(u & Hi & _)|(Hp & ->)]%execute_writes; [|right; eauto]. left.
  unfold insert_health in Hi. destruct (_ && _); [|done]. injection Hi as _ Hi. rewrite <- Hi.
  split; [|done]. intros d'. unfold pg_reports. cbn [health_reports set_health].
  rewrite filter_app, map_app. destruct (bool_decide_reflect (d' = d)) as [->|Hne].
  - by rewrite filter_cons_True.
  - rewrite filter_cons_False by (cbn; congruence). by rewrite app_nil_r.
Qed.

#[export] Program Instance PgRouteLaws : RouteLaws Pool := {|
  content := Ledger;
  content_of := pl_ledger;
  consistent _ := True;
  accepted := pg_accepted;
  newest := pg_newest;
  reports := pg_reports;
  status_reads := pg_status_reads;
|}.
Next Obligation.
  intros device s r s'. cbn. unfold authorize_with.
  destruct (pg_credential_status _ _ s) as [st q] eqn:Hs.
  apply pg_status_reads in Hs as [Hl Ha]. intros [= <- <-]. split; [done|]. destruct st; auto; done.
Qed.
Next Obligation. intros d s r s' Hs _. by apply pg_selected_reads. Qed.
Next Obligation.
  intros d c s r s' Hs _. apply pg_persist_writes in Hs as [(? & ? & ?)|?]; [by left|by right].
Qed.
Next Obligation.
  intros d st s r s' Hs _. apply pg_health_writes in Hs as [(? & ?)|?]; [by left|by right].
Qed.
End Postgres.

(** *** The mutex-backed store *)

Definition later_entry {V} (kv : N * V) (acc : option (N * V)) : option (N * V) :=
  match acc with Some (k, _) => if k <? fst kv then Some kv else acc | None => Some kv end.

Lemma later_entry_max {V} (l : list (N * V)) :
  match foldr later_entry None l with
  | Some kv => kv ∈ l /\ forall kv', kv' ∈ l -> fst kv' <= fst kv
  | None => l = []
  end.
Proof.
  induction l as [|kv l IH]; [done|]. cbn [foldr].
  destruct (foldr later_entry None l) as [[k v]|]; cbn [later_entry].
  - destruct IH as [Hin Hmax]. destruct (N.ltb_spec k (fst kv)).
    + split; [by left|]. intros kv' [->|Hin']%elem_of_cons; [lia|]. specialize (Hmax _ Hin'). cbn in Hmax. lia.
    + split; [by right|]. intros kv' [->|Hin']%elem_of_cons; [done|]. by apply Hmax.
  - subst l. split; [by left|]. intros kv' [->|[]%elem_of_nil]%elem_of_cons. lia.
Qed.

Lemma last_key_value_max {V} (m : gmap N V) k v :
  m !! k = Some v -> (forall k' v', m !! k' = Some v' -> k' <= k) -> last_key_value m = Some (k, v).
Proof.
  intros Hk Hmax. unfold last_key_value. change (foldr _ None _) with (foldr (@later_entry V) None (map_to_list m)).
  pose proof (later_entry_max (map_to_list m)) as Hl.
  destruct (foldr later_entry None (map_to_list m)) as [[k' v']|].
  - destruct Hl as [Hin Hle]. apply elem_of_map_to_list in Hin.
    specialize (Hmax _ _ Hin). specialize (Hle (k, v) ltac:(by apply elem_of_map_to_list)). cbn in Hle.
    assert (k' = k) as -> by lia. congruence.
  - apply elem_of_map_to_list in Hk. rewrite Hl in Hk. by apply elem_of_nil in Hk.
Qed.

Lemma last_key_value_insert {V} (m : gmap N V) k v :
  (match last_key_value m with Some (k', _) => k' < k | None => True end) ->
  last_key_value (<[k := v]> m) = Some (k, v).
Proof.
  intros Hlt. apply last_key_value_max; [by rewrite lookup_insert_eq|].
  intros k' v' [(<- & _)|(_ & Hk')]%lookup_insert_Some; [lia|].
  revert Hlt. unfold last_key_value. change (foldr _ None _) with (foldr (@later_entry V) None (map_to_list m)).
  pose proof (later_entry_max (map_to_list m)) as Hl. apply elem_of_map_to_list in Hk'.
  destruct (foldr later_entry None (map_to_list m)) as [[k1 v1]|].
  - intros. destruct Hl as [_ Hle]. specialize (Hle _ Hk'). cbn in Hle. lia.
  - rewrite Hl in Hk'. by apply elem_of_nil in Hk'.
Qed.

Definition mem_newest (m : RouteDevices) (d : bytes) (o : option SignedConfigurationV1) : Prop :=
  exists record, m !! d = Some record /\ o = snd <$> last_key_value (dr_configurations record).

Definition mem_reports (m : RouteDevices) (d : bytes) : list bytes :=
  match m !! d with Some record => dr_health_reports record | None => [] end.

Lemma bind_mem_record {B} (d : bytes) (k : DeviceRouteRecord -> route_m RouteDevices B)
    (m : RouteDevices) :
  (mem_record d ≫= k) m = match m !! d with Some record => k record m | None => (Err RouteDenied, m) end.
Proof. unfold mem_record, mbind, M_bind, gets, lift. by destruct (m !! d). Qed.

(** The configurations of a record are for its device. *)
Definition mem_consistent (m : RouteDevices) : Prop :=
  forall d record v c, m !! d = Some record -> dr_configurations record !! v = Some c -> sc_audience c = d.

Lemma last_key_value_lookup {V} (m : gmap N V) k v : last_key_value m = Some (k, v) -> m !! k = Some v.
Proof.
  unfold last_key_value. change (foldr _ None _) with (foldr (@later_entry V) None (map_to_list m)).
  pose proof (later_entry_max (map_to_list m)) as Hl. intros E. rewrite E in Hl.
  destruct Hl as [Hin _]. by apply elem_of_map_to_list.
Qed.

#[export] Program Instance RouteRepositoryLaws : RouteLaws RouteDevices := {|
  content := RouteDevices;
  content_of m := m;
  consistent := mem_consistent;
  accepted m d s := mem_status d s m = StatusActive;
  newest := mem_newest;
  reports := mem_reports;
|}.
Next Obligation. by intros d serial s st s' [= <- <-]. Qed.
Next Obligation.
  intros device s r s' [= <- <-]. split; [done|]. by destruct (mem_status _ _ s).
Qed.
Next Obligation.
  intros d s r s'. cbn. unfold mem_selected_configuration. rewrite bind_mem_record. intros Hs Hc.
  destruct (s !! d) as [record|] eqn:Hd; injection Hs as <- <-; (split; [done|]); [|done].
  intros o [= <-]. split; [by exists record|].
  destruct (last_key_value (dr_configurations record)) as [[k c]|] eqn:Hl; [|done]. cbn.
  by apply last_key_value_lookup, (Hc d record) in Hl.
Qed.
Next Obligation.
  intros d c s r s'. cbn. unfold mem_persist_configuration. rewrite bind_ensure.
  destruct (bool_decide_reflect (sc_audience c = d)) as [Ha|]; [|intros [= <- <-]; eauto].
  rewrite bind_lift. destruct (parse_uint _ _) as [v|]; cbn [ok_or]; [|intros [= <- <-]; eauto].
  rewrite bind_mem_record. destruct (s !! d) as [record|] eqn:Hd; [|intros [= <- <-]; eauto].
  rewrite bind_ensure. destruct (match last_key_value _ with Some _ => _ | None => _ end) eqn:Hl;
    [|intros [= <- <-]; eauto].
  intros [= <- <-] Hcons. left. split; [done|]. repeat split.
  - eexists. split; [apply lookup_insert_eq|]. cbn.
    rewrite last_key_value_insert; [done|]. destruct (last_key_value _) as [[]|]; [by apply N.ltb_lt|done].
  - intros d' record' v' c' [(<- & <-)|(_ & Hr)]%lookup_insert_Some; [|by apply (Hcons _ _ _ _ Hr)].
    cbn. intros [(_ & <-)|(_ & Hv)]%lookup_insert_Some; [done|by apply (Hcons _ _ _ _ Hd Hv)].
  - unfold mem_newest. by rewrite lookup_insert_ne.
  - unfold mem_newest. by rewrite lookup_insert_ne.
  - intros d'. unfold mem_reports. destruct (decide (d = d')) as [<-|].
    + by rewrite lookup_insert_eq, Hd.
    + by rewrite lookup_insert_ne.
  - unfold mem_status. destruct (decide (d = d')) as [<-|]; [by rewrite lookup_insert_eq, Hd|by rewrite lookup_insert_ne].
  - unfold mem_status. destruct (decide (d = d')) as [<-|]; [by rewrite lookup_insert_eq, Hd|by rewrite lookup_insert_ne].
Qed.
Next Obligation.
  intros d st s r s'. cbn. unfold mem_record_health. rewrite bind_mem_record.
  destruct (s !! d) as [record|] eqn:Hd; [|intros [= <- <-]; eauto].
  intros [= <- <-] Hcons. left. split; [|split; [|split]].
  - intros d' record' v' c' [(<- & <-)|(_ & Hr)]%lookup_insert_Some; [by apply (Hcons _ _ _ _ Hd)|by apply (Hcons _ _ _ _ Hr)].
  - intros d'. unfold mem_reports. destruct (bool_decide_reflect (d' = d)) as [->|].
    + by rewrite lookup_insert_eq, Hd.
    + by rewrite lookup_insert_ne.
  - intros d' o. unfold mem_newest. destruct (decide (d = d')) as [<-|].
    + rewrite lookup_insert_eq, Hd. split; intros (q & [= <-] & ->); eauto.
    + by rewrite lookup_insert_ne.
  - intros d' t. unfold mem_status. destruct (decide (d = d')) as [<-|]; [by rewrite lookup_insert_eq, Hd|by rewrite lookup_insert_ne].
Qed.
