(* ===== verification/Routes.v ===== *)
(** * Routes

    The HTTP interface of the server (crates/dlp-server/src/routes.rs and the
    routes of lib.rs): the handlers over any store that implements the persistence
    port, the middleware that turns a connection into an authenticated caller, and
    the dispatch of a request.  The JSON extractor is third-party code: its answers
    are the members of the class [RouteJson]. *)

From S2P Require Import Prelude Bytes Text Effects Domain Crypto Protocol ConfigCache Tls Enrollment RouteStore.

(** ** Status codes *)

Definition OK : N := 200.
Definition NO_CONTENT : N := 204.
Definition BAD_REQUEST : N := 400.
Definition UNAUTHORIZED : N := 401.
Definition NOT_FOUND : N := 404.
Definition METHOD_NOT_ALLOWED : N := 405.
Definition PAYLOAD_TOO_LARGE : N := 413.
Definition SERVICE_UNAVAILABLE : N := 503.

(** ** Requests and responses *)

Record BootstrapEnrollmentRequest := mkBootstrap {
  be_version : N;
  be_device_id : bytes;
  be_token : bytes;
  be_csr_pem : bytes;
  be_prior_serial : option bytes;
}.

Record AdministratorProvisioningRequest := mkAdminRequest {
  ap_version : N;
  ap_device_id : bytes;
  ap_fingerprint_digest : bytes;
  ap_ad_object_guid : bytes;
  ap_ad_object_sid : bytes;
  ap_preferred_drive_letter : N;
  ap_recovery : bool;
}.

Record HealthRequest := mkHealthRequest { hq_version : N; hq_drive_state : bytes }.

Record Request := mkRequest {
  rq_method : bytes;
  rq_path : bytes;
  rq_content_type : option bytes;
  rq_body : bytes;
}.

Inductive Body :=
| NoBody
| ConfigurationBody (content : bytes)
| EnrollmentBody (version : N) (credential_chain : bytes)
| ProvisioningBody (version : N) (device_id enrollment_token : bytes)
| HealthBody (status : bytes).

Record Response := mkResponse { rp_status : N; rp_body : Body }.

(** A handler's [Err(StatusCode)] is a response without a body. *)
Definition respond (r : result N Response) : Response :=
  match r with Ok response => response | Err status => mkResponse status NoBody end.

(** The extractor [Json<T>] on a request; a rejection is its status. *)
Class RouteJson := {
  json_bootstrap : Request -> result N BootstrapEnrollmentRequest;
  json_provisioning : Request -> result N AdministratorProvisioningRequest;
  json_health : Request -> result N HealthRequest;
}.

(** The extractor reads the body up to the limit of the route. *)
Definition extract {A} (limit : N) (json : Request -> result N A) (rq : Request) : result N A :=
  if limit <? len (rq_body rq) then Err PAYLOAD_TOO_LARGE else json rq.

Definition BOOTSTRAP_LIMIT : N := 65536.
Definition DEFAULT_LIMIT : N := 2097152.

(** ** The route state *)

Inductive RouteError := RouteErrDenied | RouteErrUnavailable.
#[export] Instance RouteError_eq_dec : EqDecision RouteError.
Proof. solve_decision. Defined.

Definition route_error (e : RouteRepositoryError) : RouteError :=
  match e with
  | RouteDenied | RouteReplay => RouteErrDenied
  | RouteUnavailable => RouteErrUnavailable
  end.

Definition route_error_status (e : RouteError) : N :=
  match e with RouteErrDenied => UNAUTHORIZED | RouteErrUnavailable => SERVICE_UNAVAILABLE end.

(** The two services of a [RouteState] and its signer; the repository is the state. *)
Record RouteState (S : Type) := mkRouteState {
  rs_enroll : EnrollmentSubmission -> M S EnrollmentError IssuedDeviceCredential;
  rs_provision : ProvisionDeviceRequestV1 -> M S EnrollmentError ProvisionDeviceResponseV1;
  rs_signer : ConfigurationSigner;
}.
Arguments mkRouteState {S} _ _ _.
Arguments rs_enroll {S} _ _.
Arguments rs_provision {S} _ _.
Arguments rs_signer {S} _.

Definition DEFAULT_PAYLOAD : bytes := lit "{" ++ [x22] ++ lit "preferred_drive_letter" ++ [x22]
  ++ lit ":" ++ [x22] ++ lit "P" ++ [x22] ++ lit "}".

Section Handlers.
Context `{Sha256} `{Ed25519} {S : Type} `{RouteRepositoryPort S} (state : RouteState S).

Definition make_configuration (device : bytes) (version : N) : result RouteError SignedConfigurationV1 :=
  device_id ← map_err (fun _ => RouteErrDenied) (DeviceId_parse device);
  bundle_version ← map_err (fun _ => RouteErrDenied) (BundleVersion_parse (dec version));
  envelope ← map_err (fun _ => RouteErrDenied)
    (ConfigurationEnvelopeV1_new 1 device_id bundle_version 1754568000 DEFAULT_PAYLOAD);
  let signature := signer_sign (rs_signer state) (envelope_bytes envelope) in
  map_err (fun _ => RouteErrDenied)
    (SignedConfigurationV1_new envelope (s_key_id (rs_signer state)) signature).

Definition signed_configuration_for (device : AuthenticatedDevice) : M S RouteError SignedConfigurationV1 :=
  _ ← with_error route_error (authorize_device device);
  selected ← with_error route_error (selected_configuration (ad_device_id device));
  match selected with
  | Some configuration => mret configuration
  | None =>
      configuration ← lift (make_configuration (ad_device_id device) 1);
      _ ← with_error route_error (persist_configuration (ad_device_id device) configuration);
      mret configuration
  end.

Definition record_health_for (device : AuthenticatedDevice) (drive_state : bytes) : M S RouteError unit :=
  _ ← ensure (negb (bool_decide (drive_state = [])) && (len drive_state <=? 64)) RouteErrDenied;
  _ ← with_error route_error (authorize_device device);
  with_error route_error (record_health (ad_device_id device) drive_state).

(** ** Handlers *)

(** The chunks of [decode_prior_serial] are pairs: the length is even. *)
Definition decode_prior_serial (value : option bytes) : result N (option bytes) :=
  match value with
  | None => Ok None
  | Some value =>
      if (len value <? 2) || (40 <? len value) || negb (len value mod 2 =? 0) then Err BAD_REQUEST
      else serial ← ok_or BAD_REQUEST (hex_pairs value); Ok (Some serial)
  end.

Definition bootstrap_enrollment_contract (request : BootstrapEnrollmentRequest) : M S N Response :=
  _ ← ensure (negb (negb (be_version request =? 1)
       || bool_decide (be_device_id request = []) || (128 <? len (be_device_id request))
       || bool_decide (be_token request = []) || (512 <? len (be_token request))
       || bool_decide (be_csr_pem request = []) || (65536 <? len (be_csr_pem request)))) BAD_REQUEST;
  prior_serial ← lift (decode_prior_serial (be_prior_serial request));
  submission ← lift (map_err (fun _ => BAD_REQUEST)
    (EnrollmentSubmission_new (be_device_id request) (be_token request) (be_csr_pem request) prior_serial));
  issued ← with_error (fun _ => UNAUTHORIZED) (rs_enroll state submission);
  mret (mkResponse OK (EnrollmentBody 1 (is_certificate_chain_pem issued))).

Definition admin_provisioning_contract (request : AdministratorProvisioningRequest) : M S N Response :=
  _ ← ensure (negb (negb (ap_version request =? 1) || bool_decide (ap_device_id request = [])
       || negb (len (ap_fingerprint_digest request) =? 32) || negb (len (ap_ad_object_guid request) =? 16)
       || negb ((8 <=? len (ap_ad_object_sid request)) && (len (ap_ad_object_sid request) <=? 68))
       || negb (char_is_upper (ap_preferred_drive_letter request)))) BAD_REQUEST;
  provision_request ← lift (map_err (fun _ => BAD_REQUEST)
    (ProvisionDeviceRequestV1_new 1 (ap_device_id request) 1 (ap_fingerprint_digest request)
       (ap_ad_object_guid request) (ap_ad_object_sid request) (lit "device.lab.local") (lit "LAB")
       (ap_preferred_drive_letter request)));
  let provision_request :=
    if ap_recovery request then authorize_recovery provision_request else provision_request in
  response ← with_error (fun _ => UNAUTHORIZED) (rs_provision state provision_request);
  mret (mkResponse OK (ProvisioningBody (ps_version response) (ps_device_id response)
                         (ps_enrollment_token response))).

Definition fetch_configuration (device : AuthenticatedDevice) : M S N Response :=
  configuration ← with_error route_error_status (signed_configuration_for device);
  mret (mkResponse OK (ConfigurationBody (serialize_signed_configuration configuration))).

Definition post_health (device : AuthenticatedDevice) (report : HealthRequest) : M S N Response :=
  _ ← ensure (hq_version report =? 1) BAD_REQUEST;
  _ ← with_error route_error_status (record_health_for device (hq_drive_state report));
  mret (mkResponse NO_CONTENT NoBody).

(** ** Middleware *)

Definition require_administrator (connection : TlsConnectionInfo) : M S N AuthenticatedAdmin :=
  peer ← lift (ok_or UNAUTHORIZED connection);
  lift (map_err (fun _ => UNAUTHORIZED) (admin_from_peer peer)).

Definition require_active_device (connection : TlsConnectionInfo) : M S N AuthenticatedDevice :=
  peer ← lift (ok_or UNAUTHORIZED connection);
  status ← (fun s => let '(st, s') := credential_status (pe_subject peer) (pe_serial peer) s in (Ok st, s'));
  device ← lift (map_err (fun _ => UNAUTHORIZED) (device_from_peer peer status));
  _ ← with_error (fun _ => UNAUTHORIZED) (authorize_device device);
  mret device.
End Handlers.

(** ** Dispatch *)

Section Router.
Context `{Sha256} `{Ed25519} `{RouteJson} {S : Type} `{RouteRepositoryPort S} (state : RouteState S).

(** A route: its handler behind its middleware, as a step of the store. *)
Definition route : Type := S -> Response * S.

Definition run_route (m : M S N Response) : route := fun s =>
  let '(r, s') := m s in (respond r, s').

Definition not_allowed : route := fun s => (mkResponse METHOD_NOT_ALLOWED NoBody, s).

(** [get(handler)] serves GET, and HEAD without the body; [post(handler)] POST. *)
Definition get_route (m : M S N Response) (rq : Request) : route :=
  if bool_decide (rq_method rq = lit "GET") then run_route m
  else if bool_decide (rq_method rq = lit "HEAD")
  then run_route (response ← m; mret (mkResponse (rp_status response) NoBody))
  else not_allowed.

Definition post_route (m : M S N Response) (rq : Request) : route :=
  if bool_decide (rq_method rq = lit "POST") then run_route m else not_allowed.

Definition ENROLLMENT_PATH : bytes := lit "/api/v1/enrollment".
Definition PROVISIONING_PATH : bytes := lit "/api/v1/admin/provisioning".
Definition CONFIGURATION_PATH : bytes := lit "/api/v1/device/configuration".
Definition HEALTH_PATH : bytes := lit "/api/v1/device/health".

(** The routes, each behind its layer; [None] is a path of no route here. *)
Definition api_v1_router (connection : TlsConnectionInfo) (rq : Request) : option route :=
  if bool_decide (rq_path rq = PROVISIONING_PATH) then
    Some (post_route (
      _ ← require_administrator connection;
      request ← lift (extract DEFAULT_LIMIT json_provisioning rq);
      admin_provisioning_contract state request) rq)
  else if bool_decide (rq_path rq = CONFIGURATION_PATH) then
    Some (get_route (
      device ← require_active_device connection;
      fetch_configuration state device) rq)
  else if bool_decide (rq_path rq = HEALTH_PATH) then
    Some (post_route (
      device ← require_active_device connection;
      report ← lift (extract DEFAULT_LIMIT json_health rq);
      post_health device report) rq)
  else if bool_decide (rq_path rq = ENROLLMENT_PATH) then
    Some (post_route (
      request ← lift (extract BOOTSTRAP_LIMIT json_bootstrap rq);
      bootstrap_enrollment_contract state request) rq)
  else None.
End Router.

(** ** What the routes guarantee *)

Section Guards.
Context `{Sha256} `{Ed25519} `{RouteJson} {S : Type} `{RouteLaws S} (state : RouteState S).

Definition success (status : N) : Prop := status = OK \/ status = NO_CONTENT.

(** The caller of [connection] is the device [d] with an accepted credential. *)
Definition authenticated (connection : TlsConnectionInfo) (s : S) (d : bytes) : Prop :=
  exists peer, connection = Some peer /\ pe_role peer = Device /\ pe_subject peer = d /\ d <> [] /\
    accepted (content_of s) d (pe_serial peer).

Lemma require_active_device_run connection s r s' :
  require_active_device connection s = (r, s') ->
  content_of s' = content_of s /\
  match r with
  | Ok device => authenticated connection s (ad_device_id device)
  | Err status => status = UNAUTHORIZED
  end.
Proof.
  unfold require_active_device. rewrite bind_lift. destruct connection as [peer|]; cbn [ok_or].
  2:{ by intros [= <- <-]. }
  unfold mbind at 1, M_bind at 1.
  destruct (credential_status (pe_subject peer) (pe_serial peer) s) as [st s1] eqn:Hst.
  apply status_reads in Hst as [Hc Ha]. rewrite bind_lift.
  destruct (device_from_peer peer st) as [device|] eqn:Hd; cbn [map_err]; [|by intros [= <- <-]].
  unfold device_from_peer in Hd.
  destruct (bool_decide_reflect (pe_role peer = Device)) as [Hrole|]; [|done].
  destruct (bool_decide_reflect (pe_subject peer = [])) as [|Hne]; [done|].
  destruct (bool_decide_reflect (pe_serial peer = [])) as [|Hse]; [done|].
  destruct (bool_decide_reflect (st = StatusActive)) as [Hact|]; [|done]. injection Hd as <-.
  unfold with_error, mbind, M_bind.
  destruct (authorize_device _ s1) as [[u|e] s2] eqn:Hau; apply authorize_reads in Hau as [Hc2 _];
    intros [= <- <-]; (split; [congruence|]); [|done].
  cbn. exists peer. repeat split; auto.
Qed.

(** The content differs only in what is stored for the device [d]. *)
Definition only_device (d : bytes) (s s' : S) : Prop :=
  consistent (content_of s') /\
  (forall d' t, accepted (content_of s') d' t <-> accepted (content_of s) d' t) /\
  (forall d', d' <> d -> reports (content_of s') d' = reports (content_of s) d' /\
     forall o, newest (content_of s') d' o <-> newest (content_of s) d' o).

Lemma only_device_same d s s' :
  consistent (content_of s) -> content_of s' = content_of s -> only_device d s s'.
Proof. intros Hc E. unfold only_device. rewrite E. by split_and!. Qed.

Lemma only_device_eq d s0 s s' :
  content_of s0 = content_of s -> only_device d s0 s' -> only_device d s s'.
Proof. unfold only_device. by intros ->. Qed.

Lemma signed_configuration_run device s r s' :
  consistent (content_of s) -> signed_configuration_for state device s = (r, s') ->
  only_device (ad_device_id device) s s' /\
  match r with
  | Ok c => newest (content_of s') (ad_device_id device) (Some c) /\ sc_audience c = ad_device_id device
  | Err _ => True
  end.
Proof.
  intros Hc. unfold signed_configuration_for. rewrite bind_with_error.
  destruct (authorize_device device s) as [[[]|e] s1] eqn:Hau; apply authorize_reads in Hau as [Hs1 _].
  2:{ intros [= <- <-]. split; [by apply only_device_same|done]. }
  rewrite bind_with_error.
  destruct (selected_configuration _ s1) as [[o|e] s2] eqn:Hsel;
    apply selected_reads in Hsel as [Hs2 Hsel]; try by rewrite Hs1.
  2:{ intros [= <- <-]. split; [apply only_device_same; [done|congruence]|done]. }
  destruct (Hsel o eq_refl) as [Hnew Haud]. destruct o as [c|].
  { intros [= <- <-]. split; [apply only_device_same; [done|congruence]|].
    split; [congruence|done]. }
  rewrite bind_lift. destruct (make_configuration _ _ _) as [c|e].
  2:{ intros [= <- <-]. split; [apply only_device_same; [done|congruence]|done]. }
  rewrite bind_with_error.
  destruct (persist_configuration _ c s2) as [rp s3] eqn:Hp.
  apply persist_writes in Hp as [(Ha & Hn & Hc3 & Hother & Hrep & Hacc)|(Hsame & e & ->)];
    [| |by rewrite Hs2, Hs1].
  - assert (Hod : only_device (ad_device_id device) s s3).
    { apply (only_device_eq _ s2); [congruence|]. split; [done|]. split; [done|].
      intros d' Hd. split; [done|]. intros o. by apply Hother. }
    destruct rp as [u|e]; intros [= <- <-]; by split.
  - intros [= <- <-]. split; [apply only_device_same; [done|congruence]|done].
Qed.

Lemma record_health_run device st s r s' :
  consistent (content_of s) -> record_health_for device st s = (r, s') ->
  only_device (ad_device_id device) s s' /\
  (r = Ok tt -> reports (content_of s') (ad_device_id device) =
     reports (content_of s) (ad_device_id device) ++ [st]).
Proof.
  intros Hc. unfold record_health_for. rewrite bind_ensure.
  destruct (_ && _); [|intros [= <- <-]; split; [by apply only_device_same|done]].
  rewrite bind_with_error.
  destruct (authorize_device device s) as [[[]|e] s1] eqn:Hau; apply authorize_reads in Hau as [Hs1 _].
  2:{ intros [= <- <-]. split; [by apply only_device_same|done]. }
  unfold with_error. destruct (record_health _ st s1) as [rh s2] eqn:Hh.
  apply health_writes in Hh as [(Hc2 & Hrep & Hnew & Hacc)|(Hsame & e & ->)]; [| |by rewrite Hs1].
  - intros [= <- <-]. rewrite Hs1 in *. split.
    + split; [done|]. split; [done|]. intros d' Hd. split; [|done].
      by rewrite Hrep, bool_decide_eq_false_2.
    + intros _. by rewrite Hrep, bool_decide_eq_true_2.
  - intros [= <- <-]. split; [apply only_device_same; [done|congruence]|done].
Qed.

(** A device route behind its middleware. *)
Lemma device_layer connection (k : AuthenticatedDevice -> M S N Response) s r s' :
  consistent (content_of s) ->
  (forall device s1 r1 s1', consistent (content_of s1) -> k device s1 = (r1, s1') ->
     only_device (ad_device_id device) s1 s1') ->
  (device ← require_active_device connection; k device) s = (r, s') ->
  (content_of s' = content_of s /\ r = Err UNAUTHORIZED) \/
  exists device s1, authenticated connection s (ad_device_id device) /\
    content_of s1 = content_of s /\ k device s1 = (r, s') /\ only_device (ad_device_id device) s s'.
Proof.
  intros Hc Hk [(device & s1 & Hreq & Hrun)|(e & Hreq & ->)]%bind_run;
    apply require_active_device_run in Hreq as [Hs Hau]; [|left; by rewrite Hau].
  right. exists device, s1. split_and!; [done..|].
  apply (only_device_eq _ s1); [done|]. eapply Hk; [|done]. by rewrite Hs.
Qed.

(** What a route hands out: the newest configuration of the caller, for the caller. *)
Definition body_for (d : bytes) (s' : S) (b : Body) : Prop :=
  match b with
  | ConfigurationBody content =>
      exists c, content = serialize_signed_configuration c /\
        newest (content_of s') d (Some c) /\ sc_audience c = d
  | _ => True
  end.

Lemma fetch_configuration_run device s r s' :
  consistent (content_of s) -> fetch_configuration state device s = (r, s') ->
  only_device (ad_device_id device) s s' /\
  body_for (ad_device_id device) s' (rp_body (respond r)).
Proof.
  intros Hc. unfold fetch_configuration. rewrite bind_with_error.
  destruct (signed_configuration_for state device s) as [[c|e] s1] eqn:Hs;
    apply signed_configuration_run in Hs as [Ho Hr]; try done; intros [= <- <-]; split; try done.
  cbn. by exists c.
Qed.

Lemma post_health_run device report s r s' :
  consistent (content_of s) -> post_health device report s = (r, s') ->
  only_device (ad_device_id device) s s'.
Proof.
  intros Hc. unfold post_health. rewrite bind_ensure.
  destruct (hq_version report =? 1); [|intros [= <- <-]; by apply only_device_same].
  rewrite bind_with_error. destruct (record_health_for device _ s) as [[u|e] s1] eqn:Hs;
    apply record_health_run in Hs as [Ho _]; try done; by intros [= <- <-].
Qed.

(** A route runs its handler, or refuses the method. *)
Definition answers_with (m : M S N Response) (s : S) (response : Response) (s' : S) : Prop :=
  (s' = s /\ response = mkResponse METHOD_NOT_ALLOWED NoBody) \/
  exists r, m s = (r, s') /\ rp_status response = rp_status (respond r) /\
    (rp_body response = rp_body (respond r) \/ rp_body response = NoBody).

Lemma run_route_run m s response s' :
  run_route m s = (response, s') -> answers_with m s response s'.
Proof. unfold run_route. destruct (m s) as [r s1] eqn:Hm. intros [= <- <-]. right. eauto. Qed.

Lemma get_route_run m rq s response s' :
  get_route m rq s = (response, s') -> answers_with m s response s'.
Proof.
  unfold get_route. destruct (bool_decide _); [apply run_route_run|].
  destruct (bool_decide _); [|intros [= <- <-]; by left].
  unfold run_route, mbind, M_bind. destruct (m s) as [[b|e] s1] eqn:Hm; intros [= <- <-]; right; eauto.
Qed.

Lemma post_route_run m rq s response s' :
  post_route m rq s = (response, s') -> answers_with m s response s'.
Proof.
  unfold post_route. destruct (bool_decide _); [apply run_route_run|]. intros [= <- <-]. by left.
Qed.

(** C19.  Whatever the connection and the request, a device route answers with
    success, hands out a configuration or changes the store only for a caller whose
    connection proved the private key of a device certificate with a serial the
    store accepts for that very device; only that device's data change, which
    credentials are accepted does not, and a configuration it hands out is the
    newest one stored for that device.  Any other caller gets 401, or 405 for the
    wrong method, and leaves the store as it was. *)
Theorem device_routes_guarded connection rq step s response s' :
  consistent (content_of s) ->
  rq_path rq = CONFIGURATION_PATH \/ rq_path rq = HEALTH_PATH ->
  api_v1_router state connection rq = Some step -> step s = (response, s') ->
  (content_of s' = content_of s /\ rp_body response = NoBody /\
   (rp_status response = UNAUTHORIZED \/ rp_status response = METHOD_NOT_ALLOWED)) \/
  exists d, authenticated connection s d /\ only_device d s s' /\ body_for d s' (rp_body response).
Proof.
  intros Hc Hpath Hroute Hstep. unfold api_v1_router in Hroute.
  assert (Hlayer : forall k, answers_with (device ← require_active_device connection; k device) s response s' ->
    (forall device s1 r1 s1', consistent (content_of s1) -> k device s1 = (r1, s1') ->
       only_device (ad_device_id device) s1 s1' /\ body_for (ad_device_id device) s1' (rp_body (respond r1))) ->
    (content_of s' = content_of s /\ rp_body response = NoBody /\
      (rp_status response = UNAUTHORIZED \/ rp_status response = METHOD_NOT_ALLOWED)) \/
    exists d, authenticated connection s d /\ only_device d s s' /\ body_for d s' (rp_body response)).
  { intros k [(-> & ->)|(r & Hrun & Hst & Hbody)] Hk; [left; by split_and!; [..|right]|].
    eapply device_layer in Hrun as [(Hs & ->)|(device & s1 & Hau & Hs1 & Hrun & Ho)];
      [..|done|intros; by eapply Hk].
    - left. split; [done|]. split; [by destruct Hbody|by left].
    - right. exists (ad_device_id device). split; [done|]. split; [done|].
      destruct Hbody as [->| ->]; [|done]. eapply Hk; [|done]. by rewrite Hs1. }
  destruct Hpath as [Hpath|Hpath]; rewrite Hpath in Hroute; vm_compute bool_decide in Hroute;
    injection Hroute as <-.
  - apply get_route_run, Hlayer in Hstep; [done|]. intros. by apply fetch_configuration_run.
  - apply post_route_run in Hstep. apply (Hlayer (fun device => _)) in Hstep; [done|].
    intros device s1 r1 s1' Hc1. rewrite bind_lift.
    destruct (extract _ _ rq) as [report|e].
    + intros Hp. apply post_health_run in Hp as Ho; [|done]. split; [done|].
      unfold post_health in Hp. rewrite bind_ensure in Hp. destruct (_ =? 1); [|by injection Hp as <- <-].
      rewrite bind_with_error in Hp. by destruct (record_health_for _ _ s1) as [[] ?]; injection Hp as <- <-.
    + intros [= <- <-]. split; [by apply only_device_same|done].
Qed.

Lemma require_administrator_run connection s r s' :
  require_administrator (S := S) connection s = (r, s') ->
  s' = s /\
  match r with
  | Ok _ => exists peer, connection = Some peer /\ pe_role peer = Administrator /\ pe_subject peer <> []
  | Err status => status = UNAUTHORIZED
  end.
Proof.
  unfold require_administrator. rewrite bind_lift. destruct connection as [peer|]; cbn [ok_or].
  2:{ by intros [= <- <-]. }
  unfold lift, admin_from_peer.
  destruct (bool_decide_reflect (pe_role peer = Administrator)) as [Hrole|],
    (bool_decide_reflect (pe_subject peer = [])) as [|Hne]; cbn; intros [= <- <-]; split; try done.
  by exists peer.
Qed.

(** The provisioning route runs its handler only for a connection whose peer
    is an administrator; any other caller gets 401, or 405 for the wrong method, and
    the state is the one it found. *)
Theorem admin_route_guarded connection rq step s response s' :
  rq_path rq = PROVISIONING_PATH ->
  api_v1_router state connection rq = Some step -> step s = (response, s') ->
  (s' = s /\ rp_body response = NoBody /\
   (rp_status response = UNAUTHORIZED \/ rp_status response = METHOD_NOT_ALLOWED)) \/
  exists peer, connection = Some peer /\ pe_role peer = Administrator /\ pe_subject peer <> [].
Proof.
  intros Hpath Hroute Hstep. unfold api_v1_router in Hroute. rewrite Hpath in Hroute.
  vm_compute bool_decide in Hroute. injection Hroute as <-.
  apply post_route_run in Hstep as [(-> & ->)|(r & Hrun & Hst & Hbody)]; [left; by split_and!; [..|right]|].
  apply bind_run in Hrun as [(admin & s1 & Hreq & _)|(e & Hreq & ->)];
    apply require_administrator_run in Hreq as [-> Hreq]; [by right|].
  left. rewrite Hreq in *. by destruct Hbody; split_and!; auto.
Qed.
End Guards.

(** ** Witnesses: the mutex-backed store with one accepted device *)

From S2P Require Import Toy.

Definition sample_json : RouteJson := {|
  json_bootstrap rq := Err BAD_REQUEST;
  json_provisioning rq := Err BAD_REQUEST;
  json_health rq := Ok (mkHealthRequest 1 (rq_body rq));
|}.

Definition sample_store : RouteDevices := mem_activate_device 0 (lit "pc.lab") [x07] ∅.

Definition sample_routes : RouteState RouteDevices :=
  mkRouteState (fun _ s => (Err EnrollDenied, s)) (fun _ s => (Err EnrollDenied, s))
    (mkSigner (lit "phase1-runtime") (replicate 32 x09)).

Definition sample_request (method path body : bytes) : Request := mkRequest method path None body.

Lemma sample_consistent : consistent (content_of sample_store).
Proof.
  intros d r v c Hr Hc. change (mem_activate_device 0 (lit "pc.lab") [x07] ∅ !! d = Some r) in Hr.
  unfold mem_activate_device in Hr. rewrite lookup_empty in Hr.
  apply lookup_insert_Some in Hr as [(_ & <-)|(_ & Hr)]; [|by rewrite lookup_empty in Hr].
  cbn in Hc. by rewrite lookup_empty in Hc.
Qed.

#[local] Existing Instance sample_json.

(** The device asks for its configuration and gets one. *)
Definition sample_answer : Response * RouteDevices :=
  match api_v1_router sample_routes (Some (mkPeer Device (lit "pc.lab") [x07]))
          (sample_request (lit "GET") CONFIGURATION_PATH []) with
  | Some step => step sample_store
  | None => (mkResponse NOT_FOUND NoBody, sample_store)
  end.

Lemma device_routes_guarded_witness :
  rp_status (fst sample_answer) = OK /\
  ((content_of (snd sample_answer) = content_of sample_store /\ rp_body (fst sample_answer) = NoBody /\
    (rp_status (fst sample_answer) = UNAUTHORIZED \/ rp_status (fst sample_answer) = METHOD_NOT_ALLOWED)) \/
   exists d, authenticated (Some (mkPeer Device (lit "pc.lab") [x07])) sample_store d /\
     only_device d sample_store (snd sample_answer) /\
     body_for d (snd sample_answer) (rp_body (fst sample_answer))).
Proof.
  split; [vm_compute; reflexivity|].
  refine (device_routes_guarded sample_routes (Some (mkPeer Device (lit "pc.lab") [x07]))
    (sample_request (lit "GET") CONFIGURATION_PATH []) _ sample_store _ _ sample_consistent
    (or_introl eq_refl) eq_refl _).
  apply surjective_pairing.
Defined.

(** A device is no administrator. *)
Lemma admin_route_guarded_witness :
  exists response s', post_route (_ ← require_administrator (Some (mkPeer Device (lit "pc.lab") [x07]));
      request ← lift (extract DEFAULT_LIMIT json_provisioning (sample_request (lit "POST") PROVISIONING_PATH []));
      admin_provisioning_contract sample_routes request)
    (sample_request (lit "POST") PROVISIONING_PATH []) sample_store = (response, s') /\
  ((s' = sample_store /\ rp_body response = NoBody /\
    (rp_status response = UNAUTHORIZED \/ rp_status response = METHOD_NOT_ALLOWED)) \/
   exists peer, Some (mkPeer Device (lit "pc.lab") [x07]) = Some peer /\
     pe_role peer = Administrator /\ pe_subject peer <> []).
Proof.
  exists (mkResponse UNAUTHORIZED NoBody), sample_store. split; [reflexivity|].
  exact (admin_route_guarded sample_routes (Some (mkPeer Device (lit "pc.lab") [x07]))
    (sample_request (lit "POST") PROVISIONING_PATH []) _ sample_store _ _ eq_refl eq_refl eq_refl).
Defined.
