(* ===== verification/Server.v ===== *)
(** * Server

    The composition of the server (crates/dlp-server/src/lib.rs, health.rs and
    main.rs): validation of the deployment environment and of the providers, the
    order in which a server starts, readiness, and the application built from the
    routes. *)

From S2P Require Import Prelude Bytes Text Effects Domain Crypto Protocol ConfigCache Tls Directory Ledger Authority Enrollment RouteStore Routes.

Inductive ServerError :=
| MissingDatabaseUrl
| MissingProvider (provider : bytes)
| DatabaseUnavailable
| MigrationFailed
| ListenerFailed
| ServeFailed
| InvalidEnvironmentFile.
#[export] Instance ServerError_eq_dec : EqDecision ServerError.
Proof. solve_decision. Defined.

Definition ServerError_code (e : ServerError) : bytes :=
  match e with
  | MissingDatabaseUrl => lit "server_config_invalid"
  | MissingProvider _ => lit "server_provider_missing"
  | DatabaseUnavailable => lit "server_database_unavailable"
  | MigrationFailed => lit "server_migration_failed"
  | ListenerFailed => lit "server_listener_failed"
  | ServeFailed => lit "server_serve_failed"
  | InvalidEnvironmentFile => lit "server_environment_invalid"
  end.

(** ** The environment *)

Definition required_variables : list bytes :=
  [lit "DATABASE_URL"; lit "DLP_AD_PRIMARY_LDAPS_URL"; lit "DLP_AD_SECONDARY_LDAPS_URL";
   lit "DLP_AD_BASE_DN"; lit "DLP_AD_BIND_DN"; lit "DLP_AD_BIND_PASSWORD"; lit "DLP_AD_DOMAIN";
   lit "DLP_AD_CA_CERT_PEM"; lit "DLP_SERVER_CERT_PEM"; lit "DLP_SERVER_KEY_PEM";
   lit "DLP_ADMIN_CA_CERT_PEM"; lit "DLP_PHASE1_ROOT_CA_CERT_PEM";
   lit "DLP_DEVICE_ISSUING_CA_CERT_PEM"; lit "DLP_DEVICE_ISSUING_CA_KEY_PEM";
   lit "DLP_CONFIGURATION_SIGNING_KEY_SEED_HEX"].

(** [check_environment_file] on the file at [path]. *)
Definition check_environment_file (h : Host) (path : bytes) : result ServerError unit :=
  source ← ok_or InvalidEnvironmentFile (read_text h path);
  if existsb (fun key => negb (existsb (starts_with (key ++ lit "=")) (lines source))) required_variables
     || contains (lit "DLP_PHASE1_ROOT_CA_KEY") source
  then Err InvalidEnvironmentFile else Ok tt.

Definition required_environment (h : Host) (name : bytes) : result ServerError bytes :=
  ok_or (MissingProvider name) (filtered (fun v => negb (bool_decide (v = []))) (env_var h name)).

(** A computation that returns or panics. *)
Inductive may_panic (A : Type) := Returns (a : A) | Panics.
Arguments Returns {A} _.
Arguments Panics {A}.

(** The slices [value[2i..2i+2]]: a slice that does not start and end between two
    characters panics; otherwise the pair is read, and the first that is no number
    ends the loop. *)
Fixpoint hex_slices (s : bytes) : may_panic (option bytes) :=
  match s with
  | a :: b :: rest =>
      if is_cont a || (match rest with c :: _ => is_cont c | [] => false end) then Panics
      else match parse_hex_u8 a b with
           | None => Returns None
           | Some x =>
               match hex_slices rest with
               | Returns (Some l) => Returns (Some (x :: l))
               | r => r
               end
           end
  | _ => Returns (Some [])
  end.

Definition signer_missing : ServerError := MissingProvider (lit "configuration_signer").

Definition decode_signing_seed (value : bytes) : may_panic (result ServerError bytes) :=
  if negb (len value =? 64) then Returns (Err signer_missing)
  else match hex_slices value with
       | Returns o => Returns (ok_or signer_missing o)
       | Panics => Panics
       end.

(** ** Providers *)

Record ProductionProviders := mkProviders {
  pv_directory_verifier : bool;
  pv_certificate_issuer : bool;
  pv_configuration_signer : bool;
  pv_repository : bool;
  pv_enrollment_service : bool;
  pv_provisioning_service : bool;
  pv_clock : bool;
}.

Definition require_provider (present : bool) (name : string) : result ServerError unit :=
  if present then Ok tt else Err (MissingProvider (lit name)).

Definition validate_providers (p : ProductionProviders) : result ServerError unit :=
  _ ← require_provider (pv_directory_verifier p) "directory_verifier";
  _ ← require_provider (pv_certificate_issuer p) "certificate_issuer";
  _ ← require_provider (pv_configuration_signer p) "configuration_signer";
  _ ← require_provider (pv_repository p) "repository";
  _ ← require_provider (pv_enrollment_service p) "enrollment_service";
  _ ← require_provider (pv_provisioning_service p) "provisioning_service";
  require_provider (pv_clock p) "clock".

(** What [from_environment] builds: the directory adapter, the issuer and the
    signing seed; a panic of the seed decoder is a panic of the start. *)
Record Production := mkProduction {
  pd_directory : LdapDirectoryAdapter;
  pd_issuer : RcgenDeviceCertificateIssuer;
  pd_signer : ConfigurationSigner;
}.

(** [pool_url_valid] is what [connect_lazy] makes of the database URL. *)
Definition ProductionProviders_from_environment (h : Host) (pool_url_valid : bool) :
    may_panic (result ServerError Production) :=
  let before :=
    directory ← map_err (fun _ => MissingProvider (lit "directory_verifier"))
                  (LdapDirectoryAdapter_from_environment h);
    _ ← (if pool_url_valid then Ok tt else Err DatabaseUnavailable);
    root ← required_environment h (lit "DLP_PHASE1_ROOT_CA_CERT_PEM");
    certificate ← required_environment h (lit "DLP_DEVICE_ISSUING_CA_CERT_PEM");
    key ← required_environment h (lit "DLP_DEVICE_ISSUING_CA_KEY_PEM");
    issuer ← map_err (fun _ => MissingProvider (lit "certificate_issuer"))
               (RcgenDeviceCertificateIssuer_new root certificate key None);
    seed_hex ← required_environment h (lit "DLP_CONFIGURATION_SIGNING_KEY_SEED_HEX");
    Ok (directory, issuer, seed_hex) in
  match before with
  | Err e => Returns (Err e)
  | Ok (directory, issuer, seed_hex) =>
      match decode_signing_seed seed_hex with
      | Panics => Panics
      | Returns (Err e) => Returns (Err e)
      | Returns (Ok seed) =>
          Returns (_ ← map_err (fun _ => MissingProvider (lit "tls_paths")) (TlsPaths_from_environment h);
                   Ok (mkProduction directory issuer (mkSigner (lit "phase1-runtime") seed)))
      end
  end.

(** ** Readiness *)

Record ReadinessDependencies := mkReadiness {
  rd_database : bool;
  rd_migration_ledger : bool;
  rd_signer : bool;
  rd_device_issuer : bool;
  rd_tls_material : bool;
  rd_ad_primary : bool;
  rd_ad_secondary : bool;
}.

Definition none_ready : ReadinessDependencies :=
  mkReadiness false false false false false false false.
Definition all_ready : ReadinessDependencies := mkReadiness true true true true true true true.

Record ReadinessReport := mkReport { rr_status : N; rr_missing : list bytes }.

Definition liveness : N := OK.

Definition readiness (d : ReadinessDependencies) : ReadinessReport :=
  let push (present : bool) (name : string) := if present then [] else [lit name] in
  let missing :=
    push (rd_database d) "database" ++ push (rd_migration_ledger d) "migration_ledger"
    ++ push (rd_signer d) "signer" ++ push (rd_device_issuer d) "device_issuer"
    ++ push (rd_tls_material d) "tls_material" ++ push (rd_ad_primary d) "ad_primary"
    ++ push (rd_ad_secondary d) "ad_secondary" in
  mkReport (if bool_decide (missing = []) then OK else SERVICE_UNAVAILABLE) missing.

Definition health_live : Response := mkResponse OK (HealthBody (lit "ok")).

Definition health_ready (d : ReadinessDependencies) : Response :=
  let report := readiness d in
  mkResponse (rr_status report)
    (HealthBody (if rr_status report =? OK then lit "ok" else lit "not_ready")).

(** ** The application *)

Record ServerState (S : Type) := mkServerState {
  sv_route_state : RouteState S;
  sv_readiness : ReadinessDependencies;
}.
Arguments mkServerState {S} _ _.
Arguments sv_route_state {S} _.
Arguments sv_readiness {S} _.

(** [ServerState::production]. *)
Definition ServerState_production {S} (providers : ProductionProviders) (routes : RouteState S) :
    result ServerError (ServerState S) :=
  _ ← validate_providers providers;
  Ok (mkServerState routes all_ready).

Section App.
Context `{Sha256} `{Ed25519} `{RouteJson} {S : Type} `{RouteRepositoryPort S} (state : ServerState S).

Definition build_app (connection : TlsConnectionInfo) (rq : Request) : S -> Response * S :=
  if bool_decide (rq_path rq = lit "/health/live") then get_route (mret health_live) rq
  else if bool_decide (rq_path rq = lit "/health/ready")
  then get_route (mret (health_ready (sv_readiness state))) rq
  else if bool_decide (rq_path rq = lit "/api/v1/tracer")
  then get_route (mret (mkResponse NO_CONTENT NoBody)) rq
  else match api_v1_router (sv_route_state state) connection rq with
       | Some step => step
       | None => fun s => (mkResponse NOT_FOUND NoBody, s)
       end.
End App.

(** ** Start *)

(** What a start does, in order; the outcome of each step outside the crate is
    given by the environment. *)
Inductive start_event := Validated | Connected | Migrated | Bound | Served.

Record StartOutcomes := mkOutcomes {
  so_connect : bool;
  so_migrate : bool;
  so_bind : bool;
  so_serve : bool;
}.

Abbreviation start_m := (M (list start_event) ServerError).

Definition start_step (ok : bool) (e : ServerError) (v : start_event) : start_m unit :=
  _ ← ensure ok e; modify (fun l => l ++ [v]).

Section Start.
Context `{Certificates}.

Definition run_server {S} (h : Host) (providers : ProductionProviders) (routes : RouteState S)
    (o : StartOutcomes) : start_m unit :=
  _ ← lift (ServerState_production providers routes);
  _ ← modify (fun l => l ++ [Validated]);
  _ ← start_step (so_connect o) DatabaseUnavailable Connected;
  _ ← start_step (so_migrate o) MigrationFailed Migrated;
  _ ← start_step (so_bind o) ListenerFailed Bound;
  paths ← lift (map_err (fun _ => ListenerFailed) (TlsPaths_from_environment h));
  _ ← lift (map_err (fun _ => ListenerFailed) (server_config h paths));
  _ ← lift (map_err (fun _ => ListenerFailed) (identity_roots h paths));
  start_step (so_serve o) ServeFailed Served.
End Start.

(** [run_migrations_from_environment]: connect, then the ledger. *)
Definition run_migrations_from_environment (h : Host) (o : StartOutcomes) : start_m unit :=
  _ ← lift (ok_or MissingDatabaseUrl (env_var h (lit "DATABASE_URL")));
  _ ← start_step (so_connect o) DatabaseUnavailable Connected;
  start_step (so_migrate o) MigrationFailed Migrated.

(** [main]: the arguments after the program name choose the mode. *)
Inductive server_mode := CheckConfig (env_file : bytes) | MigrateOnly | Serve | NoEnvFile.

Fixpoint env_file_argument (arguments : list bytes) : option bytes :=
  match arguments with
  | a :: ((b :: _) as rest) => if bool_decide (a = lit "--env-file") then Some b else env_file_argument rest
  | _ => None
  end.

Definition server_main (arguments : list bytes) : server_mode :=
  match arguments with
  | a :: _ =>
      if bool_decide (a = lit "--check-config")
      then match env_file_argument arguments with Some f => CheckConfig f | None => NoEnvFile end
      else if bool_decide (a = lit "--migrate-only") then MigrateOnly else Serve
  | [] => Serve
  end.

(** ** What a start guarantees *)

Definition start_order : list start_event := [Validated; Connected; Migrated; Bound; Served].

Section Order.
Context `{Certificates}.

(** A start does its steps in order and stops at the first that fails: the
    listener is bound only after the database is connected and its migrations are
    applied, the application is served only when all of it succeeded, and nothing
    happens without a full set of providers. *)
Theorem run_server_order {S} h providers (routes : RouteState S) o r log :
  run_server h providers routes o [] = (r, log) ->
  log `prefix_of` start_order /\ (r = Ok tt <-> log = start_order) /\
  (log <> [] <-> validate_providers providers = Ok tt).
Proof.
  unfold run_server, ServerState_production. generalize (TlsPaths_from_environment h). intros material.
  unfold start_step, lift, modify, ensure, mbind, M_bind.
  destruct (validate_providers providers) as [[]|e]; cbn.
  2:{ intros E. injection E as Er El. subst. split; [apply prefix_nil|]. by split. }
  destruct o as [[] [] [] []], material as [paths|]; cbn;
    try (destruct (server_config h paths); cbn); try (destruct (identity_roots h paths); cbn);
    intros E; injection E as Er El; subst; (split; [by eexists|by split]).
Qed.
End Order.

(** A start that cannot bind its listener. *)
Definition sample_providers : ProductionProviders := mkProviders true true true true true true true.
Definition sample_state : RouteState unit :=
  mkRouteState (fun _ s => (Err EnrollDenied, s)) (fun _ s => (Err EnrollDenied, s)) (mkSigner [] []).
Definition sample_start : result ServerError unit * list start_event :=
  run_server (H := sample_certificates) (mkHost (fun _ => None) (fun _ => None)) sample_providers
    sample_state (mkOutcomes true true false true) [].

Lemma run_server_order_witness :
  snd sample_start = [Validated; Connected; Migrated] /\ snd sample_start `prefix_of` start_order.
Proof.
  split; [reflexivity|].
  exact (proj1 (run_server_order (H := sample_certificates) (mkHost (fun _ => None) (fun _ => None))
    sample_providers sample_state (mkOutcomes true true false true) (fst sample_start) (snd sample_start)
    (surjective_pairing sample_start))).
Defined.
