(* ===== verification/ServerToy.v ===== *)
(** * ServerToy

    Concrete stand-ins for the directory and the JSON extractor that the server
    calls, with which the theorems about the server are run on concrete requests.
    Every request body is about one device. *)

From S2P Require Import Prelude Bytes Text Crypto Toy Tls Directory Enrollment Routes Server.

Definition toy_device : bytes := lit "pc.lab".

Definition toy_roots : IdentityRoots := mkRoots (lit "A") (lit "D").

(** Every controller knows the device. *)
Definition toy_entry : SearchEntry :=
  mkEntry (<[lit "dNSHostName" := [toy_device]]> {[lit "userAccountControl" := [lit "4096"]]})
    (<[lit "objectGUID" := [replicate 16 x01]]> {[lit "objectSid" := [replicate 12 x02]]}).

Definition toy_ldap : Ldap := {|
  ldap_client_config _ := true;
  ldap_connect _ := true;
  ldap_bind _ _ _ := true;
  ldap_search _ _ _ := Some [toy_entry];
|}.

Definition toy_lower : StrLower := fun s => s.

(** The token of an enrollment and the state of a report are the whole body; the
    body of a provisioning says whether recovery is authorized. *)
Definition toy_json : RouteJson := {|
  json_bootstrap rq := Ok (mkBootstrap 1 toy_device (rq_body rq) (lit "csr") None);
  json_provisioning rq :=
    Ok (mkAdminRequest 1 toy_device (replicate 32 x03) (replicate 16 x01) (replicate 12 x02) 80
          (bool_decide (rq_body rq = lit "recover")));
  json_health rq := Ok (mkHealthRequest 1 (rq_body rq));
|}.

Definition toy_host : Host := mkHost (fun _ => None) (fun path => Some path).

Definition toy_adapter : LdapDirectoryAdapter :=
  mkDirectoryAdapter (mkDirectoryVerifier (lit "ldaps://a.lab") (lit "ldaps://b.lab") (lit "DC=lab"))
    (lit "CN=svc") (lit "pw") (lit "ad.pem") (lit "LAB") 10.

Definition toy_production : Production :=
  mkProduction toy_adapter (mkIssuer (lit "root.pem") (lit "ca.pem") (lit "ca.key"))
    (mkSigner (lit "phase1-runtime") (replicate 32 x09)).

Definition toy_admin : TlsConnectionInfo := Some (mkPeer Administrator (lit "root") [x01]).
Definition toy_uuid (b : byte) : bytes := b :: replicate 15 x05.
Definition toy_peer (serial : bytes) : PeerIdentity := mkPeer Device toy_device serial.

Definition toy_post (path body : bytes) : Request := mkRequest (lit "POST") path None body.
Definition toy_get (path : bytes) : Request := mkRequest (lit "GET") path None [].
