(* ===== verification/Production.v ===== *)
(** * Production

    The composed server of a deployment: the router of crates/dlp-server/src/lib.rs
    over the PostgreSQL repositories, the directory verifier and the issuer that
    [ProductionProviders::from_environment] assembles.  The theorems are about every
    sequence of requests, of any callers, under any plan of database failures: the
    invariant of the ledger, how many certificates a device can obtain, that a
    revoked credential stays revoked, and what the device routes answer. *)

From S2P Require Import Prelude Bytes Text Effects Domain Crypto Protocol ConfigCache Tls Directory Ledger Authority Enrollment Issuance RouteStore Routes Server.

(** ** The production composition *)

Record Deployment := mkDeployment {
  dp_host : Host;
  dp_production : Production;
}.

Section Composition.
Context `{Sha256} `{Ed25519} `{RouteJson} `{Rcgen} `{Ldap} `{StrLower} (deployment : Deployment).

(** The services of [from_environment] over one pool; the database's clock, the
    process's clock and the random UUID of a request are arguments. *)
Definition production_routes (now : N) (clock : Z * Z) (uuid : bytes) : RouteState Pool :=
  mkRouteState
    (enroll (dp_host deployment) (pd_issuer (dp_production deployment))
       (corroborate_computer (dp_host deployment) (pd_directory (dp_production deployment)))
       now clock uuid)
    (admin_provision now uuid)
    (pd_signer (dp_production deployment)).

Definition production_app (now : N) (clock : Z * Z) (uuid : bytes) (connection : TlsConnectionInfo)
    (rq : Request) : Pool -> Response * Pool :=
  build_app (mkServerState (production_routes now clock uuid) all_ready) connection rq.

(** A server that has just migrated an empty database. *)
Definition fresh_pool (plan : N -> reply) : Pool := mkPool migrated plan 0.
End Composition.

(** ** The invariant of the production ledger *)

(** No device is on the allow list, so nothing that refers to it is stored. *)
Definition bare (l : Ledger) : Prop :=
  device_allowlist l = ∅ /\ signed_configurations l = [] /\ health_reports l = [].

Lemma provisioned_bare now q dg l l' : bare l -> provisioned now q dg l l' -> bare l'.
Proof.
  intros Hb (r & -> & _). unfold before_token.
  destruct (enrollment_authority l !! _) as [r0|]; [|done].
  destruct (au_active_serial r0); [|done]. by destruct (pr_recovery q).
Qed.

Lemma activated_bare now t d dg cert prior l l' :
  bare l -> activated now t d dg cert prior l l' -> bare l'.
Proof. intros Hb (r & _ & _ & _ & ->). by destruct prior. Qed.

(** A computation that writes nothing to a bare ledger. *)
Definition idle {E A} (m : M Pool E A) : Prop :=
  forall p, bare (pl_ledger p) -> pl_ledger (snd (m p)) = pl_ledger p.

Lemma idle_ret {E A} (a : A) : idle (mret (M := M Pool E) a).
Proof. by intros p. Qed.
Lemma idle_lift {E A} (r : result E A) : idle (lift r).
Proof. by intros p. Qed.
Lemma idle_ensure {E} c (e : E) : idle (ensure c e).
Proof. intros p _. unfold ensure. by destruct c. Qed.
Lemma idle_bind {E A B} (m : M Pool E A) (k : A -> M Pool E B) :
  idle m -> (forall a, idle (k a)) -> idle (m ≫= k).
Proof.
  intros Hm Hk p Hb. unfold mbind, M_bind. specialize (Hm p Hb).
  destruct (m p) as [[a|e] p1]; cbn in *; [|done].
  rewrite <- Hm. apply Hk. by rewrite Hm.
Qed.
Lemma idle_with_error {E F A} (f : E -> F) (m : M Pool E A) : idle m -> idle (with_error f m).
Proof. intros Hm p Hb. unfold with_error. specialize (Hm p Hb). by destruct (m p). Qed.
Lemma idle_execute {E A} (e : E) (stmt : statement A) :
  (forall l a l', bare l -> stmt l = Some (a, l') -> l' = l) -> idle (execute e stmt).
Proof.
  intros Hs p Hb. unfold execute, exchange.
  destruct (pl_plan p _), (stmt (pl_ledger p)) as [[a l]|] eqn:Hx; cbn; try done; by apply Hs in Hx.
Qed.

#[local] Hint Resolve idle_ret idle_lift idle_ensure idle_with_error : dlp.

Lemma insert_health_bare d st l : bare l -> insert_health d st l = None.
Proof.
  intros (Ha & _). unfold insert_health. rewrite Ha.
  rewrite (bool_decide_eq_false_2 (d ∈ ∅)) by set_solver. by rewrite andb_false_r.
Qed.

Lemma insert_configuration_bare r l : bare l -> insert_configuration r l = None.
Proof.
  intros (Ha & _). unfold insert_configuration. rewrite Ha.
  rewrite (bool_decide_eq_false_2 (_ ∈ ∅)) by set_solver. by rewrite andb_false_r.
Qed.

Lemma idle_status d s : forall p, bare (pl_ledger p) ->
  pl_ledger (snd (pg_credential_status d s p)) = pl_ledger p.
Proof.
  intros p _. destruct (pg_credential_status d s p) as [st p'] eqn:Hs.
  cbn. by apply pg_status_reads in Hs as [-> _].
Qed.

Section Bare.
Context `{Sha256} `{Ed25519} `{RouteJson} (state : RouteState Pool).

Lemma idle_authorize device : idle (authorize_device device).
Proof.
  intros p Hb. cbn. unfold authorize_with.
  pose proof (idle_status (ad_device_id device) (ad_credential_serial device) p Hb) as Hs.
  by destruct (pg_credential_status _ _ p).
Qed.

Lemma idle_active_device connection : idle (require_active_device connection).
Proof.
  unfold require_active_device. apply idle_bind; [auto with dlp|]. intros peer.
  apply idle_bind.
  { intros p Hb. pose proof (idle_status (pe_subject peer) (pe_serial peer) p Hb) as Hs. cbn.
    by destruct (pg_credential_status _ _ p). }
  intros st. apply idle_bind; [auto with dlp|]. intros device.
  apply idle_bind; [apply idle_with_error, idle_authorize|auto with dlp].
Qed.

(** A computation that fails on a bare ledger and leaves it. *)
Definition stuck {E A} (m : M Pool E A) : Prop :=
  forall p, bare (pl_ledger p) -> (exists e, fst (m p) = Err e) /\ pl_ledger (snd (m p)) = pl_ledger p.

Lemma stuck_idle {E A} (m : M Pool E A) : stuck m -> idle m.
Proof. intros Hm p Hb. by destruct (Hm p Hb). Qed.
Lemma stuck_bind {E A B} (m : M Pool E A) (k : A -> M Pool E B) :
  idle m -> (forall a, stuck (k a)) -> stuck (m ≫= k).
Proof.
  intros Hm Hk p Hb. unfold mbind, M_bind. specialize (Hm p Hb).
  destruct (m p) as [[a|e] p1]; cbn in *; [|eauto]. rewrite <- Hm. apply Hk. by rewrite Hm.
Qed.
Lemma stuck_stop {E A B} (m : M Pool E A) (k : A -> M Pool E B) : stuck m -> stuck (m ≫= k).
Proof.
  intros Hm p Hb. unfold mbind, M_bind. destruct (Hm p Hb) as [[e He] Hl].
  destruct (m p) as [[a|e'] p1]; cbn in *; [done|eauto].
Qed.
Lemma stuck_with_error {E F A} (f : E -> F) (m : M Pool E A) : stuck m -> stuck (with_error f m).
Proof.
  intros Hm p Hb. unfold with_error. destruct (Hm p Hb) as [[e He] Hl].
  destruct (m p) as [[a|e'] p1]; cbn in *; [done|eauto].
Qed.
Lemma stuck_execute {E A} (e : E) (stmt : statement A) :
  (forall l, bare l -> stmt l = None) -> stuck (execute e stmt).
Proof.
  intros Hs p Hb. unfold execute, exchange. rewrite (Hs _ Hb). by destruct (pl_plan p _); eauto.
Qed.

Lemma record_health_stuck d st : stuck (record_health d st).
Proof. apply stuck_execute. intros l. apply insert_health_bare. Qed.

Lemma persist_stuck d c : stuck (persist_configuration d c).
Proof.
  apply stuck_bind; [auto with dlp|intros _]. apply stuck_bind; [auto with dlp|intros v].
  apply stuck_bind; [apply idle_execute; by intros l a l' _ [= _ <-]|intros row].
  apply stuck_bind; [auto with dlp|intros _]. apply stuck_bind; [auto with dlp|intros _].
  apply stuck_execute. intros l. apply insert_configuration_bare.
Qed.

(** Nothing is selected from a bare ledger. *)
Lemma stuck_selected {A} d (k : option SignedConfigurationV1 -> M Pool RouteError A) :
  stuck (k None) -> stuck (selected ← with_error route_error (selected_configuration d); k selected).
Proof.
  intros Hk p Hb. rewrite bind_with_error. cbn [selected_configuration PgRouteRepository].
  unfold pg_selected_configuration, mbind, M_bind, execute, exchange, select_latest.
  destruct Hb as (Ha & Hc & Hh). rewrite Hc. cbn [latest].
  destruct (pl_plan p _); [|split; [eauto|done]..].
  apply (Hk (set_ledger (pl_ledger p) (mkPool (pl_ledger p) (pl_plan p) (pl_sent p + 1)))). done.
Qed.

Lemma configuration_stuck device : stuck (signed_configuration_for state device).
Proof.
  apply stuck_bind; [apply idle_with_error, idle_authorize|intros _].
  apply stuck_selected. apply stuck_bind; [auto with dlp|intros c].
  apply stuck_stop, stuck_with_error, persist_stuck.
Qed.

Lemma health_stuck device st : stuck (record_health_for device st).
Proof.
  apply stuck_bind; [auto with dlp|intros _].
  apply stuck_bind; [apply idle_with_error, idle_authorize|intros _].
  apply stuck_with_error, record_health_stuck.
Qed.

Lemma fetch_stuck connection :
  stuck (device ← require_active_device connection; fetch_configuration state device).
Proof.
  apply stuck_bind; [apply idle_active_device|intros device].
  apply stuck_stop, stuck_with_error, configuration_stuck.
Qed.

Lemma report_stuck connection (r : result N HealthRequest) :
  stuck (device ← require_active_device connection; report ← lift r; post_health device report).
Proof.
  apply stuck_bind; [apply idle_active_device|intros device].
  apply stuck_bind; [auto with dlp|intros report]. apply stuck_bind; [auto with dlp|intros _].
  apply stuck_stop, stuck_with_error, health_stuck.
Qed.
End Bare.

(** ** Served requests *)

(** A request as it was handled: who sent it, what it was, what was answered. *)
Record Exchange := mkExchange {
  ex_connection : TlsConnectionInfo;
  ex_request : Request;
  ex_response : Response;
}.

Section Served.
Context `{Sha256} `{Ed25519} `{RouteJson} `{Rcgen} `{Ldap} `{StrLower}.
Context (deployment : Deployment) (plan : N -> reply).

(** The exchanges of a server since its database was migrated, and its pool.  The
    clocks are any and the random UUID of a request has 16 bytes. *)
Inductive served : list Exchange -> Pool -> Prop :=
| served_none : served [] (fresh_pool plan)
| served_next log p now clock uuid connection rq response p' :
    served log p -> len uuid = 16 ->
    production_app deployment now clock uuid connection rq p = (response, p') ->
    served (log ++ [mkExchange connection rq response]) p'.

Definition administrator (connection : TlsConnectionInfo) : bool :=
  match connection with
  | Some peer => bool_decide (pe_role peer = Administrator) && negb (bool_decide (pe_subject peer = []))
  | None => false
  end.

(** The request is an administrator's, to provision the device [d]. *)
Definition provisions (d : bytes) (x : Exchange) : bool :=
  bool_decide (rq_path (ex_request x) = PROVISIONING_PATH) && administrator (ex_connection x) &&
  match extract DEFAULT_LIMIT json_provisioning (ex_request x) with
  | Ok q => bool_decide (ap_device_id q = d)
  | Err _ => false
  end.

(** The exchange handed out a certificate for the device [d]. *)
Definition issues (d : bytes) (x : Exchange) : bool :=
  bool_decide (rq_path (ex_request x) = ENROLLMENT_PATH) && (rp_status (ex_response x) =? OK) &&
  match extract BOOTSTRAP_LIMIT json_bootstrap (ex_request x) with
  | Ok q => bool_decide (be_device_id q = d)
  | Err _ => false
  end.

Definition count (f : Exchange -> bool) (log : list Exchange) : nat := length (filter (fun x => f x = true) log).

Lemma count_snoc f log x : count f (log ++ [x]) = (count f log + (if f x then 1 else 0))%nat.
Proof.
  unfold count. rewrite filter_app, length_app. f_equal. cbn. destruct (f x) eqn:Hf.
  - by rewrite decide_True.
  - rewrite decide_False; [done|congruence].
Qed.

(** ** What one request does *)

Lemma enroll_effect h issuer directory now clock uuid s p r p' :
  ledger_wf (pl_ledger p) -> enroll h issuer directory now clock uuid s p = (r, p') ->
  (pl_ledger p' = pl_ledger p /\ exists e, r = Err e) \/
  exists issued cert, issue_for h issuer clock s uuid = Ok (issued, cert) /\
    (exists identity, directory (su_device_id s) = Ok identity) /\
    activated now uuid (su_device_id s) (sha256 (su_token s)) cert (su_prior_serial s)
      (pl_ledger p) (pl_ledger p') /\
    (r = Ok issued \/ exists e, r = Err e).
Proof.
  intros Hw. unfold enroll. rewrite bind_lift.
  destruct (directory (su_device_id s)) as [ident|e]; cbn [map_err].
  2:{ intros [= <- <-]. left. eauto. }
  unfold with_error. destruct (consume_and_activate _ _ _ _ _ _ p) as [ra p1] eqn:Ha.
  apply activate_effect in Ha; [|done]. intros [= <- <-].
  destruct ra as [issued|e]; cbn.
  - destruct Ha as (cert & Hi & Ha). right. exists issued, cert. eauto 10.
  - destruct Ha as [Ha|(issued & cert & Hi & Ha)]; [left; eauto|right].
    exists issued, cert. eauto 10.
Qed.

Lemma admin_provision_effect now uuid q p r p' :
  ledger_wf (pl_ledger p) -> admin_provision now uuid q p = (r, p') ->
  pl_ledger p' = pl_ledger p \/ provisioned now q (sha256 (to_hex uuid)) (pl_ledger p) (pl_ledger p').
Proof.
  intros Hw. unfold admin_provision. rewrite bind_with_error.
  destruct (provision now uuid q p) as [rp p1] eqn:Hp. apply provision_effect in Hp; [|done].
  destruct rp as [token|e].
  - destruct Hp as [-> Hp]. intros [= <- <-]. by right.
  - intros [= <- <-]. destruct Hp as [Hp|(token & -> & Hp)]; [by left|by right].
Qed.

(** The effect of an exchange on the ledger: none, the provisioning of the device
    an administrator asked for, or the activation of a credential for the device
    named by an enrollment request.  Only the last hands out a certificate. *)
Inductive request_effect (now : N) (uuid : bytes) (x : Exchange) (l l' : Ledger) : Prop :=
| effect_none : l' = l -> (forall d, issues d x = false) -> request_effect now uuid x l l'
| effect_provision q :
    provisions (pr_device_id q) x = true -> (forall d, issues d x = false) ->
    provisioned now q (sha256 (to_hex uuid)) l l' -> request_effect now uuid x l l'
| effect_enroll q cert prior :
    rq_path (ex_request x) = ENROLLMENT_PATH ->
    extract BOOTSTRAP_LIMIT json_bootstrap (ex_request x) = Ok q ->
    activated now uuid (be_device_id q) (sha256 (be_token q)) cert prior l l' ->
    request_effect now uuid x l l'.

Lemma issues_other d x : rq_path (ex_request x) <> ENROLLMENT_PATH -> issues d x = false.
Proof. intros Hp. unfold issues. by rewrite bool_decide_eq_false_2. Qed.

Lemma issues_status d x : rp_status (ex_response x) <> OK -> issues d x = false.
Proof.
  intros Hs. unfold issues. apply N.eqb_neq in Hs. by rewrite Hs, andb_false_r.
Qed.

Lemma EnrollmentSubmission_new_Ok d token csr prior s :
  EnrollmentSubmission_new d token csr prior = Ok s ->
  su_device_id s = d /\ su_token s = token /\ su_csr_pem s = csr /\ su_prior_serial s = prior.
Proof. unfold EnrollmentSubmission_new. destruct (_ || _); [done|]. by intros [= <-]. Qed.

Lemma ProvisionDeviceRequestV1_new_device v d fv fd guid sid dns dom letter q :
  ProvisionDeviceRequestV1_new v d fv fd guid sid dns dom letter = Ok q -> pr_device_id q = d.
Proof.
  unfold ProvisionDeviceRequestV1_new. intros Hq.
  repeat apply result_bind_Ok in Hq as (? & _ & Hq). destruct (_ || _); [done|]. by injection Hq as <-.
Qed.

Lemma decode_prior_serial_Err o e : decode_prior_serial o = Err e -> e = BAD_REQUEST.
Proof.
  destruct o as [v|]; [|done]. unfold decode_prior_serial. destruct (_ || _); [by intros [= <-]|].
  destruct (hex_pairs v); [done|]. by intros [= <-].
Qed.

Lemma enrollment_route_effect now clock uuid rq p r p' :
  ledger_wf (pl_ledger p) ->
  (request ← lift (extract BOOTSTRAP_LIMIT json_bootstrap rq);
   bootstrap_enrollment_contract (production_routes deployment now clock uuid) request) p = (r, p') ->
  (pl_ledger p' = pl_ledger p /\
     (rp_status (respond r) <> OK \/ exists e, extract BOOTSTRAP_LIMIT json_bootstrap rq = Err e)) \/
  exists q cert prior, extract BOOTSTRAP_LIMIT json_bootstrap rq = Ok q /\
    activated now uuid (be_device_id q) (sha256 (be_token q)) cert prior (pl_ledger p) (pl_ledger p').
Proof.
  intros Hw. rewrite bind_lift. destruct (extract _ _ rq) as [q|e] eqn:Hq.
  2:{ intros [= <- <-]. left. eauto. }
  unfold bootstrap_enrollment_contract. rewrite bind_ensure.
  destruct (negb _); [|intros [= <- <-]; left; split; [done|by left]]. rewrite bind_lift.
  destruct (decode_prior_serial (be_prior_serial q)) as [prior|e] eqn:Hprior.
  2:{ apply decode_prior_serial_Err in Hprior as ->. intros [= <- <-]. left. split; [done|by left]. }
  rewrite bind_lift. destruct (EnrollmentSubmission_new _ _ _ _) as [s|] eqn:Hs; cbn [map_err].
  2:{ intros [= <- <-]. left. split; [done|by left]. }
  apply EnrollmentSubmission_new_Ok in Hs as (Hd & Ht & _ & _).
  rewrite bind_with_error. destruct (rs_enroll _ s p) as [re p1] eqn:He. cbn in He.
  apply enroll_effect in He as [(Hl & e & ->)|(issued & cert & _ & _ & Ha & _)]; [| |done].
  - intros [= <- <-]. left. split; [done|by left].
  - rewrite Hd, Ht in Ha. intros Hrun. right. exists q, cert, (su_prior_serial s). split; [done|].
    by destruct re; injection Hrun as _ <-.
Qed.

Lemma provisioning_route_effect now clock uuid connection rq p r p' :
  ledger_wf (pl_ledger p) -> rq_path rq = PROVISIONING_PATH ->
  (_ ← require_administrator connection;
   request ← lift (extract DEFAULT_LIMIT json_provisioning rq);
   admin_provisioning_contract (production_routes deployment now clock uuid) request) p = (r, p') ->
  pl_ledger p' = pl_ledger p \/
  exists q, (forall response, provisions (pr_device_id q) (mkExchange connection rq response) = true) /\
    provisioned now q (sha256 (to_hex uuid)) (pl_ledger p) (pl_ledger p').
Proof.
  intros Hw Hpath Hrun. apply bind_run in Hrun as [(admin & p1 & Hreq & Hrun)|(e & Hreq & ->)];
    apply require_administrator_run in Hreq as [-> Hreq]; [|by left].
  destruct Hreq as (peer & -> & Hrole & Hsub). revert Hrun.
  rewrite bind_lift. destruct (extract _ _ rq) as [q|e] eqn:Hq; [|intros [= <- <-]; by left].
  unfold admin_provisioning_contract. rewrite bind_ensure.
  destruct (negb _); [|intros [= <- <-]; by left]. rewrite bind_lift.
  destruct (ProvisionDeviceRequestV1_new _ _ _ _ _ _ _ _ _) as [w|] eqn:Hw1; cbn [map_err];
    [|intros [= <- <-]; by left].
  apply ProvisionDeviceRequestV1_new_device in Hw1. cbv zeta.
  set (w' := if ap_recovery q then authorize_recovery w else w).
  assert (Hd : pr_device_id w' = ap_device_id q) by (unfold w'; by destruct (ap_recovery q)).
  rewrite bind_with_error. destruct (rs_provision _ w' p) as [rp p1] eqn:Hp. cbn in Hp. intros Hrun.
  assert (pl_ledger p' = pl_ledger p1) as -> by (by destruct rp; injection Hrun as _ <-).
  apply admin_provision_effect in Hp as [Hl|Hp]; [by left| |done].
  right. exists w'. split; [|done]. intros response. unfold provisions, administrator. cbn.
  by rewrite Hq, Hd, (bool_decide_eq_true_2 _ Hpath), (bool_decide_eq_true_2 _ Hrole),
    (bool_decide_eq_false_2 _ Hsub), (bool_decide_eq_true_2 _ eq_refl).
Qed.

(** A route that never writes. *)
Lemma effect_idle (m : M Pool N Response) now uuid connection rq p response p' :
  idle m -> bare (pl_ledger p) -> rq_path rq <> ENROLLMENT_PATH ->
  answers_with m p response p' ->
  request_effect now uuid (mkExchange connection rq response) (pl_ledger p) (pl_ledger p').
Proof.
  intros Hm Hb Hpath Hans. apply effect_none; [|intros d; by apply issues_other].
  destruct Hans as [(-> & _)|(r & Hr & _)]; [done|]. specialize (Hm p Hb). by rewrite Hr in Hm.
Qed.

Lemma enrollment_answers now clock uuid connection rq p response p' :
  ledger_wf (pl_ledger p) -> rq_path rq = ENROLLMENT_PATH ->
  answers_with (request ← lift (extract BOOTSTRAP_LIMIT json_bootstrap rq);
    bootstrap_enrollment_contract (production_routes deployment now clock uuid) request) p response p' ->
  request_effect now uuid (mkExchange connection rq response) (pl_ledger p) (pl_ledger p').
Proof.
  intros Hw Hpath [(-> & ->)|(r & Hrun & Hst & _)].
  { apply effect_none; [done|]. intros d. by apply issues_status. }
  apply enrollment_route_effect in Hrun as [(Hl & Hno)|(q & cert & prior & Hq & Ha)]; [| |done].
  - apply effect_none; [done|]. intros d. destruct Hno as [Hno|[e He]].
    + apply issues_status. cbn. congruence.
    + unfold issues. cbn. by rewrite He, andb_false_r.
  - by eapply effect_enroll.
Qed.

Lemma provisioning_answers now clock uuid connection rq p response p' :
  ledger_wf (pl_ledger p) -> rq_path rq = PROVISIONING_PATH ->
  answers_with (_ ← require_administrator connection;
    request ← lift (extract DEFAULT_LIMIT json_provisioning rq);
    admin_provisioning_contract (production_routes deployment now clock uuid) request) p response p' ->
  request_effect now uuid (mkExchange connection rq response) (pl_ledger p) (pl_ledger p').
Proof.
  intros Hw Hpath Hans.
  assert (Hno : forall d, issues d (mkExchange connection rq response) = false).
  { intros d. apply issues_other. cbn. rewrite Hpath. by vm_compute. }
  destruct Hans as [(-> & _)|(r & Hrun & _)]; [by apply effect_none|].
  apply provisioning_route_effect in Hrun as [Hl|(q & Hq & Hp)]; [by apply effect_none| |done..].
  by eapply effect_provision.
Qed.

(** Every exchange of the composed server has one of the effects. *)
Lemma app_effect now clock uuid connection rq p response p' :
  ledger_wf (pl_ledger p) -> bare (pl_ledger p) ->
  production_app deployment now clock uuid connection rq p = (response, p') ->
  request_effect now uuid (mkExchange connection rq response) (pl_ledger p) (pl_ledger p').
Proof.
  intros Hw Hb. unfold production_app, build_app, api_v1_router.
  repeat match goal with |- context [bool_decide (rq_path rq = ?x)] =>
    destruct (bool_decide_reflect (rq_path rq = x)) as [Hpath|_]; cbv iota end.
  - intros Hg%get_route_run. eapply effect_idle; [|done|rewrite Hpath; by vm_compute|done]. apply idle_ret.
  - intros Hg%get_route_run. eapply effect_idle; [|done|rewrite Hpath; by vm_compute|done]. apply idle_ret.
  - intros Hg%get_route_run. eapply effect_idle; [|done|rewrite Hpath; by vm_compute|done]. apply idle_ret.
  - intros Hg%post_route_run. exact (provisioning_answers _ _ _ _ _ _ _ _ Hw Hpath Hg).
  - intros Hg%get_route_run. eapply effect_idle; [|done|rewrite Hpath; by vm_compute|done].
    apply stuck_idle, fetch_stuck.
  - intros Hg%post_route_run. eapply effect_idle; [|done|rewrite Hpath; by vm_compute|done].
    apply stuck_idle, report_stuck.
  - intros Hg%post_route_run. exact (enrollment_answers _ _ _ _ _ _ _ _ Hw Hpath Hg).
  - intros [= <- <-]. apply effect_none; [done|]. intros d. by apply issues_status.
Qed.

Lemma effect_wf now uuid x l l' : ledger_wf l -> request_effect now uuid x l l' -> ledger_wf l'.
Proof. intros Hw [-> _|q _ _ Hp|q cert prior _ _ Ha]; eauto using provisioned_wf, activated_wf. Qed.

Lemma effect_bare now uuid x l l' : bare l -> request_effect now uuid x l l' -> bare l'.
Proof. intros Hw [-> _|q _ _ Hp|q cert prior _ _ Ha]; eauto using provisioned_bare, activated_bare. Qed.

Lemma served_good log p : served log p -> ledger_wf (pl_ledger p) /\ bare (pl_ledger p).
Proof.
  induction 1 as [|log p now clock uuid connection rq response p' Hs [Hw Hb] Hu Hrun].
  - split; [apply migrated_wf|done].
  - apply app_effect in Hrun; [|done..]. split; [by eapply effect_wf|by eapply effect_bare].
Qed.

(** Rule induction over what requests do. *)
Lemma served_ind_effect (P : list Exchange -> Ledger -> Prop) :
  P [] migrated ->
  (forall log l x now uuid l', ledger_wf l -> bare l -> len uuid = 16 -> P log l ->
     request_effect now uuid x l l' -> P (log ++ [x]) l') ->
  forall log p, served log p -> P log (pl_ledger p).
Proof.
  intros H0' Hstep log p. induction 1 as [|log p now clock uuid connection rq response p' Hs IH Hu Hrun]; [done|].
  destruct (served_good _ _ Hs) as [Hw Hb]. eapply Hstep; [done..|]. by eapply app_effect.
Qed.

(** ** What the server guarantees *)

(** C18.  Whatever the callers send and whichever exchanges with the database fail,
    the authority's serial of every device is its accepted credential, so a device
    has at most one, and a credential is in the revocation table exactly when it
    was accepted and revoked. *)
Theorem production_ledger log p :
  served log p ->
  ledger_wf (pl_ledger p) /\
  (forall d s t, active_for (pl_ledger p) d s -> active_for (pl_ledger p) d t -> s = t) /\
  (forall d s, active_for (pl_ledger p) d s -> ~ is_Some (revoked_device_credentials (pl_ledger p) !! s)).
Proof.
  intros [Hw _]%served_good. split; [done|]. split; [intros d s t; by apply active_unique|].
  intros d s (c & Hc & _ & Hst) (c' & Hc' & Hst')%(wf_revoked _ Hw). congruence.
Qed.

(** A token of the device that is not used yet. *)
Definition unused_token (l : Ledger) (d : bytes) : bool :=
  match enrollment_authority l !! d with
  | Some r => bool_decide (au_token_consumed_at r = None)
  | None => false
  end.

Lemma unused_token_row d r l d' :
  unused_token (set_row d r l) d' =
    if bool_decide (d = d') then bool_decide (au_token_consumed_at r = None) else unused_token l d'.
Proof.
  unfold unused_token. cbn. destruct (bool_decide_reflect (d = d')) as [<-|Hne].
  - by rewrite lookup_insert_eq.
  - by rewrite lookup_insert_ne.
Qed.

Lemma provisioned_unused now q dg l l' d :
  provisioned now q dg l l' -> d <> pr_device_id q -> unused_token l' d = unused_token l d.
Proof.
  intros (r & -> & _) Hd. rewrite unused_token_row, bool_decide_eq_false_2 by done.
  unfold before_token. destruct (enrollment_authority l !! _) as [r0|]; [|done].
  destruct (au_active_serial r0), (pr_recovery q); try done.
  by rewrite unused_token_row, bool_decide_eq_false_2.
Qed.

Lemma activated_unused now t d dg cert prior l l' :
  activated now t d dg cert prior l l' ->
  unused_token l d = true /\ unused_token l' d = false /\
  forall d', d' <> d -> unused_token l' d' = unused_token l d'.
Proof.
  intros (r & (Hr & Hc & _) & _ & _ & ->).
  assert (Hrow : forall c l0, unused_token (add_credential t c l0) = unused_token l0) by done.
  split_and!.
  - unfold unused_token. by rewrite Hr, bool_decide_eq_true_2.
  - by rewrite Hrow, unused_token_row, bool_decide_eq_true_2.
  - intros d' Hd. rewrite Hrow, unused_token_row, bool_decide_eq_false_2 by done. by destruct prior.
Qed.

(** C16.  The server hands out at most one certificate for a device per request of
    an administrator to provision that device, whatever tokens and requests
    enrollment receives, in whatever order, and whichever exchanges fail: a token
    is spent by the transaction that accepts the certificate. *)
Theorem certificates_need_provisioning log p d :
  served log p -> (count (issues d) log <= count (provisions d) log)%nat.
Proof.
  intros Hs. cut (count (issues d) log + (if unused_token (pl_ledger p) d then 1 else 0)
                  <= count (provisions d) log)%nat; [lia|].
  revert log p Hs. apply (served_ind_effect (fun log l =>
    (count (issues d) log + (if unused_token l d then 1 else 0) <= count (provisions d) log)%nat)); [done|].
  intros log l x now uuid l' Hw Hb Hu IH Heff. rewrite !count_snoc.
  destruct Heff as [-> Hno|q Hp Hno Heff|q cert prior Hpath Hq Heff].
  - rewrite Hno. destruct (provisions d x); lia.
  - rewrite Hno. destruct (decide (d = pr_device_id q)) as [->|Hd].
    + rewrite Hp. destruct (unused_token l _), (unused_token l' _); lia.
    + rewrite (provisioned_unused _ _ _ _ _ _ Heff Hd). destruct (provisions d x); lia.
  - destruct (activated_unused _ _ _ _ _ _ _ _ Heff) as (Hbefore & Hafter & Hother).
    assert (Hi : issues d x = true -> d = be_device_id q).
    { unfold issues. rewrite Hq. by intros [_ ?%bool_decide_eq_true]%andb_prop. }
    destruct (decide (d = be_device_id q)) as [->|Hd].
    + rewrite Hafter. rewrite Hbefore in IH. destruct (issues _ x), (provisions _ x); lia.
    + rewrite (Hother d Hd). destruct (issues d x); [naive_solver|]. destruct (provisions d x); lia.
Qed.

(** The server handles one more request. *)
Inductive request_step (p p' : Pool) : Prop :=
| handle now clock uuid connection rq response :
    len uuid = 16 -> production_app deployment now clock uuid connection rq p = (response, p') ->
    request_step p p'.

Lemma revoked_alter now t l s :
  revoked l s -> exists c, alter (revoke_row now) t (device_route_credentials l) !! s = Some c /\
    cr_status c = RowRevoked.
Proof.
  intros (c & Hc & Hst). destruct (decide (t = s)) as [->|Hne].
  - exists (revoke_row now c). by rewrite lookup_alter_eq, Hc.
  - exists c. by rewrite lookup_alter_ne.
Qed.

Lemma effect_revoked now uuid x l l' s : request_effect now uuid x l l' -> revoked l s -> revoked l' s.
Proof.
  intros [-> _|q _ _ (r & -> & _)|q cert prior _ _ (r & _ & _ & Hfresh & ->)] Hr; [done| |].
  - unfold before_token. destruct (enrollment_authority l !! _) as [r0|]; [|done].
    destruct (au_active_serial r0), (pr_recovery q); try done. by apply (revoked_alter now).
  - assert (Hne : uuid <> s) by (intros ->; destruct Hr as (c & Hc & _); congruence).
    destruct prior as [t|].
    + destruct (revoked_alter now t l s Hr) as (c & Hc & Hst). exists c. cbn. by rewrite lookup_insert_ne.
    + destruct Hr as (c & Hc & Hst). exists c. cbn. by rewrite lookup_insert_ne.
Qed.

(** Whoever is not accepted gets no further than the middleware. *)
Lemma unaccepted_denied peer p :
  ~ active_for (pl_ledger p) (pe_subject peer) (pe_serial peer) ->
  exists p', require_active_device (Some peer) p = (Err UNAUTHORIZED, p').
Proof.
  intros Hno. destruct (require_active_device (Some peer) p) as [r p'] eqn:Hrun.
  apply require_active_device_run in Hrun as [_ Hr]. exists p'.
  destruct r as [device|e]; [|by rewrite Hr]. destruct Hno.
  destruct Hr as (peer' & [= <-] & _ & Hsub & _ & Hacc). by rewrite <- Hsub in Hacc.
Qed.

Definition device_path (rq : Request) : Prop :=
  rq_path rq = CONFIGURATION_PATH \/ rq_path rq = HEALTH_PATH.

Lemma unaccepted_route now clock uuid peer rq p response p' :
  device_path rq -> ~ active_for (pl_ledger p) (pe_subject peer) (pe_serial peer) ->
  production_app deployment now clock uuid (Some peer) rq p = (response, p') ->
  rp_status response = UNAUTHORIZED \/ rp_status response = METHOD_NOT_ALLOWED.
Proof.
  intros Hpath Hno. destruct (unaccepted_denied peer p Hno) as [p1 Hden].
  assert (Hans : forall k, answers_with (device ← require_active_device (Some peer); k device) p response p' ->
    rp_status response = UNAUTHORIZED \/ rp_status response = METHOD_NOT_ALLOWED).
  { intros k [(_ & ->)|(r & Hrun & Hst & _)]; [by right|]. left. revert Hrun.
    unfold mbind, M_bind. rewrite Hden. intros [= <- _]. by rewrite Hst. }
  unfold production_app, build_app, api_v1_router.
  destruct Hpath as [Hpath|Hpath]; rewrite Hpath; vm_compute bool_decide; cbv iota.
  - intros Hg%get_route_run. by eapply Hans.
  - intros Hg%post_route_run. by eapply (Hans (fun device => _)).
Qed.

(** C17.  A credential that was revoked never authenticates again: after whatever
    requests follow, it is still revoked, no device has it as its accepted
    credential, and a device route answers 401 to a caller that presents it, or 405
    to the wrong method. *)
Theorem revoked_forever log p p' s :
  served log p -> revoked (pl_ledger p) s -> rtc request_step p p' ->
  revoked (pl_ledger p') s /\ (forall d, ~ active_for (pl_ledger p') d s) /\
  forall now clock uuid peer rq response p'', pe_serial peer = s -> device_path rq ->
    production_app deployment now clock uuid (Some peer) rq p' = (response, p'') ->
    rp_status response = UNAUTHORIZED \/ rp_status response = METHOD_NOT_ALLOWED.
Proof.
  intros Hs Hr Hsteps. assert (Hr' : revoked (pl_ledger p') s).
  { revert log Hs Hr. induction Hsteps as [|p q p' [now clock uuid connection rq response Hu Hrun] _ IH]; [done|].
    intros log Hs Hr. pose proof (served_good _ _ Hs) as [Hw Hb].
    pose proof (app_effect _ _ _ _ _ _ _ _ Hw Hb Hrun) as Heff.
    eapply IH; [by eapply served_next|by eapply effect_revoked]. }
  assert (Hno : forall d, ~ active_for (pl_ledger p') d s).
  { intros d (c & Hc & _ & Hst). destruct Hr' as (c' & Hc' & Hst'). congruence. }
  split; [done|]. split; [done|]. intros now clock uuid peer rq response p'' <- Hpath.
  by apply unaccepted_route.
Qed.

(** ** Device routes over the migrated database *)

(** The errors of a handler are among the given statuses. *)
Definition fails_in {E A} (statuses : list E) (m : M Pool E A) : Prop :=
  forall p e p', m p = (Err e, p') -> e ∈ statuses.

Lemma fails_bind {E A B} l (m : M Pool E A) (k : A -> M Pool E B) :
  fails_in l m -> (forall a, fails_in l (k a)) -> fails_in l (m ≫= k).
Proof. intros Hm Hk p e p' [(a & s & _ & Hr)|(e' & Hr & [= ->])]%bind_run; [by eapply Hk|by eapply Hm]. Qed.

Lemma fails_route_error {A} l (m : M Pool RouteError A) :
  UNAUTHORIZED ∈ l -> SERVICE_UNAVAILABLE ∈ l -> fails_in l (with_error route_error_status m).
Proof.
  intros H401 H503 p e p'. unfold with_error. destruct (m p) as [[a|[]] q]; intros [= <- _]; done.
Qed.

Lemma fails_active_device l connection : UNAUTHORIZED ∈ l -> fails_in l (require_active_device connection).
Proof. intros Hl p e p' Hr. by apply require_active_device_run in Hr as [_ ->]. Qed.

Lemma fails_ret {E A} l (a : A) : fails_in l (mret (M := M Pool E) a).
Proof. by intros p e p'. Qed.

#[local] Hint Resolve list_elem_of_here list_elem_of_further : dlp.

(** The answer of a route whose handler is stuck. *)
Lemma stuck_answer (m : M Pool N Response) statuses p response p' :
  stuck m -> fails_in statuses m -> bare (pl_ledger p) -> answers_with m p response p' ->
  pl_ledger p' = pl_ledger p /\ rp_body response = NoBody /\
  rp_status response ∈ statuses ++ [METHOD_NOT_ALLOWED].
Proof.
  intros Hm Hf Hb [(-> & ->)|(r & Hr & Hst & Hbody)].
  { split; [done|]. split; [done|]. apply elem_of_app. right. by left. }
  destruct (Hm p Hb) as [[e He] Hl]. rewrite Hr in He, Hl. cbn in He, Hl. subst r.
  split; [done|]. split; [by destruct Hbody|]. apply elem_of_app. left. rewrite Hst. by eapply Hf.
Qed.

Lemma configuration_answer now clock uuid connection rq p response p' :
  bare (pl_ledger p) -> rq_path rq = CONFIGURATION_PATH ->
  production_app deployment now clock uuid connection rq p = (response, p') ->
  pl_ledger p' = pl_ledger p /\ rp_body response = NoBody /\
  rp_status response ∈ [UNAUTHORIZED; SERVICE_UNAVAILABLE; METHOD_NOT_ALLOWED].
Proof.
  intros Hb Hpath. unfold production_app, build_app, api_v1_router. rewrite Hpath.
  vm_compute bool_decide. cbv iota. intros Hg%get_route_run.
  eapply (stuck_answer _ [UNAUTHORIZED; SERVICE_UNAVAILABLE]); [apply fetch_stuck| |done|exact Hg].
  apply fails_bind; [apply fails_active_device; by left|intros device].
  apply fails_bind; [apply fails_route_error; auto with dlp|intros c; apply fails_ret].
Qed.

Lemma health_answer now clock uuid connection rq report p response p' :
  bare (pl_ledger p) -> rq_path rq = HEALTH_PATH -> extract DEFAULT_LIMIT json_health rq = Ok report ->
  production_app deployment now clock uuid connection rq p = (response, p') ->
  pl_ledger p' = pl_ledger p /\ rp_body response = NoBody /\
  rp_status response ∈ [BAD_REQUEST; UNAUTHORIZED; SERVICE_UNAVAILABLE; METHOD_NOT_ALLOWED].
Proof.
  intros Hb Hpath Hrep. unfold production_app, build_app, api_v1_router. rewrite Hpath.
  vm_compute bool_decide. cbv iota. intros Hg%post_route_run.
  eapply (stuck_answer _ [BAD_REQUEST; UNAUTHORIZED; SERVICE_UNAVAILABLE]);
    [apply report_stuck| |done|exact Hg].
  apply fails_bind; [apply fails_active_device; auto with dlp|intros device].
  rewrite Hrep. apply fails_bind; [by intros q e q'|intros r].
  apply fails_bind; [intros q e q'; unfold ensure; destruct (_ =? 1); intros [= <- _]; by left|intros _].
  apply fails_bind; [apply fails_route_error; auto with dlp|intros c; apply fails_ret].
Qed.

(** Over a database the migrations created, which no operation of the server
    fills with the devices its configuration and health tables refer to, the device
    routes serve nobody: the answer to a configuration request is 401, 503 or 405
    and never a configuration, the answer to a health report is one of those or 400,
    and nothing is stored, however the device was provisioned and enrolled. *)
Theorem device_routes_unserved log p now clock uuid connection rq response p' :
  served log p ->
  production_app deployment now clock uuid connection rq p = (response, p') ->
  (rq_path rq = CONFIGURATION_PATH ->
     pl_ledger p' = pl_ledger p /\ rp_body response = NoBody /\
     rp_status response ∈ [UNAUTHORIZED; SERVICE_UNAVAILABLE; METHOD_NOT_ALLOWED]) /\
  (forall report, rq_path rq = HEALTH_PATH -> extract DEFAULT_LIMIT json_health rq = Ok report ->
     pl_ledger p' = pl_ledger p /\ rp_body response = NoBody /\
     rp_status response ∈ [BAD_REQUEST; UNAUTHORIZED; SERVICE_UNAVAILABLE; METHOD_NOT_ALLOWED]).
Proof.
  intros [_ Hb]%served_good Hrun. split.
  - intros Hpath. by eapply configuration_answer.
  - intros report Hpath Hrep. by eapply health_answer.
Qed.

(** *** Serials in certificates *)

Lemma served_serials log p s :
  served log p -> is_Some (device_route_credentials (pl_ledger p) !! s) -> len s = 16.
Proof.
  revert log p. apply (served_ind_effect (fun _ l => is_Some (device_route_credentials l !! s) -> len s = 16)).
  { intros [c Hc]. cbn in Hc. by rewrite lookup_empty in Hc. }
  intros log l x now uuid l' _ _ Hu IH
    [-> _|q _ _ (r & -> & _)|q cert prior _ _ (r & _ & _ & _ & ->)]; [done| |].
  - unfold before_token. destruct (enrollment_authority l !! _) as [r0|]; [|done].
    destruct (au_active_serial r0), (pr_recovery q); try done. cbn. by rewrite lookup_alter_is_Some.
  - cbn. rewrite lookup_insert_is_Some'. intros [<-|Hs]; [done|]. apply IH.
    destruct prior; cbn in Hs; [by rewrite lookup_alter_is_Some in Hs|done].
Qed.
End Served.

Section Serials.
Context `{Sha256} `{Ed25519} `{RouteJson} `{Ldap} `{StrLower} `{IssuanceLaws}.
Context (deployment : Deployment) (plan : N -> reply).

(** The serial of the identity a certificate gives is the certificate's. *)
Lemma peer_identity_serial now roots der c peer :
  parse_x509_certificate der = Some ([], c) -> peer_identity now roots der = Ok peer ->
  pe_serial peer = ct_raw_serial c.
Proof.
  intros Hparse. unfold peer_identity. destruct (leaf_certificate now der) as [c'|] eqn:Hl; [|done].
  pose proof (leaf_certificate_Ok _ _ _ Hl) as (Hp & _). rewrite Hparse in Hp. injection Hp as <-.
  cbn. destruct (bool_decide _).
  - intros (c' & Hc & _ & _ & Hs)%device_from_verified_leaf_Ok. rewrite Hl in Hc. by injection Hc as <-.
  - destruct (negb _); [done|]. unfold admin_of_leaf. destruct (_ || _); [done|]. by intros [= <-].
Qed.

(** The serial the server stores for a certificate is the random UUID it
    signs, and the serial it later reads from the certificate is the DER INTEGER of
    it.  They agree when the first byte of the UUID is between 1 and 127.  When it
    is 128 or more the caller that presents the certificate is refused by the device
    routes, with 401 or 405, whatever was stored when it was issued. *)
Theorem issued_serial_recognised log p params ca pem x s now roots :
  served deployment plan log p -> signed_by params ca = Some pem ->
  cp_serial params = x :: s -> len (x :: s) = 16 ->
  exists der, pem_certificates pem = Some [der] /\
  forall peer, peer_identity now roots der = Ok peer ->
    (0 < Byte.to_N x < 128 -> pe_serial peer = x :: s) /\
    (128 <= Byte.to_N x -> forall time clock uuid rq response p', device_path rq ->
       production_app deployment time clock uuid (Some peer) rq p = (response, p') ->
       rp_status response = UNAUTHORIZED \/ rp_status response = METHOD_NOT_ALLOWED).
Proof.
  intros Hs Hsig Hser Hlen. destruct (signed_leaf _ _ _ Hsig) as (_ & der & c & Hpem & Hparse & Hof).
  pose proof (lo_serial _ _ Hof) as Hraw.
  exists der. split; [done|]. intros peer Hpeer.
  pose proof (peer_identity_serial _ _ _ _ _ Hparse Hpeer) as Hps. rewrite Hraw, Hser in Hps. split.
  - intros Hx. rewrite Hps, der_integer_cons by lia. destruct (N.leb_spec 128 (Byte.to_N x)); [lia|done].
  - intros Hx time clock uuid rq response p' Hpath. apply unaccepted_route; [done|].
    intros (cr & Hc & _). pose proof (served_serials _ _ _ _ (pe_serial peer) Hs ltac:(eauto)) as Hl.
    revert Hl. rewrite Hps, der_integer_cons by lia.
    destruct (N.leb_spec 128 (Byte.to_N x)); [|lia]. unfold len in *. cbn in *. lia.
Qed.
End Serials.

(** ** Witnesses: a device is provisioned, enrolled and recovered *)

From S2P Require Import Toy ServerToy.

Module Run.
Import Certs.
#[local] Existing Instances toy_ldap toy_lower toy_json.

Definition toy_deployment : Deployment := mkDeployment toy_host toy_production.
Definition toy_plan : N -> reply := fun _ => Answered.

Definition turn (uuid : bytes) (connection : TlsConnectionInfo) (rq : Request) (p : Pool) : Response * Pool :=
  production_app toy_deployment 50 (50, 50)%Z uuid connection rq p.

Definition provisioning : Response * Pool :=
  turn (toy_uuid x11) toy_admin (toy_post PROVISIONING_PATH (lit "new")) (fresh_pool toy_plan).
Definition enrolling : Response * Pool :=
  turn (toy_uuid x22) None (toy_post ENROLLMENT_PATH (to_hex (toy_uuid x11))) (snd provisioning).
Definition recovering : Response * Pool :=
  turn (toy_uuid x33) toy_admin (toy_post PROVISIONING_PATH (lit "recover")) (snd enrolling).

Definition log2 : list Exchange :=
  [mkExchange toy_admin (toy_post PROVISIONING_PATH (lit "new")) (fst provisioning);
   mkExchange None (toy_post ENROLLMENT_PATH (to_hex (toy_uuid x11))) (fst enrolling)].
Definition log3 : list Exchange :=
  log2 ++ [mkExchange toy_admin (toy_post PROVISIONING_PATH (lit "recover")) (fst recovering)].

Lemma served2 : served toy_deployment toy_plan log2 (snd enrolling).
Proof.
  apply (served_next toy_deployment toy_plan [_] (snd provisioning) 50 (50, 50)%Z (toy_uuid x22)); [|done|].
  - apply (served_next toy_deployment toy_plan [] (fresh_pool toy_plan) 50 (50, 50)%Z (toy_uuid x11)); [|done|].
    + apply served_none.
    + apply surjective_pairing.
  - apply surjective_pairing.
Defined.

Lemma served3 : served toy_deployment toy_plan log3 (snd recovering).
Proof.
  apply (served_next toy_deployment toy_plan log2 (snd enrolling) 50 (50, 50)%Z (toy_uuid x33)); [|done|].
  - apply served2.
  - apply surjective_pairing.
Defined.

Lemma status_active d s l : fst <$> select_status d s l = Some (Some RowActive) -> active_for l d s.
Proof.
  unfold select_status, active_for. destruct (device_route_credentials l !! s) as [c|]; [|done].
  cbn. destruct (bool_decide_reflect (cr_device_id c = d)) as [Hd|]; [|done]. intros [= Hst]. by exists c.
Qed.

Lemma status_revoked s l : cr_status <$> (device_route_credentials l !! s) = Some RowRevoked -> revoked l s.
Proof. unfold revoked. destruct (_ !! s) as [c|]; [|done]. intros [= Hst]. by exists c. Qed.

Lemma production_ledger_witness :
  active_for (pl_ledger (snd enrolling)) toy_device (toy_uuid x22) /\ ledger_wf (pl_ledger (snd enrolling)).
Proof.
  split; [|exact (proj1 (production_ledger toy_deployment toy_plan log2 (snd enrolling) served2))].
  apply status_active. vm_compute. reflexivity.
Defined.

Lemma certificates_need_provisioning_witness :
  count (issues toy_device) log3 = 1%nat /\ count (provisions toy_device) log3 = 2%nat /\
  (count (issues toy_device) log3 <= count (provisions toy_device) log3)%nat.
Proof.
  split; [vm_compute; reflexivity|]. split; [vm_compute; reflexivity|].
  exact (certificates_need_provisioning toy_deployment toy_plan log3 (snd recovering) toy_device served3).
Defined.

(** The enrolled credential, after its recovery and one more provisioning. *)
Definition again : Response * Pool :=
  turn (toy_uuid x44) toy_admin (toy_post PROVISIONING_PATH (lit "new")) (snd recovering).

Lemma revoked_forever_witness :
  revoked (pl_ledger (snd recovering)) (toy_uuid x22) /\ revoked (pl_ledger (snd again)) (toy_uuid x22).
Proof.
  assert (Hr : revoked (pl_ledger (snd recovering)) (toy_uuid x22)).
  { apply status_revoked. vm_compute. reflexivity. }
  split; [exact Hr|].
  refine (proj1 (revoked_forever toy_deployment toy_plan log3 (snd recovering) (snd again) (toy_uuid x22)
    served3 Hr _)).
  apply rtc_once. apply (handle toy_deployment _ _ 50 (50, 50)%Z (toy_uuid x44) toy_admin
    (toy_post PROVISIONING_PATH (lit "new")) (fst again)); [reflexivity|apply surjective_pairing].
Defined.

(** The enrolled device asks for its configuration. *)
Definition asking : Response * Pool :=
  turn (toy_uuid x44) (Some (toy_peer (toy_uuid x22))) (toy_get CONFIGURATION_PATH) (snd enrolling).

Lemma device_routes_unserved_witness :
  rp_status (fst asking) = SERVICE_UNAVAILABLE /\ rp_body (fst asking) = NoBody.
Proof.
  split; [vm_compute; reflexivity|].
  exact (proj1 (proj2 (proj1 (device_routes_unserved toy_deployment toy_plan log2 (snd enrolling) 50 (50, 50)%Z
    (toy_uuid x44) (Some (toy_peer (toy_uuid x22))) (toy_get CONFIGURATION_PATH) (fst asking) (snd asking)
    served2 (surjective_pairing _)) eq_refl))).
Defined.

Definition toy_params (b : byte) : CertificateParams :=
  leaf_params (50, 50)%Z (lit "csr") (device_uri_prefix ++ toy_device) (toy_uuid b).

Definition toy_pem (b : byte) : bytes := header ++ write_bits (encode (toy_params b)).

Lemma issued_serial_recognised_witness :
  exists der, pem_certificates (toy_pem xc0) = Some [der] /\
    is_ok (peer_identity 50 toy_roots der) = true /\
  forall peer, peer_identity 50 toy_roots der = Ok peer ->
    forall time clock uuid rq response p', device_path rq ->
      production_app toy_deployment time clock uuid (Some peer) rq (snd enrolling) = (response, p') ->
      rp_status response = UNAUTHORIZED \/ rp_status response = METHOD_NOT_ALLOWED.
Proof.
  destruct (issued_serial_recognised toy_deployment toy_plan log2 (snd enrolling) (toy_params xc0) []
    (toy_pem xc0) xc0 (replicate 15 x05) 50 toy_roots served2 eq_refl eq_refl eq_refl)
    as (der & Hder & Hpeer).
  exists der. split; [exact Hder|]. split.
  - assert (Hd : der = write_bits (encode (toy_params xc0))).
    { assert (Hx : pem_certificates (toy_pem xc0) = Some [write_bits (encode (toy_params xc0))])
        by (vm_compute; reflexivity). congruence. }
    rewrite Hd. vm_compute. reflexivity.
  - intros peer Hp. apply (proj2 (Hpeer peer Hp)). vm_compute. discriminate.
Defined.
End Run.
