(* ===== verification/Admission.v ===== *)
(** * Admission

    What a provisioned device can rely on: over a database that answers, the server
    accepts the enrollment of a device with an open token.  The constraints of the
    tables are an invariant of every served request, from which no statement of the
    accepting transaction can fail. *)

From S2P Require Import Prelude Bytes Text Effects Domain Crypto Protocol Tls Directory Ledger Authority Enrollment RouteStore Routes Server Production.

(** ** The constraints as an invariant *)

Record constrained (l : Ledger) : Prop := {
  cn_authority d r : enrollment_authority l !! d = Some r -> authority_check d r = true;
  cn_unique d r d' r' : enrollment_authority l !! d = Some r -> enrollment_authority l !! d' = Some r' ->
    d <> d' -> authority_clash r r' = false;
  cn_credential s c : device_route_credentials l !! s = Some c -> credential_check s c = true;
}.

Lemma migrated_constrained : constrained migrated.
Proof. split; cbn; intros; simplify_map_eq. Qed.

Lemma authority_clash_sym a b : authority_clash a b = authority_clash b a.
Proof.
  unfold authority_clash. f_equal; [f_equal; apply bool_decide_ext; naive_solver|].
  destruct (au_active_serial a), (au_active_serial b); try done. apply bool_decide_ext. naive_solver.
Qed.

Lemma authority_unique_spec d r t :
  authority_unique d r t = true <-> forall d' r', t !! d' = Some r' -> d' <> d -> authority_clash r r' = false.
Proof.
  unfold authority_unique. rewrite forallb_forall. split.
  - intros Hall d' r' Hr Hd. specialize (Hall (d', r')). cbn in Hall. apply negb_true_iff, Hall, list_elem_of_In.
    apply elem_of_map_to_list. by rewrite lookup_delete_ne.
  - intros Hall [d' r'] Hin%list_elem_of_In%elem_of_map_to_list. cbn. apply negb_true_iff.
    apply lookup_delete_Some in Hin as [Hne Hr]. by eapply Hall.
Qed.

Lemma put_authority_constrained d r l l' :
  constrained l -> put_authority d r l = Some l' -> constrained l'.
Proof.
  intros Hc (Hchk & Huniq & ->)%put_authority_Some. rewrite authority_unique_spec in Huniq.
  split; cbn; [| |apply (cn_credential _ Hc)].
  - intros d' r' [[<- <-]|[_ Hr]]%lookup_insert_Some; [done|by apply (cn_authority _ Hc)].
  - intros d1 r1 d2 r2 H1 H2 Hne.
    apply lookup_insert_Some in H1 as [[<- <-]|[Hd1 H1]], H2 as [[<- <-]|[Hd2 H2]]; try done.
    + by apply (Huniq d2).
    + rewrite authority_clash_sym. by apply (Huniq d1).
    + by apply (cn_unique _ Hc d1 _ d2).
Qed.

Lemma put_credential_constrained s c l l' :
  constrained l -> put_credential s c l = Some l' -> constrained l'.
Proof.
  intros Hc (Hchk & _ & ->)%put_credential_Some. split; cbn.
  - apply (cn_authority _ Hc).
  - apply (cn_unique _ Hc).
  - intros s' c' [[<- <-]|[_ Hs]]%lookup_insert_Some; [done|by apply (cn_credential _ Hc)].
Qed.

(** A statement and a computation that keep the constraints. *)
Definition respects {A} (stmt : statement A) : Prop :=
  forall l a l', constrained l -> stmt l = Some (a, l') -> constrained l'.
Definition upholds {E A} (m : M Pool E A) : Prop :=
  forall p, constrained (pl_ledger p) -> constrained (pl_ledger (snd (m p))).

Lemma respects_same {A} (stmt : statement A) : (forall l a l', stmt l = Some (a, l') -> l' = l) -> respects stmt.
Proof. intros Hs l a l' Hc ->%Hs. done. Qed.

Lemma respects_select_active d : respects (select_active_serial d).
Proof. apply respects_same. by intros l a l' [= _ <-]. Qed.
Lemma respects_select_open now d : respects (select_open_token now d).
Proof. apply respects_same. by intros l a l' [= _ <-]. Qed.
Lemma respects_select_status d s : respects (select_status d s).
Proof. apply respects_same. by intros l a l' [= _ <-]. Qed.
Lemma respects_select_latest d : respects (select_latest d).
Proof. apply respects_same. by intros l a l' [= _ <-]. Qed.

(** The result of a write, if it is made. *)
Lemma put_result {A} (o : option Ledger) (a b : A) l' :
  (x ← o; Some (a, x)) = Some (b, l') -> o = Some l'.
Proof. destruct o; [|done]. by intros [= _ <-]. Qed.

Lemma respects_revoke_active now d s : respects (update_revoke_active now d s).
Proof.
  intros l a l' Hc. unfold update_revoke_active. destruct (_ !! s); [|by intros [= _ <-]].
  destruct (_ && _); [|by intros [= _ <-]]. intros Hp%put_result. by eapply put_credential_constrained.
Qed.
Lemma respects_clear_active d s : respects (update_clear_active d s).
Proof.
  intros l a l' Hc. unfold update_clear_active. destruct (_ !! d); [|by intros [= _ <-]].
  destruct (bool_decide _); [|by intros [= _ <-]]. intros Hp%put_result. by eapply put_authority_constrained.
Qed.
Lemma respects_upsert now q dg : respects (upsert_authority now q dg).
Proof.
  intros l a l' Hc. unfold upsert_authority. destruct (negb _); [done|].
  intros Hp%put_result. by eapply put_authority_constrained.
Qed.
Lemma respects_consume now d act : respects (update_consume now d act).
Proof.
  intros l a l' Hc. unfold update_consume. destruct (_ !! d); [|by intros [= _ <-]].
  destruct (bool_decide _); [|by intros [= _ <-]]. intros Hp%put_result. by eapply put_authority_constrained.
Qed.
Lemma respects_insert_credential now d s dg : respects (insert_credential now d s dg).
Proof.
  intros l a l' Hc. unfold insert_credential. destruct (_ !! s); [done|]. destruct (has_authority d l); [|done].
  intros Hp%put_result. by eapply put_credential_constrained.
Qed.
Lemma respects_insert_revoked now b s d : respects (insert_revoked now b s d).
Proof.
  intros l a l' [Ha Hu Hc]. unfold insert_revoked. destruct (negb _); [done|]. destruct (_ !! s).
  - destruct b; [|done]. by intros [= _ <-].
  - destruct (has_authority d l); [|done]. by intros [= _ <-].
Qed.
Lemma respects_insert_health d st : respects (insert_health d st).
Proof. intros l a l' [Ha Hu Hc]. unfold insert_health. destruct (_ && _); [|done]. by intros [= _ <-]. Qed.
Lemma respects_insert_configuration r : respects (insert_configuration r).
Proof. intros l a l' [Ha Hu Hc]. unfold insert_configuration. destruct (_ && _); [|done]. by intros [= _ <-]. Qed.

Lemma upholds_ret {E A} (a : A) : upholds (mret (M := M Pool E) a).
Proof. by intros p. Qed.
Lemma upholds_lift {E A} (r : result E A) : upholds (lift r).
Proof. by intros p. Qed.
Lemma upholds_ensure {E} c (e : E) : upholds (ensure c e).
Proof. intros p. unfold ensure. by destruct c. Qed.
Lemma upholds_bind {E A B} (m : M Pool E A) (k : A -> M Pool E B) :
  upholds m -> (forall a, upholds (k a)) -> upholds (m ≫= k).
Proof.
  intros Hm Hk p Hc. unfold mbind, M_bind. specialize (Hm p Hc).
  destruct (m p) as [[a|e] p1]; [|done]. by apply Hk.
Qed.
Lemma upholds_with_error {E F A} (f : E -> F) (m : M Pool E A) : upholds m -> upholds (with_error f m).
Proof. intros Hm p Hc. unfold with_error. specialize (Hm p Hc). by destruct (m p). Qed.
Lemma upholds_execute {E A} (e : E) (stmt : statement A) : respects stmt -> upholds (execute e stmt).
Proof.
  intros Hs p Hc. unfold execute, exchange.
  destruct (pl_plan p _), (stmt (pl_ledger p)) as [[a l]|] eqn:Hx; cbn; try done; by eapply Hs.
Qed.
Lemma upholds_transaction {E A} (e : E) (body : M Pool E A) : upholds body -> upholds (transaction e body).
Proof.
  intros Hb p Hc. destruct (transaction e body p) as [r p'] eqn:Ht.
  apply transaction_run in Ht as [(a & p1 & p2 & Hrun & H1 & H2 & _)|(Hl & _)]; cbn; [|by rewrite Hl].
  specialize (Hb p1). rewrite Hrun in Hb. rewrite H2. apply Hb. by rewrite H1.
Qed.

Create HintDb constraints.
#[export] Hint Resolve respects_select_active respects_select_open respects_select_status
  respects_select_latest respects_revoke_active respects_clear_active respects_upsert respects_consume
  respects_insert_credential respects_insert_revoked respects_insert_health
  respects_insert_configuration : constraints.
#[export] Hint Resolve upholds_ret upholds_lift upholds_ensure upholds_execute upholds_with_error
  upholds_transaction : constraints.

(** A sequence of steps that keep the constraints. *)
Ltac upheld := repeat first [solve [auto with constraints] | apply upholds_transaction
  | apply upholds_with_error | apply upholds_bind; [|intros ?] | case_match].

Section Upheld.
Context `{Sha256} `{Ed25519} `{RouteJson} `{Rcgen} `{Ldap} `{StrLower} (deployment : Deployment).

Lemma upholds_provision now uuid q : upholds (provision now uuid q).
Proof. unfold provision, recover. upheld. Qed.

Lemma upholds_activate {T} now uuid d token prior (issue : bytes -> result RepositoryError (T * bytes)) :
  upholds (consume_and_activate now uuid d token prior issue).
Proof. unfold consume_and_activate, revoke_previous. upheld. Qed.
#[local] Hint Resolve upholds_provision upholds_activate : constraints.

Lemma upholds_status d s p :
  constrained (pl_ledger p) -> constrained (pl_ledger (snd (pg_credential_status d s p))).
Proof.
  intros Hc. pose proof (upholds_execute tt _ (respects_select_status d s) p Hc) as Hx.
  unfold pg_credential_status. by destruct (execute tt _ p) as [[[[]|]|] p'].
Qed.

Lemma upholds_authorize device : upholds (authorize_device device).
Proof.
  intros p Hc. cbn. unfold authorize_with.
  pose proof (upholds_status (ad_device_id device) (ad_credential_serial device) p Hc).
  by destruct (pg_credential_status _ _ p).
Qed.

Lemma upholds_active_device connection : upholds (require_active_device connection).
Proof.
  unfold require_active_device. apply upholds_bind; [auto with constraints|intros peer].
  apply upholds_bind.
  { intros p Hc. pose proof (upholds_status (pe_subject peer) (pe_serial peer) p Hc). cbn.
    by destruct (pg_credential_status _ _ p). }
  intros st. upheld. apply upholds_authorize.
Qed.

Lemma upholds_persist d c : upholds (persist_configuration d c).
Proof. cbn. unfold pg_persist_configuration. upheld. Qed.

Lemma upholds_selected d : upholds (selected_configuration d).
Proof. cbn. unfold pg_selected_configuration. upheld. Qed.

#[local] Hint Resolve upholds_authorize upholds_active_device upholds_persist upholds_selected : constraints.

Lemma upholds_route (m : M Pool N Response) p response p' :
  upholds m -> answers_with m p response p' -> constrained (pl_ledger p) -> constrained (pl_ledger p').
Proof.
  intros Hm [(-> & _)|(r & Hr & _)] Hc; [done|]. specialize (Hm p Hc). by rewrite Hr in Hm.
Qed.

Lemma upholds_app now clock uuid connection rq p response p' :
  production_app deployment now clock uuid connection rq p = (response, p') ->
  constrained (pl_ledger p) -> constrained (pl_ledger p').
Proof.
  unfold production_app, build_app, api_v1_router.
  repeat match goal with |- context [bool_decide (rq_path rq = ?x)] =>
    destruct (bool_decide_reflect (rq_path rq = x)) as [Hpath|_]; cbv iota end.
  - intros Hg%get_route_run. eapply upholds_route; [|done]. auto with constraints.
  - intros Hg%get_route_run. eapply upholds_route; [|done]. auto with constraints.
  - intros Hg%get_route_run. eapply upholds_route; [|done]. auto with constraints.
  - intros Hg%post_route_run. eapply upholds_route; [|done]. unfold require_administrator, admin_provisioning_contract.
    cbn [sv_route_state rs_provision production_routes]. unfold admin_provision. upheld.
  - intros Hg%get_route_run. eapply upholds_route; [|done]. unfold fetch_configuration, signed_configuration_for. upheld.
  - intros Hg%post_route_run. eapply upholds_route; [|done]. unfold post_health, record_health_for. upheld.
    apply upholds_execute. auto with constraints.
  - intros Hg%post_route_run. eapply upholds_route; [|done]. unfold bootstrap_enrollment_contract.
    cbn [sv_route_state rs_enroll production_routes]. unfold enroll. upheld.
  - by intros [= _ <-].
Qed.

Lemma served_constrained plan log p : served deployment plan log p -> constrained (pl_ledger p).
Proof.
  induction 1 as [|log p now clock uuid connection rq response p' Hs IH Hu Hrun]; [apply migrated_constrained|].
  by eapply upholds_app.
Qed.
End Upheld.

(** ** The accepting transaction runs *)

Lemma between_spec lo hi n : between lo hi n = true <-> lo <= n <= hi.
Proof. unfold between. rewrite andb_true_iff, !N.leb_le. done. Qed.

(** The next statement of a sequence, over a database that answers. *)
Lemma bind_answers {E A B} (e : E) (stmt : statement A) (k : A -> M Pool E B) p a l :
  answers p -> stmt (pl_ledger p) = Some (a, l) ->
  (execute e stmt ≫= k) p = k a (mkPool l (pl_plan p) (pl_sent p + 1)).
Proof. intros Hp Hs. unfold mbind, M_bind. by rewrite (execute_answers _ _ _ _ _ Hp Hs). Qed.

Lemma answers_after l p n : answers p -> answers (mkPool l (pl_plan p) n).
Proof. intros Hp k. apply Hp. Qed.
#[local] Hint Resolve answers_after : constraints.

(** Spending the token and recording the new serial. *)
Lemma consume_runs now d dg t r l l0 :
  constrained l -> ledger_wf l -> open_token now d dg r l -> au_created_at r <= now ->
  1 <= len t <= 20 -> device_route_credentials l !! t = None ->
  enrollment_authority l0 = enrollment_authority l ->
  update_consume now d (Some t) l0 =
    Some (1, set_row d (with_active_serial (Some t) (with_consumed_at now r)) l0).
Proof.
  intros Hc Hw (Hr & Hnone & _) Hcreated Ht Hfresh Heq. unfold update_consume.
  rewrite Heq, Hr, bool_decide_eq_true_2 by done.
  rewrite (proj2 (put_authority_Some d _ l0 (set_row d (with_active_serial (Some t) (with_consumed_at now r)) l0)));
    [done|]. split_and!; [| |done].
  - pose proof (cn_authority _ Hc _ _ Hr) as Hk. unfold authority_check in *. cbn.
    apply between_spec in Ht. apply N.leb_le in Hcreated. rewrite !andb_true_iff in *. tauto.
  - rewrite authority_unique_spec. intros d' r' Hr' Hne. rewrite Heq in Hr'.
    pose proof (cn_unique _ Hc _ _ _ _ Hr Hr' ltac:(congruence)) as Hk. unfold authority_clash in *. cbn.
    rewrite !orb_false_iff in *. destruct Hk as [[H1 H2] _]. split; [by split|].
    destruct (au_active_serial r') as [s|] eqn:Hs; [|done]. apply bool_decide_eq_false_2. intros <-.
    destruct (proj2 (wf_active _ Hw d' t) ltac:(eauto)) as (c & Hx & _). congruence.
Qed.

(** The credential the device had is revoked in both tables. *)
Lemma revoke_runs now d r s l :
  constrained l -> ledger_wf l -> enrollment_authority l !! d = Some r -> au_active_serial r = Some s ->
  exists l1, update_revoke_active now d s l = Some (tt, l1) /\
    insert_revoked now false s d l1 = Some (tt, revoke_in now d s l).
Proof.
  intros Hc Hw Hr Hs. destruct (proj2 (wf_active _ Hw d s) ltac:(eauto)) as (c & Hx & Hd & Hst).
  pose proof (cn_credential _ Hc _ _ Hx) as Hchk.
  assert (Hser : between 1 20 (len s) = true) by (unfold credential_check in Hchk; by destruct (between 1 20 (len s))).
  exists (set_credentials (alter (revoke_row now) s (device_route_credentials l)) l). split.
  - unfold update_revoke_active. rewrite Hx, !bool_decide_eq_true_2 by done. cbn [andb].
    rewrite (proj2 (put_credential_Some s (revoke_row now c) l
      (set_credentials (alter (revoke_row now) s (device_route_credentials l)) l))); [done|]. split_and!.
    + unfold credential_check in *. cbn. destruct (between 1 20 (len s)), (_ =? 32); by try done.
    + unfold one_active. apply forallb_forall. intros [k c'] _. cbn. by rewrite bool_decide_eq_false_2.
    + f_equal. apply map_eq. intros i. destruct (decide (s = i)) as [<-|].
      * by rewrite lookup_alter_eq, lookup_insert_eq, Hx.
      * by rewrite lookup_alter_ne, lookup_insert_ne.
  - unfold insert_revoked. rewrite Hser. cbn.
    assert (Hn : revoked_device_credentials l !! s = None).
    { apply eq_None_not_Some. intros Hv%(wf_revoked _ Hw). destruct Hv as (c' & ? & ?). congruence. }
    rewrite Hn. unfold has_authority. cbn. by rewrite bool_decide_eq_true_2 by by exists r.
Qed.

(** The accepted row is inserted: the device has no other. *)
Lemma insert_runs now d t dg l :
  is_Some (enrollment_authority l !! d) -> 1 <= len t <= 20 -> len dg = 32 ->
  device_route_credentials l !! t = None ->
  (forall s, active_for l d s -> False) ->
  insert_credential now d t dg l = Some (tt, add_credential t (active_row now d dg) l).
Proof.
  intros Hd Ht Hdg Hfresh Hno. unfold insert_credential, has_authority.
  rewrite Hfresh, bool_decide_eq_true_2 by done.
  rewrite (proj2 (put_credential_Some t (active_row now d dg) l (add_credential t (active_row now d dg) l))); [done|].
  split_and!; [| |done].
  - unfold credential_check. cbn. rewrite Hdg, (proj2 (between_spec 1 20 _)) by done. done.
  - unfold one_active. apply forallb_forall. intros [s c] Hin%list_elem_of_In%elem_of_map_to_list. cbn.
    apply lookup_delete_Some in Hin as [_ Hin].
    destruct (bool_decide_reflect (cr_status c = RowActive)); [|done].
    destruct (bool_decide_reflect (d = cr_device_id c)) as [->|]; [|done].
    exfalso. apply (Hno s). by exists c.
Qed.

Lemma none_active now d r s l :
  ledger_wf l -> enrollment_authority l !! d = Some r ->
  active_for (match au_active_serial r with Some s => revoke_in now d s l | None => l end) d s -> False.
Proof.
  intros Hw Hr Hact. destruct (au_active_serial r) as [s0|] eqn:Hs.
  - destruct Hact as (c & Hx & Hd & Hst). cbn in Hx.
    apply lookup_alter_Some in Hx as [(-> & c0 & _ & ->)|(Hne & Hx)]; [done|].
    apply Hne, (active_unique l d); [done|by apply (wf_active _ Hw); eauto|by exists c].
  - apply (wf_active _ Hw) in Hact as (r' & Hr' & Hs'). congruence.
Qed.

Section Accepted.
Context `{Sha256Laws} `{Ed25519} `{RouteJson} `{Rcgen} `{Ldap} `{StrLower} (deployment : Deployment).

(** Every statement of the accepting transaction succeeds. *)
Lemma activation_runs {T} now uuid d token r (issue : bytes -> result RepositoryError (T * bytes)) a cert p :
  constrained (pl_ledger p) -> ledger_wf (pl_ledger p) -> answers p ->
  open_token now d (sha256 token) r (pl_ledger p) -> au_created_at r <= now -> 1 <= len uuid <= 20 ->
  device_route_credentials (pl_ledger p) !! uuid = None ->
  issue uuid = Ok (a, cert) -> len cert = 32 ->
  exists p', consume_and_activate now uuid d token (au_active_serial r) issue p = (Ok a, p').
Proof.
  intros Hc Hw Hp Ho Hcreated Huuid Hfresh Hissue Hcert. pose proof Ho as (Hr & Hnone & Hexp & Hdg).
  set (l1 := match au_active_serial r with Some s => revoke_in now d s (pl_ledger p) | None => pl_ledger p end).
  set (row := with_active_serial (Some uuid) (with_consumed_at now r)).
  assert (Hrev : forall n, exists p2, revoke_previous now d (au_active_serial r) (mkPool (pl_ledger p) (pl_plan p) n)
    = (Ok tt, p2) /\ pl_ledger p2 = l1 /\ pl_plan p2 = pl_plan p).
  { intros n. unfold revoke_previous, l1. destruct (au_active_serial r) as [s|] eqn:Hs; [|by eexists].
    destruct (revoke_runs now d r s (pl_ledger p) Hc Hw Hr Hs) as (l2 & Hu & Hi).
    rewrite (bind_answers _ _ _ _ tt l2); [|by intros k; apply Hp|done].
    eexists. split; [apply execute_answers; [by intros k; apply Hp|exact Hi]|done]. }
  destruct (Hrev (pl_sent p + 1 + 1)) as (p2 & Hrun & Hl2 & Hplan).
  assert (Hp2 : answers p2) by (intros k; rewrite Hplan; apply Hp).
  eexists. unfold consume_and_activate. apply transaction_answers; [apply Hp| |].
  - rewrite (bind_answers _ _ _ _ (Some r) (pl_ledger p)); [|by intros k; apply Hp|].
    2:{ cbn. unfold select_open_token. rewrite Hr, bool_decide_eq_true_2 by done.
        by rewrite (proj2 (N.ltb_lt _ _) Hexp). }
    rewrite bind_lift. cbn [ok_or]. rewrite bind_ensure, !bool_decide_eq_true_2 by done. cbn [andb].
    rewrite bind_lift, Hissue. unfold mbind at 1, M_bind at 1. cbn [pl_plan pl_sent]. rewrite Hrun.
    rewrite (bind_answers _ _ _ _ 1 (set_row d row l1)); [|done|].
    2:{ rewrite Hl2. apply (consume_runs now d (sha256 token) uuid r (pl_ledger p)); try done.
        unfold l1. by destruct (au_active_serial r). }
    rewrite bind_ensure. cbn [N.eqb Pos.eqb].
    rewrite (bind_answers _ _ _ _ tt (add_credential uuid (active_row now d cert) (set_row d row l1))); [done|by intros k; apply Hp2|].
    apply insert_runs; [by exists row; cbn; rewrite lookup_insert_eq|done|done| |].
    + unfold l1. cbn. destruct (au_active_serial r); cbn; [by rewrite lookup_alter_None|done].
    + intros s. exact (none_active now d r s (pl_ledger p) Hw Hr).
  - apply Hp2.
Qed.

Lemma app_enrollment now clock uuid connection rq p :
  rq_path rq = ENROLLMENT_PATH ->
  production_app deployment now clock uuid connection rq p =
    post_route (request ← lift (extract BOOTSTRAP_LIMIT json_bootstrap rq);
                bootstrap_enrollment_contract (production_routes deployment now clock uuid) request) rq p.
Proof.
  intros Hpath. unfold production_app, build_app, api_v1_router. rewrite Hpath. reflexivity.
Qed.

(** A submission within the limits of the route. *)
Definition admissible (q : BootstrapEnrollmentRequest) : bool :=
  (be_version q =? 1) && between 1 128 (len (be_device_id q)) && between 1 512 (len (be_token q))
  && between 1 65536 (len (be_csr_pem q)).

Lemma between_nonempty hi (s : bytes) :
  between 1 hi (len s) = true -> bool_decide (s = []) = false /\ (hi <? len s) = false.
Proof.
  rewrite between_spec. intros [Hlo Hhi]. rewrite N.ltb_ge. split; [|done].
  apply bool_decide_eq_false_2. intros ->. rewrite len_nil in Hlo. lia.
Qed.

Lemma admissible_submission q prior :
  admissible q = true -> decode_prior_serial (be_prior_serial q) = Ok prior ->
  match prior with Some s => 1 <= len s <= 20 | None => True end ->
  negb (negb (be_version q =? 1) || bool_decide (be_device_id q = []) || (128 <? len (be_device_id q))
    || bool_decide (be_token q = []) || (512 <? len (be_token q))
    || bool_decide (be_csr_pem q = []) || (65536 <? len (be_csr_pem q))) = true /\
  EnrollmentSubmission_new (be_device_id q) (be_token q) (be_csr_pem q) prior =
    Ok (mkSubmission (be_device_id q) (be_token q) (be_csr_pem q) prior).
Proof.
  unfold admissible. rewrite !andb_true_iff. intros [[[Hv Hd] Ht] Hc] _ Hprior.
  apply between_nonempty in Hd as [Hd1 Hd2], Ht as [Ht1 Ht2], Hc as [Hc1 Hc2].
  rewrite Hv, Hd1, Hd2, Ht1, Ht2, Hc1, Hc2. split; [done|].
  unfold EnrollmentSubmission_new. rewrite Hd1, Hd2, Ht1, Ht2, Hc1, Hc2. cbn [orb].
  destruct prior as [s|]; [|done]. apply between_spec in Hprior.
  apply between_nonempty in Hprior as [-> ->]. done.
Qed.

(** C14.  A device with an open token is admitted: when the database answers, both
    controllers of the directory know the device, the issuer issues, the token is the
    one the administrator provisioned and has not expired, and the serial the request
    names is the one the device has, then whoever sends the request gets 200 with the
    issued chain, and the new serial is the device's accepted credential.  No
    constraint of the database can be in the way, in any ledger the server reaches. *)
Theorem open_token_admitted plan log p now clock uuid connection rq q r identity issued :
  served deployment plan log p -> answers p ->
  rq_path rq = ENROLLMENT_PATH -> rq_method rq = lit "POST" ->
  extract BOOTSTRAP_LIMIT json_bootstrap rq = Ok q -> admissible q = true ->
  open_token now (be_device_id q) (sha256 (be_token q)) r (pl_ledger p) -> au_created_at r <= now ->
  decode_prior_serial (be_prior_serial q) = Ok (au_active_serial r) ->
  corroborate_computer (dp_host deployment) (pd_directory (dp_production deployment)) (be_device_id q) = Ok identity ->
  len uuid = 16 -> device_route_credentials (pl_ledger p) !! uuid = None ->
  issue_from_csr (dp_host deployment) (pd_issuer (dp_production deployment)) clock
    (be_device_id q) (be_csr_pem q) uuid = Ok issued ->
  exists p', production_app deployment now clock uuid connection rq p =
      (mkResponse OK (EnrollmentBody 1 (is_certificate_chain_pem issued)), p') /\
    active_for (pl_ledger p') (be_device_id q) uuid /\
    forall s, au_active_serial r = Some s -> revoked (pl_ledger p') s.
Proof.
  intros Hs Hp Hpath Hpost Hq Hadm Ho Hcreated Hprior Hdir Huuid Hfresh Hissue.
  pose proof (served_constrained deployment plan log p Hs) as Hc.
  destruct (served_good deployment plan log p Hs) as [Hw _].
  set (s := mkSubmission (be_device_id q) (be_token q) (be_csr_pem q) (au_active_serial r)).
  assert (Hrow : match au_active_serial r with Some x => 1 <= len x <= 20 | None => True end).
  { destruct Ho as (Hr & _). pose proof (cn_authority _ Hc _ _ Hr) as Hk. unfold authority_check in Hk.
    rewrite !andb_true_iff in Hk. destruct (au_active_serial r); [|done]. apply between_spec. tauto. }
  destruct (admissible_submission q _ Hadm Hprior Hrow) as [Hguard Hnew].
  destruct (activation_runs now uuid (be_device_id q) (be_token q) r
    (issue_for (dp_host deployment) (pd_issuer (dp_production deployment)) clock s) issued
    (sha256 (is_certificate_chain_pem issued)) p) as [p' Hrun]; try done; [lia| |apply sha256_length|].
  { unfold issue_for. cbn [su_device_id su_csr_pem s]. by rewrite Hissue. }
  exists p'. split.
  - rewrite app_enrollment by done. unfold post_route. rewrite (bool_decide_eq_true_2 _ Hpost). unfold run_route.
    rewrite bind_lift, Hq. unfold bootstrap_enrollment_contract.
    rewrite bind_ensure, Hguard, bind_lift, Hprior, bind_lift, Hnew. cbn [map_err].
    rewrite bind_with_error. cbn [sv_route_state rs_enroll production_routes]. unfold enroll.
    rewrite bind_lift. cbn [su_device_id su_token su_prior_serial]. rewrite Hdir. cbn [map_err].
    unfold with_error. fold s. by rewrite Hrun.
  - apply activate_effect in Hrun as (cert & _ & r' & (Hr' & _) & Hser & _ & ->); [|done].
    destruct Ho as (Hr & _). rewrite Hr in Hr'. injection Hr' as <-. split.
    + exists (active_row now (be_device_id q) cert). cbn. by rewrite lookup_insert_eq.
    + intros x Hx. rewrite Hx. destruct (proj2 (wf_active _ Hw (be_device_id q) x) ltac:(eauto)) as (c & Hcx & _).
      exists (revoke_row now c). cbn. rewrite lookup_insert_ne by congruence. by rewrite lookup_alter_eq, Hcx.
Qed.
End Accepted.

(** ** The enrollment after a provisioning *)

From S2P Require Import Toy Issuance ServerToy.

Module Enrolling.
Import Certs Production.Run.
#[local] Existing Instances toy_ldap toy_lower toy_json.

Definition request : BootstrapEnrollmentRequest :=
  mkBootstrap 1 toy_device (to_hex (toy_uuid x11)) (lit "csr") None.
Definition row : AuthorityRow :=
  default (mkAuthority 0 [] [] [] [] [] 0 [] 0 None None 0)
    (enrollment_authority (pl_ledger (snd provisioning)) !! toy_device).
Definition chain : bytes :=
  match issue_from_csr toy_host (pd_issuer toy_production) (50, 50)%Z toy_device (lit "csr") (toy_uuid x22) with
  | Ok issued => is_certificate_chain_pem issued
  | Err _ => []
  end.

Lemma served1 : served toy_deployment toy_plan
  [mkExchange toy_admin (toy_post PROVISIONING_PATH (lit "new")) (fst provisioning)] (snd provisioning).
Proof.
  apply (served_next toy_deployment toy_plan [] (fresh_pool toy_plan) 50 (50, 50)%Z (toy_uuid x11)); [|done|].
  - apply served_none.
  - apply surjective_pairing.
Defined.

Lemma open_token_admitted_witness :
  exists p', turn (toy_uuid x22) None (toy_post ENROLLMENT_PATH (to_hex (toy_uuid x11))) (snd provisioning)
    = (mkResponse OK (EnrollmentBody 1 chain), p') /\ active_for (pl_ledger p') toy_device (toy_uuid x22).
Proof.
  destruct (corroborate_computer toy_host (pd_directory toy_production) toy_device) as [identity|] eqn:Hdir;
    [|exfalso; by vm_compute in Hdir].
  destruct (open_token_admitted toy_deployment toy_plan _ (snd provisioning) 50 (50, 50)%Z (toy_uuid x22) None
    (toy_post ENROLLMENT_PATH (to_hex (toy_uuid x11))) request row identity (mkIssued chain (toy_uuid x22) 30) served1)
    as (p' & Hrun & Hact & _); try exact Hdir; try (vm_compute; reflexivity).
  - vm_compute. repeat split; reflexivity.
  - vm_compute. discriminate.
  - exists p'. split; [exact Hrun|exact Hact].
Defined.
End Enrolling.
