(* ===== verification/EndToEnd.v ===== *)
(** * EndToEnd

    The agent and the server together: the enrollment coordinator of the endpoint
    (Agent.v, Client.v), with its disk, talks to the composed server of a deployment
    (Production.v), with its database.  The network between them is a class: how a
    request is written, which response body a client can read a chain from, and that
    a request sent to the server's URL is handled by the server. *)

From S2P Require Import Prelude Bytes Text Effects Fs Crypto Protocol ConfigCache Credential Tls Directory Ledger Authority Enrollment Client Agent Issuance RouteStore Routes Server Production.

(** The form of requests and responses on the wire.  serde writes the fields of a
    request under the names the server reads them by; the client finds a chain only
    in the body of an enrollment response. *)
Class Wire (S : Type) `{HttpClient S} `{RouteJson} := {
  wire_request : bytes -> RequestBody -> Request;
  wire_body : Body -> option bytes;
  wire_connection : TlsClient -> TlsConnectionInfo;
  wire_path path body : rq_path (wire_request path body) = path;
  wire_bootstrap path b q : json_bootstrap (wire_request path (PostEnrollment b)) = Ok q ->
    q = mkBootstrap (eb_version b) (eb_device_id b) (eb_token b) (eb_csr_pem b) (eb_prior_serial b);
  wire_chain body text chain : wire_body body = Some text -> response_chain text = Some chain ->
    exists v, body = EnrollmentBody v chain;
}.

Section Composed.
Context `{Sha256} `{Ed25519} `{RouteJson} `{Ldap} `{StrLower} `{IssuanceLaws} `{HttpClient Pool}.
Context `{!Wire Pool} `{Custody} (Hlaws : CustodyLaws _).
Context (deployment : Deployment) (client : AgentHttpClient) (dir : fspath).

(** The server handles what is sent to its URL, with its clocks and a fresh UUID. *)
Context (server_now : N) (t1 t2 : N) (uuid : bytes) (now : Z).
Hypothesis network : forall c path body p,
  send c (hc_server_url client ++ path) body p =
    let '(response, p') :=
      production_app deployment server_now (Z.of_N t1, Z.of_N t2) uuid (wire_connection c)
        (wire_request path body) p in
    (Some (mkHttpResponse (rp_status response) (wire_body (rp_body response))), p').

Hypothesis acl_dir : validate_acl dir = true.
Hypothesis acl_path : validate_acl (credential_path dir) = true.
Hypothesis chain_text : forall text chain, response_chain text = Some chain -> utf8_valid chain = true.

(** The two ports the service gives the coordinator. *)
#[local] Instance endpoint_transport : EnrollmentTransport (Endpoint Pool) := client_transport now client.
#[local] Instance endpoint_store : EnrollmentCredentialStore (Endpoint Pool) := dpapi_store dir.

Lemma decode_prior_serial_hex prior o :
  decode_prior_serial (to_hex <$> prior) = Ok o -> o = prior.
Proof.
  destruct prior as [s|]; cbn -[to_hex hex_pairs]; [|by intros [= <-]].
  destruct (_ || _); [done|]. rewrite hex_pairs_to_hex. by intros [= <-].
Qed.

(** A response that carries a chain is one to an enrollment that was accepted. *)
Lemma enrollment_accepted c b p response p' v chain :
  ledger_wf (pl_ledger p) ->
  production_app deployment server_now (Z.of_N t1, Z.of_N t2) uuid c
    (wire_request ENROLLMENT_URL_PATH (PostEnrollment b)) p = (response, p') ->
  rp_body response = EnrollmentBody v chain ->
  exists issued prior, is_certificate_chain_pem issued = chain /\
    decode_prior_serial (eb_prior_serial b) = Ok prior /\
    issue_from_csr (dp_host deployment) (pd_issuer (dp_production deployment)) (Z.of_N t1, Z.of_N t2)
      (eb_device_id b) (eb_csr_pem b) uuid = Ok issued /\
    activated server_now uuid (eb_device_id b) (sha256 (eb_token b)) (sha256 chain) prior
      (pl_ledger p) (pl_ledger p').
Proof.
  intros Hw. unfold production_app, build_app, api_v1_router. rewrite wire_path.
  vm_compute bool_decide. cbv iota.
  intros [(_ & ->)|(r & Hrun & _ & Hbody)]%post_route_run Hresp; [done|].
  destruct Hbody as [Hbody|Hbody]; [|congruence]. rewrite Hresp in Hbody. revert Hrun.
  rewrite bind_lift. destruct (extract _ _ _) as [q|e] eqn:Hq; [|intros [= <- _]; done].
  unfold extract in Hq. destruct (_ <? _) in Hq; [done|]. apply wire_bootstrap in Hq as ->.
  unfold bootstrap_enrollment_contract. rewrite bind_ensure.
  destruct (negb _); [|intros [= <- _]; done]. rewrite bind_lift. cbn [be_prior_serial be_device_id be_token be_csr_pem].
  destruct (decode_prior_serial (eb_prior_serial b)) as [prior|e] eqn:Hprior; [|intros [= <- _]; done].
  rewrite bind_lift. destruct (EnrollmentSubmission_new _ _ _ _) as [s|] eqn:Hs; cbn [map_err]; [|intros [= <- _]; done].
  apply EnrollmentSubmission_new_Ok in Hs as (Hd & Ht & Hcsr & Hpr).
  rewrite bind_with_error. destruct (rs_enroll _ s p) as [re p1] eqn:He. cbn in He.
  destruct re as [issued|e]; [|intros [= <- _]; done]. intros [= <- <-]. injection Hbody as _ ->.
  apply enroll_effect in He as [(_ & e & ?)|(issued' & cert & Hi & _ & Ha & [[= <-]|[e ?]])]; [done| |done|done].
  unfold issue_for in Hi. apply result_bind_Ok in Hi as (i & Hi%map_err_Ok & [= -> <-]).
  rewrite Hd, Ht, Hpr in Ha. rewrite Hd, Hcsr in Hi. by exists issued, prior.
Qed.

(** The serial the agent reads from an issued chain. *)
Lemma issued_serial ca_certs root_certs d csr issued identity trusted :
  issuing_material (dp_host deployment) (pd_issuer (dp_production deployment)) ca_certs root_certs ->
  issue_from_csr (dp_host deployment) (pd_issuer (dp_production deployment)) (Z.of_N t1, Z.of_N t2)
    d csr uuid = Ok issued ->
  validate_device_chain now d (is_certificate_chain_pem issued) trusted = Ok identity ->
  vi_serial identity = der_integer uuid.
Proof.
  intros [Hroot Hca _] Hi Hv.
  apply issue_from_csr_Ok in Hi as (_ & _ & request & root_pem & ca_pem & key_pem & key & ca & pem &
    Er & Ec & _ & _ & _ & Hsig & Hchain).
  rewrite Er in Hroot. rewrite Ec in Hca. cbn in Hroot, Hca.
  destruct (signed_leaf _ _ _ Hsig) as (_ & der & leaf & Hpem & Hleaf & Hof).
  apply validate_device_chain_Ok in Hv as (certs & leaf_der & leaf' & rest & _ & _ & Hc & Hh & Hp & _ & _ & _ & _ & _ & ->).
  rewrite Hchain, (pem_concat _ _ _ _ Hpem (pem_concat _ _ _ _ Hca Hroot)) in Hc. injection Hc as <-.
  injection Hh as <-. rewrite Hleaf in Hp. injection Hp as _ <-. exact (lo_serial _ _ Hof).
Qed.

(** C13.  When the endpoint reports an enrollment, both ends agree on it: in one
    transaction the server spent the token an administrator had provisioned for this
    device, revoked the credential it replaces if there is one, and accepted the
    serial it drew, for this device and with the digest of the very chain the endpoint
    stored; the endpoint loads a credential for this device with that chain, the key
    it generated, and the DER form of that serial. *)
Theorem enrollment_agrees ca_certs root_certs generated d token prior p mode p' :
  issuing_material (dp_host deployment) (pd_issuer (dp_production deployment)) ca_certs root_certs ->
  ledger_wf (pl_ledger (ep_net p)) ->
  coordinator_startup generated d token prior p = (Ok mode, p') -> mode <> Existing ->
  exists key csr chain,
    generated = Some (key, csr) /\
    activated server_now uuid d (sha256 token) (sha256 chain) prior
      (pl_ledger (ep_net p)) (pl_ledger (ep_net p')) /\
    active_for (pl_ledger (ep_net p')) d uuid /\ ledger_wf (pl_ledger (ep_net p')) /\
    load_credential p' = Ok (mkEnrollmentCredential d key chain (der_integer uuid) 30).
Proof.
  intros Hmat Hw Hrun Hmode.
  destruct (enrollment_run Hlaws now client dir acl_dir acl_path chain_text _ _ _ _ _ _ _ Hrun)
    as [(? & _)|(_ & _ & key & csr & identity & Hg & Hpost & Hload)]; [done|].
  apply post_enrollment_sent in Hpost as (c & resp & text & chain & Hsend & _ & Htext & Hchain & Hv).
  rewrite network in Hsend. destruct (production_app _ _ _ _ _ _ _) as [response pool] eqn:Happ.
  injection Hsend as <- Hpool. cbn in Htext. destruct (wire_chain _ _ _ Htext Hchain) as [v Hbody].
  destruct (enrollment_accepted _ _ _ _ _ _ _ Hw Happ Hbody) as (issued & pr & <- & Hpr & Hi & Ha).
  cbn in Hpr, Hi, Ha. apply decode_prior_serial_hex in Hpr as ->. rewrite Hpool in Ha.
  assert (Hid : vi_certificate_chain_pem identity = is_certificate_chain_pem issued).
  { by apply validate_device_chain_Ok in Hv as (? & ? & ? & ? & ? & ? & _ & _ & _ & _ & _ & _ & _ & _ & ->). }
  rewrite Hid, (issued_serial _ _ _ _ _ _ _ Hmat Hi Hv) in Hload.
  exists key, csr, (is_certificate_chain_pem issued). split_and!; [done|done| |by eapply activated_wf|done].
  destruct Ha as (r & _ & _ & _ & ->). exists (active_row server_now d (sha256 (is_certificate_chain_pem issued))).
  cbn. by rewrite lookup_insert_eq.
Qed.
End Composed.

(** ** An endpoint that enrolls *)

From S2P Require Import Toy ServerToy.

Module Lab.
Import Certs Machine.
#[local] Existing Instances toy_ldap toy_lower.

(** The files of the server; any other file has its own name as content. *)
Definition lab_host : Host :=
  mkHost (fun _ => None) (fun path => match ho_file Certs.host path with Some b => Some b | None => Some path end).
Definition lab : Deployment := mkDeployment lab_host toy_production.

(** A body on the wire: the fields of an enrollment as bits, or its own text. *)
Definition fields (b : EnrollmentRequestBody) : N * bytes * bytes * bytes * option bytes :=
  (eb_version b, eb_device_id b, eb_token b, eb_csr_pem b, eb_prior_serial b).
Definition lab_request (path : bytes) (body : RequestBody) : Request :=
  match body with
  | GetRequest => toy_get path
  | PostEnrollment b => toy_post path (write_bits (encode (fields b)))
  | PostHealth b => toy_post path (hb_drive_state b)
  end.
Definition lab_bootstrap (rq : Request) : result N BootstrapEnrollmentRequest :=
  match (read_bits (rq_body rq) ≫= decode) : option (N * bytes * bytes * bytes * option bytes) with
  | Some (v, d, t, csr, prior) => Ok (mkBootstrap v d t csr prior)
  | None => Err BAD_REQUEST
  end.
#[local] Instance lab_json : RouteJson := {|
  json_bootstrap := lab_bootstrap;
  json_provisioning := @json_provisioning toy_json;
  json_health := @json_health toy_json;
|}.
Definition lab_body (b : Body) : option bytes :=
  match b with EnrollmentBody _ chain => Some (x43 :: chain) | _ => None end.

Definition server_url : bytes := lit "https://dlp.lab".
Definition client : AgentHttpClient := mkClient server_url (header ++ lit "root") None None 30.
Definition uuid : bytes := xc1 :: replicate 15 x05.

#[local] Instance lab_http : HttpClient Pool := {|
  certificate_from_pem _ := true;
  identity_from_pem _ := true;
  client_builds _ := true;
  send c url body p :=
    match strip_prefix server_url url with
    | Some path =>
        let '(response, p') :=
          production_app lab 50 (Z.of_N 1700000000, Z.of_N 1700000001) uuid None (lab_request path body) p in
        (Some (mkHttpResponse (rp_status response) (lab_body (rp_body response))), p')
    | None => (None, p)
    end;
  response_chain text :=
    match text with
    | x43 :: chain => if utf8_valid chain then Some chain else None
    | _ => None
    end;
|}.

#[local] Program Instance lab_wire : Wire Pool := {|
  wire_request := lab_request;
  wire_body := lab_body;
  wire_connection _ := None;
|}.
Next Obligation. by intros path []. Qed.
Next Obligation.
  intros path b q. cbn. unfold lab_bootstrap. cbn [rq_body toy_post lab_request].
  rewrite read_write_bits. cbn [mbind option_bind]. rewrite decode_encode. by intros [= <-].
Qed.
Next Obligation.
  intros body text chain Hb Hc. destruct body as [| |v c| |]; try done. injection Hb as <-. exists v.
  cbn in Hc. destruct (utf8_valid c); [|done]. by injection Hc as ->.
Qed.

Lemma lab_network c path body p :
  send c (hc_server_url client ++ path) body p =
    let '(response, p') :=
      production_app lab 50 (Z.of_N 1700000000, Z.of_N 1700000001) uuid (wire_connection c)
        (wire_request path body) p in
    (Some (mkHttpResponse (rp_status response) (wire_body (rp_body response))), p').
Proof. cbn [send lab_http hc_server_url client]. by rewrite strip_prefix_app. Qed.

Lemma lab_text text chain : response_chain text = Some chain -> utf8_valid chain = true.
Proof. cbn. destruct text as [|[] text]; try done. destruct (utf8_valid text) eqn:Hv; [|done]. by intros [= <-]. Qed.

Lemma lab_material : issuing_material lab_host (pd_issuer toy_production) [lit "ca"] [lit "root"].
Proof. split; [reflexivity|reflexivity|]. by exists (lit "key"), (lit "ca"), [], (authority (lit "ca")). Qed.

(** An administrator provisions the device, then the endpoint starts. *)
Definition provisioned_pool : Pool :=
  snd (production_app lab 50 (50, 50)%Z (toy_uuid x11) toy_admin (toy_post PROVISIONING_PATH (lit "new"))
         (fresh_pool (fun _ => Answered))).
Definition before : Endpoint Pool := mkEndpoint world provisioned_pool.
Definition start : result AgentEnrollmentError EnrollmentMode * Endpoint Pool :=
  coordinator_startup (H := client_transport 1700003600 client) (H0 := dpapi_store directory)
    (Some (lit "key", lit "csr")) toy_device (to_hex (toy_uuid x11)) None before.

Lemma started : fst start = Ok Initial.
Proof. vm_compute. reflexivity. Qed.

Lemma started_run :
  coordinator_startup (H := client_transport 1700003600 client) (H0 := dpapi_store directory)
    (Some (lit "key", lit "csr")) toy_device (to_hex (toy_uuid x11)) None before = (Ok Initial, snd start).
Proof. fold start. rewrite <- started. apply surjective_pairing. Qed.

Definition loaded (p : Endpoint Pool) : result AgentEnrollmentError EnrollmentCredential :=
  @load_credential _ (dpapi_store directory) p.

Lemma provisioned_wf0 : ledger_wf (pl_ledger provisioned_pool).
Proof.
  refine (proj1 (served_good lab (fun _ => Answered) _ provisioned_pool
    (served_next lab (fun _ => Answered) [] (fresh_pool (fun _ => Answered)) 50 (50, 50)%Z (toy_uuid x11) toy_admin
       (toy_post PROVISIONING_PATH (lit "new")) _ provisioned_pool (served_none lab _) eq_refl _))).
  apply surjective_pairing.
Qed.

Lemma enrollment_stored_witness :
  is_ok (loaded before) = false /\
  exists key csr identity, Some (lit "key", lit "csr") = Some (key, csr) /\
    validate_device_chain 1700003600 toy_device (vi_certificate_chain_pem identity) (header ++ lit "root") = Ok identity /\
    loaded (snd start) =
      Ok (mkEnrollmentCredential toy_device key (vi_certificate_chain_pem identity) (vi_serial identity) 30).
Proof.
  exact (enrollment_stored custody_laws 1700003600 client directory eq_refl eq_refl lab_text
    (Some (lit "key", lit "csr")) toy_device (to_hex (toy_uuid x11)) None before Initial (snd start) started_run).
Defined.

Lemma enrollment_agrees_witness :
  exists key csr chain, Some (lit "key", lit "csr") = Some (key, csr) /\
    activated 50 uuid toy_device (sha256 (to_hex (toy_uuid x11))) (sha256 chain) None
      (pl_ledger provisioned_pool) (pl_ledger (ep_net (snd start))) /\
    active_for (pl_ledger (ep_net (snd start))) toy_device uuid /\ ledger_wf (pl_ledger (ep_net (snd start))) /\
    loaded (snd start) =
      Ok (mkEnrollmentCredential toy_device key chain (der_integer uuid) 30).
Proof.
  exact (enrollment_agrees custody_laws lab client directory 50 1700000000 1700000001 uuid 1700003600
    lab_network eq_refl eq_refl lab_text [lit "ca"] [lit "root"] (Some (lit "key", lit "csr")) toy_device
    (to_hex (toy_uuid x11)) None before Initial (snd start) lab_material provisioned_wf0 started_run
    ltac:(discriminate)).
Defined.
End Lab.
