(* ===== verification/Dlpctl.v ===== *)
(** * Dlpctl

    The administrator's command line (crates/dlpctl): its arguments, the fingerprint
    collected by the trusted station, the provisioning client with the handoff of the
    token to a file (lib.rs, main.rs), and what provisioning leaves on the server.
    PowerShell, the URL and HTTP crates and the Unicode upper case are classes. *)

From S2P Require Import Prelude Bytes Text Effects Fs Crypto Protocol Fingerprint Tls Directory Ledger Authority Enrollment Client Agent RouteStore Routes Server Production.

(** ** The provisioning request *)

Inductive ProvisioningError := ProvInvalidRequest | ProvTransport | ProvInvalidResponse | ProvSecretHandoff.

Record ProvisioningRequest := mkProvisioningRequest {
  pq_version : N;
  pq_device_id : bytes;
  pq_fingerprint_digest : bytes;
  pq_ad_object_guid : bytes;
  pq_ad_object_sid : bytes;
  pq_preferred_drive_letter : N;
  pq_recovery : bool;
}.

Definition dns_byte (b : byte) : bool := is_ascii_alphanumeric b || Byte.eqb b x2e || Byte.eqb b x2d.

Definition valid_dns_name (value : bytes) : bool :=
  (len value <=? 253) && existsb (Byte.eqb x2e) value && forallb dns_byte value.

Definition ProvisioningRequest_new (device_dns_name fingerprint_digest ad_object_guid ad_object_sid : bytes)
    (preferred_drive_letter : N) : result ProvisioningError ProvisioningRequest :=
  if negb (valid_dns_name device_dns_name) || negb (len ad_object_guid =? 16)
     || negb ((8 <=? len ad_object_sid) && (len ad_object_sid <=? 68))
     || negb (char_is_upper preferred_drive_letter)
  then Err ProvInvalidRequest
  else Ok (mkProvisioningRequest 1 device_dns_name fingerprint_digest ad_object_guid ad_object_sid
             preferred_drive_letter false).

Definition request_authorize_recovery (r : ProvisioningRequest) : ProvisioningRequest :=
  mkProvisioningRequest (pq_version r) (pq_device_id r) (pq_fingerprint_digest r) (pq_ad_object_guid r)
    (pq_ad_object_sid r) (pq_preferred_drive_letter r) true.

(** ** The provisioning client *)

Record ProvisioningResponseJson := mkProvisioningResponse {
  pj_version : N;
  pj_device_id : bytes;
  pj_enrollment_token : bytes;
}.

Definition validate_provisioning_response (payload : ProvisioningResponseJson) (expected_device_id : bytes) :
    result ProvisioningError unit :=
  if negb (pj_version payload =? 1) || negb (bool_decide (pj_device_id payload = expected_device_id))
  then Err ProvInvalidResponse else Ok tt.

(** An IPv4 address as [str::parse] reads it: four decimal numbers of at most three
    digits without a leading zero.  An IPv6 address has a colon, which no DNS name has. *)
Definition ipv4_part (s : bytes) : bool :=
  match s with
  | [] => false
  | [b] => is_ascii_digit b
  | b :: _ => negb (Byte.eqb b x30) && forallb is_ascii_digit s && (len s <=? 3) && (digits_value 0 s <=? 255)
  end.
Definition is_ipv4 (s : bytes) : bool :=
  let parts := split_byte x2e s in (len parts =? 4) && forallb ipv4_part parts.

(** The calls of the client: the scheme and the host of a URL, a root and an identity
    from PEM, the building of a client that trusts exactly the root, and a request
    with the response's status and payload, when its body is one. *)
Class ProvisioningHttp (S : Type) := {
  url_parse : bytes -> option (bytes * option bytes);
  root_from_pem : bytes -> bool;
  admin_identity_from_pem : bytes -> bool;
  provisioning_client_builds : TlsClient -> bool;
  post_provisioning : TlsClient -> bytes -> ProvisioningRequest -> S ->
    option (N * option ProvisioningResponseJson) * S;
}.

Record ProvisioningClient := mkProvisioningClient { pc_client : TlsClient; pc_endpoint : bytes }.

Section Provisioning.
Context {S : Type} `{ProvisioningHttp S} (h : Host).

Definition ProvisioningClient_new (endpoint root_path cert_path key_path : bytes) (ca_path : option bytes) :
    result ProvisioningError ProvisioningClient :=
  '(scheme, host) ← ok_or ProvInvalidRequest (url_parse endpoint);
  if negb (bool_decide (scheme = lit "https")) then Err ProvInvalidRequest else
  host ← ok_or ProvInvalidRequest host;
  if is_ipv4 host || negb (valid_dns_name host) then Err ProvInvalidRequest else
  root_pem ← ok_or ProvInvalidRequest (read_text h root_path);
  if negb (root_from_pem root_pem) then Err ProvInvalidRequest else
  cert ← ok_or ProvInvalidRequest (read_text h cert_path);
  key ← ok_or ProvInvalidRequest (read_text h key_path);
  chain ← match ca_path with
          | Some path => ca ← ok_or ProvInvalidRequest (read_text h path); Ok (cert ++ ca ++ key)
          | None => Ok (cert ++ key)
          end;
  if negb (admin_identity_from_pem chain) then Err ProvInvalidRequest else
  let client := mkTlsClient root_pem (Some chain) in
  if provisioning_client_builds client then Ok (mkProvisioningClient client endpoint) else Err ProvTransport.

(** The station: its disk and the network. *)
Abbreviation station_m := (M (Endpoint S) ProvisioningError).

(** [FileSecretProvider]: the token goes to a file that is created anew. *)
Definition handoff_enrollment_token (path : bytes) (token : bytes) : station_m unit :=
  _ ← on_disk (fun _ => ProvSecretHandoff) (fs_create [path]);
  on_disk (fun _ => ProvSecretHandoff) (fs_write_all [path] token).

Definition handoff_token_to_runtime (path : bytes) (token : bytes) : station_m unit :=
  _ ← ensure (negb (bool_decide (token = []) || (512 <? len token)
                    || negb (forallb is_ascii_alphanumeric token))) ProvInvalidResponse;
  handoff_enrollment_token path token.

Definition client_provision (c : ProvisioningClient) (request : ProvisioningRequest) (path : bytes) :
    station_m unit :=
  '(status, payload) ← (fun p =>
     let '(r, s') := post_provisioning (pc_client c) (pc_endpoint c) request (ep_net p) in
     (ok_or ProvTransport r, mkEndpoint (ep_world p) s'));
  _ ← ensure ((200 <=? status) && (status <? 300)) ProvTransport;
  payload ← lift (ok_or ProvInvalidResponse payload);
  _ ← lift (validate_provisioning_response payload (pq_device_id request));
  handoff_token_to_runtime path (pj_enrollment_token payload).
End Provisioning.

(** ** The fingerprint of the trusted station *)

(** [str::to_uppercase]; the exit of the collector and what it printed, for a computer
    and a mode. *)
Class TrustedStation := {
  str_to_uppercase : bytes -> bytes;
  collector : bytes -> bytes -> option (bool * bytes);
}.

Section Station.
Context `{TrustedStation} `{Sha256}.

Definition station_sentinels : list bytes :=
  [lit "UNKNOWN"; lit "NONE"; lit "N/A"; lit "TO BE FILLED BY O.E.M.";
   lit "FFFFFFFF-FFFF-FFFF-FFFF-FFFFFFFFFFFF"].

Definition station_normalize (value : bytes) : option bytes :=
  let value := str_to_uppercase (trim value) in
  if bool_decide (value = []) || (512 <? len value) || bool_decide (value ∈ station_sentinels)
  then None else Some value.

Record FingerprintSources := mkFingerprintSources {
  fp_system_uuid : bytes;
  fp_bios_serial : bytes;
  fp_system_disk_serial : bytes;
}.

Definition FingerprintSources_new (system_uuid bios_serial system_disk_serial : bytes) :
    option FingerprintSources :=
  uuid ← station_normalize system_uuid;
  bios ← station_normalize bios_serial;
  disk ← station_normalize system_disk_serial;
  Some (mkFingerprintSources uuid bios disk).

(** [(len as u16).to_be_bytes()] before the name and before the value. *)
Definition station_field (name value : bytes) : bytes :=
  to_be 2 (len name mod 2 ^ 16) ++ name ++ to_be 2 (len value mod 2 ^ 16) ++ value.

Definition station_bytes (s : FingerprintSources) : bytes :=
  FINGERPRINT_VERSION ++ station_field (lit "smbios_uuid") (fp_system_uuid s)
  ++ station_field (lit "bios_serial") (fp_bios_serial s)
  ++ station_field (lit "system_disk_serial") (fp_system_disk_serial s).

Definition fingerprint_v1 (s : FingerprintSources) : bytes := sha256 (station_bytes s).

Definition collect_from_trusted_station (computer : bytes) (lab_mode : bool) : option FingerprintSources :=
  let mode := if lab_mode then lit "lab-only" else lit "production" in
  '(success, stdout) ← collector computer mode;
  if negb success then None
  else if negb (utf8_valid stdout) then None
  else match lines stdout with
       | [uuid; bios; disk] => FingerprintSources_new uuid bios disk
       | _ => None
       end.
End Station.

(** ** Commands *)

Inductive CliError :=
| Usage
| CliMissingDatabaseUrl
| CliDatabaseUnavailable
| MigrationMissing
| TrustedStationRequired
| ProvisioningApiUnavailable
| InvalidSigningSeed.

Inductive Command :=
| MigrationStatus
| ConfigurationPublicKey
| Phase1Smoke (database_url : option bytes)
| ProvisionDevice (computer : bytes) (recovery : bool)
| EnrollmentTokenCreate (ttl_minutes : N).

Definition valid_fqdn (value : bytes) : bool :=
  (len value <=? 253) && (2 <=? len (split_byte x2e value)) && forallb dns_byte value.

(** The arguments after the program name. *)
Definition Command_parse (arguments : list bytes) : result CliError Command :=
  match arguments with
  | [] => Err Usage
  | argument :: rest =>
      if bool_decide (argument = lit "migration-status") && bool_decide (rest = []) then Ok MigrationStatus
      else if bool_decide (argument = lit "configuration-public-key") && bool_decide (rest = [])
      then Ok ConfigurationPublicKey
      else if bool_decide (argument = lit "phase1-smoke") then
        match rest with
        | [] => Ok (Phase1Smoke None)
        | [flag; value] =>
            if bool_decide (flag = lit "--database-url") then Ok (Phase1Smoke (Some value)) else Err Usage
        | _ => Err Usage
        end
      else if bool_decide (argument = lit "provision-device") then
        match rest with
        | [flag; computer] =>
            if bool_decide (flag = lit "--computer") && valid_fqdn computer
            then Ok (ProvisionDevice computer false) else Err Usage
        | [flag; computer; recover] =>
            if bool_decide (flag = lit "--computer") && valid_fqdn computer
               && bool_decide (recover = lit "--recover")
            then Ok (ProvisionDevice computer true) else Err Usage
        | _ => Err Usage
        end
      else if bool_decide (argument = lit "enrollment-token") then
        match rest with
        | create :: ttl_flag :: ttl :: _ =>
            if bool_decide (create = lit "create") && bool_decide (ttl_flag = lit "--ttl") then
              match parse_uint (2 ^ 32 - 1) ttl with
              | Some n => if (0 <? n) && (n <=? 10080) then Ok (EnrollmentTokenCreate n) else Err Usage
              | None => Err Usage
              end
            else Err Usage
        | _ => Err Usage
        end
      else Err Usage
  end.

(** [chars().filter(|c| !c.is_whitespace())]: an encoded white space starts no
    other character. *)
Fixpoint remove_whitespace (fuel : nat) (s : bytes) : bytes :=
  match fuel, s with
  | O, _ | _, [] => s
  | S f, b :: s' =>
      match list_find (fun w => starts_with w s = true) whitespace with
      | Some (_, w) => remove_whitespace f (drop (length w) s)
      | None => b :: remove_whitespace f s'
      end
  end.

Definition hex_decode (value : bytes) : may_panic (option bytes) :=
  let value := remove_whitespace (length value) value in
  if negb (len value mod 2 =? 0) then Returns None else hex_slices value.

(** Whether the expected migration is in the ledger, when the database answers. *)
Class MigrationDatabase := migration_applied : bytes -> option bool.

Definition migration_status `{MigrationDatabase} (h : Host) : result CliError unit :=
  url ← ok_or CliMissingDatabaseUrl (env_var h (lit "DATABASE_URL"));
  applied ← ok_or CliDatabaseUnavailable (migration_applied url);
  if applied : bool then Ok tt else Err MigrationMissing.

Definition configuration_public_key `{Ed25519} (h : Host) : may_panic (result CliError bytes) :=
  match env_var h (lit "DLP_CONFIGURATION_SIGNING_KEY_SEED_HEX") with
  | None => Returns (Err InvalidSigningSeed)
  | Some seed_hex =>
      match hex_decode seed_hex with
      | Panics => Panics
      | Returns (Some seed) =>
          if len seed =? 32
          then Returns (Ok (to_hex (signer_public_key_bytes (mkSigner (lit "derive-only") seed))))
          else Returns (Err InvalidSigningSeed)
      | Returns None => Returns (Err InvalidSigningSeed)
      end
  end.

Section Provision.
Context {S : Type} `{ProvisioningHttp S} `{TrustedStation} `{Sha256} (h : Host).

(** A variable that is decoded from hexadecimal. *)
Definition hex_variable (name : string) : may_panic (result CliError bytes) :=
  match env_var h (lit name) with
  | None => Returns (Err TrustedStationRequired)
  | Some value =>
      match hex_decode value with
      | Panics => Panics
      | Returns o => Returns (ok_or TrustedStationRequired o)
      end
  end.

(** The request of [provision-device]. *)
Definition provisioning_request (computer : bytes) (recovery : bool) : may_panic (result CliError ProvisioningRequest) :=
  let lab_mode := bool_decide (env_var h (lit "DLP_LAB_ALLOW_VIRTUAL_DISK_UNIQUE_ID") = Some (lit "true")) in
  match collect_from_trusted_station computer lab_mode with
  | None => Returns (Err TrustedStationRequired)
  | Some sources =>
      match hex_variable "DLP_PROVISIONING_AD_OBJECT_GUID" with
      | Panics => Panics
      | Returns (Err e) => Returns (Err e)
      | Returns (Ok guid) =>
          match hex_variable "DLP_PROVISIONING_AD_OBJECT_SID" with
          | Panics => Panics
          | Returns (Err e) => Returns (Err e)
          | Returns (Ok sid) =>
              let letter := default 80
                (env_var h (lit "DLP_PROVISIONING_PREFERRED_DRIVE_LETTER") ≫= fun v => head (chars v)) in
              Returns (request ← map_err (fun _ => Usage)
                         (ProvisioningRequest_new computer (fingerprint_v1 sources) guid sid letter);
                       Ok (if recovery : bool then request_authorize_recovery request else request))
          end
      end
  end.

Definition station_variable (name : string) : result CliError bytes :=
  ok_or TrustedStationRequired (env_var h (lit name)).

(** The client and the path of the handoff. *)
Definition provisioning_client : result CliError (ProvisioningClient * bytes) :=
  endpoint ← station_variable "DLP_PROVISIONING_ENDPOINT";
  root_ca ← station_variable "DLP_PROVISIONING_ROOT_CA_PATH";
  cert ← station_variable "DLP_PROVISIONING_ADMIN_CERT_PATH";
  key ← station_variable "DLP_PROVISIONING_ADMIN_KEY_PATH";
  let ca := env_var h (lit "DLP_PROVISIONING_ADMIN_CA_CERT_PATH") in
  handoff_path ← station_variable "DLP_PROVISIONING_TOKEN_HANDOFF_PATH";
  client ← map_err (fun _ => ProvisioningApiUnavailable) (ProvisioningClient_new h endpoint root_ca cert key ca);
  Ok (client, handoff_path).

Definition provision_device (computer : bytes) (recovery : bool) (p : Endpoint S) :
    may_panic (result CliError unit * Endpoint S) :=
  match provisioning_request computer recovery with
  | Panics => Panics
  | Returns (Err e) => Returns (Err e, p)
  | Returns (Ok request) =>
      Returns (match provisioning_client with
               | Err e => (Err e, p)
               | Ok (client, path) =>
                   with_error (fun _ => ProvisioningApiUnavailable) (client_provision client request path) p
               end)
  end.
End Provision.
