(* ===== verification/LogDebug.v ===== *)
(** * LogDebug

    The log debug service (crates/dlp-log-debug-service): its configuration and the
    fallback to localhost (config.rs), the authorization of peers (http.rs) and of
    files by the path of their handle (paths.rs), the bounded tail of a log that may
    grow while it is read (tail.rs), the endpoint (http.rs) and the statuses of the
    service (service.rs, lib.rs).  JSON, form decoding and the file system calls are
    the members of the class [LogHost]; a canonical path is the list of its
    components. *)

From S2P Require Import Prelude Bytes Text Fs.

(** ** The tail of a file *)

Inductive TailReadError := TailIo | TailInvalidText.

(** The file as each of the three calls sees it: its length, the byte before the
    window, the window.  A call that fails sees nothing. *)
Record FileViews := mkViews {
  fv_metadata : option bytes;
  fv_boundary : option bytes;
  fv_window : option bytes;
}.

Definition newline : byte := x0a.

(** [iter().position] and [iter().rposition] of a newline. *)
Fixpoint position_newline (s : bytes) : option nat :=
  match s with
  | [] => None
  | b :: s' => if Byte.eqb b newline then Some 0%nat else S <$> position_newline s'
  end.
Definition rposition_newline (s : bytes) : option nat :=
  (fun i => (length s - 1 - i)%nat) <$> position_newline (rev s).

(** The loop over the bytes from the last to the first, [s] reversed and [index] one
    past the byte looked at: the start of the lines to keep. *)
Fixpoint tail_start (requested count : N) (s : bytes) : nat :=
  match s with
  | [] => 0
  | b :: s' =>
      if Byte.eqb b newline
      then if requested <? count + 1 then S (length s') else tail_start requested (count + 1) s'
      else tail_start requested count s'
  end.

Definition read_bounded_tail_file (f : FileViews) (requested_lines max_response_bytes : N) :
    result TailReadError bytes :=
  if (requested_lines =? 0) || (max_response_bytes =? 0) then Err TailIo else
  length0 ← ok_or TailIo (len <$> fv_metadata f);
  let read_start := length0 - max_response_bytes in
  starts_at_line_boundary ←
    (if read_start =? 0 then Ok true
     else preceding ← ok_or TailIo (fv_boundary f ≫= fun s => s !! N.to_nat (read_start - 1));
          Ok (Byte.eqb preceding newline));
  window ← ok_or TailIo (fv_window f);
  let bs := take (N.to_nat max_response_bytes) (drop (N.to_nat read_start) window) in
  let first := if starts_at_line_boundary : bool then Some bs
               else (fun i => drop (S i) bs) <$> position_newline bs in
  match first with
  | None => Ok []
  | Some bs =>
      match rposition_newline bs with
      | None => Ok []
      | Some last_newline =>
          let bs := take (S last_newline) bs in
          let bs := drop (tail_start requested_lines 0 (rev bs)) bs in
          if utf8_valid bs then Ok bs else Err TailInvalidText
      end
  end.

(** *** The lines of a text *)

(** The complete lines of a text, each with its newline, and what follows them. *)
Fixpoint complete (s : bytes) : list bytes :=
  match s with
  | [] => []
  | b :: s' =>
      if Byte.eqb b newline then [b] :: complete s'
      else match complete s' with [] => [] | l :: ls => (b :: l) :: ls end
  end.

Fixpoint unfinished (s : bytes) : bytes :=
  match s with
  | [] => []
  | b :: s' =>
      if Byte.eqb b newline then unfinished s'
      else match complete s' with [] => b :: unfinished s' | _ :: _ => unfinished s' end
  end.

(** The longest run of newest lines that fits in [max] bytes together with the
    unfinished line after them. *)
Fixpoint fitting (max : N) (ls : list bytes) (rest : bytes) : list bytes :=
  match ls with
  | [] => []
  | _ :: ls' => if len (concat ls ++ rest) <=? max then ls else fitting max ls' rest
  end.

Definition last_lines (n : N) (ls : list bytes) : list bytes := drop (length ls - N.to_nat n) ls.

(** The reference: the newest complete lines, at most [n] and as many as fit. *)
Definition tail_of (n max : N) (s : bytes) : bytes :=
  concat (last_lines n (fitting max (complete s) (unfinished s))).

Lemma complete_unfinished s : concat (complete s) ++ unfinished s = s.
Proof.
  induction s as [|b s IH]; [done|]. cbn. destruct (Byte.eqb b newline); cbn; [by rewrite IH|].
  destruct (complete s) as [|l ls]; cbn in *; by rewrite IH.
Qed.

(** A line ends in its only newline. *)
Definition is_line (l : bytes) : Prop := exists p, l = p ++ [newline] /\ free_of (Byte.eqb newline) p.

Lemma eqb_newline b : Byte.eqb b newline = Byte.eqb newline b.
Proof. destruct (byte_eqb_spec b newline), (byte_eqb_spec newline b); congruence. Qed.

Lemma complete_lines s : Forall is_line (complete s).
Proof.
  induction s as [|b s IH]; [constructor|]. cbn. destruct (byte_eqb_spec b newline) as [->|Hb].
  - constructor; [|done]. exists []. split; [done|constructor].
  - destruct IH as [|l ls (p & -> & Hp) IH]; constructor; [|done]. exists (b :: p).
    split; [done|]. constructor; [|done]. destruct (byte_eqb_spec newline b); congruence.
Qed.

Lemma unfinished_free s : free_of (Byte.eqb newline) (unfinished s).
Proof.
  induction s as [|b s IH]; [constructor|]. cbn. destruct (byte_eqb_spec b newline) as [->|Hb]; [done|].
  destruct (complete s); [|done]. constructor; [|done]. destruct (byte_eqb_spec newline b); congruence.
Qed.

Lemma complete_free p : free_of (Byte.eqb newline) p -> complete p = [] /\ unfinished p = p.
Proof.
  induction 1 as [|b p Hb Hp [IH IHu]]; [done|]. cbn. rewrite eqb_newline, Hb, IH, IHu. done.
Qed.

Lemma complete_line p s : free_of (Byte.eqb newline) p ->
  complete ((p ++ [newline]) ++ s) = (p ++ [newline]) :: complete s /\
  unfinished ((p ++ [newline]) ++ s) = unfinished s.
Proof.
  induction 1 as [|b p Hb Hp [IH IHu]]; [done|]. cbn [app complete unfinished].
  rewrite eqb_newline, Hb. rewrite <- (assoc_L (++)) in IH, IHu. cbn [app] in IH, IHu.
  rewrite <- (assoc_L (++)). cbn [app]. by rewrite IH, IHu.
Qed.

(** A text determines its lines. *)
Lemma complete_concat ls rest :
  Forall is_line ls -> free_of (Byte.eqb newline) rest ->
  complete (concat ls ++ rest) = ls /\ unfinished (concat ls ++ rest) = rest.
Proof.
  intros Hl Hr. induction Hl as [|l ls (p & -> & Hp) Hls [IH IHu]]; [by apply complete_free|].
  cbn [concat]. rewrite <- (assoc_L (++)).
  destruct (complete_line p (concat ls ++ rest) Hp) as [-> ->]. by rewrite IH, IHu.
Qed.

Lemma last_line ls x : Forall is_line ls -> last ls = Some x -> exists p, x = p ++ [newline].
Proof.
  intros Hl [l ->]%last_Some. apply Forall_app in Hl as [_ Hl].
  inversion Hl as [|? ? (p & -> & _) _]. by exists p.
Qed.

Lemma concat_ends ls : Forall is_line ls -> ls <> [] -> last (concat ls) = Some newline.
Proof.
  intros Hl Hne. destruct (exists_last Hne) as (ls0 & l & ->).
  apply Forall_app in Hl as [_ Hl]. apply Forall_singleton in Hl as (p & -> & _).
  rewrite concat_app. cbn. rewrite app_nil_r, (assoc_L (++)). apply last_snoc.
Qed.

Lemma free_last p x : free_of (Byte.eqb newline) p -> last p = Some x -> x <> newline.
Proof.
  intros Hp Hx ->. apply last_Some in Hx as [p' ->]. apply Forall_app in Hp as [_ Hp].
  by inversion Hp.
Qed.

(** *** The positions of newlines *)

Lemma position_newline_free p : free_of (Byte.eqb newline) p -> position_newline p = None.
Proof. induction 1 as [|b p Hb Hp IH]; [done|]. cbn. by rewrite eqb_newline, Hb, IH. Qed.

Lemma position_newline_at p s :
  free_of (Byte.eqb newline) p -> position_newline (p ++ newline :: s) = Some (length p).
Proof. induction 1 as [|b p Hb Hp IH]; [done|]. cbn. by rewrite eqb_newline, Hb, IH. Qed.

Lemma free_rev p : free_of (Byte.eqb newline) p -> free_of (Byte.eqb newline) (rev p).
Proof. apply List.Forall_rev. Qed.

Lemma rposition_newline_at ls rest :
  Forall is_line ls -> free_of (Byte.eqb newline) rest ->
  match rposition_newline (concat ls ++ rest) with
  | None => ls = []
  | Some i => take (S i) (concat ls ++ rest) = concat ls
  end.
Proof.
  intros Hl Hr. unfold rposition_newline. destruct (decide (ls = [])) as [->|Hne].
  { cbn. by rewrite position_newline_free by by apply free_rev. }
  pose proof (concat_ends ls Hl Hne) as [t Ht]%last_Some. rewrite Ht, !rev_app_distr. cbn [rev app].
  rewrite position_newline_at by by apply free_rev. cbn.
  rewrite !length_app, length_rev. cbn [length].
  replace (S (length t + 1 + length rest - 1 - length rest)) with (length (t ++ [newline]))
    by (rewrite length_app; cbn; lia).
  apply take_app_length.
Qed.

(** *** The loop over the lines from the last *)

Lemma tail_start_free n k p s :
  free_of (Byte.eqb newline) p -> tail_start n k (p ++ s) = tail_start n k s.
Proof. induction 1 as [|b p Hb Hp IH]; [done|]. cbn. by rewrite eqb_newline, Hb. Qed.

Lemma tail_start_bound n k s : (tail_start n k s <= length s)%nat.
Proof.
  revert k. induction s as [|b s IH]; intros k; cbn; [lia|].
  destruct (Byte.eqb b newline); [destruct (n <? k + 1)|]; [lia|specialize (IH (k + 1))|specialize (IH k)]; lia.
Qed.

Lemma last_lines_snoc n ls l : last_lines (n + 1) (ls ++ [l]) = last_lines n ls ++ [l].
Proof.
  unfold last_lines. rewrite length_app. cbn.
  replace (length ls + 1 - N.to_nat (n + 1))%nat with (length ls - N.to_nat n)%nat by lia.
  rewrite drop_app_le by lia. done.
Qed.

Lemma tail_start_lines n k ls :
  Forall is_line ls -> k <= n ->
  drop (tail_start n k (rev (concat ls))) (concat ls) = concat (last_lines (n - k) ls).
Proof.
  intros Hl. revert k. induction ls as [|l ls IH] using rev_ind; intros k Hk; [done|].
  apply Forall_app in Hl as [Hls Hl]. apply Forall_singleton in Hl as (p & -> & Hp).
  rewrite concat_app. cbn [concat]. rewrite app_nil_r, !rev_app_distr. cbn [rev app tail_start].
  rewrite byte_eqb_refl. destruct (N.ltb_spec n (k + 1)).
  - replace (n - k) with 0 by lia. unfold last_lines. rewrite Nat.sub_0_r, drop_all.
    rewrite drop_ge; [done|]. rewrite !length_app, !length_rev. cbn. lia.
  - rewrite tail_start_free by by apply free_rev.
    rewrite drop_app_le by (rewrite <- length_rev; apply tail_start_bound).
    rewrite IH by (done || lia). replace (n - k) with (n - (k + 1) + 1) by lia.
    by rewrite last_lines_snoc, concat_app; cbn; rewrite app_nil_r.
Qed.

(** *** The window and the lines that fit *)

Lemma fitting_skip max pre ls rest :
  (ls = [] \/ len (concat ls ++ rest) <= max) ->
  (forall x, last pre = Some x -> max < len (x ++ concat ls ++ rest)) ->
  fitting max (pre ++ ls) rest = ls.
Proof.
  intros Hfit. induction pre as [|l pre IH]; intros Hlast.
  - destruct ls as [|l ls]; [done|]. destruct Hfit as [|Hfit]; [done|]. cbn [app fitting].
    by rewrite (proj2 (N.leb_le _ _) Hfit).
  - cbn [app fitting]. assert (Hbig : max < len (concat (l :: pre ++ ls) ++ rest)).
    { destruct (decide (pre = [])) as [->|Hne].
      - specialize (Hlast l eq_refl). cbn. by rewrite <- (assoc_L (++)).
      - destruct (exists_last Hne) as (pre0 & x & ->).
        specialize (Hlast x). rewrite app_comm_cons, last_snoc in Hlast. specialize (Hlast eq_refl).
        cbn [concat]. rewrite !concat_app. cbn [concat]. rewrite app_nil_r.
        rewrite !len_app in *. lia. }
    rewrite (proj2 (N.leb_gt _ _) Hbig). apply IH. intros x Hx. apply Hlast.
    destruct pre as [|y pre]; [done|]. done.
Qed.

Lemma lines_of_text s : exists ls rest, s = concat ls ++ rest /\ Forall is_line ls /\
  free_of (Byte.eqb newline) rest /\ complete s = ls /\ unfinished s = rest.
Proof.
  exists (complete s), (unfinished s). rewrite complete_unfinished.
  split_and!; try done; [apply complete_lines|apply unfinished_free].
Qed.

(** The lines of the window: all that are complete in it when it starts on a line
    boundary, all but the first otherwise.  They are the lines of the text that fit. *)
Lemma window_lines max a w (boundary : bool) :
  (a = [] -> boundary = true) -> (a <> [] -> len w = max) -> len w <= max ->
  (forall x, last a = Some x -> boundary = bool_decide (x = newline)) ->
  fitting max (complete (a ++ w)) (unfinished (a ++ w)) =
    if boundary then complete w else tail (complete w).
Proof.
  intros Hnil Hlen Hmax Hb.
  destruct (lines_of_text a) as (la & ua & Ha & Hla & Hua & _).
  destruct (lines_of_text w) as (lw & uw & Hw & Hlw & Huw & Hcw & Huw'). rewrite Hcw.
  assert (Hlw' : len (concat lw ++ uw) = len w) by (by rewrite <- Hw).
  destruct (decide (ua = [])) as [->|Hne].
  - assert (Hbt : boundary = true).
    { destruct la as [|l la]; [apply Hnil; by rewrite Ha|]. rewrite app_nil_r in Ha.
      rewrite (Hb newline) by (rewrite Ha; by apply concat_ends). by apply bool_decide_eq_true. }
    rewrite Hbt. destruct (complete_concat (la ++ lw) uw) as [Hc Hu]; [by apply Forall_app|done|].
    rewrite concat_app, <- (assoc_L (++)), <- Hw in Hc, Hu. rewrite app_nil_r in Ha. rewrite <- Ha in Hc, Hu.
    rewrite Hc, Hu. apply fitting_skip; [right; lia|]. intros x Hx.
    destruct (last_line la x Hla Hx) as [p ->]. assert (Hane : a <> []).
    { intros Hz. apply last_Some in Hx as [l ->]. rewrite Ha, concat_app in Hz. cbn in Hz.
      by destruct (concat l), p. }
    specialize (Hlen Hane). rewrite len_app, Hlw', !len_app, len_cons. lia.
  - assert (Hane : a <> []) by (intros ->; by destruct (concat la), ua). specialize (Hlen Hane).
    assert (Hbf : boundary = false).
    { destruct (last ua) as [x|] eqn:Hx; [|apply last_None in Hx; congruence].
      rewrite (Hb x) by (rewrite Ha, last_app, Hx; done). apply bool_decide_eq_false. exact (free_last ua x Hua Hx). }
    rewrite Hbf. destruct lw as [|l lw].
    + cbn in Hw. subst uw. destruct (complete_concat la (ua ++ w)) as [Hc Hu]; [done|by apply Forall_app|].
      rewrite (assoc_L (++)), <- Ha in Hc, Hu. rewrite Hc, Hu. cbn [tail].
      rewrite <- (app_nil_r la). apply fitting_skip; [by left|]. intros x Hx. cbn.
      destruct ua; [done|]. rewrite !len_app, len_cons. lia.
    + apply Forall_cons in Hlw as [(p & -> & Hp) Hlw2]. cbn [tail].
      destruct (complete_concat (la ++ (ua ++ p ++ [newline]) :: lw) uw) as [Hc Hu]; [|done|].
      { apply Forall_app. split; [done|]. constructor; [|done]. exists (ua ++ p).
        split; [by rewrite (assoc_L (++))|by apply Forall_app]. }
      assert (Heq : concat (la ++ (ua ++ p ++ [newline]) :: lw) ++ uw = a ++ concat ((p ++ [newline]) :: lw) ++ uw).
      { rewrite Ha, concat_app. cbn [concat]. by rewrite <- !(assoc_L (++)). }
      rewrite Heq, <- Hw in Hc, Hu. rewrite Hc, Hu.
      replace (la ++ (ua ++ p ++ [newline]) :: lw) with ((la ++ [ua ++ p ++ [newline]]) ++ lw)
        by (by rewrite <- (assoc_L (++))).
      cbn [concat] in Hlw'. rewrite !len_app in Hlw'. apply fitting_skip.
      * right. rewrite len_app. lia.
      * intros x. rewrite last_snoc. intros [= <-]. rewrite !len_app. destruct ua; [done|]. rewrite len_cons. lia.
Qed.

(** The reading after its window is known: the lines of the window, then the last of
    them, then the check of the text. *)
Definition text_result (t : bytes) : result TailReadError bytes :=
  if utf8_valid t then Ok t else Err TailInvalidText.

Lemma cut_window n (boundary : bool) w :
  match (if boundary then Some w else (fun i => drop (S i) w) <$> position_newline w) with
  | None => Ok []
  | Some bs =>
      match rposition_newline bs with
      | None => Ok []
      | Some last_newline =>
          let bs := take (S last_newline) bs in
          let bs := drop (tail_start n 0 (rev bs)) bs in
          if utf8_valid bs then Ok bs else Err TailInvalidText
      end
  end = text_result (concat (last_lines n (if boundary then complete w else tail (complete w)))).
Proof.
  destruct (lines_of_text w) as (lw & uw & Hw & Hlw & Huw & -> & _). subst w.
  assert (Hgen : forall ls, Forall is_line ls ->
    match rposition_newline (concat ls ++ uw) with
    | None => Ok []
    | Some last_newline =>
        let bs := take (S last_newline) (concat ls ++ uw) in
        let bs := drop (tail_start n 0 (rev bs)) bs in
        if utf8_valid bs then Ok bs else Err TailInvalidText
    end = text_result (concat (last_lines n ls))).
  { intros ls Hls. pose proof (rposition_newline_at ls uw Hls Huw) as Hr.
    destruct (rposition_newline _); [|by subst ls]. cbv zeta. rewrite Hr.
    rewrite (tail_start_lines n 0 ls Hls) by lia. by rewrite N.sub_0_r. }
  destruct boundary; [by apply Hgen|]. destruct lw as [|l lw]; cbn [concat app tail].
  - by rewrite position_newline_free.
  - apply Forall_cons in Hlw as [(p & -> & Hp) Hlw]. rewrite <- !(assoc_L (++)). cbn [app].
    rewrite position_newline_at by done. cbn [fmap option_fmap option_map].
    replace (p ++ newline :: concat lw ++ uw) with ((p ++ [newline]) ++ concat lw ++ uw)
      by by rewrite <- (assoc_L (++)).
    replace (S (length p)) with (length (p ++ [newline])) by (rewrite length_app; cbn; lia).
    rewrite drop_app_length. by apply Hgen.
Qed.

(** The lines of a text that grew. *)
Lemma complete_grows s t : complete s `prefix_of` complete (s ++ t).
Proof.
  induction s as [|b s IH]; [apply prefix_nil|]. cbn. destruct (Byte.eqb b newline).
  - by apply prefix_cons.
  - destruct (complete s) as [|l ls]; [apply prefix_nil|]. destruct IH as [k ->]. cbn. by exists k.
Qed.

Lemma complete_valid s : utf8_valid s = true -> Forall (fun l => utf8_valid l = true) (complete s).
Proof.
  revert s. apply utf8_ind; [constructor| |].
  - intros b s Hb _ IH. cbn. destruct (Byte.eqb b newline).
    + constructor; [|done]. cbn [utf8_valid]. by rewrite Hb.
    + destruct IH; constructor; [|done]. cbn [utf8_valid]. by rewrite Hb.
  - intros c s (_ & Hc & Hv & _) _ IH.
    assert (Hcomp : complete (c ++ s) = match complete s with [] => [] | l :: ls => (c ++ l) :: ls end).
    { clear Hv IH. induction Hc as [|b c Hb Hc IHc]; [cbn; by destruct (complete s)|]. cbn.
      rewrite IHc. destruct (byte_eqb_spec b newline) as [->|]; [done|]. by destruct (complete s). }
    rewrite Hcomp. destruct IH; constructor; [|done]. by rewrite utf8_valid_app.
Qed.

Lemma fitting_sub max ls rest : exists k, fitting max ls rest = drop k ls.
Proof.
  induction ls as [|l ls [k IH]]; [by exists 0%nat|]. cbn [fitting].
  destruct (_ <=? max); [by exists 0%nat|]. by exists (S k).
Qed.

Lemma tail_of_valid n max s t : utf8_valid (s ++ t) = true -> utf8_valid (tail_of n max s) = true.
Proof.
  intros Hv%complete_valid. destruct (complete_grows s t) as [k Hk]. rewrite Hk in Hv.
  apply Forall_app in Hv as [Hv _]. unfold tail_of, last_lines.
  destruct (fitting_sub max (complete s) (unfinished s)) as [j ->].
  rewrite drop_drop. apply (Forall_drop _ (j + (length (drop j (complete s)) - N.to_nat n))) in Hv.
  induction Hv as [|l ls Hl _ IH]; [done|]. cbn [concat]. by rewrite utf8_valid_app.
Qed.

Lemma tail_of_len n max s : len (tail_of n max s) <= max.
Proof.
  unfold tail_of, last_lines. induction (complete s) as [|l ls IH]; cbn [fitting]; [rewrite drop_nil; apply N.le_0_l|].
  destruct (N.leb_spec (len (concat (l :: ls) ++ unfinished s)) max) as [Hle|]; [|done].
  set (k := (_ - _)%nat). rewrite <- (take_drop k (l :: ls)), concat_app, !len_app in Hle. lia.
Qed.

(** What the window is of the text that was seen. *)
Lemma window_of_growing (c0 c1 c2 : bytes) max :
  c0 `prefix_of` c1 -> c0 `prefix_of` c2 ->
  let start := len c0 - max in
  let a := take (N.to_nat start) c2 in
  let w := take (N.to_nat max) (drop (N.to_nat start) c2) in
  take (N.to_nat (N.max (len c0) max)) c2 = a ++ w /\ len w <= max /\
  (a <> [] -> len w = max) /\ (start = 0 -> a = []) /\
  (0 < start -> exists x, last a = Some x /\ c1 !! N.to_nat (start - 1) = Some x).
Proof.
  intros [k1 ->] [k2 ->] start a w. assert (Hw : len w <= max) by (unfold w, len; rewrite length_take; lia).
  assert (H0 : start = 0 -> a = []) by (intros Hs; unfold a; by rewrite Hs).
  split_and!; [|done| |done|].
  - unfold a, w. rewrite take_take_drop. f_equal. lia.
  - intros Ha. assert (0 < start) by (destruct (N.eq_dec start 0); [by destruct Ha; auto|lia]).
    unfold w, len in *. rewrite length_take, length_drop, length_app. lia.
  - intros Hs. assert (Hlt : (N.to_nat (start - 1) < length c0)%nat) by (unfold len in *; lia).
    destruct (lookup_lt_is_Some_2 c0 _ Hlt) as [x Hx]. exists x. split; [|by apply lookup_app_l_Some].
    unfold a. replace (N.to_nat start) with (S (N.to_nat (start - 1))) by lia.
    rewrite (take_S_r _ _ x) by (by apply lookup_app_l_Some). apply last_snoc.
Qed.

(** Of a log that only grows between the calls, an answer is the newest complete
    lines: at most the requested number, as many as fit in the response limit together
    with the line still being written, cut on line boundaries at both ends; the text
    looked at is all there was when the length was read (or the limit, when that is
    more).  The answer never exceeds the limit, and a log in UTF-8 always has one, even
    when the window starts or ends inside a character. *)
Theorem tail_newest_lines c0 c1 c2 n max :
  0 < n -> 0 < max -> c0 `prefix_of` c1 -> c0 `prefix_of` c2 ->
  let seen := take (N.to_nat (N.max (len c0) max)) c2 in
  let answer := tail_of n max seen in
  read_bounded_tail_file (mkViews (Some c0) (Some c1) (Some c2)) n max = text_result answer /\
  len answer <= max /\
  (utf8_valid c2 = true -> text_result answer = Ok answer).
Proof.
  intros Hn Hmax H1 H2 seen answer. split_and!; [|apply tail_of_len|].
  2:{ intros Hv. unfold text_result, answer. erewrite tail_of_valid; [done|].
      unfold seen. rewrite take_drop. exact Hv. }
  destruct (window_of_growing c0 c1 c2 max H1 H2) as (Hseen & Hlen & Hfull & Hstart & Hlast).
  unfold answer, seen, tail_of. rewrite Hseen. unfold read_bounded_tail_file.
  rewrite (proj2 (N.eqb_neq n 0)), (proj2 (N.eqb_neq max 0)) by lia. cbn [orb].
  cbn [fv_metadata fv_boundary fv_window fmap option_fmap option_map ok_or result_bind mbind option_bind].
  destruct (N.eqb_spec (len c0 - max) 0) as [Hz|Hz].
  - rewrite (window_lines _ _ _ true); [exact (cut_window n true _)|done|done|done|].
    intros x. by rewrite (Hstart Hz).
  - destruct (Hlast ltac:(lia)) as (x & Hx & ->). cbn.
    rewrite (window_lines _ _ _ (Byte.eqb x newline)); [exact (cut_window n (Byte.eqb x newline) _)| |done|done|].
    + intros Ha. by rewrite Ha in Hx.
    + intros y Hy. rewrite Hx in Hy. injection Hy as <-. by destruct (byte_eqb_spec x newline);
        [rewrite bool_decide_eq_true_2|rewrite bool_decide_eq_false_2].
Qed.

(** Whatever the calls see, an answer is within both limits. *)
Lemma tail_bounds f n max text :
  read_bounded_tail_file f n max = Ok text ->
  len text <= max /\ len (complete text) <= n /\ unfinished text = [] /\ utf8_valid text = true.
Proof.
  unfold read_bounded_tail_file. destruct (_ || _); [done|].
  intros (l0 & _ & Hr)%result_bind_Ok. apply result_bind_Ok in Hr as (boundary & _ & Hr).
  apply result_bind_Ok in Hr as (window & _ & Hr). rewrite cut_window in Hr.
  set (w := take _ _) in Hr. assert (Hw : len w <= max) by (unfold w, len; rewrite length_take; lia).
  set (ls := if boundary then _ else _) in Hr. unfold text_result in Hr.
  destruct (utf8_valid _) eqn:Hv; [|done]. injection Hr as <-.
  assert (Hls : exists k, ls = drop k (complete w)) by (destruct boundary; [by exists 0%nat|exists 1%nat; by destruct (complete w)]).
  destruct Hls as [k Hk]. assert (Hline : Forall is_line (last_lines n ls)).
  { unfold last_lines. rewrite Hk. apply Forall_drop, Forall_drop, complete_lines. }
  destruct (complete_concat (last_lines n ls) [] Hline) as [Hc Hu]; [constructor|].
  rewrite app_nil_r in Hc, Hu. rewrite Hc, Hu. split_and!; [| |done|done].
  - pose proof (complete_unfinished w) as Hcu. unfold last_lines. rewrite Hk, drop_drop.
    set (j := (_ + _)%nat). apply (f_equal len) in Hcu.
    rewrite <- (take_drop j (complete w)), concat_app, !len_app in Hcu. lia.
  - unfold last_lines, len. rewrite length_drop. lia.
Qed.

(** ** The host *)

Inductive IpAddr := V4 (bits : N) | V6 (bits : N).

#[export] Instance IpAddr_eq_dec : EqDecision IpAddr.
Proof. solve_decision. Defined.

Definition is_loopback (a : IpAddr) : bool :=
  match a with V4 bits => N.shiftr bits 24 =? 127 | V6 bits => bits =? 1 end.

Record FileConfig := mkFileConfig {
  fc_version : N;
  fc_trusted_client_ips : list IpAddr;
  fc_allowed_folders : list bytes;
  fc_port : N;
  fc_max_response_bytes : N;
  fc_max_tail_lines : N;
}.

(** The calls the service makes: paths as the text of a request or a configuration
    name them, files as handles.  [lh_final_name h i] is the name of the handle in
    UTF-16 units when [GetFinalPathNameByHandleW] is called for the [i]th time; a
    rename may change it between the calls. *)
Class LogHost := {
  lh_handle : Type;
  lh_is_absolute : bytes -> bool;
  lh_canonicalize : bytes -> option fspath;
  lh_is_dir : fspath -> bool;
  lh_is_file : fspath -> bool;
  lh_open : bytes -> result IoKind lh_handle;
  lh_final_name : lh_handle -> N -> option (list N);
  lh_components : list N -> fspath;
  lh_views : lh_handle -> FileViews;
  lh_read_to_string : bytes -> option bytes;
  lh_json : bytes -> option FileConfig;
  lh_urlencoded : bytes -> option (list (bytes * bytes));
}.

(** ** The authorized folders *)

Inductive PathAuthorizationError := PathInvalidPath | PathNotFound | PathDenied.

Definition AuthorizedFolders := list fspath.

(** [Path::parent]: the first component is the prefix with its root. *)
Definition parent (p : fspath) : option fspath :=
  match p with
  | [] | [_] => None
  | _ :: _ => Some (removelast p)
  end.

Definition contains_exact_parent (folders : AuthorizedFolders) (target : fspath) : bool :=
  match parent target with
  | Some folder => bool_decide (folder ∈ folders)
  | None => false
  end.

Section Service.
Context `{LogHost}.

Definition configured_dir (folder : bytes) : result PathAuthorizationError fspath :=
  if negb (lh_is_absolute folder) then Err PathInvalidPath else
  canonical ← ok_or PathNotFound (lh_canonicalize folder);
  if negb (lh_is_dir canonical) then Err PathInvalidPath else Ok canonical.

Fixpoint from_configured_dirs (folders : list bytes) : result PathAuthorizationError AuthorizedFolders :=
  match folders with
  | [] => Ok []
  | folder :: rest =>
      canonical ← configured_dir folder;
      others ← from_configured_dirs rest;
      Ok (canonical :: others)
  end.

Definition authorize_canonical_target (target : fspath) (folders : AuthorizedFolders) :
    result PathAuthorizationError () :=
  if negb (lh_is_file target) then Err PathDenied
  else if contains_exact_parent folders target then Ok () else Err PathDenied.

(** [GetFinalPathNameByHandleW] on a name and a buffer of [size] units: the length it
    returns and what it wrote.  It returns 0 on failure, and the size needed, with the
    terminator, where the buffer is too small. *)
Definition get_final_path_name (name : option (list N)) (size : N) : N * list N :=
  match name with
  | None => (0, [])
  | Some s => if len s <? size then (len s, s) else (len s + 1, [])
  end.

Definition final_path_for_handle (file : lh_handle) : result PathAuthorizationError fspath :=
  let required := fst (get_final_path_name (lh_final_name file 0) 0) in
  if required =? 0 then Err PathDenied else
  let size := required + 1 in
  let '(written, buffer) := get_final_path_name (lh_final_name file 1) size in
  if (written =? 0) || (size <=? written) then Err PathDenied
  else Ok (lh_components (take (N.to_nat written) buffer)).

Definition open_authorized_file (path : bytes) (folders : AuthorizedFolders) :
    result PathAuthorizationError lh_handle :=
  if negb (lh_is_absolute path) then Err PathInvalidPath else
  file ← match lh_open path with
         | Ok file => Ok file
         | Err KNotFound => Err PathNotFound
         | Err _ => Err PathDenied
         end;
  canonical ← final_path_for_handle file;
  _ ← authorize_canonical_target canonical folders;
  Ok file.

(** The tail of a file by its path, without an authorization. *)
Definition read_bounded_tail (path : bytes) (requested_lines max_response_bytes : N) :
    result TailReadError bytes :=
  if (requested_lines =? 0) || (max_response_bytes =? 0) then Err TailIo else
  file ← map_err (fun _ => TailIo) (lh_open path);
  read_bounded_tail_file (lh_views file) requested_lines max_response_bytes.

(** ** The configuration *)

Definition DEFAULT_PORT : N := 9191.
Definition DEFAULT_MAX_RESPONSE_BYTES : N := 262144.
Definition DEFAULT_MAX_TAIL_LINES : N := 1000.

Inductive AccessMode := RemoteAllowlist (allowed : list IpAddr) | LocalhostOnly.

Record RuntimeConfig := mkRuntimeConfig {
  rc_access_mode : AccessMode;
  rc_authorized_folders : AuthorizedFolders;
  rc_port : N;
  rc_max_response_bytes : N;
  rc_max_tail_lines : N;
}.

Definition localhost_only : RuntimeConfig :=
  mkRuntimeConfig LocalhostOnly [] DEFAULT_PORT DEFAULT_MAX_RESPONSE_BYTES DEFAULT_MAX_TAIL_LINES.

Definition runtime_try_from (config : FileConfig) : option RuntimeConfig :=
  if negb (fc_version config =? 1) || bool_decide (fc_trusted_client_ips config = [])
     || (fc_port config =? 0) || (fc_max_response_bytes config =? 0) || (fc_max_tail_lines config =? 0)
  then None else
  match from_configured_dirs (fc_allowed_folders config) with
  | Err _ => None
  | Ok [] => None
  | Ok folders =>
      Some (mkRuntimeConfig (RemoteAllowlist (fc_trusted_client_ips config)) folders
              (fc_port config) (fc_max_response_bytes config) (fc_max_tail_lines config))
  end.

Definition load_runtime_config (path : bytes) : RuntimeConfig :=
  default localhost_only ((lh_read_to_string path ≫= lh_json) ≫= runtime_try_from).

(** ** The endpoint *)

Inductive HttpError :=
| InvalidTail
| InvalidPath
| UntrustedClient
| ForbiddenPath
| FileNotFound
| ReadFailed
| RouteNotFound
| MethodNotAllowed.

Definition error_status (e : HttpError) : N :=
  match e with
  | InvalidTail | InvalidPath => 400
  | UntrustedClient | ForbiddenPath => 403
  | FileNotFound | RouteNotFound => 404
  | MethodNotAllowed => 405
  | ReadFailed => 500
  end.

Definition error_code (e : HttpError) : bytes :=
  match e with
  | InvalidTail => lit "invalid_tail"
  | InvalidPath => lit "invalid_path"
  | UntrustedClient => lit "untrusted_client"
  | ForbiddenPath => lit "forbidden_path"
  | FileNotFound => lit "file_not_found"
  | ReadFailed => lit "read_failed"
  | RouteNotFound => lit "route_not_found"
  | MethodNotAllowed => lit "method_not_allowed"
  end.

(** A request: the method, the path and the raw query of its target, the address of
    the accepted connection. *)
Record LogRequest := mkLogRequest {
  lr_method : bytes;
  lr_path : bytes;
  lr_raw_query : option bytes;
  lr_peer : IpAddr;
}.

Record LogResponse := mkLogResponse { lp_status : N; lp_body : bytes }.

Definition error_response (e : HttpError) : LogResponse := mkLogResponse (error_status e) (error_code e).

Definition authorize_peer (mode : AccessMode) (peer : IpAddr) : result HttpError () :=
  if is_loopback peer
     || match mode with RemoteAllowlist allowed => bool_decide (peer ∈ allowed) | LocalhostOnly => false end
  then Ok () else Err UntrustedClient.

Record LogQuery := mkLogQuery { lq_path : option bytes; lq_tail : option bytes }.

Fixpoint query_fields (fields : list (bytes * bytes)) (query : LogQuery) : result HttpError LogQuery :=
  match fields with
  | [] => Ok query
  | (name, value) :: rest =>
      if bool_decide (name = lit "path") then
        match lq_path query with
        | None => query_fields rest (mkLogQuery (Some value) (lq_tail query))
        | Some _ => Err InvalidPath
        end
      else if bool_decide (name = lit "tail") then
        match lq_tail query with
        | None => query_fields rest (mkLogQuery (lq_path query) (Some value))
        | Some _ => Err InvalidTail
        end
      else Err InvalidPath
  end.

Definition parse_log_query (raw_query : option bytes) : result HttpError LogQuery :=
  fields ← ok_or InvalidPath (lh_urlencoded (default [] raw_query));
  query_fields fields (mkLogQuery None None).

(** [AppState] holds the fields of the configuration but the port. *)
Record AppState := mkAppState {
  as_access_mode : AccessMode;
  as_authorized_folders : AuthorizedFolders;
  as_max_response_bytes : N;
  as_max_tail_lines : N;
}.

Definition from_runtime_config (config : RuntimeConfig) : AppState :=
  mkAppState (rc_access_mode config) (rc_authorized_folders config)
    (rc_max_response_bytes config) (rc_max_tail_lines config).

Definition tail_count (state : AppState) (tail : option bytes) : result HttpError N :=
  match tail with
  | None => Ok (as_max_tail_lines state)
  | Some text =>
      match parse_uint (2 ^ 64 - 1) text with
      | Some n => if (0 <? n) && (n <=? as_max_tail_lines state) then Ok n else Err InvalidTail
      | None => Err InvalidTail
      end
  end.

Definition path_error (e : PathAuthorizationError) : HttpError :=
  match e with
  | PathInvalidPath => InvalidPath
  | PathNotFound => FileNotFound
  | PathDenied => ForbiddenPath
  end.

Definition log_content (state : AppState) (r : LogRequest) : result HttpError bytes :=
  _ ← authorize_peer (as_access_mode state) (lr_peer r);
  if negb (bool_decide (lr_method r = lit "GET")) then Err MethodNotAllowed else
  query ← parse_log_query (lr_raw_query r);
  path ← ok_or InvalidPath (lq_path query);
  tail ← tail_count state (lq_tail query);
  file ← map_err path_error (open_authorized_file path (as_authorized_folders state));
  map_err (fun _ => ReadFailed) (read_bounded_tail_file (lh_views file) tail (as_max_response_bytes state)).

Definition log_endpoint (state : AppState) (r : LogRequest) : LogResponse :=
  match log_content state r with
  | Ok content => mkLogResponse 200 content
  | Err error => error_response error
  end.

Definition build_router (state : AppState) (r : LogRequest) : LogResponse :=
  if bool_decide (lr_path r = lit "/logs") then log_endpoint state r else error_response RouteNotFound.

(** *** What an answer with content took *)

Lemma configured_dirs_In folders dirs dir :
  from_configured_dirs folders = Ok dirs -> dir ∈ dirs ->
  exists folder, folder ∈ folders /\ lh_is_absolute folder = true /\
    lh_canonicalize folder = Some dir /\ lh_is_dir dir = true.
Proof.
  revert dirs. induction folders as [|f folders IH]; intros dirs; cbn.
  { intros [= <-] Hd. by apply elem_of_nil in Hd. }
  intros (c & Hc & Hr)%result_bind_Ok Hd. apply result_bind_Ok in Hr as (ds & Hds & [= <-]).
  apply elem_of_cons in Hd as [->|Hd].
  - exists f. split; [by apply list_elem_of_here|]. unfold configured_dir in Hc.
    destruct (lh_is_absolute f); [|done]. cbn in Hc.
    apply result_bind_Ok in Hc as (c' & Hcan%ok_or_Ok & Hc).
    destruct (lh_is_dir c') eqn:Hdir; [|done]. by injection Hc as <-.
  - destruct (IH ds Hds Hd) as (g & Hg & Hrest). exists g. split; [by apply list_elem_of_further|done].
Qed.

Lemma try_from_Some config runtime :
  runtime_try_from config = Some runtime ->
  fc_version config = 1 /\ 0 < fc_max_tail_lines config /\
  from_configured_dirs (fc_allowed_folders config) = Ok (rc_authorized_folders runtime) /\
  runtime = mkRuntimeConfig (RemoteAllowlist (fc_trusted_client_ips config)) (rc_authorized_folders runtime)
              (fc_port config) (fc_max_response_bytes config) (fc_max_tail_lines config).
Proof.
  unfold runtime_try_from. destruct (_ || _) eqn:Hg; [done|].
  apply orb_false_iff in Hg as [Hg Ht]. do 3 apply orb_false_iff in Hg as [Hg _].
  apply negb_false_iff, N.eqb_eq in Hg. apply N.eqb_neq in Ht.
  destruct (from_configured_dirs _) as [[|d ds]|]; try done. intros [= <-]. cbn. split_and!; [done|lia|done|done].
Qed.

Lemma query_path_once fields query q path :
  query_fields fields query = Ok q -> lq_path query = None -> lq_path q = Some path ->
  (lit "path", path) ∈ fields.
Proof.
  revert query. induction fields as [|[name value] fields IH]; intros query; cbn.
  { intros [= <-]. congruence. }
  intros Hq Hnone Hpath. rewrite Hnone in Hq. case_bool_decide as Hn.
  - subst name. assert (Hkeep : forall fs t, query_fields fs (mkLogQuery (Some value) t) = Ok q -> lq_path q = Some value).
    { induction fs as [|[m v] fs IHf]; intros t; cbn; [by intros [= <-]|].
      case_bool_decide; [done|]. case_bool_decide; [|done]. destruct t; [done|]. apply IHf. }
    apply Hkeep in Hq. rewrite Hq in Hpath. injection Hpath as ->. apply list_elem_of_here.
  - case_bool_decide; [|done]. destruct (lq_tail query); [done|].
    apply list_elem_of_further. eapply IH; [exact Hq|done|exact Hpath].
Qed.

(** An opened file was authorized by the path of its handle. *)
Lemma open_authorized_Ok path folders file :
  open_authorized_file path folders = Ok file ->
  lh_open path = Ok file /\ exists target dir, final_path_for_handle file = Ok target /\
    lh_is_file target = true /\ parent target = Some dir /\ dir ∈ folders.
Proof.
  unfold open_authorized_file. destruct (lh_is_absolute path); [|done]. cbn [negb].
  intros (h & Ho & Hr)%result_bind_Ok. apply result_bind_Ok in Hr as (target & Ht & Hr).
  apply result_bind_Ok in Hr as ([] & Ha & [= ->]).
  split; [destruct (lh_open path) as [|[]]; congruence|]. exists target.
  unfold authorize_canonical_target, contains_exact_parent in Ha.
  destruct (lh_is_file target); [|done]. destruct (parent target) as [dir|]; [|done]. cbn in Ha.
  case_bool_decide; [|done]. by exists dir.
Qed.

Lemma tail_count_bound state tail n :
  0 < as_max_tail_lines state -> tail_count state tail = Ok n -> 0 < n <= as_max_tail_lines state.
Proof.
  unfold tail_count. intros Hmax. destruct tail as [text|]; [|intros [= <-]; lia].
  destruct (parse_uint _ _) as [k|]; [|done].
  destruct (N.ltb_spec 0 k), (N.leb_spec k (as_max_tail_lines state)); cbn; try done. by intros [= <-].
Qed.

Lemma log_content_Ok state r content :
  log_content state r = Ok content -> 0 < as_max_tail_lines state ->
  exists path file n,
    authorize_peer (as_access_mode state) (lr_peer r) = Ok () /\ lr_method r = lit "GET" /\
    (exists fields, lh_urlencoded (default [] (lr_raw_query r)) = Some fields /\ (lit "path", path) ∈ fields) /\
    open_authorized_file path (as_authorized_folders state) = Ok file /\ n <= as_max_tail_lines state /\
    read_bounded_tail_file (lh_views file) n (as_max_response_bytes state) = Ok content.
Proof.
  unfold log_content. intros ([] & Ha & Hr)%result_bind_Ok Hmax.
  destruct (bool_decide (lr_method r = lit "GET")) eqn:Hm; [|done]. apply bool_decide_eq_true in Hm. cbn [negb] in Hr.
  apply result_bind_Ok in Hr as (q & Hq & Hr). apply result_bind_Ok in Hr as (path & Hp%ok_or_Ok & Hr).
  apply result_bind_Ok in Hr as (n & Hn%tail_count_bound & Hr); [|done].
  apply result_bind_Ok in Hr as (file & Hf%map_err_Ok & Hr%map_err_Ok).
  unfold parse_log_query in Hq. apply result_bind_Ok in Hq as (fields & Hu%ok_or_Ok & Hq).
  exists path, file, n. split_and!; try done; [|lia]. exists fields. split; [done|].
  eapply query_path_once; [exact Hq|done|done].
Qed.

Lemma authorize_peer_Ok mode peer :
  authorize_peer mode peer = Ok () ->
  is_loopback peer = true \/ exists allowed, mode = RemoteAllowlist allowed /\ peer ∈ allowed.
Proof.
  unfold authorize_peer. destruct (is_loopback peer); [by left|]. destruct mode as [allowed|]; [|done].
  cbn. case_bool_decide; [|done]. intros _. right. by exists allowed.
Qed.

Lemma localhost_only_serves r content : log_content (from_runtime_config localhost_only) r <> Ok content.
Proof.
  intros (path & file & n & _ & _ & _ & Ho & _)%log_content_Ok; [|done].
  apply open_authorized_Ok in Ho as (_ & target & dir & _ & _ & _ & Hd). by apply elem_of_nil in Hd.
Qed.

(** C32.  A request gets content only under a configuration file that was read, parsed
    and has version 1; from a peer that is a loopback address or on its allowlist; by
    GET of /logs; of the file the query's path opened, when the path of the opened
    handle itself is a file directly in a canonical configured folder; and then the
    content is complete lines, at most the configured number and size, of that handle.
    Every other request is answered with one of the fixed codes: without a valid
    configuration no file is served, not even to the local host. *)
Theorem log_guarded config_path r :
  let response := build_router (from_runtime_config (load_runtime_config config_path)) r in
  match bool_decide (lp_status response = 200) with
  | true =>
      exists config path file target folder dir n,
        (lh_read_to_string config_path ≫= lh_json) = Some config /\ fc_version config = 1 /\
        (is_loopback (lr_peer r) = true \/ lr_peer r ∈ fc_trusted_client_ips config) /\
        lr_method r = lit "GET" /\ lr_path r = lit "/logs" /\
        (exists fields, lh_urlencoded (default [] (lr_raw_query r)) = Some fields /\ (lit "path", path) ∈ fields) /\
        lh_open path = Ok file /\ final_path_for_handle file = Ok target /\ lh_is_file target = true /\
        parent target = Some dir /\ folder ∈ fc_allowed_folders config /\ lh_is_absolute folder = true /\
        lh_canonicalize folder = Some dir /\ lh_is_dir dir = true /\
        n <= fc_max_tail_lines config /\
        read_bounded_tail_file (lh_views file) n (fc_max_response_bytes config) = Ok (lp_body response) /\
        len (lp_body response) <= fc_max_response_bytes config /\
        len (complete (lp_body response)) <= fc_max_tail_lines config /\ unfinished (lp_body response) = []
  | false => exists e, response = error_response e
  end.
Proof.
  intros response. unfold response, build_router.
  destruct (bool_decide (lr_path r = lit "/logs")) eqn:Hpath; [|by exists RouteNotFound].
  unfold log_endpoint. destruct (log_content _ r) as [content|e] eqn:Hc.
  2:{ rewrite bool_decide_eq_false_2 by by destruct e. by exists e. }
  rewrite bool_decide_eq_true_2 by done. apply bool_decide_eq_true in Hpath.
  unfold load_runtime_config in *.
  destruct (lh_read_to_string config_path ≫= lh_json) as [config|] eqn:Hj; cbn [mbind option_bind] in *.
  2:{ by apply localhost_only_serves in Hc. }
  destruct (runtime_try_from config) as [runtime|] eqn:Ht; cbn [default] in *.
  2:{ by apply localhost_only_serves in Hc. }
  apply try_from_Some in Ht as (Hv & Hmax & Hdirs & Hrt). rewrite Hrt in Hc. cbn in Hc.
  apply log_content_Ok in Hc as (path & file & n & Ha & Hm & Hq & Ho & Hn & Hb); [|done]. cbn in *.
  apply open_authorized_Ok in Ho as (Hopen & target & dir & Hfin & Hfile & Hpar & Hd).
  destruct (configured_dirs_In _ _ _ Hdirs Hd) as (folder & Hfold & Habs & Hcan & Hdir).
  destruct (tail_bounds _ _ _ _ Hb) as (Hlen & Hlines & Hunf & _).
  exists config, path, file, target, folder, dir, n. split_and!; try done; [|lia].
  apply authorize_peer_Ok in Ha as [|(allowed & [= <-] & Hin)]; auto.
Qed.

(** The path that is authorized is the handle's at the second call, whatever it was at
    the first; a name that grew in between beyond the buffer is refused. *)
Lemma final_path_name file target :
  final_path_for_handle file = Ok target ->
  exists name, lh_final_name file 1 = Some name /\ target = lh_components name.
Proof.
  unfold final_path_for_handle. destruct (_ =? 0); [done|].
  destruct (lh_final_name file 1) as [name|]; [|done]. cbn -[N.add].
  destruct (N.ltb_spec (len name) (fst (get_final_path_name (lh_final_name file 0) 0) + 1)) as [Hlt|Hge].
  - destruct (_ || _); [done|]. intros [= <-]. exists name. split; [done|].
    f_equal. unfold len. by rewrite Nat2N.id, take_ge.
  - rewrite (proj2 (N.leb_le _ (len name + 1))) by lia. rewrite orb_true_r. done.
Qed.

(** ** The service host *)

Inductive ServiceError := ListenerBindFailed | ServeFailed | RuntimeFailed.

Definition stable_code (e : ServiceError) : bytes :=
  match e with
  | ListenerBindFailed => lit "listener_bind_failed"
  | ServeFailed => lit "serve_failed"
  | RuntimeFailed => lit "runtime_failed"
  end.

Definition service_exit_code (e : ServiceError) : N :=
  match e with ListenerBindFailed => 1 | ServeFailed => 2 | RuntimeFailed => 3 end.

Inductive LogStatus := LogStartPending | LogRunning | LogStopped | LogStoppedWith (specific : N).

(** What the host does: a status it sets, a line of its own log, the requests it
    serves on a port until the shutdown. *)
Inductive HostEvent :=
| StatusSet (status : LogStatus)
| Logged (code : bytes)
| Served (port : N) (state : AppState).

(** The outcomes of its calls. *)
Record HostCalls := mkHostCalls {
  hc_register : bool;
  hc_set_status : LogStatus -> bool;
  hc_runtime : bool;
  hc_bind : N -> bool;
  hc_serve : result ServiceError ();
}.

Definition publish_status (c : HostCalls) (status : LogStatus) (failure_code : bytes) : bool * list HostEvent :=
  if hc_set_status c status then (true, [StatusSet status]) else (false, [Logged failure_code]).

Definition stop_with_error (c : HostCalls) (e : ServiceError) : list HostEvent :=
  Logged (stable_code e)
    :: snd (publish_status c (LogStoppedWith (service_exit_code e)) (lit "stopped_status_failed")).

Definition log_service_main (c : HostCalls) (config_path : bytes) : list HostEvent :=
  if negb (hc_register c) then [Logged (lit "runtime_failed")] else
  let '(pending, e1) := publish_status c LogStartPending (lit "start_pending_status_failed") in
  if negb pending then e1 else
  if negb (hc_runtime c) then e1 ++ stop_with_error c RuntimeFailed else
  let config := load_runtime_config config_path in
  let state := from_runtime_config config in
  if negb (hc_bind c (rc_port config)) then e1 ++ stop_with_error c ListenerBindFailed else
  let '(running, e2) := publish_status c LogRunning (lit "running_status_failed") in
  if negb running then e1 ++ e2 ++ stop_with_error c RuntimeFailed else
  e1 ++ e2 ++ [Served (rc_port config) state] ++
  match hc_serve c with
  | Ok _ => Logged (lit "stopped") :: snd (publish_status c LogStopped (lit "stopped_status_failed"))
  | Err error => stop_with_error c error
  end.

Lemma unserved port state events :
  Forall (fun e => match e with Served _ _ => False | _ => True end) events -> Served port state ∉ events.
Proof. intros Hq Hin. exact (proj1 (Forall_forall _ _) Hq _ Hin). Qed.

Ltac quiet := cbn; repeat case_match; repeat constructor.

(** Requests are served only between the status Running and a stopped one, on a bound
    port, with the state of the configuration file; where statuses can be set, a start
    always ends in a stopped status, with exit code 0 exactly when serving ended well. *)
Theorem log_service_statuses c config_path :
  let events := log_service_main c config_path in
  (forall port state, Served port state ∈ events ->
     state = from_runtime_config (load_runtime_config config_path) /\ hc_bind c port = true /\
     exists before after, events = before ++ [StatusSet LogRunning; Served port state] ++ after) /\
  (hc_register c = true -> (forall s, hc_set_status c s = true) ->
     exists before s, events = before ++ [StatusSet s] /\
       match s with
       | LogStopped => hc_runtime c = true /\ hc_bind c (rc_port (load_runtime_config config_path)) = true /\ hc_serve c = Ok ()
       | LogStoppedWith code => 0 < code <= 3
       | _ => False
       end).
Proof.
  intros events. unfold events, log_service_main, stop_with_error, publish_status. split.
  - intros port state Hin.
    destruct (hc_register c); [|by apply list_elem_of_In in Hin as [?|[]]]. cbn [negb] in *.
    destruct (hc_set_status c LogStartPending); [|by apply list_elem_of_In in Hin as [?|[]]]. cbn [negb] in *.
    destruct (hc_runtime c); [|by apply unserved in Hin; [|quiet]].
    set (config := load_runtime_config config_path) in *. cbn [negb] in *.
    destruct (hc_bind c (rc_port config)) eqn:Hb; [|by apply unserved in Hin; [|quiet]]. cbn [negb] in *.
    destruct (hc_set_status c LogRunning); [|by apply unserved in Hin; [|quiet]]. cbn [negb] in *.
    assert (Served port state = Served (rc_port config) (from_runtime_config config)) as [= -> ->].
    { apply list_elem_of_In in Hin. cbn [app] in Hin. destruct Hin as [?|[?|[<-|Hin]]]; [done|done|done|].
      apply list_elem_of_In, unserved in Hin; [done|]. destruct (hc_serve c); quiet. }
    split; [done|]. split; [done|]. exists [StatusSet LogStartPending]. by eexists.
  - intros -> Hall. rewrite !Hall. cbn [negb]. destruct (hc_runtime c); cbn [negb].
    2:{ eexists [_; _], _. split; [done|]. cbn. lia. }
    set (config := load_runtime_config config_path) in *. destruct (hc_bind c (rc_port config)); cbn [negb].
    2:{ eexists [_; _], _. split; [done|]. cbn. lia. }
    destruct (hc_serve c) as [[]|e]; [|rewrite Hall].
    + by eexists [_; _; _; _], _.
    + eexists [_; _; _; _], _. split; [done|]. destruct e; cbn; lia.
Qed.

End Service.

(** ** A log that is read *)

Module Logs.

Definition text (words : list string) (rest : string) : bytes :=
  concat (map (fun w => lit w ++ [newline]) words) ++ lit rest.

(** The log while it grows. *)
Definition before := text ["one"%string; "two"%string] "th".
Definition after := text ["one"%string; "two"%string; "three"%string] "fo".

(** One configured folder with one log; the name of its handle. *)
#[local] Instance host : LogHost := {|
  lh_handle := ();
  lh_is_absolute := fun s => starts_with (lit "C:\") s;
  lh_canonicalize := fun s => if bool_decide (s = lit "C:\logs") then Some [lit "C:"; lit "logs"] else None;
  lh_is_dir := fun p => bool_decide (p = [lit "C:"; lit "logs"]);
  lh_is_file := fun p => bool_decide (p = [lit "C:"; lit "logs"; lit "a.log"]);
  lh_open := fun s => if bool_decide (s = lit "C:\logs\a.log") then Ok () else Err KNotFound;
  lh_final_name := fun _ _ => Some (map Byte.to_N (lit "C:\logs\a.log"));
  lh_components := fun s => split_pred (Byte.eqb x5c) (map byte_of s);
  lh_views := fun _ => mkViews (Some before) (Some before) (Some after);
  lh_read_to_string := fun s => Some s;
  lh_json := fun _ => Some (mkFileConfig 1 [V4 3221225994] [lit "C:\logs"] 9191 9 2);
  lh_urlencoded := fun s => Some [(lit "path", s)];
|}.

Definition answer (method : string) (peer : IpAddr) (path : string) : LogResponse :=
  build_router (from_runtime_config (load_runtime_config (lit "config")))
    (mkLogRequest (lit method) (lit "/logs") (Some (lit path)) peer).

(** The allowlisted peer and the local host get the newest lines that fit, others and
    other methods and files an error. *)
Example answers :
  answer "GET" (V4 3221225994) "C:\logs\a.log" = mkLogResponse 200 (text ["two"%string] "") /\
  answer "GET" (V4 2130706433) "C:\logs\a.log" = mkLogResponse 200 (text ["two"%string] "") /\
  answer "GET" (V4 3221225995) "C:\logs\a.log" = error_response UntrustedClient /\
  answer "HEAD" (V6 1) "C:\logs\a.log" = error_response MethodNotAllowed /\
  answer "GET" (V6 1) "a.log" = error_response InvalidPath /\
  answer "GET" (V6 1) "C:\logs\b.log" = error_response FileNotFound.
Proof. vm_compute. done. Qed.

Lemma tail_newest_lines_witness :
  read_bounded_tail_file (mkViews (Some before) (Some before) (Some after)) 1 8 = Ok (text ["two"%string] "").
Proof.
  destruct (tail_newest_lines before before after 1 8) as [Hr _];
    [reflexivity|reflexivity|reflexivity|by eexists (lit "ree" ++ newline :: lit "fo")|].
  rewrite Hr. reflexivity.
Defined.

End Logs.
