(* ===== verification/Win32.v ===== *)
(** * Win32

    The part of the Windows interface the service calls, as far as its callers
    depend on it: which calls were made and which of them failed, the objects a
    call hands out and must be given back (handles, blocks of the local heap,
    environment blocks, WTS memory), whether the thread impersonates a client,
    and the security descriptors of files and pipes.

    The outcome of a call is not the caller's to choose.  The class [Win32] is an
    oracle: the success of the n-th call of the process and what it reports are
    arbitrary functions of n, so a statement about every instance covers every
    sequence of failures. *)

From S2P Require Import Prelude Bytes Text Effects Fs.

(** ** UTF-16 *)

(** The UTF-8 encoding of a scalar value. *)
Definition utf8_char (c : N) : bytes :=
  if c <? 0x80 then [byte_of c]
  else if c <? 0x800 then [byte_of (192 + c / 64); byte_of (128 + c mod 64)]
  else if c <? 0x10000 then
    [byte_of (224 + c / 4096); byte_of (128 + (c / 64) mod 64); byte_of (128 + c mod 64)]
  else [byte_of (240 + c / 262144); byte_of (128 + (c / 4096) mod 64);
        byte_of (128 + (c / 64) mod 64); byte_of (128 + c mod 64)].

Definition high_surrogate (u : N) : bool := (0xD800 <=? u) && (u <=? 0xDBFF).
Definition low_surrogate (u : N) : bool := (0xDC00 <=? u) && (u <=? 0xDFFF).

(** [String::from_utf16]: an unpaired surrogate is an error. *)
Fixpoint from_utf16 (units : list N) : option bytes :=
  match units with
  | [] => Some []
  | u :: rest =>
      if high_surrogate u then
        match rest with
        | v :: rest' =>
            if low_surrogate v
            then app (utf8_char (0x10000 + (u - 0xD800) * 1024 + (v - 0xDC00))) <$> from_utf16 rest'
            else None
        | [] => None
        end
      else if low_surrogate u then None
      else app (utf8_char u) <$> from_utf16 rest
  end.

Lemma from_utf16_ascii s : forallb is_ascii s = true -> from_utf16 (map Byte.to_N s) = Some s.
Proof.
  induction s as [|b s IH]; [done|]. cbn [forallb map from_utf16]. intros [Hb Hs]%andb_prop.
  unfold is_ascii in Hb. apply N.ltb_lt in Hb. unfold high_surrogate, low_surrogate.
  rewrite !(proj2 (N.leb_gt _ (Byte.to_N b))) by lia. cbn [andb]. rewrite IH by done.
  unfold utf8_char. rewrite (proj2 (N.ltb_lt _ _)) by lia. cbn. by rewrite byte_of_to_N.
Qed.

(** ** Objects and descriptors *)

(** An object is named by the call that handed it out. *)
Inductive resource :=
| Handle (call : N)
| ThreadHandle (call : N)
| LocalBlock (call : N)
| EnvironmentBlock (call : N)
| WtsMemory (call : N).

#[export] Instance resource_eq_dec : EqDecision resource.
Proof. solve_decision. Defined.

Definition resource_call (r : resource) : N :=
  match r with
  | Handle n | ThreadHandle n | LocalBlock n | EnvironmentBlock n | WtsMemory n => n
  end.

Definition resource_code (r : resource) : N * N :=
  match r with
  | Handle n => (0, n)
  | ThreadHandle n => (1, n)
  | LocalBlock n => (2, n)
  | EnvironmentBlock n => (3, n)
  | WtsMemory n => (4, n)
  end.
Definition resource_of (c : N * N) : option resource :=
  match c.1 with
  | 0 => Some (Handle c.2)
  | 1 => Some (ThreadHandle c.2)
  | 2 => Some (LocalBlock c.2)
  | 3 => Some (EnvironmentBlock c.2)
  | 4 => Some (WtsMemory c.2)
  | _ => None
  end.

#[export] Instance resource_countable : Countable resource.
Proof. apply (inj_countable resource_code resource_of). by intros []. Defined.

(** An access-control entry: its type (zero allows), its mask and its trustee. *)
Record Ace := mkAce {
  ace_type : N;
  ace_mask : N;
  ace_sid : bytes;
}.

(** A descriptor: the owner and, when there is one, the list. *)
Record Descriptor := mkDescriptor {
  sd_owner : bytes;
  sd_dacl : option (list Ace);
}.

Definition ACCESS_ALLOWED_ACE_TYPE : N := 0.
Definition GENERIC_ALL : N := 0x10000000.
Definition GENERIC_READ : N := 0x80000000.
Definition GENERIC_WRITE : N := 0x40000000.
Definition FILE_ALL_ACCESS_MASK : N := 0x001F01FF.
Definition SECURITY_MAX_SID_SIZE : N := 68.

(** A list in a buffer of [ab_size] bytes: its header takes 8 bytes and an entry
    8 bytes and its trustee. *)
Record AclBuffer := mkAclBuffer {
  ab_size : N;
  ab_aces : list Ace;
}.

Definition ace_size (a : Ace) : N := 8 + len (ace_sid a).
Definition acl_used (l : list Ace) : N := foldr (fun a n => ace_size a + n) 8 l.

(** [AddAccessAllowedAce] fails when the entry does not fit the buffer. *)
Definition add_access_allowed_ace (b : AclBuffer) (mask : N) (sid : bytes) : option AclBuffer :=
  let a := mkAce ACCESS_ALLOWED_ACE_TYPE mask sid in
  if acl_used (ab_aces b ++ [a]) <=? ab_size b
  then Some (mkAclBuffer (ab_size b) (ab_aces b ++ [a])) else None.

(** ** The process *)

Record Entry := mkEntry {
  en_call : string;
  en_argument : bytes;
  en_ok : bool;
}.

Record Kernel := mkKernel {
  kn_live : gset resource;
  (** releases of an object that was not live *)
  kn_faults : N;
  kn_impersonating : bool;
  (** the calls made, the last one first *)
  kn_trace : list Entry;
  kn_security : gmap fspath Descriptor;
}.

Definition set_live (l : gset resource) (k : Kernel) : Kernel :=
  mkKernel l (kn_faults k) (kn_impersonating k) (kn_trace k) (kn_security k).
Definition set_faults (n : N) (k : Kernel) : Kernel :=
  mkKernel (kn_live k) n (kn_impersonating k) (kn_trace k) (kn_security k).
Definition set_impersonating (b : bool) (k : Kernel) : Kernel :=
  mkKernel (kn_live k) (kn_faults k) b (kn_trace k) (kn_security k).
Definition set_trace (t : list Entry) (k : Kernel) : Kernel :=
  mkKernel (kn_live k) (kn_faults k) (kn_impersonating k) t (kn_security k).
Definition set_security (s : gmap fspath Descriptor) (k : Kernel) : Kernel :=
  mkKernel (kn_live k) (kn_faults k) (kn_impersonating k) (kn_trace k) s.

(** One entry of [WTSEnumerateSessionsW]. *)
Record WtsSession := mkWtsSession {
  ws_session_id : N;
  ws_state : N;
  ws_station : option (list N);
}.

Class Win32 := {
  (** whether the n-th call succeeds *)
  succeeds : N -> bool;
  (** a number the n-th call reports: a size, an identifier, an error code *)
  reported : N -> N;
  (** the text it points to, up to the terminator; [None] for the null pointer *)
  wide_text : N -> option (list N);
  (** bytes it stores *)
  stored : N -> bytes;
  sessions : N -> option (list WtsSession);
}.

Section Calls.
Context `{Win32} {E : Type}.

Abbreviation win := (M Kernel E).

(** The n-th call: its number, with its name, its argument and its success noted. *)
Definition invoke (name : string) (argument : bytes) : win N := fun k =>
  let n := len (kn_trace k) in
  (Ok n, set_trace (mkEntry name argument (succeeds n) :: kn_trace k) k).

(** A call whose failure returns early. *)
Definition must (name : string) (argument : bytes) (e : E) : win N :=
  n ← invoke name argument;
  _ ← ensure (succeeds n) e;
  mret n.

Definition acquire (r : resource) : win unit :=
  modify (fun k => set_live ({[ r ]} ∪ kn_live k) k).

(** [CloseHandle], [LocalFree] and the like succeed on what is live. *)
Definition release (name : string) (r : resource) : win unit := fun k =>
  let ok := bool_decide (r ∈ kn_live k) in
  let k := set_trace (mkEntry name [] ok :: kn_trace k) k in
  (Ok tt, if ok then set_live (kn_live k ∖ {[ r ]}) k else set_faults (kn_faults k + 1) k).

(** A call that hands out an object. *)
Definition obtain (mk : N -> resource) (name : string) (argument : bytes) (e : E) : win N :=
  n ← must name argument e;
  _ ← acquire (mk n);
  mret n.

(** A call whose failure is not an error of the caller: the number of the call when
    it succeeded, and the object it then hands out, if [given]. *)
Definition query (mk : N -> resource) (given : N -> bool) (name : string) (argument : bytes) :
    win (option N) :=
  n ← invoke name argument;
  _ ← (if succeeds n && given n then acquire (mk n) else mret tt);
  mret (if succeeds n then Some n else None).

(** [CreateProcessAsUserW] hands out the process and its first thread; its result
    is kept for later. *)
Definition create_process (command_line : bytes) : win N :=
  n ← invoke "CreateProcessAsUserW" command_line;
  _ ← (if succeeds n then _ ← acquire (Handle n); acquire (ThreadHandle n) else mret tt);
  mret n.

Definition impersonate_client (e : E) : win unit :=
  _ ← must "ImpersonateNamedPipeClient" [] e;
  modify (set_impersonating true).

(** [let _ = RevertToSelf()]. *)
Definition revert_to_self : win unit :=
  n ← invoke "RevertToSelf" [];
  if succeeds n then modify (set_impersonating false) else mret tt.
End Calls.

(** Release on the way out of a failure, as a destructor does. *)
Definition on_error {S E A} (cleanup : M S E unit) (m : M S E A) : M S E A := fun s =>
  match m s with
  | (Ok a, s') => (Ok a, s')
  | (Err e, s') => (Err e, snd (cleanup s'))
  end.

(** ** Ownership *)

(** Since [k0], the process holds the objects [L], released nothing it did not
    hold, and impersonates whom it did. *)
Record holds (k0 : Kernel) (L : gset resource) (k : Kernel) : Prop := {
  ho_live : kn_live k = L;
  ho_faults : kn_faults k = kn_faults k0;
  ho_impersonating : kn_impersonating k = kn_impersonating k0;
  ho_fresh r : r ∈ L -> resource_call r < len (kn_trace k);
  ho_trace : kn_trace k0 `suffix_of` kn_trace k;
}.

(** What is live was handed out by an earlier call. *)
Definition kernel_wf (k : Kernel) : Prop :=
  forall r, r ∈ kn_live k -> resource_call r < len (kn_trace k).

Lemma holds_start k : kernel_wf k -> holds k (kn_live k) k.
Proof. by intros Hk. Qed.

Lemma holds_wf k0 L k : holds k0 L k -> kernel_wf k.
Proof. intros [<- _ _ Hf _]. exact Hf. Qed.

Lemma holds_same k0 L L' k : holds k0 L k -> L = L' -> holds k0 L' k.
Proof. by intros ? <-. Qed.

(** The last call is [name] and it failed. *)
Definition failed (name : string) (k : Kernel) : Prop :=
  exists argument, kn_trace k !! 0%nat = Some (mkEntry name argument false).

Section Rules.
Context `{Win32} {E : Type} (k0 : Kernel) (L : gset resource).

Lemma holds_trace e k : holds k0 L k -> holds k0 L (set_trace (e :: kn_trace k) k).
Proof.
  intros [Hl Hf Hi Hr Hs]. split; cbn [kn_live kn_faults kn_impersonating kn_trace set_trace]; try done.
  - intros r Hin. rewrite len_cons. specialize (Hr r Hin). lia.
  - by apply suffix_cons_r.
Qed.

Lemma invoke_holds name argument (R : E -> Kernel -> Prop) :
  triple (holds k0 L) (invoke name argument) (fun _ => holds k0 L) R.
Proof. intros k Hk. by apply holds_trace. Qed.

Lemma must_holds name argument (e : E) :
  triple (holds k0 L) (must name argument e) (fun n k => holds k0 L k /\ succeeds n = true)
    (fun e' k => e' = e /\ holds k0 L k /\ failed name k).
Proof.
  intros k Hk. unfold must, mbind, M_bind, invoke, ensure.
  destruct (succeeds (len (kn_trace k))) eqn:Es; cbn; [split; [by apply holds_trace|done]|].
  split; [done|]. split; [by apply holds_trace|]. by exists argument.
Qed.

Lemma obtain_holds mk name argument (e : E) :
  (forall n, resource_call (mk n) = n) ->
  triple (holds k0 L) (obtain mk name argument e)
    (fun n k => holds k0 ({[ mk n ]} ∪ L) k /\ mk n ∉ L)
    (fun e' k => e' = e /\ holds k0 L k /\ failed name k).
Proof.
  intros Hmk k Hk. pose proof (must_holds name argument e k Hk) as Hm.
  unfold obtain, mbind, M_bind. unfold must, mbind, M_bind, invoke, ensure in *.
  destruct (succeeds (len (kn_trace k))); cbn in *; [|done]. destruct Hm as [[Hl Hf Hi Hr Ht] _].
  destruct Hk as [Hl0 _ _ Hr0 _]. split.
  - split; cbn in *; [by rewrite Hl|done|done| |done].
    intros r [->%elem_of_singleton|Hin]%elem_of_union; [rewrite Hmk, len_cons; lia|by apply Hr].
  - intros Hin. specialize (Hr0 _ Hin). rewrite Hmk in Hr0. lia.
Qed.

Lemma release_holds name r (R : E -> Kernel -> Prop) :
  r ∉ L -> triple (holds k0 ({[ r ]} ∪ L)) (release name r) (fun _ => holds k0 L) R.
Proof.
  intros Hr k [Hl Hf Hi Hfr Ht]. unfold release. rewrite bool_decide_eq_true_2 by set_solver. cbn.
  split; cbn; [set_solver|done|done| |by apply suffix_cons_r]. intros x Hx. rewrite len_cons.
  specialize (Hfr x ltac:(set_solver)). lia.
Qed.

End Rules.

Lemma triple_on_error {S E A} (P : S -> Prop) (m : M S E A) cleanup Q (R R' : E -> S -> Prop) :
  triple P m Q R' -> (forall e s, R' e s -> R e (snd (cleanup s))) -> triple P (on_error cleanup m) Q R.
Proof.
  intros Hm Hc s Hs. specialize (Hm s Hs). unfold on_error.
  destruct (m s) as [[a|e] s']; [done|by apply Hc].
Qed.

Lemma triple_pre {S E A} (P P' : S -> Prop) (m : M S E A) Q R :
  (forall s, P s -> P' s) -> triple P' m Q R -> triple P m Q R.
Proof. intros HP Hm s Hs. by apply Hm, HP. Qed.

(** What a destructor that closes a handle leaves. *)
Lemma release_run `{Win32} {E} k0 L name r k :
  r ∉ L -> holds k0 ({[ r ]} ∪ L) k -> holds k0 L (snd (release (E := E) name r k)).
Proof.
  intros Hr Hk. pose proof (release_holds (E := E) k0 L name r (fun _ _ => False) Hr k Hk) as Ht.
  by destruct (release name r k) as [[[]|e] k'].
Qed.

Lemma release_trace {E} name r k : kn_trace k `suffix_of` kn_trace (snd (release (E := E) name r k)).
Proof. unfold release. cbn [snd]. case_bool_decide; cbn; by apply suffix_cons_r. Qed.

(** A later starting point. *)
Lemma holds_trans k0 k1 L L' k : holds k0 L' k1 -> holds k1 L k -> holds k0 L k.
Proof.
  intros [_ Hf1 Hi1 _ Ht1] [Hl Hf Hi Hr Ht]. split; [done|congruence|congruence|done|by etrans].
Qed.

(** [k] comes after [k0], and nothing was released that was not held. *)
Definition moved (k0 k : Kernel) : Prop :=
  kn_faults k = kn_faults k0 /\ kn_trace k0 `suffix_of` kn_trace k.

Lemma moved_trans k0 k1 k : moved k0 k1 -> moved k1 k -> moved k0 k.
Proof. intros [Hf Ht] [Hf' Ht']. split; [congruence|by etrans]. Qed.

Lemma holds_moved k0 L k : holds k0 L k -> moved k0 k.
Proof. by intros [_ Hf _ _ Ht]. Qed.

(** The state itself as a starting point, whoever is impersonated. *)
Lemma holds_since k0 L k k' :
  holds k0 L k -> kn_live k' = kn_live k -> kn_trace k' = kn_trace k -> holds k' L k'.
Proof. intros [Hl _ _ Hr _] El Et. split; [congruence|done|done|by rewrite Et|done]. Qed.

Section Checks.
Context {S E A : Type} (P : S -> Prop) (Q : A -> S -> Prop) (R : E -> S -> Prop).

Lemma step_ensure c e (k : unit -> M S E A) :
  (c = true -> triple P (k tt) Q R) -> (forall s, P s -> c = false -> R e s) ->
  triple P (ensure c e ≫= k) Q R.
Proof.
  intros Hk HR s Hs. rewrite bind_ensure. destruct c; [by apply Hk|by apply HR].
Qed.

Lemma step_lift {B} (r : result E B) (k : B -> M S E A) :
  (forall b, r = Ok b -> triple P (k b) Q R) -> (forall e s, P s -> r = Err e -> R e s) ->
  triple P (lift r ≫= k) Q R.
Proof. intros Hk HR s Hs. rewrite bind_lift. destruct r; [by apply Hk|by apply HR]. Qed.
End Checks.

(** The rules for a first step, with what the rest of the program must satisfy. *)
Section Steps.
Context `{Win32} {E A : Type} (k0 : Kernel) (L : gset resource).
Context (Q : A -> Kernel -> Prop) (R : E -> Kernel -> Prop).

Lemma step_invoke name argument (k : N -> M Kernel E A) :
  (forall n, triple (holds k0 L) (k n) Q R) -> triple (holds k0 L) (invoke name argument ≫= k) Q R.
Proof. intros Hk. eapply triple_bind; [apply invoke_holds|done]. Qed.

Lemma step_must name argument e (k : N -> M Kernel E A) :
  (forall n, succeeds n = true -> triple (holds k0 L) (k n) Q R) ->
  (forall s, holds k0 L s -> failed name s -> R e s) ->
  triple (holds k0 L) (must name argument e ≫= k) Q R.
Proof.
  intros Hk HR. eapply triple_bind.
  - eapply triple_conseq; [apply must_holds|done|intros n s Hs; exact Hs|].
    intros e' s (-> & Hs & Hf). by apply HR.
  - intros n. apply triple_pure. apply Hk.
Qed.

Lemma step_obtain mk name argument e (k : N -> M Kernel E A) :
  (forall n, resource_call (mk n) = n) ->
  (forall n, mk n ∉ L -> triple (holds k0 ({[ mk n ]} ∪ L)) (k n) Q R) ->
  (forall s, holds k0 L s -> failed name s -> R e s) ->
  triple (holds k0 L) (obtain mk name argument e ≫= k) Q R.
Proof.
  intros Hmk Hk HR. eapply triple_bind.
  - eapply triple_conseq; [by apply obtain_holds|done|intros n s Hs; exact Hs|].
    intros e' s (-> & Hs & Hf). by apply HR.
  - intros n. apply triple_pure. apply Hk.
Qed.

Lemma step_release name r (k : unit -> M Kernel E A) :
  r ∈ L -> triple (holds k0 (L ∖ {[ r ]})) (k tt) Q R ->
  triple (holds k0 L) (release name r ≫= k) Q R.
Proof.
  intros Hr Hk. apply (triple_bind _ _ _ (fun _ => holds k0 (L ∖ {[ r ]}))); [|by intros []].
  rewrite (union_difference_singleton_L r L) at 1 by done.
  apply release_holds. set_solver.
Qed.

(** After the client was impersonated, and after an attempt to revert. *)
Lemma step_impersonate e (k : unit -> M Kernel E A) :
  (forall k1, moved k0 k1 -> kn_impersonating k1 = true -> triple (holds k1 L) (k tt) Q R) ->
  (forall s, holds k0 L s -> R e s) ->
  triple (holds k0 L) (impersonate_client e ≫= k) Q R.
Proof.
  intros Hk HR s Hs. unfold impersonate_client, must, mbind, M_bind, invoke, ensure.
  destruct (succeeds _) eqn:Es; cbn; [|by apply HR, holds_trace].
  pose proof (holds_trace k0 L (mkEntry "ImpersonateNamedPipeClient" [] true) s Hs) as Ht.
  eapply Hk; [| |by apply (holds_since _ _ _ _ Ht)]; [|done]. by destruct Ht as [_ Hf _ _ Hsu].
Qed.

Lemma step_revert (k : unit -> M Kernel E A) :
  (forall k1, moved k0 k1 -> kn_impersonating k1 = false \/ failed "RevertToSelf" k1 ->
     triple (holds k1 L) (k tt) Q R) ->
  triple (holds k0 L) (revert_to_self ≫= k) Q R.
Proof.
  intros Hk s Hs. unfold revert_to_self, mbind, M_bind, invoke.
  pose proof (holds_trace k0 L (mkEntry "RevertToSelf" [] (succeeds (len (kn_trace s)))) s Hs) as Ht.
  destruct (succeeds _) eqn:Es; cbn;
    (eapply Hk; [| |by apply (holds_since _ _ _ _ Ht)]; [by destruct Ht as [_ Hf _ _ Hsu]|]).
  - by left.
  - right. by eexists.
Qed.

Lemma step_query mk given name argument (k : option N -> M Kernel E A) :
  (forall n, resource_call (mk n) = n) ->
  (forall n, given n = true -> mk n ∉ L -> triple (holds k0 ({[ mk n ]} ∪ L)) (k (Some n)) Q R) ->
  (forall n, given n = false -> triple (holds k0 L) (k (Some n)) Q R) ->
  triple (holds k0 L) (k None) Q R ->
  triple (holds k0 L) (query mk given name argument ≫= k) Q R.
Proof.
  intros Hmk Hg Hn Hf s Hh. unfold query, mbind, M_bind, invoke.
  pose proof (holds_trace k0 L (mkEntry name argument (succeeds (len (kn_trace s)))) s Hh) as Ht.
  set (n := len (kn_trace s)) in *.
  destruct (succeeds n) eqn:Es; cbn; [|by apply Hf].
  destruct (given n) eqn:Eg; cbn; [|by apply (Hn n)].
  apply (Hg n Eg); [intros Hin; apply (ho_fresh _ _ _ Hh) in Hin; rewrite Hmk in Hin; unfold n in Hin; lia|].
  destruct Ht as [Hl Hfa Hi Hr Hsu]. split; cbn in *; [by rewrite Hl|done|done| |done].
  intros r [->%elem_of_singleton|Hin]%elem_of_union; [rewrite Hmk, len_cons; unfold n; lia|by apply Hr].
Qed.

Lemma step_create_process command (k : N -> M Kernel E A) :
  (forall p, succeeds p = true -> Handle p ∉ L -> ThreadHandle p ∉ L ->
     triple (holds k0 ({[ Handle p; ThreadHandle p ]} ∪ L)) (k p) Q R) ->
  (forall p, succeeds p = false -> triple (holds k0 L) (k p) Q R) ->
  triple (holds k0 L) (create_process command ≫= k) Q R.
Proof.
  intros Hs Hf s Hh. unfold create_process, mbind, M_bind, invoke.
  pose proof (holds_trace k0 L (mkEntry "CreateProcessAsUserW" command
    (succeeds (len (kn_trace s)))) s Hh) as Ht.
  set (n := len (kn_trace s)) in *.
  assert (forall r, resource_call r = n -> r ∉ L) as Hn.
  { intros r Hr0 Hin. apply (ho_fresh _ _ _ Hh) in Hin. unfold n in Hr0. lia. }
  destruct (succeeds n) eqn:Es; cbn; [|by apply (Hf n Es)].
  apply (Hs n Es); [by apply Hn..|]. destruct Ht as [Hl Hfa Hi Hr Hsu].
  split; cbn in *; [rewrite Hl; set_solver|done|done| |done]. intros r Hin.
  destruct (decide (r ∈ L)) as [HL|HL]; [by apply Hr|].
  assert (r = Handle n \/ r = ThreadHandle n) as [-> | ->] by set_solver; cbn; rewrite len_cons; unfold n; lia.
Qed.

(** Held objects in another order. *)
Lemma triple_held L' (m : M Kernel E A) :
  L = L' -> triple (holds k0 L') m Q R -> triple (holds k0 L) m Q R.
Proof. by intros ->. Qed.
End Steps.

(** ** Which call *)

(** The [n]-th call of the process is a call of [name]. *)
Definition made (k : Kernel) (n : N) (name : string) : Prop :=
  exists e before, en_call e = name /\ len before = n /\ (e :: before) `suffix_of` kn_trace k.

Lemma made_later k k' n name : kn_trace k `suffix_of` kn_trace k' -> made k n name -> made k' n name.
Proof. intros Ht (e & before & He & Hn & Hs). exists e, before. split; [done|]. split; [done|by etrans]. Qed.

Lemma made_moved k k' n name : moved k k' -> made k n name -> made k' n name.
Proof. intros [_ Ht]. by apply made_later. Qed.

(** A call has one name. *)
Lemma made_once k n a b : made k n a -> made k n b -> a = b.
Proof.
  intros (e & l & <- & Hl & [t Ht]) (e' & l' & <- & Hl' & [t' Ht']). rewrite Ht in Ht'.
  apply app_inj_2 in Ht' as [_ [= -> _]]; [done|]. cbn [length]. unfold len in Hl, Hl'. lia.
Qed.

(** The objects held, with the calls made so far. *)
Definition holds_at (k0 : Kernel) (L : gset resource) (t : list Entry) (k : Kernel) : Prop :=
  holds k0 L k /\ kn_trace k = t.

Lemma made_at k0 L t t' e k n name :
  holds_at k0 L t k -> (e :: t') `suffix_of` t -> en_call e = name -> n = len t' -> made k n name.
Proof. intros [_ Ht] Hs He ->. exists e, t'. by rewrite Ht. Qed.

Section Numbered.
Context `{Win32} {E A : Type} (k0 : Kernel) (L : gset resource) (t : list Entry).
Context (Q : A -> Kernel -> Prop) (R : E -> Kernel -> Prop).

(** Into the numbered form, and back. *)
Lemma triple_numbered (m : M Kernel E A) :
  (forall t, triple (holds_at k0 L t) m Q R) -> triple (holds k0 L) m Q R.
Proof. intros Hm k Hk. by apply (Hm (kn_trace k)). Qed.

Lemma triple_unnumbered (m : M Kernel E A) :
  triple (holds k0 L) m Q R -> triple (holds_at k0 L t) m Q R.
Proof. intros Hm k [Hk _]. by apply Hm. Qed.

Lemma at_must_holds name argument (e : E) :
  triple (holds_at k0 L t) (must name argument e)
    (fun n k => n = len t /\ succeeds n = true /\ holds_at k0 L (mkEntry name argument true :: t) k)
    (fun e' k => e' = e /\ succeeds (len t) = false /\ holds_at k0 L (mkEntry name argument false :: t) k).
Proof.
  intros k [Hk <-]. unfold must, mbind, M_bind, invoke, ensure.
  destruct (succeeds (len (kn_trace k))) eqn:Es; cbn; (split; [done|]); (split; [done|]);
    (split; [by apply holds_trace|done]).
Qed.

Lemma at_invoke name argument (k : N -> M Kernel E A) :
  triple (holds_at k0 L (mkEntry name argument (succeeds (len t)) :: t)) (k (len t)) Q R ->
  triple (holds_at k0 L t) (invoke name argument ≫= k) Q R.
Proof.
  intros Hk s [Hs Ht]. unfold mbind, M_bind, invoke. rewrite Ht. apply Hk.
  split; [|cbn; by rewrite <- Ht]. rewrite <- Ht. by apply holds_trace.
Qed.

Lemma at_must name argument e (k : N -> M Kernel E A) :
  (succeeds (len t) = true -> triple (holds_at k0 L (mkEntry name argument true :: t)) (k (len t)) Q R) ->
  (succeeds (len t) = false -> forall s, holds_at k0 L (mkEntry name argument false :: t) s -> R e s) ->
  triple (holds_at k0 L t) (must name argument e ≫= k) Q R.
Proof.
  intros Hk HR. eapply triple_bind.
  - eapply triple_conseq; [apply at_must_holds|done|intros n s Hs; exact Hs|].
    intros e' s (-> & Hf & Hs). by apply HR.
  - intros n s (-> & Hn & Hs). by apply Hk.
Qed.

Lemma at_obtain mk name argument e (k : N -> M Kernel E A) :
  (forall n, resource_call (mk n) = n) ->
  (succeeds (len t) = true -> mk (len t) ∉ L ->
   triple (holds_at k0 ({[ mk (len t) ]} ∪ L) (mkEntry name argument true :: t)) (k (len t)) Q R) ->
  (succeeds (len t) = false -> forall s, holds_at k0 L (mkEntry name argument false :: t) s -> R e s) ->
  triple (holds_at k0 L t) (obtain mk name argument e ≫= k) Q R.
Proof.
  intros Hmk Hk HR s [Hs Ht]. pose proof (obtain_holds k0 L mk name argument e Hmk s Hs) as Ho.
  unfold mbind at 1, M_bind at 1. destruct (obtain mk name argument e s) as [r s1] eqn:E1.
  unfold obtain, must, mbind, M_bind, invoke, ensure in E1. rewrite Ht in E1.
  destruct (succeeds (len t)) eqn:Es; cbn in E1; apply pair_eq in E1 as [<- <-]; destruct Ho as [Ho Hn].
  - apply Hk; [done|exact Hn|]. by split.
  - apply HR; [done|]. split; [apply Hn|done].
Qed.

Lemma at_release name r (k : unit -> M Kernel E A) :
  r ∈ L -> triple (holds_at k0 (L ∖ {[ r ]}) (mkEntry name [] true :: t)) (k tt) Q R ->
  triple (holds_at k0 L t) (release name r ≫= k) Q R.
Proof.
  intros Hr Hk s [Hs Ht]. unfold mbind, M_bind.
  pose proof (release_run (E := E) k0 (L ∖ {[ r ]}) name r s ltac:(set_solver)) as Hrel.
  rewrite <- (union_difference_singleton_L r L) in Hrel by done. specialize (Hrel Hs).
  unfold release in *. rewrite bool_decide_eq_true_2 in * by (by rewrite (ho_live _ _ _ Hs)).
  cbn [fst snd] in *. apply Hk. split; [exact Hrel|cbn; by rewrite Ht].
Qed.
End Numbered.

(** ** Facts that calls do not touch *)

(** [P] does not depend on the calls made and the objects held. *)
Class Stable (P : Kernel -> Prop) := {
  stable_trace e k : P k -> P (set_trace (e :: kn_trace k) k);
  stable_live l k : P k -> P (set_live l k);
  stable_faults n k : P k -> P (set_faults n k);
}.

(** From [k] on every call succeeds and reports something. *)
Definition calm `{Win32} (k : Kernel) : Prop :=
  forall n, len (kn_trace k) <= n -> succeeds n = true /\ reported n <> 0.

#[export] Instance calm_stable `{Win32} : Stable calm.
Proof.
  split; intros; intros m Hm; apply H0; cbn in *; rewrite ?len_cons in *; lia.
Qed.

#[export] Instance security_stable s : Stable (fun k => kn_security k = s).
Proof. by split. Qed.

#[export] Instance conj_stable P Q : Stable P -> Stable Q -> Stable (fun k => P k /\ Q k).
Proof.
  intros HP HQ. split; intros ?? [? ?]; (split; [by apply HP|by apply HQ]).
Qed.

Section StableSteps.
Context `{Win32} {E A : Type} (P : Kernel -> Prop) `{!Stable P}.
Context (Q : A -> Kernel -> Prop) (R : E -> Kernel -> Prop).

Lemma stable_invoke name argument (k : N -> M Kernel E A) :
  (forall n s, P s -> n = len (kn_trace s) -> triple P (k n) Q R) ->
  triple P (invoke name argument ≫= k) Q R.
Proof. intros Hk s Hs. apply (Hk _ s Hs eq_refl). by apply stable_trace. Qed.

Lemma stable_must name argument e (k : N -> M Kernel E A) :
  (forall n, triple P (k n) Q R) ->
  (forall s s', P s -> P s' -> succeeds (len (kn_trace s)) = false -> R e s') ->
  triple P (must name argument e ≫= k) Q R.
Proof.
  intros Hk HR s Hs. unfold must, mbind, M_bind, invoke, ensure.
  destruct (succeeds (len (kn_trace s))) eqn:Es; [apply Hk|eapply HR; [exact Hs| |done]];
    by apply stable_trace.
Qed.

Lemma stable_obtain mk name argument e (k : N -> M Kernel E A) :
  (forall n, triple P (k n) Q R) ->
  (forall s s', P s -> P s' -> succeeds (len (kn_trace s)) = false -> R e s') ->
  triple P (obtain mk name argument e ≫= k) Q R.
Proof.
  intros Hk HR s Hs. unfold obtain, must, mbind, M_bind, invoke, ensure.
  destruct (succeeds (len (kn_trace s))) eqn:Es; [apply Hk; apply stable_live|eapply HR; [exact Hs| |done]];
    by apply stable_trace.
Qed.

Lemma stable_release name r (k : unit -> M Kernel E A) :
  triple P (k tt) Q R -> triple P (release name r ≫= k) Q R.
Proof.
  intros Hk s Hs. unfold release, mbind, M_bind. apply Hk.
  case_bool_decide; [apply stable_live|apply stable_faults]; by apply stable_trace.
Qed.
End StableSteps.

(** ** Disk and kernel *)

Record Machine := mkMachine {
  mc_world : World;
  mc_kernel : Kernel;
}.

(** A computation on one half of the machine. *)
Definition on_kernel {E A} (m : M Kernel E A) : M Machine E A := fun s =>
  let '(r, k) := m (mc_kernel s) in (r, mkMachine (mc_world s) k).
Definition on_disk {E A} (f : IoKind -> E) (m : io A) : M Machine E A := fun s =>
  let '(r, w) := m (mc_world s) in (map_err f r, mkMachine w (mc_kernel s)).

(** [let _ = ...] of a disk operation. *)
Definition ignore_io {E A} (m : io A) : M Machine E unit := fun s =>
  (Ok tt, mkMachine (snd (m (mc_world s))) (mc_kernel s)).

Section MachineRules.
Context {E A : Type} (k0 : Kernel) (L : gset resource).

Definition owns (s : Machine) : Prop := holds k0 L (mc_kernel s).

Lemma triple_on_kernel P (m : M Kernel E A) Q R :
  triple P m Q R ->
  triple (fun s => P (mc_kernel s)) (on_kernel m) (fun a s => Q a (mc_kernel s))
    (fun e s => R e (mc_kernel s)).
Proof.
  intros Hm s Hs. specialize (Hm _ Hs). unfold on_kernel. by destruct (m (mc_kernel s)) as [[] ?].
Qed.

Lemma triple_on_disk f (m : io A) (P : Kernel -> Prop) (R : E -> Machine -> Prop) :
  (forall e s, P (mc_kernel s) -> R e s) ->
  triple (fun s => P (mc_kernel s)) (on_disk f m) (fun _ s => P (mc_kernel s)) R.
Proof. intros HR s Hs. unfold on_disk. destruct (m (mc_world s)) as [[] ?]; [done|by apply HR]. Qed.

Lemma triple_reading {S B} (f : S -> B) (P : S -> Prop) (k : B -> M S E A) Q R :
  (forall b, triple P (k b) Q R) -> triple P (gets f ≫= k) Q R.
Proof. intros Hk s Hs. by apply Hk. Qed.

Lemma triple_ignore_io (m : io A) (P : Kernel -> Prop) (R : E -> Machine -> Prop) :
  triple (fun s => P (mc_kernel s)) (ignore_io m) (fun _ s => P (mc_kernel s)) R.
Proof. by intros s Hs. Qed.
End MachineRules.

(** ** A concrete machine *)

(** Every call succeeds and reports 2; every text is the user's. *)
Module ToyKernel.
Definition user : bytes := lit "S-1-5-21-7".

#[export] Instance toy_win32 : Win32 := {|
  succeeds _ := true;
  reported _ := 2;
  wide_text _ := Some (map Byte.to_N user);
  stored _ := [];
  sessions _ := None;
|}.

Definition kernel : Kernel := mkKernel ∅ 0 false [] ∅.

Lemma kernel_wf_empty : kernel_wf kernel.
Proof. intros r Hr. exfalso. by apply (not_elem_of_empty (C := gset resource) r). Qed.

Lemma calm_kernel k : calm k.
Proof. intros n _. by split. Qed.
End ToyKernel.
