(* ===== verification/Launcher.v ===== *)
(** * Launcher

    The Win32 half of crates/dlp-windows-service/src/session.rs: the sessions
    that are listed, the user of a session's token, the launch of the drive host
    and the name of its pipe, with the objects each of them takes and gives
    back. *)

From S2P Require Import Prelude Bytes Text Effects Domain Fs Store Drive Pipe Session Win32.

(** ** Paths *)

Definition is_separator (b : byte) : bool := Byte.eqb b x5c || Byte.eqb b x2f.

(** [Path::is_absolute] on Windows: a drive letter with a root, or a prefix that
    implies one (verbatim, device, or a server with a share). *)
Definition is_absolute (p : bytes) : bool :=
  match p with
  | a :: b :: c :: rest =>
      if is_ascii_alphabetic a && Byte.eqb b x3a then is_separator c
      else if starts_with [x5c; x5c; x3f; x5c] p then true
      else if is_separator a && is_separator b then
        (Byte.eqb c x2e && match rest with d :: _ => is_separator d | [] => false end)
        || match split_pred is_separator (c :: rest) with
           | server :: share :: _ => negb (bool_decide (server = [])) && negb (bool_decide (share = []))
           | _ => false
           end
      else false
  | _ => false
  end.

(** A path as text. *)
Definition display (p : fspath) : bytes := join [x5c] p.

(** ** Sessions *)

(** [pwstr_to_string]: no text for the null pointer and for the empty string. *)
Definition pwstr_to_string (t : option (list N)) : option bytes :=
  match t with
  | None | Some [] => None
  | Some units => from_utf16 units
  end.

Section Sessions.
Context `{Win32} {E : Type}.

Definition session_has_user_name (session_id : N) : M Kernel E bool :=
  n ← query WtsMemory (fun _ => true) "WTSQuerySessionInformationW" (dec session_id);
  match n with
  | None => mret false
  | Some n =>
      let has_user :=
        match pwstr_to_string (wide_text n) with
        | Some s => negb (bool_decide (s = []))
        | None => false
        end in
      _ ← release "WTSFreeMemory" (WtsMemory n);
      mret has_user
  end.

(** The closure of [active_session_ids] on one session. *)
Definition eligible_session (s : WtsSession) : M Kernel E (option N) :=
  if negb (ws_state s =? 0) && negb (ws_state s =? 1) then mret None
  else if match pwstr_to_string (ws_station s) with
          | Some name => bool_decide (to_ascii_lowercase name = lit "console")
          | None => false
          end
  then mret (Some (ws_session_id s))
  else
    named ← session_has_user_name (ws_session_id s);
    mret (if named : bool then Some (ws_session_id s) else None).

(** The loop of [active_session_ids]. *)
Definition list_session (acc : list N) (s : WtsSession) : M Kernel E (list N) :=
  id ← eligible_session s;
  mret (match id with Some i => acc ++ [i] | None => acc end).

(** The memory is handed out unless the pointer is null. *)
Definition active_session_ids : M Kernel E (list N) :=
  n ← query WtsMemory (fun n => bool_decide (is_Some (sessions n))) "WTSEnumerateSessionsW" [];
  match n with
  | None => mret []
  | Some n =>
      match sessions n with
      | None => mret []
      | Some l =>
          ids ← fold_m list_session [] l;
          _ ← release "WTSFreeMemory" (WtsMemory n);
          mret ids
      end
  end.
End Sessions.

(** ** Tokens *)

Section Tokens.
Context `{Win32}.

(** [token_user_sid]. *)
Definition token_user_sid (token : N) : M Kernel SessionError bytes :=
  n ← invoke "GetTokenInformation" [];
  _ ← ensure (negb (reported n =? 0)) TokenUnavailable;
  _ ← must "GetTokenInformation" [] TokenUnavailable;
  s ← obtain LocalBlock "ConvertSidToStringSidW" [] TokenUnavailable;
  text ← lift (ok_or TokenUnavailable (from_utf16 (default [] (wide_text s))));
  _ ← release "LocalFree" (LocalBlock s);
  lift (map_err (fun _ => InvalidIdentity) (UserSid_parse text)).

(** [WtsSessionTokenProvider::primary_token]: the token's handle and its user; an
    error of [token_user_sid] drops the token. *)
Definition query_primary_token (session_id : N) : M Kernel SessionError (N * bytes) :=
  h ← obtain Handle "WTSQueryUserToken" (dec session_id) TokenUnavailable;
  sid ← on_error (release "CloseHandle" (Handle h)) (token_user_sid h);
  mret (h, sid).

(** ** Host processes *)

Record LaunchedHost := mkLaunched {
  lh_process : N;
  lh_pid : N;
  lh_pipe_path : bytes;
}.

(** [HostProcessHandle::terminate] and [wait_for_exit]; the timeout, in
    milliseconds, is cast to 32 bits. *)
Definition terminate (process : N) : M Kernel SessionError unit :=
  _ ← must "TerminateProcess" (dec process) HostUnavailable;
  mret tt.

Definition wait_for_exit (process timeout_ms : N) : M Kernel SessionError bool :=
  n ← invoke "WaitForSingleObject" (dec (timeout_ms mod 2 ^ 32));
  mret (reported n =? 0).

Definition drop_process (process : N) : M Kernel SessionError unit :=
  release "CloseHandle" (Handle process).

Definition quoted (s : bytes) : bytes := [x22] ++ s ++ [x22].

Definition command_line (binary pipe_path : bytes) (s : EligibleSession) : bytes :=
  quoted binary ++ lit " --pipe-name " ++ quoted pipe_path
  ++ lit " --session-id " ++ dec (se_session_id s)
  ++ lit " --generation " ++ dec (se_generation s).

Definition log_dir : fspath := [lit "C:"; lit "dlp"; lit "agent"; lit "logs"].
Definition log_path (process_id : N) : bytes :=
  display (log_dir ++ [lit "dlp-drive-host-stderr-" ++ dec process_id ++ lit ".log"]).

(** [WindowsHostLauncher::launch]; [process_id] is the service's own. *)
Definition launch_host (process_id : N) (config : SessionConfig) (s : EligibleSession)
    (pipe_path : bytes) : M Machine SessionError LaunchedHost :=
  let binary := display (cf_host_binary_path config) in
  d ← gets (fun m => w_disk (mc_world m));
  _ ← ensure (is_absolute binary) HostUnavailable;
  _ ← ensure (fs_exists d (cf_host_binary_path config)) HostUnavailable;
  _ ← ignore_io (fs_create_dir_all log_dir);
  on_kernel (
    env ← obtain EnvironmentBlock "CreateEnvironmentBlock" [] HostUnavailable;
    log ← obtain Handle "CreateFileW" (log_path process_id) HostUnavailable;
    created ← create_process (command_line binary pipe_path s);
    _ ← release "DestroyEnvironmentBlock" (EnvironmentBlock env);
    _ ← release "CloseHandle" (Handle log);
    _ ← ensure (succeeds created) HostUnavailable;
    _ ← release "CloseHandle" (ThreadHandle created);
    mret (mkLaunched created (reported created) pipe_path)).
End Tokens.

(** ** Pipe names *)

Definition pipe_name (s : EligibleSession) (nonce : bytes) : bytes :=
  lit "\\.\pipe\dlp-" ++ dec (se_session_id s) ++ lit "-" ++ dec (se_generation s)
  ++ lit "-" ++ to_hex nonce.

(** [actor_pipe_path]: the name, also written to a file of the data directory,
    whatever becomes of it; [nonce] are the random bytes. *)
Definition actor_pipe_path {E} (data_directory : fspath) (s : EligibleSession) (nonce : bytes) :
    M Machine E bytes :=
  let name := pipe_name s nonce in
  let file := data_directory ++ [lit "pipes"; lit "actor-" ++ dec (se_generation s) ++ lit ".endpoint"] in
  _ ← ignore_io (fs_create_dir_all (data_directory ++ [lit "pipes"]));
  _ ← ignore_io (fun w => match fs_create file w with
                          | (Ok _, w') => fs_write_all file name w'
                          | (Err e, w') => (Err e, w')
                          end);
  mret name.

(** ** The command line the host reads *)

Definition is_blank (b : byte) : bool := Byte.eqb b x20 || Byte.eqb b x09.

(** [std::env::args] on Windows, after the program's name: [cur] is the current
    argument, [backslashes] the backslashes just read, and [skip] says that the
    blanks between two arguments are being skipped. *)
Fixpoint split_args (s cur : bytes) (in_quotes : bool) (backslashes : nat) (skip : bool) : list bytes :=
  match s with
  | [] =>
      let cur := cur ++ repeat x5c backslashes in
      if negb (bool_decide (cur = [])) || in_quotes then [cur] else []
  | c :: s' =>
      if skip && is_blank c then split_args s' cur in_quotes backslashes true
      else if Byte.eqb c x5c then split_args s' cur in_quotes (S backslashes) false
      else if Byte.eqb c x22 then
        let cur := cur ++ repeat x5c (backslashes / 2) in
        if Nat.odd backslashes then split_args s' (cur ++ [x22]) in_quotes 0 false
        else if in_quotes then
          match s' with
          | [] => [cur]
          | d :: s'' =>
              if Byte.eqb d x22 then split_args s'' (cur ++ [x22]) true 0 false
              else split_args s' cur false 0 false
          end
        else split_args s' cur true 0 false
      else
        let cur := cur ++ repeat x5c backslashes in
        if is_blank c && negb in_quotes then cur :: split_args s' [] false 0 true
        else split_args s' (cur ++ [c]) in_quotes 0 false
  end.

(** The program's name ends at the first blank outside quotes. *)
Fixpoint command_line_args (s cur : bytes) (in_quotes : bool) : list bytes :=
  match s with
  | [] => [cur]
  | c :: s' =>
      if Byte.eqb c x22 then command_line_args s' cur (negb in_quotes)
      else if is_blank c && negb in_quotes then cur :: split_args s' [] false 0 true
      else command_line_args s' (cur ++ [c]) in_quotes
  end.

(** [std::env::args] of a process created with the command line [s]. *)
Definition process_args (s : bytes) : list bytes := command_line_args s [] false.

(** A character that stands for itself wherever it occurs. *)
Definition plain (b : byte) : bool :=
  negb (Byte.eqb b x22) && negb (Byte.eqb b x5c) && negb (is_blank b).

Lemma plain_spec b :
  plain b = true -> Byte.eqb b x22 = false /\ Byte.eqb b x5c = false /\ is_blank b = false.
Proof. unfold plain. rewrite !andb_true_iff, !negb_true_iff. tauto. Qed.

Lemma split_args_word p s cur q skip :
  Forall (fun b => plain b = true) p -> p <> [] \/ skip = false ->
  split_args (p ++ s) cur q 0 skip = split_args s (cur ++ p) q 0 false.
Proof.
  intros Hp. revert cur skip. induction Hp as [|b p Hb Hp IH]; intros cur skip Hs.
  - destruct Hs as [| ->]; [done|]. by rewrite app_nil_r.
  - apply plain_spec in Hb as (H1 & H2 & H3). cbn [app split_args].
    rewrite H1, H2, H3, andb_false_r. cbn [andb repeat].
    rewrite (IH _ false) by by right. by rewrite app_nil_r, <- app_assoc.
Qed.

(** Inside quotes everything but quotes is literal, up to a plain character. *)
Lemma split_args_quoted t x s cur n :
  Forall (fun b => Byte.eqb b x22 = false) t -> plain x = true ->
  split_args (t ++ x :: s) cur true n false =
  split_args s (cur ++ repeat x5c n ++ t ++ [x]) true 0 false.
Proof.
  intros Ht Hx. revert cur n. induction Ht as [|b t Hb Ht IH]; intros cur n.
  - apply plain_spec in Hx as (H1 & H2 & H3). cbn [app split_args andb].
    rewrite H1, H2, H3. cbn [andb]. by rewrite <- app_assoc.
  - cbn [app split_args andb]. destruct (Byte.eqb b x5c) eqn:E2.
    + destruct (byte_eqb_spec b x5c) as [->|]; [|done]. rewrite IH. f_equal. f_equal.
      change (x5c :: t ++ [x]) with ([x5c] ++ t ++ [x]).
      replace (repeat x5c (S n)) with (repeat x5c n ++ [x5c]) by by rewrite <- repeat_cons.
      by rewrite <- app_assoc.
    + rewrite Hb, andb_false_r. rewrite IH. cbn [repeat]. by rewrite <- !app_assoc.
Qed.

Lemma split_args_blank cur s : split_args (x20 :: s) cur false 0 false = cur :: split_args s [] false 0 true.
Proof. cbn. by rewrite app_nil_r. Qed.

Lemma split_args_open s skip : split_args (x22 :: s) [] false 0 skip = split_args s [] true 0 false.
Proof. by destruct skip. Qed.

Lemma split_args_close s cur : split_args (x22 :: x20 :: s) cur true 0 false = cur :: split_args s [] false 0 true.
Proof. cbn. by rewrite !app_nil_r. Qed.

Lemma split_args_end cur : cur <> [] -> split_args [] cur false 0 false = [cur].
Proof. intros Hc. cbn. rewrite app_nil_r, bool_decide_eq_false_2 by done. done. Qed.

Lemma program_name binary s cur :
  Forall (fun b => Byte.eqb b x22 = false) binary ->
  command_line_args (binary ++ x22 :: x20 :: s) cur true = (cur ++ binary) :: split_args s [] false 0 true.
Proof.
  intros Hb. revert cur. induction Hb as [|b binary Hb Ht IH]; intros cur.
  - cbn. by rewrite app_nil_r.
  - cbn [app command_line_args]. rewrite Hb, andb_false_r, IH. by rewrite <- app_assoc.
Qed.

Lemma plain_dec n : Forall (fun b => plain b = true) (dec n).
Proof.
  destruct (dec_spec n) as (_ & Hd & _). eapply Forall_impl; [exact Hd|].
  intros b Hb. pose proof (byte_forall (fun b => implb (is_ascii_digit b) (plain b)) ltac:(by vm_compute) b) as Hi.
  cbv beta in Hi. by rewrite Hb in Hi.
Qed.

Lemma plain_hex s : Forall (fun b => plain b = true) (to_hex s).
Proof.
  unfold to_hex. induction s as [|b s IH]; cbn [map concat]; [constructor|].
  apply Forall_app. split; [|done].
  pose proof (byte_forall (fun b => forallb plain (hex_of_byte b)) ltac:(by vm_compute) b) as Hb.
  cbv beta in Hb. rewrite forallb_forall in Hb. apply Forall_forall.
  intros c Hc. apply Hb. by apply list_elem_of_In.
Qed.

Lemma plain_not_quote s :
  Forall (fun b => plain b = true) s -> Forall (fun b => Byte.eqb b x22 = false) s.
Proof. intros Hs. eapply Forall_impl; [exact Hs|]. intros b Hb. by apply plain_spec in Hb as [? _]. Qed.

(** A pipe's name has no quote, and ends in a plain character. *)
Lemma pipe_name_shape s nonce :
  exists t x, pipe_name s nonce = t ++ [x] /\ Forall (fun b => Byte.eqb b x22 = false) t /\ plain x = true.
Proof.
  assert (Forall (fun b => plain b = true) (lit "-" ++ to_hex nonce)) as Hp.
  { apply Forall_app. split; [by repeat constructor|apply plain_hex]. }
  destruct (exists_last (l := lit "-" ++ to_hex nonce) ltac:(done)) as (t & x & E).
  rewrite E in Hp. apply Forall_app in Hp as [Ht Hx]. apply Forall_cons in Hx as [Hx _].
  exists (lit "\\.\pipe\dlp-" ++ dec (se_session_id s) ++ lit "-" ++ dec (se_generation s) ++ t), x.
  split; [unfold pipe_name; rewrite E; by rewrite <- !app_assoc|]. split; [|done].
  apply Forall_app. split; [by repeat constructor|]. apply Forall_app.
  split; [apply plain_not_quote, plain_dec|]. apply Forall_app. split; [by repeat constructor|].
  apply Forall_app. split; apply plain_not_quote; [apply plain_dec|done].
Qed.

(** The arguments of a host are those it was launched with. *)
Lemma process_args_launched binary s nonce :
  Forall (fun b => Byte.eqb b x22 = false) binary ->
  process_args (command_line binary (pipe_name s nonce) s) =
  [binary; lit "--pipe-name"; pipe_name s nonce; lit "--session-id"; dec (se_session_id s);
   lit "--generation"; dec (se_generation s)].
Proof.
  intros Hb. destruct (pipe_name_shape s nonce) as (t & x & -> & Ht & Hx).
  unfold process_args, command_line, quoted. rewrite <- !app_assoc. cbn [app command_line_args].
  change (Byte.eqb x22 x22) with true. cbv iota. cbn [negb].
  change (lit " --pipe-name ") with (x20 :: lit "--pipe-name" ++ [x20]).
  change (lit " --session-id ") with (x20 :: lit "--session-id" ++ [x20]).
  change (lit " --generation ") with (x20 :: lit "--generation" ++ [x20]).
  cbn [app]. rewrite program_name by done. cbn [app]. f_equal. rewrite <- !app_assoc. cbn [app].
  rewrite (split_args_word (lit "--pipe-name")), split_args_blank by (by left || by repeat constructor). f_equal.
  rewrite split_args_open, split_args_quoted by done. cbn [repeat app].
  rewrite split_args_close. f_equal.
  rewrite (split_args_word (lit "--session-id")), split_args_blank by (by left || by repeat constructor). f_equal.
  rewrite (split_args_word (dec _)) by (apply plain_dec || (left; apply dec_spec)). cbn [app].
  rewrite split_args_blank. f_equal.
  rewrite (split_args_word (lit "--generation")), split_args_blank by (by left || by repeat constructor). f_equal.
  rewrite <- (app_nil_r (dec (se_generation s))) at 1.
  rewrite (split_args_word (dec _)) by (apply plain_dec || (left; apply dec_spec)).
  apply split_args_end, dec_spec.
Qed.

(** The host reads from its command line the pipe, the session and the generation
    of the launch. *)
Theorem launched_arguments binary s nonce :
  Forall (fun b => Byte.eqb b x22 = false) binary ->
  se_session_id s <= u32_max -> se_generation s <= u64_max ->
  parse_args (drop 1 (process_args (command_line binary (pipe_name s nonce) s))) =
  Some (mkHostArgs (pipe_name s nonce) (se_session_id s) (se_generation s)).
Proof.
  intros Hb Hs Hg. rewrite process_args_launched by done. unfold parse_args.
  cbn [drop parse_args_loop].
  change (bool_decide (lit "--pipe-name" = lit "--pipe-name")) with true.
  change (bool_decide (lit "--session-id" = lit "--pipe-name")) with false.
  change (bool_decide (lit "--session-id" = lit "--session-id")) with true.
  change (bool_decide (lit "--generation" = lit "--pipe-name")) with false.
  change (bool_decide (lit "--generation" = lit "--session-id")) with false.
  change (bool_decide (lit "--generation" = lit "--generation")) with true.
  cbv iota. by rewrite !parse_dec.
Qed.

(** Pipes of different launches have different names. *)
Theorem pipe_names_differ s s' nonce nonce' :
  se_generation s <> se_generation s' -> pipe_name s nonce <> pipe_name s' nonce'.
Proof.
  intros Hg E. apply Hg. unfold pipe_name in E. apply app_inv_head in E.
  assert (forall n, free_of (Byte.eqb x2d) (dec n)) as Hd.
  { intros n. apply digits_free_of; [apply dec_spec|by vm_compute]. }
  assert (forall n t, split_once x2d (dec n ++ lit "-" ++ t) = Some (dec n, t)) as Hs.
  { intros n t. apply split_once_Some. split; [done|apply Hd]. }
  apply (f_equal (split_once x2d)) in E. rewrite !Hs in E. apply (inj Some), pair_eq in E as [_ E].
  apply (f_equal (split_once x2d)) in E. rewrite !Hs in E. apply (inj Some), pair_eq in E as [E _]. by apply dec_inj.
Qed.

(** ** Objects taken and given back *)

(** What a launch that fails has kept: nothing, or the environment block when the
    log file could not be opened, by the call after the one that made the block. *)
Definition launch_kept `{Win32} (k0 : Kernel) (L : gset resource) (k : Kernel) : Prop :=
  holds k0 L k \/
  (exists n, holds k0 ({[ EnvironmentBlock n ]} ∪ L) k /\ EnvironmentBlock n ∉ L /\
     made k n "CreateEnvironmentBlock" /\ made k (n + 1) "CreateFileW" /\ succeeds (n + 1) = false).

(** What reading the user of a token that fails has kept: nothing, or the text of
    the identifier when it is not UTF-16. *)
Definition token_kept `{Win32} (k0 : Kernel) (L : gset resource) (k : Kernel) : Prop :=
  holds k0 L k \/
  (exists n, holds k0 ({[ LocalBlock n ]} ∪ L) k /\ LocalBlock n ∉ L /\
     made k n "ConvertSidToStringSidW" /\ from_utf16 (default [] (wide_text n)) = None).

(** The session [i] is one of [l], active or connected. *)
Definition listable (l : list WtsSession) (i : N) : Prop :=
  exists s, s ∈ l /\ ws_session_id s = i /\ (ws_state s = 0 \/ ws_state s = 1).

Section Objects.
Context `{Win32} (k0 : Kernel).

Lemma eligible_session_holds {E} L s (R : E -> Kernel -> Prop) :
  triple (holds k0 L) (eligible_session s)
    (fun id k => holds k0 L k /\
       (forall i, id = Some i -> i = ws_session_id s /\ (ws_state s = 0 \/ ws_state s = 1))) R.
Proof.
  unfold eligible_session.
  destruct (N.eqb_spec (ws_state s) 0) as [E0|E0], (N.eqb_spec (ws_state s) 1) as [E1|E1]; cbn [negb andb];
    try (by apply triple_ret); (case_match; [by apply triple_ret; intros k Hk; split; [|intros i [= <-]; auto]|]).
  all: eapply triple_bind; [|intros named; apply triple_ret; intros k Hk; split; [exact Hk|];
         intros i Hi; destruct named; [|done]; injection Hi as <-; auto].
  all: unfold session_has_user_name; apply step_query; [done| |done|by apply triple_ret];
       intros n _ Hn; apply step_release; [set_solver|]; apply triple_ret; intros k Hk;
       (eapply holds_same; [exact Hk|set_solver]).
Qed.

Lemma list_sessions_holds {E} L l (R : E -> Kernel -> Prop) :
  triple (holds k0 L) (fold_m list_session [] l)
    (fun ids k => holds k0 L k /\ Forall (listable l) ids) R.
Proof.
  pose (I d ids k := holds k0 L k /\ Forall (listable d) ids).
  eapply (triple_conseq _ (I [] [])); [apply (triple_fold _ I R l)| |done|done]; [|by split].
  intros d x acc k [Hk Ha]. unfold list_session.
  pose proof (eligible_session_holds (E := E) L x R k Hk) as Hx.
  unfold mbind, M_bind. destruct (eligible_session x k) as [[id|e] k']; [|done].
  destruct Hx as [Hk' Hid]. split; [done|].
  assert (Forall (listable (d ++ [x])) acc) as Ha'.
  { eapply Forall_impl; [exact Ha|]. intros i (s & Hs & Hr). exists s. split; [set_solver|done]. }
  destruct id as [i|]; [|done]. apply Forall_app. split; [done|]. constructor; [|constructor].
  destruct (Hid i eq_refl) as [-> Hst]. exists x. split; [set_solver|done].
Qed.

(** Every session that is listed is one the enumeration reported as active or
    connected; the enumeration keeps nothing. *)
Lemma active_session_ids_holds {E} L (R : E -> Kernel -> Prop) :
  triple (holds k0 L) active_session_ids
    (fun ids k => holds k0 L k /\ exists n, Forall (listable (default [] (sessions n))) ids) R.
Proof.
  unfold active_session_ids. apply step_query; [done| | |].
  - intros n Hs Hn. apply bool_decide_eq_true in Hs as [l El]. rewrite El.
    eapply triple_bind; [apply list_sessions_holds|]. intros ids. apply triple_pure. intros Hids.
    apply step_release; [set_solver|]. apply triple_ret. intros k Hk.
    split; [eapply holds_same; [exact Hk|set_solver]|]. exists n. by rewrite El.
  - intros n Hs. apply bool_decide_eq_false in Hs. destruct (sessions n) eqn:En; [by destruct Hs|].
    apply triple_ret. intros k Hk. split; [done|]. exists n. constructor.
  - apply triple_ret. intros k Hk. split; [done|]. exists 0. constructor.
Qed.

Lemma token_user_sid_holds L token :
  triple (holds k0 L) (token_user_sid token) (fun _ => holds k0 L) (fun _ => token_kept k0 L).
Proof.
  unfold token_user_sid. apply step_invoke. intros n. apply step_ensure; [intros _|by left].
  apply step_must; [intros m _|by left]. apply triple_numbered. intros t.
  apply at_obtain; [done| |by intros _ k [Hk _]; left]. intros _ Hs. apply step_lift.
  - intros text _. apply triple_unnumbered. apply step_release; [set_solver|]. apply triple_lift; [|left]; intros;
      (eapply holds_same; [done|set_solver]).
  - intros e k Hk He. right. exists (len t). split; [apply Hk|]. split; [done|].
    split; [by eapply (made_at _ _ _ t)|]. by destruct (from_utf16 _).
Qed.

(** The token of a session is held by the caller; a session without a usable token
    leaves none behind. *)
Lemma query_primary_token_holds L session_id :
  triple (holds k0 L) (query_primary_token session_id)
    (fun t k => holds k0 ({[ Handle t.1 ]} ∪ L) k /\ Handle t.1 ∉ L) (fun _ => token_kept k0 L).
Proof.
  unfold query_primary_token. apply step_obtain; [done| |by left]. intros h Hh.
  eapply triple_bind.
  - eapply triple_on_error; [apply token_user_sid_holds|]. cbv beta. intros e k [Hk|(n & Hk & Hn & Ht)].
    + left. by apply release_run.
    + right. exists n. destruct Ht as [Hm Ht]. split; [|split; [set_solver|split; [|done]]].
      * apply release_run; [set_solver|]. eapply holds_same; [exact Hk|set_solver].
      * eapply made_later; [apply release_trace|exact Hm].
  - intros sid. by apply triple_ret.
Qed.

Lemma launch_host_owns L process_id config s pipe_path :
  triple (owns k0 L) (launch_host process_id config s pipe_path)
    (fun h m => owns k0 ({[ Handle (lh_process h) ]} ∪ L) m /\ Handle (lh_process h) ∉ L)
    (fun _ m => launch_kept k0 L (mc_kernel m)).
Proof.
  unfold launch_host, owns. apply triple_reading. intros d.
  do 2 (apply step_ensure; [intros _|by left]).
  eapply triple_bind; [apply (triple_ignore_io _ (holds k0 L))|intros []].
  eapply triple_conseq; [apply (triple_on_kernel (holds k0 L) _
    (fun h k => holds k0 ({[ Handle (lh_process h) ]} ∪ L) k /\ Handle (lh_process h) ∉ L)
    (fun _ => launch_kept k0 L))|done|done|done].
  apply triple_numbered. intros t. apply at_obtain; [done| |by intros _ k [Hk _]; left]. intros _ Henv.
  apply at_obtain; [done| |].
  2: { rewrite len_cons, N.add_comm. intros Hf k Hk. right. exists (len t). split; [apply Hk|]. split; [done|].
       split; [|split; [|done]].
       - eapply (made_at _ _ _ t); [exact Hk|by apply suffix_cons_r|done|done].
       - eapply made_at; [exact Hk|reflexivity|done|rewrite len_cons; lia]. }
  intros _ Hlog. apply triple_unnumbered. set (env := len t) in *. set (log := len _) in *.
  apply step_create_process.
  - intros p Hs Hp Ht. do 2 (apply step_release; [set_solver|]). rewrite Hs.
    apply step_ensure; [intros _|done]. apply step_release; [set_solver|].
    apply triple_ret. cbn [lh_process]. intros k Hk. split; [|set_solver].
    eapply holds_same; [exact Hk|]. set_solver.
  - intros p Hs. do 2 (apply step_release; [set_solver|]). rewrite Hs.
    apply step_ensure; [done|]. intros k Hk _. left. eapply holds_same; [exact Hk|]. set_solver.
Qed.
End Objects.
