(* ===== verification/Endpoint.v ===== *)
(** * Endpoint

    The server side of the pipe on Windows (the module [windows_pipe] of
    crates/dlp-windows-service/src/pipe.rs): its access list, its creation, the
    identification of the client the kernel connected, and the exchange with it,
    with the handles these take and give back.

    The frames and messages are those of Pipe; here the calls to the kernel and
    the writes are made one by one and each of them may fail, a write part-way. *)

From S2P Require Import Prelude Bytes Text Reader Effects Domain Fs Store Drive Pipe Win32.

(** The binary form of security identifiers. *)
Class Sids := {
  binary_sid : bytes -> bytes;
  local_system_sid : bytes;
  service_sid : bytes -> bytes;
}.

(** What Windows documents of it: the service and SYSTEM have different forms, of
    at most [SECURITY_MAX_SID_SIZE] bytes. *)
Class SidLaws (S : Sids) := {
  local_system_size : len local_system_sid <= SECURITY_MAX_SID_SIZE;
  service_sid_size n : len (service_sid n) <= SECURITY_MAX_SID_SIZE;
  service_not_system n : service_sid n <> local_system_sid;
}.

(** The number [windows::core::Error::code] makes of the error of a failed call. *)
Class WindowsErrors := {
  error_code : N -> N;
}.

(** The crate documents it as [HRESULT_FROM_WIN32]. *)
Definition hresult_from_win32 (code : N) : N :=
  if code =? 0 then 0 else N.lor 0x80070000 (N.land code 0xFFFF).
Class WindowsErrorLaws (W : WindowsErrors) := {
  error_code_hresult code : error_code code = hresult_from_win32 code;
}.

Definition ERROR_PIPE_CONNECTED : N := 535.

Section Endpoint.
Context `{Win32} `{Sids} `{WindowsErrors}.

(** [PipeSecurity::for_user]: the buffer has room for one entry. *)
Definition for_user (user_sid : bytes) : M Kernel PipeAuthError (list Ace) :=
  s ← obtain LocalBlock "ConvertStringSidToSidW" user_sid AuthenticationFailed;
  let sid := binary_sid user_sid in
  _ ← release "LocalFree" (LocalBlock s);
  let acl_size := 8 + 12 - 4 + len sid in
  _ ← must "InitializeAcl" [] AuthenticationFailed;
  _ ← must "AddAccessAllowedAce" sid AuthenticationFailed;
  acl ← lift (ok_or AuthenticationFailed
           (add_access_allowed_ace (mkAclBuffer acl_size []) (N.lor GENERIC_READ GENERIC_WRITE) sid));
  _ ← must "InitializeSecurityDescriptor" [] AuthenticationFailed;
  _ ← must "SetSecurityDescriptorDacl" [] AuthenticationFailed;
  mret (ab_aces acl).

(** [ActorPipe::create]. *)
Definition create_actor_pipe (pipe_name user_sid : bytes) : M Kernel PipeAuthError N :=
  dacl ← for_user user_sid;
  h ← obtain Handle "CreateNamedPipeW" pipe_name PipeUnavailable;
  _ ← modify (fun k => set_security
         (<[ [pipe_name] := mkDescriptor local_system_sid (Some dacl) ]> (kn_security k)) k);
  mret h.

(** [Drop] of [ActorPipe], of the [File] made from its handle, and of
    [AuthenticatedPipe]. *)
Definition close_pipe {E} (h : N) : M Kernel E unit := release "CloseHandle" (Handle h).

(** [pwstr_to_string] of pipe.rs. *)
Definition token_text (t : option (list N)) : result PipeAuthError bytes :=
  match t with
  | None => Err AuthenticationFailed
  | Some units => ok_or AuthenticationFailed (from_utf16 units)
  end.

Definition open_thread_token_sid_session : M Kernel PipeAuthError (bytes * N) :=
  token ← obtain Handle "OpenThreadToken" [] AuthenticationFailed;
  n ← invoke "GetTokenInformation" (lit "TokenUser");
  _ ← on_error (close_pipe token) (ensure (negb (reported n =? 0)) AuthenticationFailed);
  _ ← on_error (close_pipe token)
        (must "GetTokenInformation" (lit "TokenUser") AuthenticationFailed);
  s ← obtain LocalBlock "ConvertSidToStringSidW" [] AuthenticationFailed;
  sid ← lift (token_text (wide_text s));
  _ ← release "LocalFree" (LocalBlock s);
  q ← must "GetTokenInformation" (lit "TokenSessionId") AuthenticationFailed;
  _ ← close_pipe token;
  mret (sid, reported q).

(** The part of [accept_and_authenticate] before the pipe is read.  The number 535
    is the one the sources compare the error's code with. *)
Definition identify_client (e : Expected) : M Kernel PipeAuthError unit :=
  n ← invoke "ConnectNamedPipe" [];
  _ ← ensure (succeeds n || (error_code (reported n) =? ERROR_PIPE_CONNECTED)) PipeUnavailable;
  p ← must "GetNamedPipeClientProcessId" [] AuthenticationFailed;
  _ ← ensure (reported p =? ex_pid e) WrongIdentity;
  _ ← impersonate_client AuthenticationFailed;
  token ← try open_thread_token_sid_session;
  _ ← revert_to_self;
  client ← lift (map_err (fun _ => AuthenticationFailed) token);
  _ ← ensure (client.2 =? ex_session e) WrongIdentity;
  ensure (bool_decide (client.1 = ex_sid e)) WrongIdentity.

Context `{PipeJson}.

(** The part that reads and writes: [input] are the bytes the client sends. *)
Definition exchange (e : Expected) (b : StorageBootstrap) (input : bytes) : M Kernel PipeAuthError N :=
  rest ← lift (read_request e input);
  _ ← must "WriteFile" (encode_frame (response_to_vec accepted_response)) BootstrapFailed;
  v ← lift (ok_or BootstrapFailed (bootstrap_to_vec b));
  _ ← must "WriteFile" (encode_frame v) BootstrapFailed;
  lift (read_ack rest).

(** [ActorPipe::accept_and_authenticate] on the pipe [h]: an early return before
    the exchange drops the [ActorPipe], one in it the [File]; the handle is
    returned to the caller otherwise. *)
Definition accept_client (h : N) (e : Expected) (b : StorageBootstrap) (input : bytes) :
    M Kernel PipeAuthError (N * N) :=
  _ ← on_error (close_pipe h) (identify_client e);
  letter ← on_error (close_pipe h) (exchange e b input);
  mret (h, letter).
End Endpoint.

(** ** Objects *)

(** What reading the token of the client may leave behind: the token, which is call
    [t], when its user could not be converted, by the third call after it, or its
    session could not be read, by the fifth; and the text of the user with it when
    that text is not UTF-16. *)
Inductive token_objects `{Win32} (k : Kernel) : gset resource -> Prop :=
| token_unconverted t :
    made k t "OpenThreadToken" -> made k (t + 3) "ConvertSidToStringSidW" -> succeeds (t + 3) = false ->
    token_objects k {[ Handle t ]}
| token_unreadable t :
    made k t "OpenThreadToken" -> made k (t + 3) "ConvertSidToStringSidW" -> succeeds (t + 3) = true ->
    token_text (wide_text (t + 3)) = Err AuthenticationFailed ->
    token_objects k {[ Handle t; LocalBlock (t + 3) ]}
| token_sessionless t :
    made k t "OpenThreadToken" -> made k (t + 5) "GetTokenInformation" -> succeeds (t + 5) = false ->
    token_objects k {[ Handle t ]}.

Lemma token_objects_later `{Win32} k k' kept :
  kn_trace k `suffix_of` kn_trace k' -> token_objects k kept -> token_objects k' kept.
Proof.
  intros Ht Hk. destruct Hk; [apply token_unconverted|apply token_unreadable|apply token_sessionless];
    try done; by eapply made_later.
Qed.

(** Whatever it leaves is not the object of another call than these. *)
Lemma token_objects_named `{Win32} k kept n name :
  token_objects k kept -> made k n name -> Handle n ∈ kept -> name = "OpenThreadToken"%string.
Proof.
  intros Hk Hn Hin. assert (exists t, made k t "OpenThreadToken" /\ n = t) as (t & Ht & ->).
  { destruct Hk as [t ?|t ?|t ?]; exists t; (split; [done|]); set_solver. }
  by eapply made_once.
Qed.

Section Objects.
Context `{Win32} `{Sids} (k0 : Kernel).

Lemma for_user_room sid :
  add_access_allowed_ace (mkAclBuffer (8 + 12 - 4 + len sid) []) (N.lor GENERIC_READ GENERIC_WRITE) sid =
  Some (mkAclBuffer (8 + 12 - 4 + len sid) [mkAce 0 (N.lor GENERIC_READ GENERIC_WRITE) sid]).
Proof.
  unfold add_access_allowed_ace, acl_used, ace_size. cbn [ab_aces ab_size app foldr ace_sid].
  by rewrite (proj2 (N.leb_le _ _)) by lia.
Qed.

(** The access list names the user and nobody else, and building it keeps nothing. *)
Lemma for_user_holds L user :
  triple (holds k0 L) (for_user user)
    (fun dacl k => holds k0 L k /\ dacl = [mkAce 0 (N.lor GENERIC_READ GENERIC_WRITE) (binary_sid user)])
    (fun e k => e = AuthenticationFailed /\ holds k0 L k).
Proof.
  unfold for_user. apply step_obtain; [done| |done]. intros s Hs. apply step_release; [set_solver|].
  eapply (triple_conseq _ (holds k0 L)); [| |intros ? ? Hq; exact Hq|intros ? ? Hr; exact Hr].
  2: { intros k Hk. eapply holds_same; [exact Hk|set_solver]. }
  do 2 (apply step_must; [intros ? _|done]). rewrite for_user_room. cbn [ok_or].
  apply step_lift; [|done]. intros acl <-%Ok_inj. do 2 (apply step_must; [intros ? _|done]).
  by apply triple_ret.
Qed.

(** What an error leaves: everything given back, or the objects above. *)
Definition token_lost (L : gset resource) (k : Kernel) : Prop :=
  exists kept, holds k0 (kept ∪ L) k /\ kept ## L /\ (kept = ∅ \/ token_objects k kept).

Lemma token_lost_nothing L k : holds k0 L k -> token_lost L k.
Proof.
  intros Hk. exists ∅. split; [eapply holds_same; [exact Hk|set_solver]|]. split; [set_solver|by left].
Qed.

(** The token [t] alone, and the text [s] with it. *)
Lemma token_lost_handle L t k :
  holds k0 ({[ Handle t ]} ∪ L) k -> Handle t ∉ L -> token_objects k {[ Handle t ]} -> token_lost L k.
Proof. intros Hk Ht Ho. exists {[ Handle t ]}. split; [done|]. split; [set_solver|by right]. Qed.

(** The numbers of the calls, counted from the one that opened the token. *)

Local Ltac call_made e l :=
  eapply (made_at _ _ _ l e);
    [eassumption|repeat first [reflexivity|apply suffix_cons_r]|reflexivity|first [reflexivity|symmetry; assumption]].

Lemma open_thread_token_numbered L tr :
  triple (holds_at k0 L tr) open_thread_token_sid_session (fun _ => holds k0 L) (fun _ => token_lost L).
Proof.
  unfold open_thread_token_sid_session. set (t := len tr). pose (opened := mkEntry "OpenThreadToken" [] true).
  apply at_obtain; [done| |by intros _ k [Hk _]; apply token_lost_nothing]. fold t. intros _ Ht. apply at_invoke.
  set (tr2 := _ :: _ :: tr). eapply (triple_bind _ _ _ (fun _ => holds_at k0 ({[ Handle t ]} ∪ L) tr2)).
  { eapply triple_on_error; [apply (triple_ensure _ _ _ (fun _ => holds_at k0 ({[ Handle t ]} ∪ L) tr2)
      (fun _ => holds k0 ({[ Handle t ]} ∪ L))); [done|by intros k [Hk _]]|].
    intros ? k Hk. apply token_lost_nothing. by apply release_run. }
  intros []. eapply triple_bind.
  { eapply triple_on_error; [apply at_must_holds|]. cbv beta. intros ? k (_ & _ & Hk & _).
    apply token_lost_nothing. by apply release_run. }
  cbv beta. intros m k (_ & _ & Hk). revert k Hk. set (tr3 := _ :: tr2).
  assert (len tr3 = t + 3) as E3 by (unfold tr3, tr2, t; rewrite !len_cons; lia).
  apply at_obtain; [done| |]; rewrite E3.
  2: { intros Hf k Hk. eapply token_lost_handle; [apply Hk|done|]. apply token_unconverted; [call_made opened tr|call_made (mkEntry "ConvertSidToStringSidW" [] false) tr3|done]. }
  intros Hs Hn. apply step_lift.
  - intros sid _. apply at_release; [set_solver|].
    replace (({[ LocalBlock (t + 3) ]} ∪ ({[ Handle t ]} ∪ L)) ∖ {[ LocalBlock (t + 3) ]}) with ({[ Handle t ]} ∪ L) by set_solver.
    set (tr5 := _ :: _ :: tr3). assert (len tr5 = t + 5) as E5 by (unfold tr5; rewrite !len_cons; lia).
    apply at_must; rewrite E5.
    2: { intros Hf k Hk. eapply token_lost_handle; [apply Hk|done|]. apply token_sessionless;
      [call_made opened tr|call_made (mkEntry "GetTokenInformation" (lit "TokenSessionId") false) tr5|done]. }
    intros _. apply at_release; [set_solver|]. apply triple_ret. intros k [Hk _]. eapply holds_same; [exact Hk|set_solver].
  - intros e k Hk He. exists {[ Handle t; LocalBlock (t + 3) ]}.
    split; [eapply holds_same; [apply Hk|set_solver]|]. split; [set_solver|]. right.
    apply token_unreadable; [call_made opened tr|call_made (mkEntry "ConvertSidToStringSidW" [] true) tr3|done|]. rewrite He. unfold token_text in He.
    destruct (wide_text _) as [u|]; [destruct (from_utf16 u)|]; cbn in He; congruence.
Qed.

Lemma open_thread_token_holds L :
  triple (holds k0 L) open_thread_token_sid_session (fun _ => holds k0 L) (fun _ => token_lost L).
Proof. apply triple_numbered. intros t. apply open_thread_token_numbered. Qed.
End Objects.

(** ** The endpoint *)

(** [k] is reached from [k0] with nothing released twice and the thread as itself,
    unless reverting failed. *)
Definition settled (k0 : Kernel) (L : gset resource) (k : Kernel) : Prop :=
  exists k1, moved k0 k1 /\ (kn_impersonating k1 = false \/ failed "RevertToSelf" k1) /\ holds k1 L k.

Lemma exchange_holds `{Win32} `{PipeJson} k0 L e b input :
  triple (holds k0 L) (exchange e b input) (fun _ => holds k0 L) (fun _ => holds k0 L).
Proof.
  unfold exchange. apply step_lift; [intros rest _|done]. apply step_must; [intros ? _|done].
  apply step_lift; [intros v _|done]. apply step_must; [intros ? _|done]. by apply triple_lift.
Qed.

Section Accept.
Context `{Win32} `{Sids} `{WindowsErrors} `{PipeJson} (k0 : Kernel).
Hypothesis self : kn_impersonating k0 = false.

Lemma settled_here L k : holds k0 L k -> settled k0 L k.
Proof. intros Hk. exists k0. split; [by split|]. split; [by left|done]. Qed.

(** What identifying the client leaves. *)
Lemma identify_client_holds L e :
  triple (holds k0 L) (identify_client e) (fun _ => settled k0 L)
    (fun x k => exists kept, settled k0 (kept ∪ L) k /\ kept ## L /\
                  (kept = ∅ \/ x = AuthenticationFailed /\ token_objects k kept)).
Proof.
  assert (forall x k, settled k0 L k -> exists kept, settled k0 (kept ∪ L) k /\ kept ## L /\
    (kept = ∅ \/ x = AuthenticationFailed /\ token_objects k kept)) as Hnone.
  { intros x k Hk. exists ∅. rewrite (left_id_L ∅ (∪)). split; [done|]. split; [set_solver|by left]. }
  unfold identify_client. apply step_invoke. intros n.
  apply step_ensure; [intros _|by intros; apply Hnone, settled_here].
  apply step_must; [intros p _|by intros; apply Hnone, settled_here].
  apply step_ensure; [intros _|by intros; apply Hnone, settled_here].
  apply step_impersonate; [|by intros; apply Hnone, settled_here]. intros k1 Hm1 _.
  eapply triple_bind; [eapply triple_try, open_thread_token_holds|]. intros r. destruct r as [[sid session]|x].
  - apply step_revert. intros k2 Hm2 Hi2.
    assert (forall k, holds k2 L k -> settled k0 L k) as Hs
      by (intros k Hk; exists k2; split; [by eapply moved_trans|done]).
    apply step_lift; [|done]. intros c _. apply step_ensure; [intros _|by intros; apply Hnone, Hs].
    apply triple_ensure; intros k Hk _; [by apply Hs|by apply Hnone, Hs].
  - intros k (kept & Hk & Hd & Ho). pose proof (holds_moved _ _ _ Hk) as Hmk.
    eapply (step_revert k (kept ∪ L)); [|by eapply holds_since]. intros k2 Hm2 Hi2.
    apply step_lift; [done|]. intros e' k3 Hk3 [= <-]. exists kept. split; [|split; [done|]].
    + exists k2. split; [by do 2 (eapply moved_trans; [eassumption|])|done].
    + destruct Ho as [->|Ho]; [by left|]. right. split; [done|].
      eapply token_objects_later; [|exact Ho]. etrans; [apply Hm2|apply Hk3].
Qed.

Lemma settled_same L L' k : settled k0 L k -> L = L' -> settled k0 L' k.
Proof. by intros Hk ->. Qed.

Lemma settled_release {E} L name r k :
  r ∉ L -> settled k0 ({[ r ]} ∪ L) k -> settled k0 L (snd (release (E := E) name r k)).
Proof. intros Hr (k1 & Hm & Hi & Hk). exists k1. split; [done|]. split; [done|]. by apply release_run. Qed.

Lemma accept_client_holds L h e b input :
  Handle h ∉ L ->
  triple (holds k0 ({[ Handle h ]} ∪ L)) (accept_client h e b input)
    (fun r k => r.1 = h /\ settled k0 ({[ Handle h ]} ∪ L) k)
    (fun x k => exists kept, settled k0 (kept ∪ L) k /\ kept ## ({[ Handle h ]} ∪ L) /\
                  (kept = ∅ \/ x = AuthenticationFailed /\ token_objects k kept)).
Proof.
  intros Hh. unfold accept_client. eapply triple_bind.
  { eapply triple_on_error; [apply identify_client_holds|]. cbv beta. intros x k (kept & Hk & Hd & Hx).
    exists kept. split; [|split; [done|]].
    - apply settled_release; [set_solver|].
      replace ({[ Handle h ]} ∪ (kept ∪ L)) with (kept ∪ ({[ Handle h ]} ∪ L)) by set_solver. done.
    - destruct Hx as [->|[-> Ho]]; [by left|]. right. split; [done|].
      eapply token_objects_later; [apply release_trace|exact Ho]. }
  intros []. cbv beta. intros k (k1 & Hm & Hi & Hk). revert k Hk.
  eapply (triple_bind (holds k1 ({[ Handle h ]} ∪ L)) _ _ (fun _ => holds k1 ({[ Handle h ]} ∪ L))).
  - eapply triple_on_error; [apply exchange_holds|]. cbv beta. intros x k Hk. exists ∅.
    rewrite (left_id_L ∅ (∪)). split; [|split; [set_solver|by left]].
    apply settled_release; [done|]. by exists k1.
  - intros letter. apply triple_ret. intros k Hk. split; [done|]. by exists k1.
Qed.
End Accept.

Lemma settled_outcome k0 L k :
  settled k0 L k ->
  kn_live k = L /\ kn_faults k = kn_faults k0 /\
  (kn_impersonating k = true -> exists a, mkEntry "RevertToSelf" a false ∈ kn_trace k).
Proof.
  intros (k1 & [Hf Ht] & Hi & [Hl Hf1 Hi1 _ Ht1]). split; [done|]. split; [congruence|].
  intros Himp. destruct Hi as [Hi|[a Ha]]; [congruence|]. exists a.
  apply list_elem_of_lookup_2 in Ha. destruct Ht1 as [t ->]. apply elem_of_app. by right.
Qed.

(** The service's end of the pipe is closed once or kept once: when the client
    is accepted the handle of the pipe is returned, open, and every other object is
    as before; when it is not, the handle is closed, and every other object is as
    before, except for the client's token and the text of its user when that token
    could not be read.  No handle is closed twice,
    and the thread never stays in the client's identity unless [RevertToSelf]
    itself failed. *)
Theorem endpoint_objects `{Win32} `{Sids} `{WindowsErrors} `{PipeJson} k h e b input :
  kernel_wf k -> kn_impersonating k = false -> Handle h ∈ kn_live k ->
  let '(r, k') := accept_client h e b input k in
  kn_faults k' = kn_faults k /\
  (kn_impersonating k' = true -> exists a, mkEntry "RevertToSelf" a false ∈ kn_trace k') /\
  match r with
  | Ok (h', _) => h' = h /\ kn_live k' = kn_live k
  | Err x => exists kept, Handle h ∉ kept /\ kn_live k' = kept ∪ (kn_live k ∖ {[ Handle h ]}) /\
             (kept = ∅ \/ x = AuthenticationFailed /\ token_objects k' kept)
  end.
Proof.
  intros Hwf Hself Hh. pose (L := kn_live k ∖ {[ Handle h ]}).
  assert (kn_live k = {[ Handle h ]} ∪ L) as EL by by apply union_difference_singleton_L.
  assert (Handle h ∉ L) as HL by set_solver.
  assert (holds k ({[ Handle h ]} ∪ L) k) as Hk by (rewrite <- EL; by apply holds_start).
  pose proof (accept_client_holds k Hself L h e b input HL k Hk) as Ht.
  destruct (accept_client h e b input k) as [[[h' letter]|x] k'].
  - destruct Ht as [Hr (Hl & Hf & Hi)%settled_outcome]. rewrite <- EL in Hl. done.
  - destruct Ht as (kept & (Hl & Hf & Hi)%settled_outcome & Hd & Hx). fold L.
    split; [done|]. split; [done|]. exists kept. split; [set_solver|done].
Qed.

(** ** The endpoint refines the handshake of Pipe *)

(** The bytes the calls [t] wrote: all of a write that succeeded, and of one that
    failed the part it reports. *)
Fixpoint sent_by `{Win32} (t : list Entry) : bytes :=
  match t with
  | [] => []
  | en :: before =>
      sent_by before ++
      (if String.eqb (en_call en) "WriteFile"
       then if en_ok en then en_argument en else take (N.to_nat (reported (len before))) (en_argument en)
       else [])
  end.

(** The bytes written to the pipe so far. *)
Definition written `{Win32} (k : Kernel) : bytes := sent_by (kn_trace k).

(** Since [k] a write has failed. *)
Definition write_failed (k k' : Kernel) : Prop :=
  exists t a, kn_trace k' = t ++ kn_trace k /\ mkEntry "WriteFile" a false ∈ t.

Section Refinement.
Context `{Win32} `{Sids} `{WindowsErrors} `{PipeJson}.

(** The state in which the token of the client is opened: three calls later, in
    the client's identity. *)
Definition impersonated_state (k : Kernel) : Kernel :=
  let n := len (kn_trace k) in
  set_impersonating true (set_trace
    (mkEntry "ImpersonateNamedPipeClient" [] (succeeds (1 + (1 + n)))
     :: mkEntry "GetNamedPipeClientProcessId" [] (succeeds (1 + n))
     :: mkEntry "ConnectNamedPipe" [] (succeeds n) :: kn_trace k) k).

(** What the kernel reports of the client from the state [k] on. *)
Definition observed_client (k : Kernel) : Client :=
  let n := len (kn_trace k) in
  mkClient (succeeds n || (error_code (reported n) =? ERROR_PIPE_CONNECTED))
    (if succeeds (1 + n) then Some (reported (1 + n)) else None)
    (succeeds (1 + (1 + n)))
    (result_ok (fst (open_thread_token_sid_session (impersonated_state k)))).

Lemma must_run {E} name argument (e : E) k :
  must name argument e k =
  let n := len (kn_trace k) in
  (if succeeds n then Ok n else Err e, set_trace (mkEntry name argument (succeeds n) :: kn_trace k) k).
Proof. unfold must, mbind, M_bind, invoke, ensure. cbv zeta. by destruct (succeeds _). Qed.

Lemma identify_client_check e k :
  fst (identify_client e k) = check_client (observed_client k) e.
Proof.
  unfold identify_client, check_client, observed_client.
  cbn [cl_connected cl_pid cl_impersonated cl_token].
  erewrite bind_step by reflexivity. rewrite bind_ensure. cbn [kn_trace set_trace].
  destruct (succeeds (len (kn_trace k)) || _) eqn:E0; [|done]. cbn [negb].
  unfold impersonate_client, mbind, M_bind, result_bind. rewrite !must_run. cbv zeta.
  cbn [kn_trace set_trace]. rewrite len_cons.
  destruct (succeeds (1 + len (kn_trace k))) eqn:E1; [|done]. cbn [ok_or]. unfold ensure.
  destruct (reported _ =? ex_pid e); [|done]. cbn [negb]. rewrite must_run. cbv zeta.
  cbn [kn_trace set_trace]. rewrite !len_cons.
  destruct (succeeds (1 + (1 + len (kn_trace k)))) eqn:E2; [|done]. cbn [negb].
  unfold modify, impersonated_state. rewrite E1, E2. unfold try.
  cbn [set_trace set_impersonating kn_live kn_faults kn_impersonating kn_trace kn_security].
  destruct (open_thread_token_sid_session _) as [token k3]. cbn [fst].
  unfold revert_to_self, mbind, M_bind, invoke, lift.
  destruct (succeeds (len (kn_trace k3))), token as [[sid session]|x]; try done; cbn [map_err result_ok ok_or fst snd];
    (destruct (session =? ex_session e); [|done]); cbn [negb]; by case_bool_decide.
Qed.

(** The bytes one write adds. *)
Lemma written_write argument ok k :
  written (set_trace (mkEntry "WriteFile" argument ok :: kn_trace k) k) =
  written k ++ (if ok then argument else take (N.to_nat (reported (len (kn_trace k)))) argument).
Proof. done. Qed.

(** The exchange of Pipe: its answer and what it sends. *)
Definition exchange_spec (e : Expected) (b : StorageBootstrap) (input : bytes) :
    result PipeAuthError N * bytes :=
  match read_request e input with
  | Err x => (Err x, [])
  | Ok rest =>
      let accepted := encode_frame (response_to_vec accepted_response) in
      match bootstrap_to_vec b with
      | None => (Err BootstrapFailed, accepted)
      | Some v => (read_ack rest, accepted ++ encode_frame v)
      end
  end.

Lemma exchange_sends e b input k r k' :
  exchange e b input k = (r, k') ->
  exists sent, written k' = written k ++ sent /\
    ((r, sent) = exchange_spec e b input \/
     r = Err BootstrapFailed /\ sent `prefix_of` snd (exchange_spec e b input) /\ write_failed k k').
Proof.
  unfold exchange, exchange_spec. rewrite bind_lift. destruct (read_request e input) as [rest|x].
  2: { intros [<- <-]%pair_eq. exists []. rewrite app_nil_r. split; [done|by left]. }
  cbv zeta. set (accepted := encode_frame _). unfold mbind, M_bind. rewrite must_run. cbv zeta.
  destruct (succeeds (len (kn_trace k))) eqn:E1.
  2: { intros [<- <-]%pair_eq. eexists. split; [apply written_write|]. right. split; [done|]. split.
       - etrans; [apply prefix_take|]. destruct (bootstrap_to_vec b); cbn [snd]; [by apply prefix_app_r|done].
       - exists [mkEntry "WriteFile" accepted false], accepted. split; [done|left]. }
  unfold lift at 1. destruct (bootstrap_to_vec b) as [v|]; cbn [ok_or fst snd].
  2: { intros [<- <-]%pair_eq. exists accepted. split; [apply written_write|by left]. }
  rewrite must_run. cbv zeta. set (k1 := set_trace _ k).
  assert (written k1 = written k ++ accepted) as Hw1 by apply written_write.
  destruct (succeeds (len (kn_trace k1))); cbn [lift]; intros [<- <-]%pair_eq; eexists;
    (split; [rewrite written_write, Hw1, <- app_assoc; reflexivity|]); [by left|].
  right. split; [done|]. split; [apply prefix_app, prefix_take|].
  eexists [_; _], (encode_frame v). split; [reflexivity|left].
Qed.

(** Nothing is written before the exchange. *)
Lemma keeps_written_invoke {E} name argument :
  String.eqb name "WriteFile" = false -> keeps written (invoke (E := E) name argument).
Proof. intros Hn k. unfold written. cbn. by rewrite Hn, app_nil_r. Qed.

Lemma keeps_written_must {E} name argument (e : E) :
  String.eqb name "WriteFile" = false -> keeps written (must name argument e).
Proof.
  intros Hn. apply keeps_bind; [by apply keeps_written_invoke|]. intros n.
  apply keeps_bind; [apply keeps_ensure|]. intros _. apply keeps_ret.
Qed.

Lemma keeps_written_obtain {E} mk name argument (e : E) :
  String.eqb name "WriteFile" = false -> keeps written (obtain mk name argument e).
Proof. intros Hn. apply keeps_bind; [by apply keeps_written_must|]. by intros n. Qed.

Lemma keeps_written_release {E} name r :
  String.eqb name "WriteFile" = false -> keeps written (release (E := E) name r).
Proof.
  intros Hn k. unfold release, written. cbn. case_bool_decide; cbn; by rewrite Hn, app_nil_r.
Qed.

Lemma keeps_on_error {S E A X} (f : S -> X) (c : M S E unit) (m : M S E A) :
  keeps f c -> keeps f m -> keeps f (on_error c m).
Proof.
  intros Hc Hm s. specialize (Hm s). unfold on_error. destruct (m s) as [[a|e] s']; [done|].
  cbn in *. by rewrite Hc.
Qed.

Lemma keeps_written_identify e : keeps written (identify_client e).
Proof.
  unfold identify_client, impersonate_client, revert_to_self, open_thread_token_sid_session.
  repeat first
    [ apply keeps_bind; [|intros ?] | apply keeps_try | apply keeps_on_error
    | by apply keeps_written_invoke | by apply keeps_written_must | by apply keeps_written_obtain
    | by apply keeps_written_release | apply keeps_ensure | apply keeps_lift | case_match | done ].
Qed.

(** Calls are only added. *)
Definition extends {E A} (m : M Kernel E A) : Prop := forall k, kn_trace k `suffix_of` kn_trace (snd (m k)).

Lemma extends_bind {E A B} (m : M Kernel E A) (f : A -> M Kernel E B) :
  extends m -> (forall a, extends (f a)) -> extends (m ≫= f).
Proof.
  intros Hm Hf k. specialize (Hm k). unfold mbind, M_bind. destruct (m k) as [[a|x] k1]; cbn in *; [|done].
  etrans; [exact Hm|apply Hf].
Qed.

Lemma extends_try {E A} (m : M Kernel E A) : extends m -> extends (try m).
Proof. intros Hm k. specialize (Hm k). unfold try. by destruct (m k). Qed.

Lemma extends_on_error {E A} c (m : M Kernel E A) : extends c -> extends m -> extends (on_error c m).
Proof.
  intros Hc Hm k. specialize (Hm k). unfold on_error. destruct (m k) as [[a|x] k1]; cbn in *; [done|].
  etrans; [exact Hm|apply Hc].
Qed.

Lemma extends_invoke {E} name argument : extends (E := E) (invoke name argument).
Proof. intros k. by apply suffix_cons_r. Qed.

Lemma extends_pure {E A} (m : M Kernel E A) : keeps kn_trace m -> extends m.
Proof. intros Hm k. by rewrite Hm. Qed.

Lemma identify_client_extends e : extends (identify_client e).
Proof.
  unfold identify_client, impersonate_client, revert_to_self, open_thread_token_sid_session, obtain, must, close_pipe.
  repeat first
    [ apply extends_bind; [|intros ?] | apply extends_try | apply extends_on_error | apply extends_invoke
    | (intros ?; apply release_trace) | case_match | (apply extends_pure; first [apply keeps_ensure|apply keeps_lift|done]) ].
Qed.

(** C27.  The endpoint implements the handshake that Pipe describes.  Take the client
    the kernel reports, and the answer and the bytes of the handshake with it.  When
    no write fails, the endpoint gives that answer, with its own handle, and has
    written exactly those bytes, whatever other calls fail; when a write fails, it
    answers [BootstrapFailed] and has written a prefix of them.  In particular the key
    is written only to the process that was launched, running as the captured user in
    the captured session. *)
Theorem endpoint_refines_handshake h e b input k :
  let '(r, k') := accept_client h e b input k in
  let '(r0, sent0) := accept_and_authenticate (observed_client k) e b input in
  exists sent, written k' = written k ++ sent /\
    (r = (letter ← r0; Ok (h, letter)) /\ sent = sent0 \/
     r = Err BootstrapFailed /\ sent `prefix_of` sent0 /\ write_failed k k').
Proof.
  unfold accept_client, accept_and_authenticate. rewrite <- identify_client_check.
  pose proof (keeps_written_identify e k) as Hw. pose proof (identify_client_extends e k) as Ht.
  unfold mbind at 1, M_bind at 1, on_error at 1.
  destruct (identify_client e k) as [[[]|x] k1]; cbn [fst snd] in *.
  2: { exists []. rewrite app_nil_r. split; [|by left]. unfold close_pipe. by rewrite keeps_written_release. }
  fold (exchange_spec e b input). unfold mbind at 1, M_bind at 1, on_error.
  destruct (exchange e b input k1) as [r k2] eqn:Ex.
  apply exchange_sends in Ex as (sent & Hs & Hr). rewrite Hw in Hs.
  assert (forall k3, kn_trace k2 `suffix_of` kn_trace k3 -> write_failed k1 k2 -> write_failed k k3) as Hlater.
  { intros k3 [u Hu] (t & a & Et & Ha). destruct Ht as [t1 Ht1]. exists (u ++ t ++ t1), a.
    split; [by rewrite Hu, Et, Ht1, !app_assoc|]. set_solver. }
  destruct (exchange_spec e b input) as [r0 sent0], r as [letter|x]; cbn [fst snd mret M_ret] in *; exists sent.
  - split; [done|]. left. by destruct Hr as [[= <- <-]|[? _]].
  - split; [unfold close_pipe; by rewrite keeps_written_release|].
    destruct Hr as [[= <- <-]|([= ->] & Hp & Hf)]; [by left|]. right. split; [done|]. split; [done|].
    eapply Hlater; [apply release_trace|done].
Qed.

(** A client that connected before the service waited for it is refused: the crate
    reports the error as an [HRESULT], which is never 535. *)
Theorem early_client_refused (Hlaws : WindowsErrorLaws _) h e b input k :
  succeeds (len (kn_trace k)) = false -> reported (len (kn_trace k)) = ERROR_PIPE_CONNECTED ->
  fst (accept_client h e b input k) = Err PipeUnavailable.
Proof.
  intros Hs Hr.
  assert (fst (identify_client e k) = Err PipeUnavailable) as Hi.
  { rewrite identify_client_check. unfold check_client, observed_client. cbn [cl_connected].
    by rewrite Hs, Hr, error_code_hresult. }
  unfold accept_client, mbind, M_bind, on_error. by destruct (identify_client e k) as [[[]|x] k1]; cbn in *; simplify_eq.
Qed.
End Refinement.

(** ** A concrete connection *)

Import ToyKernel ToyJson.

Module ToySids.
#[export] Instance toy_sids : Sids := {|
  binary_sid s := s;
  local_system_sid := lit "S-1-5-18";
  service_sid _ := lit "S-1-5-80-1";
|}.
#[export] Instance toy_sid_laws : SidLaws toy_sids.
Proof. split; intros; vm_compute; discriminate. Qed.

#[export] Instance toy_errors : WindowsErrors := {| error_code := hresult_from_win32 |}.
#[export] Instance toy_error_laws : WindowsErrorLaws toy_errors.
Proof. by split. Qed.

(** The service made the pipe with its first call; the host has process 2 and runs
    in session 2. *)
Definition listening : Kernel :=
  mkKernel {[ Handle 0 ]} 0 false [mkEntry "CreateNamedPipeW" [] true] ∅.
Definition host : Expected := mkExpected 2 user 2 9.
Definition store : StorageBootstrap :=
  StorageBootstrap_new 2 9 user (lit "sid-1") [lit "d"] 80 (repeat x07 32).
Definition answer : bytes := host_request 2 9 2 ++ drive_letter_ack 113.

Lemma listening_wf : kernel_wf listening.
Proof. intros r Hr. unfold listening in Hr. cbn [kn_live] in Hr. assert (r = Handle 0) as -> by set_solver. reflexivity. Qed.
End ToySids.

Import ToySids.

Lemma endpoint_objects_witness :
  let '(r, k') := accept_client 0 host store answer listening in
  r = Ok (0, 81) /\ kn_live k' = {[ Handle 0 ]} /\ kn_faults k' = 0.
Proof.
  assert (fst (accept_client 0 host store answer listening) = Ok (0, 81)) as Hr by (vm_compute; reflexivity).
  pose proof (endpoint_objects listening 0 host store answer listening_wf eq_refl
    ltac:(unfold listening; cbn [kn_live]; set_solver)) as Ht.
  destruct (accept_client 0 host store answer listening) as [r k']. cbn [fst] in Hr. subst r.
  destruct Ht as (Hf & _ & _ & Hl). by split.
Defined.
