(* ===== verification/Vault.v ===== *)
(** * Vault

    Protection at rest on Windows: DPAPI and the access lists
    (crates/dlp-windows-service/src/credential.rs from [enforce_acl] on), the
    credential store over them, and the provider of the store keys
    ([DpapiStoreKeyProvider] of session.rs).

    DPAPI is outside the sources: what a call protects is unprotected to the same
    bytes.  So is the file system's translation of generic rights. *)

From S2P Require Import Prelude Bytes Text Effects Domain Crypto Format Fs Store Credential Session.
From S2P Require Import Win32 Endpoint.

Class Dpapi := {
  (** what the n-th call of the process makes of the data, if anything *)
  crypt_protect : N -> bytes -> option bytes;
  crypt_unprotect : bytes -> option bytes;
  (** the rights stored for a mask *)
  stored_mask : N -> N;
}.

Class DpapiLaws (D : Dpapi) := {
  unprotect_inverts n p b : crypt_protect n p = Some b -> crypt_unprotect b = Some p;
  (** [cbData] of a blob is a [u32] *)
  protected_size n p b : crypt_protect n p = Some b -> len b <= u32_max;
  stored_full_access :
    stored_mask GENERIC_ALL = GENERIC_ALL \/ stored_mask GENERIC_ALL = FILE_ALL_ACCESS_MASK;
}.

Section Vault.
Context `{Win32} `{Sids} `{Dpapi}.

(** ** DPAPI *)

(** [protect_bytes], and [protect_store_key] of session.rs on its 32 bytes. *)
Definition protect_blob {E} (e : E) (input : bytes) : M Kernel E bytes :=
  _ ← ensure (len input <=? u32_max) e;
  n ← gets (fun k => len (kn_trace k));
  protected ← lift (ok_or e (crypt_protect n input));
  n ← obtain LocalBlock "CryptProtectData" [] e;
  _ ← release "LocalFree" (LocalBlock n);
  mret protected.

(** [unprotect_bytes] and [unprotect_store_key]. *)
Definition unprotect_blob {E} (e : E) (input : bytes) : M Kernel E bytes :=
  _ ← ensure (len input <=? u32_max) e;
  plain ← lift (ok_or e (crypt_unprotect input));
  n ← obtain LocalBlock "CryptUnprotectData" [] e;
  _ ← release "LocalFree" (LocalBlock n);
  mret plain.

(** ** Access lists *)

Definition SERVICE_NAME : bytes := lit "DlpWindowsService".

Definition system_sid_buffer : M Kernel CredentialError bytes :=
  _ ← must "CreateWellKnownSid" [] AclInvalid;
  mret local_system_sid.

Definition service_sid_buffer : M Kernel CredentialError bytes :=
  n ← invoke "RtlCreateServiceSid" SERVICE_NAME;
  _ ← ensure (negb (reported n =? 0)) AclInvalid;
  _ ← must "RtlCreateServiceSid" SERVICE_NAME AclInvalid;
  mret (service_sid SERVICE_NAME).

Definition add_ace (b : AclBuffer) (mask : N) (sid : bytes) : M Kernel CredentialError AclBuffer :=
  _ ← must "AddAccessAllowedAce" sid AclInvalid;
  lift (ok_or AclInvalid (add_access_allowed_ace b mask sid)).

(** The size of the buffer in [enforce_acl]. *)
Definition acl_buffer_size : N := 8 + 2 * (12 - 4 + SECURITY_MAX_SID_SIZE).

Definition store_ace (a : Ace) : Ace := mkAce (ace_type a) (stored_mask (ace_mask a)) (ace_sid a).

Definition enforce_file_acl (path : fspath) : M Kernel CredentialError unit :=
  system ← system_sid_buffer;
  service ← service_sid_buffer;
  _ ← must "InitializeAcl" [] AclInvalid;
  acl ← add_ace (mkAclBuffer acl_buffer_size []) GENERIC_ALL system;
  acl ← add_ace acl GENERIC_ALL service;
  _ ← must "SetNamedSecurityInfoW" [] AclInvalid;
  _ ← modify (fun k => set_security
         (<[path := mkDescriptor system (Some (map store_ace (ab_aces acl)))]> (kn_security k)) k);
  _ ← invoke "LocalFree" [];
  mret tt.

Definition full_access (a : Ace) : bool :=
  (ace_type a =? ACCESS_ALLOWED_ACE_TYPE)
  && ((ace_mask a =? GENERIC_ALL) || (ace_mask a =? FILE_ALL_ACCESS_MASK)).

(** One round of the loop of [validate_acl]. *)
Definition check_ace (system service : bytes) (seen : bool * bool) (a : Ace) :
    M Kernel CredentialError (bool * bool) :=
  _ ← must "GetAce" [] AclInvalid;
  _ ← ensure (full_access a) AclInvalid;
  mret (seen.1 || bool_decide (ace_sid a = system), seen.2 || bool_decide (ace_sid a = service)).

(** [validate_acl]; a path without a descriptor is one the query fails on. *)
Definition validate_file_acl (path : fspath) : M Kernel CredentialError unit :=
  d ← gets (fun k => kn_security k !! path);
  d ← lift (ok_or AclInvalid d);
  n ← obtain LocalBlock "GetNamedSecurityInfoW" [] AclInvalid;
  system ← system_sid_buffer;
  service ← service_sid_buffer;
  let owner_ok := bool_decide (sd_owner d = system) in
  info ← (match sd_dacl d with
          | None => mret None
          | Some l =>
              i ← invoke "GetAclInformation" [];
              mret (if succeeds i && (len l =? 2) then Some l else None)
          end);
  seen ← (match info with
          | None => mret (false, false)
          | Some l => fold_m (check_ace system service) (false, false) l
          end);
  _ ← release "LocalFree" (LocalBlock n);
  ensure (owner_ok && bool_decide (is_Some info) && seen.1 && seen.2) AclInvalid.

(** ** The credential store *)

Definition read_file {E} (f : IoKind -> E) (path : fspath) : M Machine E bytes :=
  d ← gets (fun m => w_disk (mc_world m));
  lift (map_err f (fs_read d path)).

(** [DpapiCredentialStore::protect]. *)
Definition protect_credential (dir : fspath) (c : DeviceCredential) : M Machine CredentialError unit :=
  let io {A} := @on_disk CredentialError A (fun _ => CredentialIo) in
  protected ← on_kernel (protect_blob Protection (credential_encode c));
  _ ← io (fs_create (credential_tmp dir));
  _ ← io (fs_write_all (credential_tmp dir) protected);
  _ ← io (fs_sync (credential_tmp dir));
  _ ← io (fs_rename (credential_tmp dir) (credential_path dir));
  _ ← on_kernel (enforce_file_acl dir);
  _ ← on_kernel (enforce_file_acl (credential_path dir));
  blob ← read_file (fun _ => CredentialIo) (credential_path dir);
  plain ← on_kernel (unprotect_blob Protection blob);
  validated ← lift (credential_decode plain);
  ensure (negb (bool_decide (dc_private_key validated = []))) CredentialIntegrity.

(** [DpapiCredentialStore::load]. *)
Definition load_credential_file (dir : fspath) : M Machine CredentialError DeviceCredential :=
  d ← gets (fun m => w_disk (mc_world m));
  _ ← ensure (fs_exists d (credential_path dir)) Missing;
  _ ← on_kernel (validate_file_acl dir);
  _ ← on_kernel (validate_file_acl (credential_path dir));
  blob ← read_file read_error (credential_path dir);
  plain ← on_kernel (unprotect_blob WrongMachine blob);
  lift (credential_decode plain).

(** ** Store keys *)

(** [DpapiStoreKeyProvider::path_for]. *)
Definition key_directory (root : fspath) : fspath := root ++ [lit "keys"].
Definition key_path (root : fspath) (identity : CapturedStoreIdentity) : fspath :=
  key_directory root ++ [ci_store_id identity ++ lit ".dpapi"].

(** [load_store_key]; [fresh] are the bytes of the random generator. *)
Definition load_store_key (root : fspath) (identity : CapturedStoreIdentity) (fresh : bytes) :
    M Machine StorageError bytes :=
  let path := key_path root identity in
  d ← gets (fun m => w_disk (mc_world m));
  if fs_exists d path then
    blob ← read_file (fun _ => Unavailable) path;
    plain ← on_kernel (unprotect_blob Unavailable blob);
    _ ← ensure (len plain =? 32) Unavailable;
    mret plain
  else
    blob ← on_kernel (protect_blob Unavailable fresh);
    _ ← on_disk (fun _ => Unavailable) (fs_create_dir_all (key_directory root));
    _ ← on_disk (fun _ => Unavailable) (fs_create path);
    _ ← on_disk (fun _ => Unavailable) (fs_write_all path blob);
    _ ← on_kernel (with_error (fun _ => Unavailable) (try (enforce_file_acl path)));
    mret fresh.
End Vault.

(** ** Objects *)

Section Objects.
Context `{Win32} `{Sids} `{Dpapi} (k0 : Kernel) (L : gset resource).

Lemma protect_blob_holds {E} (e : E) input :
  triple (holds k0 L) (protect_blob e input) (fun _ => holds k0 L) (fun _ => holds k0 L).
Proof.
  unfold protect_blob. apply step_ensure; [intros _|done].
  apply (triple_bind _ _ _ (fun _ => holds k0 L)); [by intros k Hk|intros m].
  apply step_lift; [intros protected _|done]. apply step_obtain; [done| |done]. intros n Hn.
  apply step_release; [set_solver|]. apply triple_ret. intros k Hk. eapply holds_same; [exact Hk|set_solver].
Qed.

Lemma unprotect_blob_holds {E} (e : E) input :
  triple (holds k0 L) (unprotect_blob e input)
    (fun p k => holds k0 L k /\ crypt_unprotect input = Some p) (fun _ => holds k0 L).
Proof.
  unfold unprotect_blob. apply step_ensure; [intros _|done].
  apply step_lift; [|done]. intros p Hp%ok_or_Ok. apply step_obtain; [done| |done]. intros n Hn.
  apply step_release; [set_solver|]. apply triple_ret. intros k Hk.
  split; [|done]. eapply holds_same; [exact Hk|set_solver].
Qed.
End Objects.

(** ** What the access lists are *)

(** The list [enforce_acl] sets and [validate_acl] accepts: SYSTEM owns the file, and
    two entries give full access, one to SYSTEM and one to the service. *)
Definition acl_valid `{Sids} (d : Descriptor) : Prop :=
  sd_owner d = local_system_sid /\
  exists a b, sd_dacl d = Some [a; b] /\ full_access a = true /\ full_access b = true /\
    [ace_sid a; ace_sid b] ≡ₚ [local_system_sid; service_sid SERVICE_NAME].

Section Accepted.
Context `{Sids}.

(** What [validate_acl] reads of a descriptor, once no call failed. *)
Definition acl_accepted (d : Descriptor) : bool :=
  bool_decide (sd_owner d = local_system_sid) &&
  match sd_dacl d with
  | Some l => (len l =? 2) && forallb full_access l
              && existsb (fun a => bool_decide (ace_sid a = local_system_sid)) l
              && existsb (fun a => bool_decide (ace_sid a = service_sid SERVICE_NAME)) l
  | None => false
  end.

Lemma acl_accepted_valid (Hlaws : SidLaws _) d : acl_accepted d = true <-> acl_valid d.
Proof.
  pose proof (service_not_system SERVICE_NAME) as Hne.
  unfold acl_accepted, acl_valid. rewrite andb_true_iff, bool_decide_eq_true.
  apply and_iff_compat_l. destruct (sd_dacl d) as [l|]; [|by split; [|intros (? & ? & ? & _)]].
  rewrite !andb_true_iff, N.eqb_eq. split.
  - intros [[[Hl Hf] Hs] Hv]. destruct l as [|a [|b [|c l]]]; try (unfold len in Hl; cbn in Hl; lia).
    cbn [forallb existsb] in Hf, Hs, Hv. rewrite !andb_true_iff in Hf. destruct Hf as (Ha & Hb & _).
    rewrite !orb_true_iff, !bool_decide_eq_true in Hs, Hv. exists a, b. split_and!; [done..|].
    destruct Hs as [Hs|[Hs|]], Hv as [Hv|[Hv|]]; try done; try congruence; rewrite Hs, Hv; [done|].
    apply Permutation_swap.
  - intros (a & b & [= ->] & Ha & Hb & Hp). cbn [forallb existsb]. rewrite Ha, Hb.
    rewrite !orb_true_iff, !bool_decide_eq_true.
    assert (forall x, x ∈ [ace_sid a; ace_sid b] <-> x ∈ [local_system_sid; service_sid SERVICE_NAME]) as Hin
      by (intros x; by rewrite Hp).
    pose proof (proj2 (Hin local_system_sid) ltac:(set_solver)).
    pose proof (proj2 (Hin (service_sid SERVICE_NAME)) ltac:(set_solver)).
    split_and!; [done..| |]; set_solver.
Qed.
End Accepted.

Section Lists.
Context `{Win32} `{Sids} `{Dpapi}.
Context (P : Kernel -> Prop) `{!Stable P}.

(** A call failed, or reported nothing, on the way. *)
Definition disturbed (k : Kernel) : Prop :=
  P k /\ exists s, P s /\ (succeeds (len (kn_trace s)) = false \/ reported (len (kn_trace s)) = 0).

Lemma disturbed_call e k s :
  P s -> P k -> succeeds (len (kn_trace s)) = false -> e = AclInvalid -> e = AclInvalid /\ disturbed k.
Proof. intros Hs Hk Hf ->. split; [done|]. split; [done|]. exists s. auto. Qed.

Lemma system_sid_run :
  triple P system_sid_buffer (fun b k => P k /\ b = local_system_sid)
    (fun e k => e = AclInvalid /\ disturbed k).
Proof.
  unfold system_sid_buffer. apply stable_must; [done| |].
  - intros n. apply triple_ret; auto.
  - intros s s' Hs Hs' Hf. exact (disturbed_call _ _ s Hs Hs' Hf eq_refl).
Qed.

Lemma service_sid_run :
  triple P service_sid_buffer (fun b k => P k /\ b = service_sid SERVICE_NAME)
    (fun e k => e = AclInvalid /\ disturbed k).
Proof.
  unfold service_sid_buffer. apply stable_invoke; [done|]. intros n s Hs ->.
  apply step_ensure.
  - intros _. apply stable_must; [done| |intros t t' Ht Ht' Hf; exact (disturbed_call _ _ t Ht Ht' Hf eq_refl)]. intros n. apply triple_ret; auto.
  - intros k Hk Hr. split; [done|]. split; [done|]. exists s. split; [done|]. right.
    apply negb_false_iff, N.eqb_eq in Hr. done.
Qed.

Lemma check_ace_run system service seen a :
  triple P (check_ace system service seen a)
    (fun seen' k => P k /\ full_access a = true /\
       seen' = (seen.1 || bool_decide (ace_sid a = system), seen.2 || bool_decide (ace_sid a = service)))
    (fun e k => e = AclInvalid /\ (disturbed k \/ P k /\ full_access a = false)).
Proof.
  unfold check_ace. apply stable_must; [done| |].
  - intros n. apply step_ensure; [intros Ha; by apply triple_ret|]. intros k Hk Hf. auto.
  - intros s s' Hs Hs' Hf. destruct (disturbed_call AclInvalid s' s) as [_ Hd]; auto.
Qed.

(** The loop over the entries: it fails on an entry that does not give full
    access, and otherwise notes who was named. *)
Lemma check_aces_run system service l x y :
  triple P (fold_m (check_ace system service) (x, y) l)
    (fun seen k => P k /\ forallb full_access l = true /\
       seen = (x || existsb (fun a => bool_decide (ace_sid a = system)) l,
               y || existsb (fun a => bool_decide (ace_sid a = service)) l))
    (fun e k => e = AclInvalid /\ (disturbed k \/ P k /\ forallb full_access l = false)).
Proof.
  revert x y. induction l as [|a l IH]; intros x y; cbn [fold_m forallb existsb].
  { apply triple_ret. intros k Hk. by rewrite !orb_false_r. }
  eapply triple_bind.
  { eapply triple_conseq; [apply check_ace_run|done|intros b k Hb; exact Hb|].
    intros e k [-> [Hd|[Hk ->]]]; auto. }
  intros seen. apply triple_pure. intros [Ha ->]. cbn [fst snd].
  eapply triple_conseq; [apply IH|done| |].
  - intros b k (Hk & Hl & ->). rewrite Ha, Hl, <- !orb_assoc. done.
  - intros e k [-> [Hd|[Hk Hl]]]; [auto|]. rewrite Hl, andb_false_r. auto.
Qed.

Context (sec : gmap fspath Descriptor) (Hsec : forall k, P k -> kn_security k = sec).

Definition path_accepted (path : fspath) : Prop :=
  exists d, sec !! path = Some d /\ acl_accepted d = true.

(** [validate_acl] accepts what [acl_accepted] does, unless a call fails. *)
Lemma validate_run path :
  triple P (validate_file_acl path) (fun _ k => P k /\ path_accepted path)
    (fun e k => e = AclInvalid /\ (disturbed k \/ P k /\ ~ path_accepted path)).
Proof.
  assert (forall t t' : Kernel, P t -> P t' -> succeeds (len (kn_trace t)) = false -> disturbed t') as Hd.
  { intros t t' Ht Ht' Hf. split; [done|]. exists t. auto. }
  unfold validate_file_acl. apply triple_gets_bind. intros o.
  apply (triple_pre _ (fun k => P k /\ sec !! path = o)); [by intros k [Hk <-]; rewrite (Hsec k Hk)|].
  apply triple_pure. intros Ho. apply step_lift.
  2: { intros e k Hk He. destruct o; [done|]. injection He as <-. split; [done|]. right. split; [done|].
       intros (d & Hp & _). congruence. }
  intros d ->%ok_or_Ok.
  assert (path_accepted path <-> acl_accepted d = true) as Hp.
  { split; [|by exists d]. intros (d' & Hd' & Ha). congruence. }
  apply stable_obtain; [done| |intros t t' Ht Ht' Hf; split; [done|left; exact (Hd t t' Ht Ht' Hf)]]. intros n.
  eapply triple_bind; [eapply triple_conseq; [apply system_sid_run|done|intros b k Hk; exact Hk|intros e k [-> He]; auto]|].
  intros system. apply triple_pure. intros ->.
  eapply triple_bind; [eapply triple_conseq; [apply service_sid_run|done|intros b k Hk; exact Hk|intros e k [-> He]; auto]|].
  intros service. apply triple_pure. intros ->.
  apply (triple_bind _ _ _ (fun info k => P k /\ match info with
    | Some l => sd_dacl d = Some l /\ (len l =? 2) = true
    | None => (exists t, P t /\ succeeds (len (kn_trace t)) = false) \/ acl_accepted d = false
    end)).
  { unfold acl_accepted. destruct (sd_dacl d) as [l|]; [|apply triple_ret; rewrite andb_false_r; auto].
    apply stable_invoke; [done|]. intros i t Ht ->. apply triple_ret. intros k Hk. split; [done|].
    destruct (succeeds _) eqn:Es; [|by left; exists t]. cbn [andb].
    destruct (len l =? 2) eqn:E2; cbv iota; [done|]. right. by rewrite andb_false_r. }
  intros info. apply triple_pure. intros Hinfo. destruct info as [l|].
  - destruct Hinfo as [El E2]. eapply triple_bind.
    { eapply triple_conseq; [apply check_aces_run|done|intros b k Hb; exact Hb|].
      intros e k [-> [Hx|[Hk Hf]]]; [auto|]. split; [done|]. right. split; [done|].
      rewrite Hp. unfold acl_accepted. by rewrite El, E2, Hf, andb_false_r. }
    intros seen. apply triple_pure. intros [Hf ->]. apply stable_release; [done|].
    assert (bool_decide (sd_owner d = local_system_sid) && bool_decide (is_Some (Some l))
      && (false || existsb (fun a => bool_decide (ace_sid a = local_system_sid)) l)
      && (false || existsb (fun a => bool_decide (ace_sid a = service_sid SERVICE_NAME)) l)
      = acl_accepted d) as Ea.
    { unfold acl_accepted. rewrite El, E2, Hf. rewrite (bool_decide_eq_true_2 (is_Some (Some l))) by done.
      by rewrite andb_true_r, <- andb_assoc. }
    cbn [fst snd]. rewrite Ea.
    apply triple_ensure; intros k Hk Hc; [by rewrite Hp|]. split; [done|]. right. split; [done|].
    rewrite Hp. by rewrite Hc.
  - apply (triple_bind _ _ _ (fun _ => P)); [by apply triple_ret|]. intros seen.
    apply stable_release; [done|]. cbn [is_Some]. rewrite (bool_decide_eq_false_2 (is_Some None)) by by intros [].
    rewrite andb_false_r. cbn [andb]. apply triple_ensure; [done|]. intros k Hk _. split; [done|].
    destruct Hinfo as [(t & Ht & Hf)|Hn]; [left; by apply (Hd t)|right]. rewrite Hp, Hn. done.
Qed.
End Lists.

(** What [enforce_acl] stores. *)
Definition enforced `{Sids} `{Dpapi} : Descriptor :=
  mkDescriptor local_system_sid
    (Some [mkAce 0 (stored_mask GENERIC_ALL) local_system_sid;
           mkAce 0 (stored_mask GENERIC_ALL) (service_sid SERVICE_NAME)]).

Section Enforce.
Context `{Win32} `{Sids} `{Dpapi} (Hsids : SidLaws _).

Lemma enforced_accepted (Hd : DpapiLaws _) : acl_accepted enforced = true.
Proof.
  unfold acl_accepted, enforced. cbn [sd_owner sd_dacl forallb existsb ace_sid].
  assert (forall sid, full_access (mkAce 0 (stored_mask GENERIC_ALL) sid) = true) as Hf.
  { intros sid. unfold full_access. cbn [ace_type ace_mask].
    by destruct stored_full_access as [-> | ->]. }
  rewrite !Hf, (bool_decide_eq_true_2 (local_system_sid = local_system_sid)) by done.
  rewrite (bool_decide_eq_true_2 (service_sid SERVICE_NAME = service_sid SERVICE_NAME)) by done.
  cbn [orb]. by rewrite orb_true_r.
Qed.

(** The buffer has room for the two entries. *)
Lemma enforce_room1 :
  add_access_allowed_ace (mkAclBuffer acl_buffer_size []) GENERIC_ALL local_system_sid =
  Some (mkAclBuffer acl_buffer_size [mkAce 0 GENERIC_ALL local_system_sid]).
Proof.
  pose proof local_system_size as Hs. unfold add_access_allowed_ace, acl_used, ace_size, acl_buffer_size, SECURITY_MAX_SID_SIZE in *.
  cbn [ab_aces ab_size app foldr ace_sid]. by rewrite (proj2 (N.leb_le _ _)) by lia.
Qed.

Lemma enforce_room2 :
  add_access_allowed_ace (mkAclBuffer acl_buffer_size [mkAce 0 GENERIC_ALL local_system_sid])
    GENERIC_ALL (service_sid SERVICE_NAME) =
  Some (mkAclBuffer acl_buffer_size [mkAce 0 GENERIC_ALL local_system_sid;
                                     mkAce 0 GENERIC_ALL (service_sid SERVICE_NAME)]).
Proof.
  pose proof local_system_size as Hs. pose proof (service_sid_size SERVICE_NAME) as Hv.
  unfold add_access_allowed_ace, acl_used, ace_size, acl_buffer_size, SECURITY_MAX_SID_SIZE in *.
  cbn [ab_aces ab_size app foldr ace_sid]. by rewrite (proj2 (N.leb_le _ _)) by lia.
Qed.

Lemma add_ace_run (P : Kernel -> Prop) `{!Stable P} b b' mask sid :
  add_access_allowed_ace b mask sid = Some b' ->
  triple P (add_ace b mask sid) (fun a k => P k /\ a = b') (fun e k => e = AclInvalid /\ disturbed P k).
Proof.
  intros Hb. unfold add_ace. apply stable_must; [done| |].
  - intros n. rewrite Hb. apply triple_lift; [|done]. intros k a Hk [= <-]. done.
  - intros t t' Ht Ht' Hf. exact (disturbed_call _ _ _ t Ht Ht' Hf eq_refl).
Qed.

(** [enforce_acl] fails only when a call fails, and then changes nothing. *)
Lemma enforce_run sec path :
  triple (fun k => kn_security k = sec) (enforce_file_acl path)
    (fun _ k => kn_security k = <[path := enforced]> sec)
    (fun e k => e = AclInvalid /\ disturbed (fun k => kn_security k = sec) k).
Proof.
  unfold enforce_file_acl.
  eapply triple_bind; [apply system_sid_run, _|]. intros system. apply triple_pure. intros ->.
  eapply triple_bind; [apply service_sid_run, _|]. intros service. apply triple_pure. intros ->.
  apply stable_must; [apply _| |intros t t' Ht Ht' Hf; exact (disturbed_call _ _ _ t Ht Ht' Hf eq_refl)].
  intros n. eapply triple_bind; [apply (add_ace_run (fun k => kn_security k = sec)), enforce_room1|].
  intros acl. apply triple_pure. intros ->.
  eapply triple_bind; [apply (add_ace_run (fun k => kn_security k = sec)), enforce_room2|].
  intros acl. apply triple_pure. intros ->.
  apply stable_must; [apply _| |intros t t' Ht Ht' Hf; exact (disturbed_call _ _ _ t Ht Ht' Hf eq_refl)].
  intros m k Hk. unfold mbind, M_bind, modify, invoke, set_security, set_trace. cbn [kn_security mret M_ret].
  by rewrite Hk.
Qed.
End Enforce.

(** Calm, with the access lists [sec]. *)
Definition quiet `{Win32} (sec : gmap fspath Descriptor) (k : Kernel) : Prop := calm k /\ kn_security k = sec.

#[export] Instance quiet_stable `{Win32} sec : Stable (quiet sec).
Proof. unfold quiet. apply _. Qed.

Lemma quiet_undisturbed `{Win32} sec k : ~ disturbed (quiet sec) k.
Proof. intros (_ & s & [Hs _] & [Hf|Hf]); destruct (Hs _ (N.le_refl _)); congruence. Qed.

Lemma validate_quiet `{Win32} `{Sids} sec path k :
  quiet sec k ->
  let '(r, k') := validate_file_acl path k in
  (r = Ok tt /\ path_accepted sec path /\ quiet sec k') \/ (r = Err AclInvalid /\ ~ path_accepted sec path).
Proof.
  intros Hk. pose proof (validate_run (quiet sec) sec ltac:(by intros ? [_ ?]) path k Hk) as Hv.
  destruct (validate_file_acl path k) as [[[]|e] k'].
  - left. by destruct Hv.
  - right. by destruct Hv as [-> [?%quiet_undisturbed|[_ Hn]]].
Qed.

(** C29.  The check of an access list is exact: when no call fails, [validate_acl]
    accepts a file if and only if SYSTEM owns it and its list consists of two
    entries that allow full access, one for SYSTEM and one for the service; any
    further or other entry, deny entries included, is rejected. *)
Theorem validate_acl_exact `{Win32} `{Sids} (Hlaws : SidLaws _) path k :
  calm k ->
  fst (validate_file_acl path k) = Ok tt <-> (exists d, kn_security k !! path = Some d /\ acl_valid d).
Proof.
  intros Hk.
  assert (path_accepted (kn_security k) path <-> exists d, kn_security k !! path = Some d /\ acl_valid d) as <-.
  { unfold path_accepted. by setoid_rewrite (acl_accepted_valid Hlaws). }
  pose proof (validate_quiet (kn_security k) path k ltac:(done)) as Hv.
  destruct (validate_file_acl path k) as [r k']. destruct Hv as [(-> & Hp & _)|[-> Hp]]; [done|].
  by split; [|intros ?%Hp].
Qed.

(** ** Protect, then load *)

Section ProtectLoad.
Context `{Win32} `{Sids} `{Dpapi}.

Lemma on_kernel_Ok {E A} (m : M Kernel E A) s a s' :
  on_kernel m s = (Ok a, s') -> m (mc_kernel s) = (Ok a, mc_kernel s') /\ mc_world s' = mc_world s.
Proof. unfold on_kernel. destruct (m (mc_kernel s)) as [r k]. by intros [-> <-]%pair_eq. Qed.

Lemma on_disk_Ok {E A} (f : IoKind -> E) (m : io A) s a s' :
  on_disk f m s = (Ok a, s') -> m (mc_world s) = (Ok a, mc_world s') /\ mc_kernel s' = mc_kernel s.
Proof.
  unfold on_disk. destruct (m (mc_world s)) as [[b|e] w]; intros [Hr <-]%pair_eq; [|done].
  by injection Hr as ->.
Qed.

Lemma triple_run {S E A} (P : S -> Prop) (m : M S E A) Q R s a s' :
  triple P m Q R -> P s -> m s = (Ok a, s') -> Q a s'.
Proof. intros Hm Hs E1. specialize (Hm s Hs). by rewrite E1 in Hm. Qed.

Lemma unprotect_blob_run {E} (e : E) input (P : Kernel -> Prop) `{!Stable P} :
  triple P (unprotect_blob e input)
    (fun p k => P k /\ crypt_unprotect input = Some p /\ len input <= u32_max)
    (fun e' k => e' = e /\ (disturbed P k \/ P k /\ (crypt_unprotect input = None \/ u32_max < len input))).
Proof.
  unfold unprotect_blob. apply step_ensure; [intros Hl%N.leb_le|intros k Hk ?%N.leb_gt; by auto 6].
  apply step_lift; [intros p Hp%ok_or_Ok|].
  - apply stable_obtain; [done| |].
    + intros n. apply stable_release; [done|]. by apply triple_ret.
    + intros t t' Ht Ht' Hf. split; [done|]. left. split; [done|]. exists t. auto.
  - intros e' k Hk He. destruct (crypt_unprotect input); [done|]. injection He as <-. auto 6.
Qed.

(** DPAPI as the store of Credential sees it when the n-th call protects. *)
Definition custody_at (n : N) : Custody := {|
  protect_bytes p := if len p <=? u32_max then crypt_protect n p else None;
  unprotect_bytes := crypt_unprotect;
  enforce_acl _ := true;
  validate_acl _ := true;
|}.

Lemma custody_at_laws n (Hd : DpapiLaws _) : CustodyLaws (custody_at n).
Proof. split. cbn. intros p b. case_match; [|done]. apply unprotect_inverts. Qed.

Lemma protect_blob_run {E} (e : E) input k r k' :
  protect_blob e input k = (Ok r, k') ->
  len input <= u32_max /\ crypt_protect (len (kn_trace k)) input = Some r /\ kn_security k' = kn_security k.
Proof.
  unfold protect_blob. rewrite bind_ensure. destruct (N.leb_spec (len input) u32_max); [|done].
  erewrite bind_step by reflexivity. rewrite bind_lift. destruct (crypt_protect _ _) as [b|]; [|done]. cbn [ok_or].
  unfold obtain, mbind, M_bind. rewrite must_run. cbv zeta. destruct (succeeds _); [|done].
  cbn. case_bool_decide; intros [[= <-] <-]%pair_eq; done.
Qed.

(** A credential that was protected: the file was written as the store of
    Credential writes it, and both lists are set. *)
Lemma protect_credential_Ok (Hsids : SidLaws _) dir c s s' :
  protect_credential dir c s = (Ok tt, s') ->
  @protect (custody_at (len (kn_trace (mc_kernel s)))) dir c (mc_world s) = (Ok tt, mc_world s') /\
  kn_security (mc_kernel s') =
    <[credential_path dir := enforced]> (<[dir := enforced]> (kn_security (mc_kernel s))) /\
  exists blob, fs_read (w_disk (mc_world s')) (credential_path dir) = Ok blob /\ len blob <= u32_max.
Proof.
  unfold protect_credential. intros Hrun.
  apply bind_Ok in Hrun as (p & s1 & E1 & Hrun). apply on_kernel_Ok in E1 as [E1 W1].
  apply protect_blob_run in E1 as (Hl & Hcp & K1).
  apply bind_Ok in Hrun as ([] & s2 & [E2 K2]%on_disk_Ok & Hrun).
  apply bind_Ok in Hrun as ([] & s3 & [E3 K3]%on_disk_Ok & Hrun).
  apply bind_Ok in Hrun as ([] & s4 & [E4 K4]%on_disk_Ok & Hrun).
  apply bind_Ok in Hrun as ([] & s5 & [E5 K5]%on_disk_Ok & Hrun).
  apply bind_Ok in Hrun as ([] & s6 & [E6 W6]%on_kernel_Ok & Hrun).
  apply (triple_run _ _ _ _ _ _ _ (enforce_run Hsids (kn_security (mc_kernel s)) dir)) in E6;
    [|by rewrite K5, K4, K3, K2].
  apply bind_Ok in Hrun as ([] & s7 & [E7 W7]%on_kernel_Ok & Hrun).
  apply (triple_run _ _ _ _ _ _ _ (enforce_run Hsids (kn_security (mc_kernel s6)) (credential_path dir))) in E7; [|done].
  rewrite E6 in E7.
  apply bind_Ok in Hrun as (blob & s8 & E8 & Hrun). unfold read_file in E8.
  apply pair_eq in E8 as [E8 <-]. cbn [fst] in E8.
  apply bind_Ok in Hrun as (plain & s9 & [E9 W9]%on_kernel_Ok & Hrun).
  apply (triple_run _ _ _ _ _ _ _ (unprotect_blob_run Protection blob
    (fun k => kn_security k = kn_security (mc_kernel s7)))) in E9; [|done]. destruct E9 as (K9 & E9 & Hb).
  rewrite bind_lift in Hrun. destruct (credential_decode plain) as [v|] eqn:Ev; [|done].
  assert (mc_world s' = mc_world s7 /\ mc_kernel s' = mc_kernel s9 /\ negb (bool_decide (dc_private_key v = [])) = true)
    as (Ws & Ks & Hv).
  { unfold ensure in Hrun. destruct (negb _); [|done]. apply pair_eq in Hrun as [_ <-]. by rewrite W9. }
  split; [|split; [by rewrite Ks, K9|exists blob; rewrite Ws; by apply map_err_Ok in E8]].
  unfold protect. erewrite bind_step by (unfold lift; cbn [protect_bytes custody_at]; by rewrite (proj2 (N.leb_le _ _)), Hcp).
  assert (forall A (m : io A) w a w', m w = (Ok a, w') -> credential_io m w = (Ok a, w')) as Hio.
  { intros A m w a w' Hm. unfold credential_io. by rewrite Hm. }
  rewrite W1 in E2. erewrite bind_step by by apply Hio. erewrite bind_step by by apply Hio.
  erewrite bind_step by by apply Hio. erewrite bind_step by by apply Hio.
  do 2 (rewrite bind_ensure; cbn [enforce_acl custody_at]). erewrite bind_step by reflexivity.
  rewrite <- W6, <- W7. erewrite bind_step by (unfold lift; by rewrite E8).
  erewrite bind_step by (unfold lift; cbn; by rewrite E9).
  erewrite bind_step by (unfold lift; by rewrite Ev). unfold ensure. by rewrite Hv, Ws.
Qed.

Lemma enforced_lists dir sec sec' (Hdpapi : DpapiLaws _) :
  sec' = <[credential_path dir := enforced]> (<[dir := enforced]> sec) ->
  path_accepted sec' dir /\ path_accepted sec' (credential_path dir).
Proof.
  intros ->. split; exists enforced; (split; [|by apply (enforced_accepted Hdpapi)]); [|apply lookup_insert_eq].
  rewrite lookup_insert_ne, lookup_insert_eq; [done|]. unfold credential_path.
  intros E%(f_equal length). rewrite length_app in E. cbn in E. lia.
Qed.

(** C28.  A credential that was protected is loaded: when protecting reports success,
    the file and its directory carry the access lists the check demands, and
    loading, once no call fails and nobody changed those lists, returns exactly
    that credential. *)
Theorem custody_roundtrip (Hsids : SidLaws _) (Hdpapi : DpapiLaws _) dir c s s' k :
  dc_expires_after_days c = 30 -> protect_credential dir c s = (Ok tt, s') ->
  kn_security k = kn_security (mc_kernel s') -> calm k ->
  fst (load_credential_file dir (mkMachine (mc_world s') k)) = Ok c.
Proof.
  intros Hexp Hrun Hsec Hcalm. apply (protect_credential_Ok Hsids) in Hrun as (Hrun & Hlists & blob & Hread & Hlen).
  apply (protect_decodes (custody_at_laws _ Hdpapi)) in Hrun as (b & Hex & Hr & Hu & Hdec); [|done].
  destruct (enforced_lists _ _ _ Hdpapi Hlists) as [Hp1 Hp2]. rewrite <- Hsec in Hp1, Hp2.
  pose (sec := kn_security k). assert (quiet sec k) as Hk by done.
  pose proof (validate_quiet sec dir k Hk) as Hv1. destruct (validate_file_acl dir k) as [r1 k1] eqn:E1.
  destruct Hv1 as [(-> & _ & Hk1)|[_ ?]]; [|done].
  pose proof (validate_quiet sec (credential_path dir) k1 Hk1) as Hv2.
  destruct (validate_file_acl (credential_path dir) k1) as [r2 k2] eqn:E2.
  destruct Hv2 as [(-> & _ & Hk2)|[_ ?]]; [|done].
  unfold load_credential_file. erewrite bind_step by reflexivity. cbn [mc_world].
  rewrite bind_ensure, Hex. erewrite bind_step by (unfold on_kernel; cbn [mc_kernel]; by rewrite E1).
  erewrite bind_step by (unfold on_kernel; cbn [mc_kernel]; by rewrite E2). cbn [mc_world].
  erewrite bind_step by (unfold read_file; erewrite bind_step by reflexivity; cbn [mc_world]; by rewrite Hr).
  pose proof (unprotect_blob_run WrongMachine b (quiet sec) k2 Hk2) as Hb.
  unfold mbind, M_bind, on_kernel. cbn [mc_kernel].
  destruct (unprotect_blob WrongMachine b k2) as [[plain|e] k3].
  - destruct Hb as (_ & Hp & _). unfold unprotect_bytes, custody_at in Hu. by simplify_eq.
  - cbn in Hu. destruct Hb as (_ & [?%quiet_undisturbed|[_ [?|Hl]]]); [done|congruence|].
    assert (blob = b) as -> by congruence. lia.
Qed.
End ProtectLoad.

(** ** The store keys *)

(** A file that was created and written is read back. *)
Lemma fs_write_read p b w w1 w2 u1 u2 :
  fs_create p w = (Ok u1, w1) -> fs_write_all p b w1 = (Ok u2, w2) ->
  fs_exists (w_disk w2) p = true /\
  (p ∉ dk_unreadable (w_disk w2) -> fs_read (w_disk w2) p = Ok b).
Proof.
  unfold fs_create, fs_write_all, consult, entry_error. intros Hc Hw.
  repeat case_match; simplify_eq/=. unfold fs_exists, fs_read, dir_exists, file_of in *. cbn in *.
  rewrite !lookup_insert_eq. rewrite bool_decide_eq_true_2 by done. split; [done|].
  intros Hu. rewrite bool_decide_eq_false_2 by done.
  by match goal with E : bool_decide _ = false |- _ => rewrite E end.
Qed.

Section Keys.
Context `{Win32} `{Sids} `{Dpapi}.

(** Two stores never share a key file. *)
Lemma key_path_inj root i j : key_path root i = key_path root j -> ci_store_id i = ci_store_id j.
Proof.
  unfold key_path. intros E%app_inv_head. injection E as E. by apply app_inv_tail in E.
Qed.

(** What a key that was handed out leaves on the disk. *)
Lemma load_store_key_Ok (Hdpapi : DpapiLaws _) root i fresh s key s' :
  len fresh = 32 -> load_store_key root i fresh s = (Ok key, s') ->
  len key = 32 /\ fs_exists (w_disk (mc_world s')) (key_path root i) = true /\
  exists blob, crypt_unprotect blob = Some key /\ len blob <= u32_max /\
    (key_path root i ∉ dk_unreadable (w_disk (mc_world s')) ->
     fs_read (w_disk (mc_world s')) (key_path root i) = Ok blob).
Proof.
  intros Hfresh. unfold load_store_key. set (path := key_path root i).
  erewrite bind_step by reflexivity. destruct (fs_exists _ path) eqn:Eex; intros Hrun.
  - apply bind_Ok in Hrun as (blob & s1 & E1 & Hrun). unfold read_file in E1.
    apply pair_eq in E1 as [E1%map_err_Ok <-].
    apply bind_Ok in Hrun as (plain & s2 & [E2 W2]%on_kernel_Ok & Hrun).
    apply (triple_run _ _ _ _ _ _ _ (unprotect_blob_run Unavailable blob
      (fun k => kn_security k = kn_security (mc_kernel s)))) in E2 as (_ & Hu & Hl); [|done].
    rewrite bind_ensure in Hrun. destruct (N.eqb_spec (len plain) 32); [|done].
    apply pair_eq in Hrun as [<-%Ok_inj <-]. rewrite W2. split; [done|]. split; [done|]. by exists blob.
  - apply bind_Ok in Hrun as (blob & s1 & [E1 W1]%on_kernel_Ok & Hrun).
    apply protect_blob_run in E1 as (_ & Hcp & _).
    apply bind_Ok in Hrun as ([] & s2 & [E2 _]%on_disk_Ok & Hrun).
    apply bind_Ok in Hrun as ([] & s3 & [E3 _]%on_disk_Ok & Hrun).
    apply bind_Ok in Hrun as ([] & s4 & [E4 _]%on_disk_Ok & Hrun).
    apply bind_Ok in Hrun as (r & s5 & [_ W5]%on_kernel_Ok & Hrun).
    apply pair_eq in Hrun as [<-%Ok_inj <-]. rewrite W5.
    destruct (fs_write_read _ _ _ _ _ _ _ E3 E4) as [Hex Hr]. split; [done|]. split; [done|].
    eexists. split; [by eapply unprotect_inverts|]. split; [by eapply protected_size|exact Hr].
Qed.

(** C30.  The key of a store is stable: once a key was handed out for a store, every
    later load hands out the same one, whatever the random generator yields then,
    as long as the key file can be read and no call fails. *)
Theorem store_key_stable (Hdpapi : DpapiLaws _) root i fresh fresh' s key s' k :
  len fresh = 32 -> load_store_key root i fresh s = (Ok key, s') ->
  key_path root i ∉ dk_unreadable (w_disk (mc_world s')) -> calm k ->
  fst (load_store_key root i fresh' (mkMachine (mc_world s') k)) = Ok key.
Proof.
  intros Hfresh Hrun Hread Hcalm.
  apply (load_store_key_Ok Hdpapi) in Hrun as (Hlen & Hex & blob & Hu & Hl & Hr); [|done].
  unfold load_store_key. erewrite bind_step by reflexivity. cbn [mc_world]. rewrite Hex.
  erewrite bind_step by (unfold read_file; erewrite bind_step by reflexivity; cbn [mc_world]; by rewrite Hr).
  pose proof (unprotect_blob_run Unavailable blob calm k Hcalm) as Hb.
  unfold mbind, M_bind, on_kernel, ensure. cbn [mc_kernel].
  destruct (unprotect_blob Unavailable blob k) as [[plain|e] k1].
  - destruct Hb as (_ & Hp & _). simplify_eq. by rewrite Hlen.
  - destruct Hb as (_ & [(_ & t & Ht & Hf)|[_ [?|Hlt]]]); [|congruence|lia].
    destruct (Ht _ (N.le_refl _)), Hf; congruence.
Qed.

(** A key file that does not hold a key is never replaced: every load fails, and
    leaves the disk as it is. *)
Theorem damaged_key_permanent root i fresh s blob :
  fs_read (w_disk (mc_world s)) (key_path root i) = Ok blob ->
  (forall p, crypt_unprotect blob = Some p -> len p <> 32) ->
  let '(r, s') := load_store_key root i fresh s in r = Err Unavailable /\ mc_world s' = mc_world s.
Proof.
  intros Hread Hbad. unfold load_store_key. erewrite bind_step by reflexivity.
  rewrite (fs_read_exists _ _ _ Hread).
  erewrite bind_step by (unfold read_file; erewrite bind_step by reflexivity; by rewrite Hread).
  pose proof (unprotect_blob_run Unavailable blob (fun k => kn_security k = kn_security (mc_kernel s))
    (mc_kernel s) eq_refl) as Hb.
  unfold mbind, M_bind, on_kernel, ensure.
  destruct (unprotect_blob Unavailable blob (mc_kernel s)) as [[plain|e] k1].
  - destruct Hb as (_ & Hp%Hbad & _). by rewrite (proj2 (N.eqb_neq _ _)).
  - by destruct Hb as [-> _].
Qed.
End Keys.

(** ** A concrete vault *)

From S2P Require Import Toy.
Import ToyKernel ToySids.

Module ToyDpapi.
(** A blob is the data after its own check byte. *)
#[export] Instance toy_dpapi : Dpapi := {|
  crypt_protect _ p := if len p <? u32_max then Some (x01 :: p) else None;
  crypt_unprotect b := match b with x01 :: p => Some p | _ => None end;
  stored_mask _ := FILE_ALL_ACCESS_MASK;
|}.

#[export] Instance toy_dpapi_laws : DpapiLaws toy_dpapi.
Proof.
  split; [..|by right]; intros n p b; cbn; destruct (N.ltb_spec (len p) u32_max); try done;
    intros [= <-]; [done|]. rewrite len_cons. lia.
Qed.

Definition machine : Machine := mkMachine Credential.Machine.world kernel.
Definition protected : result CredentialError unit * Machine :=
  protect_credential Credential.Machine.directory Credential.Machine.credential machine.
Definition store : CapturedStoreIdentity := mkIdentity user (lit "sid-1").
Definition first_load : result StorageError bytes * Machine :=
  load_store_key [lit "data"; lit "keys"] store (repeat x07 32) machine.
End ToyDpapi.

Import ToyDpapi.

(** What [protected] wrote is accepted, and a directory without a list is not. *)
Lemma validate_acl_exact_witness :
  fst (validate_file_acl Credential.Machine.directory (mc_kernel (snd protected))) = Ok tt /\
  fst (validate_file_acl [lit "elsewhere"] (mc_kernel (snd protected))) <> Ok tt.
Proof.
  split.
  - apply (validate_acl_exact toy_sid_laws); [apply calm_kernel|]. eexists. split; [vm_compute; reflexivity|].
    apply (acl_accepted_valid toy_sid_laws). vm_compute. reflexivity.
  - intros Ht. apply (validate_acl_exact toy_sid_laws) in Ht as (d & Hd & _); [|apply calm_kernel].
    vm_compute in Hd. discriminate.
Defined.

Lemma custody_roundtrip_witness :
  fst (load_credential_file Credential.Machine.directory
    (mkMachine (mc_world (snd protected)) (mc_kernel (snd protected)))) = Ok Credential.Machine.credential.
Proof.
  assert (fst protected = Ok tt) as E by (vm_compute; reflexivity).
  apply (custody_roundtrip toy_sid_laws toy_dpapi_laws _ _ machine (snd protected)); [reflexivity| |done|apply calm_kernel].
  exact (eq_trans (surjective_pairing protected) (f_equal (fun r => (r, snd protected)) E)).
Defined.

Lemma store_key_stable_witness :
  fst (load_store_key [lit "data"; lit "keys"] store (repeat x08 32)
    (mkMachine (mc_world (snd first_load)) kernel)) = Ok (repeat x07 32).
Proof.
  assert (fst first_load = Ok (repeat x07 32)) as E by (vm_compute; reflexivity).
  apply (store_key_stable toy_dpapi_laws _ _ (repeat x07 32) _ machine _ (snd first_load));
    [reflexivity| |vm_compute; set_solver|apply calm_kernel].
  exact (eq_trans (surjective_pairing first_load) (f_equal (fun r => (r, snd first_load)) E)).
Defined.
