(* ===== verification/Logon.v ===== *)
(** * Logon

    [SessionMonitor::session_logon] with the Windows implementations the service
    gives the monitor: tokens and launches of Launcher, the pipe of Endpoint, the
    store keys of Vault.  Session describes what the monitor records; here every
    call to the kernel is made, and the theorem accounts for the objects. *)

From S2P Require Import Prelude Bytes Text Effects Domain Crypto Format Fs Store Drive Pipe Session.
From S2P Require Import Win32 Launcher Endpoint Vault.

(** Release on every way out, as a destructor does. *)
Definition finally {S E A} (cleanup : M S E unit) (m : M S E A) : M S E A := fun s =>
  let '(r, s') := m s in (r, snd (cleanup s')).

Lemma triple_finally {S E A} P (cleanup : M S E unit) (m : M S E A) Q' R' Q R :
  triple P m Q' R' ->
  (forall a s, Q' a s -> Q a (snd (cleanup s))) -> (forall e s, R' e s -> R e (snd (cleanup s))) ->
  triple P (finally cleanup m) Q R.
Proof.
  intros Hm HQ HR s Hs. specialize (Hm s Hs). unfold finally.
  destruct (m s) as [[a|e] s']; [by apply HQ|by apply HR].
Qed.

(** What a logon ends in: an actor that was there, or a host with its process, the
    pipe to it and its drive letter. *)
Inductive Started :=
| AlreadyStarted
| HostStarted (host : LaunchedHost) (pipe : N) (letter : N).

Section Logon.
Context `{Win32} `{Sids} `{WindowsErrors} `{Dpapi} `{PipeJson} `{Sha256}.

(** The part of [session_logon] from the pipe to the handshake.  [client] is what
    the host sends on the pipe, [None] when it sends nothing for thirty seconds:
    the thread that waits for it keeps the pipe then. *)
Definition host_on_pipe (process_id : N) (config : SessionConfig) (s : EligibleSession)
    (fresh : bytes) (client : option bytes) (pipe_path : bytes) (pipe : N) : M Machine SessionError Started :=
  '(key, launched) ← on_error (on_kernel (close_pipe pipe)) (
    key ← with_error (fun _ => StoreKeyFailure)
            (load_store_key (cf_data_directory config ++ [lit "keys"]) (store_identity s) fresh);
    _ ← ensure (negb (forallb (fun c => Byte.eqb c x00) key)) StoreKeyFailure;
    launched ← launch_host process_id config s pipe_path;
    mret (key, launched));
  let bootstrap := StorageBootstrap_new (se_session_id s) (se_generation s) (se_user_sid s)
    (se_store_id s) (cf_data_directory config) (cf_preferred_drive_letter config) key in
  let expected := mkExpected (lh_pid launched) (se_user_sid s) (se_session_id s) (se_generation s) in
  answer ← on_kernel (
    match client with
    | Some input => with_error (fun _ => SessionPipeUnavailable) (try (accept_client pipe expected bootstrap input))
    | None => mret (Err PipeUnavailable)
    end);
  match answer with
  | Ok (h, letter) => mret (HostStarted launched h letter)
  | Err _ =>
      _ ← on_kernel (try (terminate (lh_process launched)));
      _ ← on_kernel (drop_process (lh_process launched));
      throw SessionPipeUnavailable
  end.

Definition start_host (process_id : N) (config : SessionConfig) (s : EligibleSession)
    (nonce fresh : bytes) (client : option bytes) : M Machine SessionError Started :=
  pipe_path ← actor_pipe_path (cf_data_directory config) s nonce;
  pipe ← with_error (fun _ => SessionPipeUnavailable)
           (on_kernel (create_actor_pipe pipe_path (se_user_sid s)));
  host_on_pipe process_id config s fresh client pipe_path pipe.

(** [session_logon]; [known] says whether the monitor has an actor for the session
    and the user, [next] is the static [ACTOR_GENERATION]. *)
Definition logon (process_id : N) (config : SessionConfig) (session_id : N) (known : bytes -> bool)
    (next : N) (nonce fresh : bytes) (client : option bytes) : M Machine SessionError Started :=
  '(token, sid) ← with_error (fun _ => TokenUnavailable) (on_kernel (query_primary_token session_id));
  finally (on_kernel (release "CloseHandle" (Handle token))) (
    if known sid then mret AlreadyStarted
    else
      s ← lift (fst (EligibleSession_new session_id sid next));
      start_host process_id config s nonce fresh client).
End Logon.

(** ** Objects *)

Section Parts.
Context `{Win32} `{Sids} `{Dpapi} (k0 : Kernel) (L : gset resource).

Lemma holds_security s k : holds k0 L k -> holds k0 L (set_security s k).
Proof. by intros []. Qed.

Lemma create_actor_pipe_holds name sid :
  triple (holds k0 L) (create_actor_pipe name sid)
    (fun h k => holds k0 ({[ Handle h ]} ∪ L) k /\ Handle h ∉ L /\ made k h "CreateNamedPipeW") (fun _ => holds k0 L).
Proof.
  unfold create_actor_pipe. eapply triple_bind.
  { eapply triple_conseq; [apply for_user_holds|done|intros d k Hk; exact Hk|by intros e k [_ Hk]]. }
  intros d. apply triple_pure. intros _. apply triple_numbered. intros t.
  apply at_obtain; [done| |by intros _ k []]. intros _ Hh k Hk.
  split; [by destruct Hk as [[] _]|]. split; [done|].
  apply (made_later k); [done|]. by eapply (made_at _ _ _ t).
Qed.

Lemma enforce_holds path :
  triple (holds k0 L) (enforce_file_acl path) (fun _ => holds k0 L) (fun _ => holds k0 L).
Proof.
  assert (triple (holds k0 L) system_sid_buffer (fun _ => holds k0 L) (fun _ => holds k0 L)) as Hsys.
  { unfold system_sid_buffer. apply step_must; [intros n _; by apply triple_ret|done]. }
  assert (triple (holds k0 L) service_sid_buffer (fun _ => holds k0 L) (fun _ => holds k0 L)) as Hser.
  { unfold service_sid_buffer. apply step_invoke. intros n. apply step_ensure; [intros _|done].
    apply step_must; [intros m _; by apply triple_ret|done]. }
  assert (forall b mask sid, triple (holds k0 L) (add_ace b mask sid) (fun _ => holds k0 L) (fun _ => holds k0 L)) as Hadd.
  { intros b mask sid. unfold add_ace. apply step_must; [intros n _; by apply triple_lift|done]. }
  unfold enforce_file_acl. eapply triple_bind; [apply Hsys|intros system].
  eapply triple_bind; [apply Hser|intros service]. apply step_must; [intros n _|done].
  eapply triple_bind; [apply Hadd|intros a]. eapply triple_bind; [apply Hadd|intros b].
  apply step_must; [intros m _|done]. apply (triple_bind _ _ _ (fun _ => holds k0 L)).
  - apply triple_modify. intros k Hk. by apply holds_security.
  - intros []. apply step_invoke. intros l. by apply triple_ret.
Qed.

Lemma load_store_key_owns root i fresh :
  triple (owns k0 L) (load_store_key root i fresh) (fun _ => owns k0 L) (fun _ => owns k0 L).
Proof.
  unfold load_store_key, owns. apply triple_reading. intros d. destruct (fs_exists _ _).
  - apply (triple_bind _ _ _ (fun _ m => holds k0 L (mc_kernel m))).
    { unfold read_file. apply triple_reading. intros d'. by apply triple_lift. }
    intros blob. apply (triple_bind _ _ _ (fun _ m => holds k0 L (mc_kernel m))).
    { apply (triple_on_kernel (holds k0 L) _ (fun _ => holds k0 L) (fun _ => holds k0 L)).
      eapply triple_conseq; [apply (unprotect_blob_holds k0 L)|done|by intros p m [Hm _]|done]. }
    intros plain. apply step_ensure; [intros _|done]. by apply triple_ret.
  - apply (triple_bind _ _ _ (fun _ m => holds k0 L (mc_kernel m))).
    { apply (triple_on_kernel (holds k0 L) _ (fun _ => holds k0 L) (fun _ => holds k0 L)), protect_blob_holds. }
    intros blob. do 3 (apply (triple_bind _ _ _ (fun _ m => holds k0 L (mc_kernel m)));
      [by apply (triple_on_disk _ _ (holds k0 L))|intros []]).
    apply (triple_bind _ _ _ (fun _ m => holds k0 L (mc_kernel m))); [|intros r; by apply triple_ret].
    apply (triple_on_kernel (holds k0 L) _ (fun _ => holds k0 L) (fun _ => holds k0 L)). apply triple_with_error.
    eapply triple_conseq; [eapply (triple_try _ _ _ _ (fun _ => holds k0 L)), enforce_holds|done| |done].
    by intros [] k Hk.
Qed.
End Parts.

(** What a logon that fails may leave behind: nothing; the environment block when
    the next call, which opens the host's log file, failed; the token of the client,
    and the text of its user, when that token could not be read; the pipe when the
    host did not answer in time; the text of the session's user when it is not UTF-16. *)
Inductive lost `{Win32} (client : option bytes) (k : Kernel) : gset resource -> Prop :=
| lost_nothing : lost client k ∅
| lost_environment n :
    made k n "CreateEnvironmentBlock" -> made k (n + 1) "CreateFileW" -> succeeds (n + 1) = false ->
    lost client k {[ EnvironmentBlock n ]}
| lost_token kept input : client = Some input -> token_objects k kept -> lost client k kept
| lost_pipe h : client = None -> made k h "CreateNamedPipeW" -> lost client k {[ Handle h ]}
| lost_text n :
    made k n "ConvertSidToStringSidW" -> from_utf16 (default [] (wide_text n)) = None ->
    lost client k {[ LocalBlock n ]}.

Section Objects.
Context `{Win32} `{Sids} `{WindowsErrors} `{Dpapi} `{PipeJson} `{Sha256} (k0 : Kernel).
Hypothesis self : kn_impersonating k0 = false.

Definition leaves (client : option bytes) (L : gset resource) (m : Machine) : Prop :=
  exists kept, settled k0 (kept ∪ L) (mc_kernel m) /\ kept ## L /\ lost client (mc_kernel m) kept.

Lemma leaves_nothing client L m : settled k0 L (mc_kernel m) -> leaves client L m.
Proof.
  intros Hm. exists ∅. rewrite (left_id_L ∅ (∪)). split; [done|]. split; [set_solver|constructor].
Qed.

Lemma owns_leaves client L m : owns k0 L m -> leaves client L m.
Proof. intros Hm. by apply leaves_nothing, settled_here. Qed.

Lemma lost_moved client k k' kept : moved k k' -> lost client k kept -> lost client k' kept.
Proof.
  intros Hm Hl. destruct Hl as [|n| kept input| |]; [constructor|..].
  - apply lost_environment; [by eapply made_moved..|done].
  - eapply lost_token; [done|]. eapply token_objects_later; [apply Hm|done].
  - apply lost_pipe; [done|by eapply made_moved].
  - apply lost_text; [by eapply made_moved|done].
Qed.

Lemma release_moved {E} name r k : r ∈ kn_live k -> moved k (snd (release (E := E) name r k)).
Proof.
  intros Hr. unfold release. rewrite bool_decide_eq_true_2 by done. split; [done|].
  cbn. by apply suffix_cons_r.
Qed.

(** A destructor on the way out. *)
Lemma leaves_release {E} client L name r m :
  r ∉ L -> leaves client ({[ r ]} ∪ L) m ->
  leaves client L (snd (on_kernel (release (E := E) name r) m)).
Proof.
  intros Hr (kept & Hs & Hd & Hl). exists kept. unfold on_kernel.
  assert (r ∈ kn_live (mc_kernel m)) as Hin.
  { destruct (settled_outcome _ _ _ Hs) as [-> _]. set_solver. }
  pose proof (release_moved (E := E) name r _ Hin) as Hm.
  assert (settled k0 (kept ∪ L) (snd (release (E := E) name r (mc_kernel m)))) as Hs'.
  { apply settled_release; [set_solver|].
    replace ({[ r ]} ∪ (kept ∪ L)) with (kept ∪ ({[ r ]} ∪ L)) by set_solver. done. }
  destruct (release name r (mc_kernel m)) as [res k']. split; [done|]. split; [set_solver|].
  by eapply lost_moved.
Qed.

Lemma launch_leaves client L m : launch_kept k0 L (mc_kernel m) -> leaves client L m.
Proof.
  intros [Hk|(n & Hk & Hn & Hm1 & Hm2 & Hf)]; [by apply owns_leaves|]. exists {[ EnvironmentBlock n ]}.
  split; [by apply settled_here|]. split; [set_solver|by apply lost_environment].
Qed.

(** The key and the process, or the way out that drops the pipe. *)
Lemma prepare_owns client L process_id config s fresh pipe_path pipe :
  Handle pipe ∉ L ->
  triple (owns k0 ({[ Handle pipe ]} ∪ L))
    (on_error (on_kernel (close_pipe pipe)) (
      key ← with_error (fun _ => StoreKeyFailure)
              (load_store_key (cf_data_directory config ++ [lit "keys"]) (store_identity s) fresh);
      _ ← ensure (negb (forallb (fun c => Byte.eqb c x00) key)) StoreKeyFailure;
      launched ← launch_host process_id config s pipe_path;
      mret (key, launched)))
    (fun x m => owns k0 ({[ Handle (lh_process x.2) ]} ∪ ({[ Handle pipe ]} ∪ L)) m /\
                Handle (lh_process x.2) ∉ {[ Handle pipe ]} ∪ L)
    (fun _ => leaves client L).
Proof.
  intros Hp. eapply (triple_on_error _ _ _ _ _ (fun _ => leaves client ({[ Handle pipe ]} ∪ L)));
    [|intros e m Hm; by apply leaves_release].
  apply (triple_bind _ _ _ (fun _ => owns k0 ({[ Handle pipe ]} ∪ L))).
  { apply triple_with_error. eapply triple_conseq; [apply load_store_key_owns|done|done|].
    intros e m Hm. by apply owns_leaves. }
  intros key. apply step_ensure; [intros _|intros m Hm _; by apply owns_leaves].
  eapply triple_bind.
  { eapply triple_conseq; [apply launch_host_owns|done|intros h m Hm; exact Hm|].
    intros e m Hm. by apply launch_leaves. }
  intros launched. by apply triple_ret.
Qed.

(** The end of a launch whose host was not accepted: it is terminated and its handle
    closed. *)
Lemma give_up_owns client L p :
  Handle p ∉ L ->
  triple (leaves client ({[ Handle p ]} ∪ L))
    (_ ← on_kernel (try (terminate p)); _ ← on_kernel (drop_process p); throw (A := Started) SessionPipeUnavailable)
    (fun _ _ => False) (fun _ => leaves client L).
Proof.
  intros Hp m Hm. unfold mbind, M_bind.
  destruct (on_kernel (try (terminate p)) m) as [r m1] eqn:E1.
  assert (leaves client ({[ Handle p ]} ∪ L) m1 /\ is_ok r = true) as [Hm1 Hr].
  { unfold on_kernel, try, terminate, mbind, M_bind in E1. rewrite must_run in E1. cbv zeta in E1.
    destruct Hm as (kept & (k1 & Hmv & Hi & Hk) & Hd & Hl).
    destruct (succeeds _); apply pair_eq in E1 as [<- <-]; (split; [|done]); exists kept; cbn [mc_kernel];
      (split; [exists k1; split; [done|]; split; [done|]; by apply holds_trace|]); (split; [done|]);
      (eapply lost_moved; [|exact Hl]); (split; [done|by apply suffix_cons_r]). }
  destruct r as [r|]; [|done]. unfold drop_process.
  pose proof (leaves_release (E := SessionError) client L "CloseHandle" (Handle p) m1 Hp Hm1) as Hm2.
  destruct (on_kernel (release "CloseHandle" (Handle p)) m1) as [r2 m2] eqn:E2.
  assert (is_ok r2 = true) as Hr2.
  { unfold on_kernel, release in E2. by apply pair_eq in E2 as [<- _]. }
  by destruct r2.
Qed.

(** What a logon that succeeds holds. *)
Definition started (L : gset resource) (r : Started) (m : Machine) : Prop :=
  match r with
  | AlreadyStarted => settled k0 L (mc_kernel m)
  | HostStarted host pipe _ =>
      settled k0 ({[ Handle (lh_process host) ]} ∪ ({[ Handle pipe ]} ∪ L)) (mc_kernel m) /\
      Handle pipe ∉ L /\ Handle (lh_process host) ∉ {[ Handle pipe ]} ∪ L
  end.

Lemma started_release {E} L name r x m :
  r ∉ L -> started ({[ r ]} ∪ L) x m -> started L x (snd (on_kernel (release (E := E) name r) m)).
Proof.
  intros Hr Hx.
  assert (forall L', r ∉ L' -> settled k0 ({[ r ]} ∪ L') (mc_kernel m) ->
    settled k0 L' (mc_kernel (snd (on_kernel (release (E := E) name r) m)))) as Hrel.
  { intros L' Hr' Hs. pose proof (settled_release k0 (E := E) L' name r _ Hr' Hs) as Hd.
    unfold on_kernel. by destruct (release name r (mc_kernel m)). }
  destruct x as [|host pipe letter]; cbn in *; [by apply Hrel|]. destruct Hx as (Hs & Hp & Hh).
  split; [|set_solver]. apply Hrel; [set_solver|]. eapply settled_same; [exact Hs|set_solver].
Qed.

(** The handshake on the pipe of a host that was launched. *)
Lemma answer_owns client L host pipe e b :
  Handle pipe ∉ L -> Handle (lh_process host) ∉ {[ Handle pipe ]} ∪ L -> made k0 pipe "CreateNamedPipeW" ->
  triple (owns k0 ({[ Handle (lh_process host) ]} ∪ ({[ Handle pipe ]} ∪ L)))
    (on_kernel (match client with
      | Some input => with_error (fun _ => SessionPipeUnavailable) (try (accept_client pipe e b input))
      | None => mret (Err PipeUnavailable)
      end))
    (fun answer m => match answer with
      | Ok (h, letter) => started L (HostStarted host h letter) m
      | Err _ => leaves client ({[ Handle (lh_process host) ]} ∪ L) m
      end) (fun _ _ => False).
Proof.
  intros Hp Hh Hmade m Hm. unfold on_kernel. destruct client as [input|].
  - unfold with_error, try.
    assert (Handle pipe ∉ {[ Handle (lh_process host) ]} ∪ L) as Hp' by set_solver.
    assert (holds k0 ({[ Handle pipe ]} ∪ ({[ Handle (lh_process host) ]} ∪ L)) (mc_kernel m)) as Hm'
      by (eapply holds_same; [exact Hm|set_solver]).
    pose proof (accept_client_holds k0 self ({[ Handle (lh_process host) ]} ∪ L) pipe e b input Hp' _ Hm') as Ha.
    destruct (accept_client pipe e b input (mc_kernel m)) as [[[h letter]|x] k']; cbn in *.
    + destruct Ha as [-> Hs]. split; [|done].
      replace ({[ Handle (lh_process host) ]} ∪ ({[ Handle pipe ]} ∪ L))
        with ({[ Handle pipe ]} ∪ ({[ Handle (lh_process host) ]} ∪ L)) by set_solver. done.
    + destruct Ha as (kept & Hs & Hd & Hx). exists kept. split; [done|]. split; [set_solver|].
      destruct Hx as [->|[_ Ho]]; [constructor|by econstructor].
  - cbn. exists {[ Handle pipe ]}. split; [|split; [set_solver|apply lost_pipe; [done|]]].
    + apply settled_here; [done|]. cbn. eapply holds_same; [exact Hm|set_solver].
    + eapply made_moved; [by eapply holds_moved|done].
Qed.

(** From the pipe on, counted from the state in which it was made. *)
Lemma host_on_pipe_owns client L process_id config s fresh pipe_path pipe :
  Handle pipe ∉ L -> made k0 pipe "CreateNamedPipeW" ->
  triple (owns k0 ({[ Handle pipe ]} ∪ L)) (host_on_pipe process_id config s fresh client pipe_path pipe)
    (started L) (fun _ => leaves client L).
Proof.
  intros Hp Hmade. unfold host_on_pipe. eapply triple_bind; [by apply prepare_owns|].
  intros [key launched]. apply triple_pure. cbn [snd]. intros Hh.
  eapply triple_bind.
  { eapply triple_conseq; [by apply (answer_owns client L)|done| |done]. intros r m Hm. exact Hm. }
  intros [[h letter]|x]; [by apply triple_ret|].
  eapply triple_conseq; [apply (give_up_owns client L); set_solver|done|done|done].
Qed.
End Objects.

(** An earlier point to count from. *)
Lemma settled_earlier k0 k L k' : moved k0 k -> settled k L k' -> settled k0 L k'.
Proof. intros Hm (k1 & Hm1 & Hr). exists k1. split; [by eapply moved_trans|done]. Qed.

Section Start.
Context `{Win32} `{Sids} `{WindowsErrors} `{Dpapi} `{PipeJson} `{Sha256} (k0 : Kernel).
Hypothesis self : kn_impersonating k0 = false.

Lemma start_host_owns client L process_id config s nonce fresh :
  triple (owns k0 L) (start_host process_id config s nonce fresh client) (started k0 L)
    (fun _ => leaves k0 client L).
Proof using self.
  unfold start_host. apply (triple_bind _ _ _ (fun _ => owns k0 L)).
  { unfold actor_pipe_path. do 2 (eapply triple_bind; [apply (triple_ignore_io _ (holds k0 L))|intros ?]).
    by apply triple_ret. }
  intros pipe_path. pose (Q h k := holds k0 ({[ Handle h ]} ∪ L) k /\ Handle h ∉ L /\ made k h "CreateNamedPipeW").
  apply (triple_bind _ _ _ (fun h m => Q h (mc_kernel m))).
  { apply triple_with_error. eapply triple_conseq; [|done|intros h m Hm; exact Hm|intros e m; by apply owns_leaves].
    apply (triple_on_kernel (holds k0 L) _ Q (fun _ => holds k0 L)), create_actor_pipe_holds. }
  intros pipe m (Hk & Hp & Hmade). pose proof (holds_moved _ _ _ Hk) as Hm.
  pose proof (host_on_pipe_owns (mc_kernel m) ltac:(by rewrite (ho_impersonating _ _ _ Hk)) client L
    process_id config s fresh pipe_path pipe Hp Hmade m (holds_since _ _ _ _ Hk eq_refl eq_refl)) as Hr.
  destruct (host_on_pipe _ _ _ _ _ _ _ m) as [[[|host h letter]|e] m']; cbn [started] in *.
  - by eapply settled_earlier.
  - split; [eapply settled_earlier; [done|apply Hr]|apply Hr].
  - destruct Hr as (kept & Hs & Hd). exists kept. split; [by eapply settled_earlier|done].
Qed.

(** The token is closed on every way out. *)
Lemma logon_owns client L process_id config session_id known next nonce fresh :
  triple (owns k0 L) (logon process_id config session_id known next nonce fresh client) (started k0 L)
    (fun _ => leaves k0 client L).
Proof.
  unfold logon.
  apply (triple_bind _ _ _ (fun t m => owns k0 ({[ Handle t.1 ]} ∪ L) m /\ Handle t.1 ∉ L)).
  { apply triple_with_error. eapply triple_conseq;
      [eapply (triple_on_kernel (holds k0 L)), query_primary_token_holds|done|intros t m Hm; exact Hm|].
    intros e m [Hk|(n & Hk & Hn & Hu & Ht)]; [by apply owns_leaves|]. exists {[ LocalBlock n ]}.
    split; [by apply settled_here|]. split; [set_solver|by apply lost_text]. }
  intros [token sid]. apply triple_pure. cbn [fst]. intros Ht.
  apply (triple_finally _ _ _ (started k0 ({[ Handle token ]} ∪ L)) (fun _ => leaves k0 client ({[ Handle token ]} ∪ L))).
  - destruct (known sid); [apply triple_ret; intros m Hm; by apply settled_here|].
    apply step_lift; [intros s _; by apply start_host_owns|]. intros e m Hm _. by apply owns_leaves.
  - intros r m Hm. by apply started_release.
  - intros e m Hm. by apply leaves_release.
Qed.
End Start.

(** C31.  A logon accounts for every object of the kernel it touches.  When it starts
    a host it keeps that host's process and the pipe to it, both new, and nothing
    else; when the session has its actor already it keeps nothing; when it fails it
    keeps nothing, except in four cases.  The environment block stays when the next
    call, which opens the log file, failed.  The pipe stays when the host never
    answered.  The client's token stays when the third call after its opening, which
    converts its user, failed or gave no UTF-16 text, which then stays too, or when
    the fifth, which reads its session, failed.  The text of the session's user stays
    when it is not UTF-16.  The user's token is closed on every way out, no object is
    released twice, and the thread is back in the identity of the service unless
    [RevertToSelf] failed. *)
Theorem logon_objects `{Win32} `{Sids} `{WindowsErrors} `{Dpapi} `{PipeJson} `{Sha256}
    m process_id config session_id known next nonce fresh client :
  kernel_wf (mc_kernel m) -> kn_impersonating (mc_kernel m) = false ->
  let '(r, m') := logon process_id config session_id known next nonce fresh client m in
  let live := kn_live (mc_kernel m) in
  let live' := kn_live (mc_kernel m') in
  kn_faults (mc_kernel m') = kn_faults (mc_kernel m) /\
  (kn_impersonating (mc_kernel m') = true ->
   exists a, mkEntry "RevertToSelf" a false ∈ kn_trace (mc_kernel m')) /\
  match r with
  | Ok AlreadyStarted => live' = live
  | Ok (HostStarted host pipe _) =>
      live' = {[ Handle (lh_process host); Handle pipe ]} ∪ live /\
      lh_process host <> pipe /\ Handle pipe ∉ live /\ Handle (lh_process host) ∉ live
  | Err _ => exists kept, live' = kept ∪ live /\ kept ## live /\ lost client (mc_kernel m') kept
  end.
Proof.
  intros Hwf Hself.
  pose proof (logon_owns (mc_kernel m) Hself client (kn_live (mc_kernel m)) process_id config session_id
    known next nonce fresh m (holds_start _ Hwf)) as Hl.
  destruct (logon _ _ _ _ _ _ _ _ m) as [[[|host pipe letter]|e] m']; cbn [started] in Hl; cbv zeta.
  - by apply settled_outcome in Hl as (? & ? & ?).
  - destruct Hl as [(? & ? & ?)%settled_outcome [Hp Hh]]. do 2 (split; [done|]). set_solver.
  - destruct Hl as (kept & (? & ? & ?)%settled_outcome & Hd & Hx). eauto 10.
Qed.

(** ** A concrete logon *)

From S2P Require Import Toy.
Import ToyJson ToyKernel ToySids ToyDpapi.

Module ToyLogon.
Definition config : SessionConfig := mkSessionConfig [lit "C:"; lit "data"] 80 30 [lit "C:"; lit "host.exe"].
Definition machine : Machine :=
  mkMachine (mkWorld (mkDisk {[ [lit "C:"; lit "host.exe"] := [] ]} {[ [lit "C:"] ]} ∅)
    (fun _ => Done) 0 (fun _ => []) 0 id 0 1 1 1 1) kernel.
Definition started_at (r : result SessionError Started) : bool :=
  match r with Ok (HostStarted _ _ letter) => letter =? 81 | _ => false end.
End ToyLogon.

(** The process and the pipe are all that is left of the logon. *)
Lemma logon_objects_witness :
  let '(r, m') := logon 40 ToyLogon.config 2 (fun _ => false) 9 (lit "n") (repeat x07 32) (Some answer)
                    ToyLogon.machine in
  match r with
  | Ok (HostStarted host pipe letter) =>
      letter = 81 /\ kn_live (mc_kernel m') = {[ Handle (lh_process host); Handle pipe ]} ∪ ∅ /\
      kn_faults (mc_kernel m') = 0
  | _ => False
  end.
Proof.
  pose proof (logon_objects ToyLogon.machine 40 ToyLogon.config 2 (fun _ => false) 9 (lit "n") (repeat x07 32)
    (Some answer) kernel_wf_empty eq_refl) as Ht.
  assert (ToyLogon.started_at (fst (logon 40 ToyLogon.config 2 (fun _ => false) 9 (lit "n") (repeat x07 32)
    (Some answer) ToyLogon.machine)) = true) as Hr by (vm_compute; reflexivity).
  destruct (logon _ _ _ _ _ _ _ _ _) as [[[|host pipe letter]|e] m']; [discriminate| |discriminate].
  cbn [fst ToyLogon.started_at] in Hr. apply N.eqb_eq in Hr.
  destruct Ht as (Hf & _ & Hl & _). split; [exact Hr|]. split; [exact Hl|exact Hf].
Defined.
