(* ===== verification/Hardware.v ===== *)
(** * Hardware

    The collectors of crates/dlp-windows-service/src/fingerprint.rs over the kernel of
    Win32: the raw SMBIOS table, the number of the disk that holds the system volume
    and the serial number of that disk.  A structure Windows fills is read from the
    buffer at the offsets of its fields. *)

From S2P Require Import Prelude Bytes Text Effects Crypto LogDebug Fingerprint Win32.

(** A zeroed buffer of [size] bytes after a call that stored [b] in it. *)
Definition filled (size : N) (b : bytes) : bytes :=
  take (N.to_nat size) (b ++ replicate (N.to_nat size) x00).

(** The little-endian [u32] at [offset]. *)
Definition dword_at (offset : nat) (buffer : bytes) : N := from_le (take 4 (drop offset buffer)).

Section Hardware.
Context `{Win32}.

Abbreviation probe := (M Kernel FingerprintError).

Definition read_smbios_table : probe bytes :=
  n ← invoke "GetSystemFirmwareTable" [];
  let size := reported n in
  _ ← ensure (negb (size =? 0)) UnsupportedPlatform;
  m ← invoke "GetSystemFirmwareTable" [];
  let written := reported m in
  _ ← ensure (negb (written =? 0) && (written <=? size)) UnsupportedPlatform;
  let buffer := take (N.to_nat written) (filled size (stored m)) in
  _ ← ensure (8 <=? len buffer) MissingOrSentinel;
  mret (drop 8 buffer).

(** The offsets of [NumberOfDiskExtents] and of [DiskNumber] of the first extent. *)
Definition os_disk_number : probe N :=
  h ← obtain Handle "CreateFileW" (lit "\\.\C:") MissingOrSentinel;
  n ← invoke "DeviceIoControl" (lit "IOCTL_VOLUME_GET_VOLUME_DISK_EXTENTS");
  _ ← release "CloseHandle" (Handle h);
  _ ← ensure (succeeds n) MissingOrSentinel;
  let extents := filled 32 (stored n) in
  _ ← ensure (negb (dword_at 0 extents =? 0)) MissingOrSentinel;
  mret (dword_at 8 extents).

(** The serial number is the text at [SerialNumberOffset]. *)
Definition serial_in (buffer : bytes) : result FingerprintError bytes :=
  let offset := dword_at 24 buffer in
  if (offset =? 0) || (len buffer <=? offset) then Err MissingOrSentinel
  else
    let serial_bytes := drop (N.to_nat offset) buffer in
    let text := match zero_position serial_bytes with Some e => take e serial_bytes | None => serial_bytes end in
    let serial := trim (utf8_lossy text) in
    if bool_decide (serial = []) then Err MissingOrSentinel else Ok serial.

Definition query_disk_serial : probe bytes :=
  n ← must "DeviceIoControl" (lit "IOCTL_STORAGE_QUERY_PROPERTY") MissingOrSentinel;
  lift (serial_in (filled 1024 (stored n))).

Definition system_disk_serial : probe bytes :=
  disk_number ← os_disk_number;
  h ← obtain Handle "CreateFileW" (lit "\\.\PhysicalDrive" ++ dec disk_number) MissingOrSentinel;
  result ← try query_disk_serial;
  _ ← release "CloseHandle" (Handle h);
  lift result.

(** Each of the two SMBIOS queries reads the table anew. *)
Definition collect_hardware_fingerprint : probe HardwareFingerprintSources :=
  table ← read_smbios_table;
  uuid ← lift (smbios_system_uuid table);
  table ← read_smbios_table;
  bios ← lift (smbios_system_serial table);
  disk ← system_disk_serial;
  lift (HardwareFingerprintSources_new uuid bios disk).
End Hardware.

(** ** Objects *)

(** A value that [normalize] returns. *)
Definition observed (v : bytes) : Prop := v <> [] /\ (v ∉ sentinels).

Lemma sources_observed uuid bios disk s :
  HardwareFingerprintSources_new uuid bios disk = Ok s ->
  observed (hf_system_uuid s) /\ observed (hf_bios_serial s) /\ observed (hf_disk_serial s).
Proof.
  assert (forall v w, normalize v = Ok w -> observed w) as Hn.
  { intros v w. unfold normalize. destruct (_ || _) eqn:E; [done|]. intros [= <-].
    by apply orb_false_iff in E as [?%bool_decide_eq_false ?%bool_decide_eq_false]. }
  unfold HardwareFingerprintSources_new. intros H.
  apply result_bind_Ok in H as (u & Hu & H). apply result_bind_Ok in H as (b & Hb & H).
  apply result_bind_Ok in H as (d & Hd & H). injection H as <-. split; [|split]; by eapply Hn.
Qed.

Definition probing (e : FingerprintError) : Prop := e = MissingOrSentinel \/ e = UnsupportedPlatform.

Lemma ok_or_probing {A} (o : option A) e : ok_or MissingOrSentinel o = Err e -> probing e.
Proof. destruct o; [done|]. intros [= <-]. by left. Qed.

Lemma result_bind_probing {A B} (r : result FingerprintError A) (k : A -> result FingerprintError B) e :
  (forall e, r = Err e -> probing e) -> (forall a, k a = Err e -> probing e) -> (a ← r; k a) = Err e -> probing e.
Proof. intros Hr Hk. destruct r as [a|x]; cbn; [apply Hk|intros [= <-]; by apply Hr]. Qed.

Section Objects.
Context `{Win32} (k0 : Kernel) (L : gset resource).

Definition probes {A} (m : M Kernel FingerprintError A) : Prop :=
  triple (holds k0 L) m (fun _ => holds k0 L) (fun e k => holds k0 L k /\ probing e).

Lemma probes_lift {A} (r : result FingerprintError A) : (forall e, r = Err e -> probing e) -> probes (lift r).
Proof. intros Hr. apply triple_lift; [done|]. intros s e Hs He. split; [done|by apply Hr]. Qed.

Lemma smbios_uuid_probing table e : smbios_system_uuid table = Err e -> probing e.
Proof.
  apply result_bind_probing; [apply ok_or_probing|]. intros st. case_match; [intros [= <-]; by left|done].
Qed.

Lemma smbios_serial_probing table e : smbios_system_serial table = Err e -> probing e.
Proof.
  apply result_bind_probing; [apply ok_or_probing|]. intros st.
  apply result_bind_probing; [apply ok_or_probing|]. intros i. apply ok_or_probing.
Qed.

Lemma read_smbios_table_probes : probes read_smbios_table.
Proof.
  unfold probes, read_smbios_table. apply step_invoke. intros n.
  apply step_ensure; [intros _|intros s Hs _; split; [done|by right]]. apply step_invoke. intros m.
  apply step_ensure; [intros _|intros s Hs _; split; [done|by right]].
  apply step_ensure; [intros _|intros s Hs _; split; [done|by left]]. by apply triple_ret.
Qed.

Lemma os_disk_number_probes : probes os_disk_number.
Proof.
  unfold probes, os_disk_number. apply step_obtain; [done| |intros s Hs _; split; [done|by left]]. intros h Hh.
  apply step_invoke. intros n. apply step_release; [set_solver|].
  replace (({[ Handle h ]} ∪ L) ∖ {[ Handle h ]}) with L by set_solver.
  do 2 (apply step_ensure; [intros _|intros s Hs _; split; [done|by left]]). by apply triple_ret.
Qed.

Lemma system_disk_serial_probes : probes system_disk_serial.
Proof.
  unfold probes, system_disk_serial. eapply triple_bind; [apply os_disk_number_probes|]. intros d.
  apply step_obtain; [done| |intros s Hs _; split; [done|by left]]. intros h Hh.
  apply (triple_bind _ _ _ (fun r k => holds k0 ({[ Handle h ]} ∪ L) k /\ forall e, r = Err e -> probing e)).
  { eapply triple_conseq; [eapply (triple_try (holds k0 ({[ Handle h ]} ∪ L)) _ (fun _ => holds k0 ({[ Handle h ]} ∪ L))
      (fun e k => holds k0 ({[ Handle h ]} ∪ L) k /\ probing e) (fun _ _ => False))|done| |done].
    - unfold query_disk_serial. apply step_must; [intros n _|intros s Hs _; split; [done|by left]].
      apply triple_lift; [done|]. intros s e Hs He. split; [done|]. left. unfold serial_in in He.
      by repeat case_match; simplify_eq.
    - intros [v|e] k Hk; [by split|]. destruct Hk as [Hk He]. split; [done|]. by intros e' [= <-]. }
  intros r. apply triple_pure. intros Hr. apply step_release; [set_solver|].
  replace (({[ Handle h ]} ∪ L) ∖ {[ Handle h ]}) with L by set_solver. by apply probes_lift.
Qed.

Lemma collect_probes :
  triple (holds k0 L) collect_hardware_fingerprint
    (fun s k => holds k0 L k /\ observed (hf_system_uuid s) /\ observed (hf_bios_serial s) /\ observed (hf_disk_serial s))
    (fun e k => holds k0 L k /\ probing e).
Proof.
  unfold collect_hardware_fingerprint. eapply triple_bind; [apply read_smbios_table_probes|intros t1].
  eapply triple_bind; [apply probes_lift, smbios_uuid_probing|intros uuid].
  eapply triple_bind; [apply read_smbios_table_probes|intros t2].
  eapply triple_bind; [apply probes_lift, smbios_serial_probing|intros bios].
  eapply triple_bind; [apply system_disk_serial_probes|intros disk].
  apply triple_lift; [intros s a Hs Ha; split; [done|by eapply sources_observed]|].
  intros s e Hs He. split; [done|]. left. unfold HardwareFingerprintSources_new, normalize in He.
  by repeat (case_match; simplify_eq/=).
Qed.
End Objects.

(** The collection of the fingerprint opens two devices and closes both, whatever
    fails; a collection that succeeds has three values, none empty and none a
    sentinel, and a failure is one of two errors. *)
Theorem fingerprint_objects `{Win32} k :
  kernel_wf k ->
  let '(r, k') := collect_hardware_fingerprint k in
  kn_live k' = kn_live k /\ kn_faults k' = kn_faults k /\ kn_impersonating k' = kn_impersonating k /\
  match r with
  | Ok s => observed (hf_system_uuid s) /\ observed (hf_bios_serial s) /\ observed (hf_disk_serial s)
  | Err e => probing e
  end.
Proof.
  intros Hk. pose proof (collect_probes k (kn_live k) k (holds_start _ Hk)) as Hc.
  destruct (collect_hardware_fingerprint k) as [[s|e] k']; destruct Hc as [[]]; auto.
Qed.
