(* ===== verification/Smoke.v ===== *)
(** * Smoke

    The smoke run and the hardening check of crates/dlpctl/src/lib.rs: the SQLite
    ledger they use in place of PostgreSQL, the scans for a plaintext marker, and the
    two runs over the ledger, the signed configurations and the encrypted store.
    The tracer's answer and the order of concurrent steps are arguments. *)

From S2P Require Import Prelude Bytes Text Effects Domain Crypto Format VPath Fs Store Namespace Protocol ConfigCache Durability.

Inductive SmokeError :=
| SmokeInvalidDatabaseUrl
| SmokeDatabaseUnavailable
| SmokeMigrationFailed
| SmokeServerUnavailable
| SmokeEnrollmentRejected
| SmokeConfigurationRejected
| SmokeStorageRejected
| SmokePlaintextLeak.

#[export] Instance SmokeError_eq_dec : EqDecision SmokeError.
Proof. solve_decision. Defined.

Definition smoke_code (e : SmokeError) : bytes :=
  match e with
  | SmokeInvalidDatabaseUrl => lit "smoke_database_url_invalid"
  | SmokeDatabaseUnavailable => lit "smoke_database_unavailable"
  | SmokeMigrationFailed => lit "smoke_migration_failed"
  | SmokeServerUnavailable => lit "smoke_server_unavailable"
  | SmokeEnrollmentRejected => lit "smoke_enrollment_rejected"
  | SmokeConfigurationRejected => lit "smoke_configuration_rejected"
  | SmokeStorageRejected => lit "smoke_storage_rejected"
  | SmokePlaintextLeak => lit "smoke_plaintext_leak"
  end.

Record SmokeReport := mkSmokeReport {
  sr_input_hash : N;
  sr_output_hash : N;
  sr_marker_scan_was_non_vacuous : bool;
  sr_backing_scan_clean : bool;
}.

(** ** The SQLite ledger *)

(** A row of [signed_configurations]. *)
Record ConfigurationRow := mkConfigurationRow {
  cw_schema_version : N;
  cw_key_id : bytes;
  cw_canonical_bundle : bytes;
  cw_signature : bytes;
}.

(** The tables and indexes that exist, and the rows.  [li_plan] says which exchange
    with the database succeeds, [li_step] counts them. *)
Record Lite := mkLite {
  li_objects : gset string;
  li_allowlist : gmap bytes bytes;
  li_tokens : gmap bytes (bytes * bool);
  li_configurations : gmap (bytes * N) ConfigurationRow;
  li_migrations : gset N;
  li_plan : N -> bool;
  li_step : N;
}.

Definition lite_set_objects (x : gset string) (l : Lite) : Lite :=
  mkLite x (li_allowlist l) (li_tokens l) (li_configurations l) (li_migrations l) (li_plan l) (li_step l).
Definition lite_set_allowlist (x : gmap bytes bytes) (l : Lite) : Lite :=
  mkLite (li_objects l) x (li_tokens l) (li_configurations l) (li_migrations l) (li_plan l) (li_step l).
Definition lite_set_tokens (x : gmap bytes (bytes * bool)) (l : Lite) : Lite :=
  mkLite (li_objects l) (li_allowlist l) x (li_configurations l) (li_migrations l) (li_plan l) (li_step l).
Definition lite_set_configurations (x : gmap (bytes * N) ConfigurationRow) (l : Lite) : Lite :=
  mkLite (li_objects l) (li_allowlist l) (li_tokens l) x (li_migrations l) (li_plan l) (li_step l).
Definition lite_set_migrations (x : gset N) (l : Lite) : Lite :=
  mkLite (li_objects l) (li_allowlist l) (li_tokens l) (li_configurations l) x (li_plan l) (li_step l).
Definition lite_next (l : Lite) : Lite :=
  mkLite (li_objects l) (li_allowlist l) (li_tokens l) (li_configurations l) (li_migrations l) (li_plan l)
    (li_step l + 1).

(** The machine of a run: its disk and its database. *)
Record Lab := mkLab { lb_world : World; lb_db : Lite }.

Abbreviation lab := (M Lab SmokeError).

(** One exchange: refused by the plan, or by the statement. *)
Definition statement {A} (e : SmokeError) (f : Lite -> option (A * Lite)) : lab A := fun s =>
  let db := lb_db s in
  match (if li_plan db (li_step db) then f db else None) with
  | Some (a, db') => (Ok a, mkLab (lb_world s) (lite_next db'))
  | None => (Err e, mkLab (lb_world s) (lite_next db))
  end.

Definition guarded {A} (b : bool) (x : A) : option A := if b then Some x else None.

(** [length(x) BETWEEN 1 AND 128] on text. *)
Definition text_column (x : bytes) : bool := (1 <=? len (chars x)) && (len (chars x) <=? 128).

Definition sql_create (name : string) (l : Lite) : option (unit * Lite) :=
  guarded (negb (bool_decide (name ∈ li_objects l))) (tt, lite_set_objects ({[ name ]} ∪ li_objects l) l).

Definition sql_create_if_not_exists (name : string) (l : Lite) : option (unit * Lite) :=
  Some (tt, lite_set_objects ({[ name ]} ∪ li_objects l) l).

Definition has (name : string) (l : Lite) : bool := bool_decide (name ∈ li_objects l).

Definition sql_insert_or_ignore_migration (version : N) (l : Lite) : option (unit * Lite) :=
  guarded (has "_sqlx_migrations" l) (tt, lite_set_migrations ({[ version ]} ∪ li_migrations l) l).

Definition sql_insert_device (device digest : bytes) (l : Lite) : option (unit * Lite) :=
  guarded (has "device_allowlist" l && text_column device && (len digest =? 32)
           && bool_decide (li_allowlist l !! device = None))
    (tt, lite_set_allowlist (<[device := digest]> (li_allowlist l)) l).

Definition sql_insert_token (digest device : bytes) (l : Lite) : option (unit * Lite) :=
  guarded (has "enrollment_tokens" l && (len digest =? 32) && bool_decide (is_Some (li_allowlist l !! device))
           && bool_decide (li_tokens l !! digest = None))
    (tt, lite_set_tokens (<[digest := (device, false)]> (li_tokens l)) l).

(** The rows affected. *)
Definition sql_consume_token (digest : bytes) (l : Lite) : option (N * Lite) :=
  guarded (has "enrollment_tokens" l)
    (match li_tokens l !! digest with
     | Some (device, false) => (1, lite_set_tokens (<[digest := (device, true)]> (li_tokens l)) l)
     | _ => (0, l)
     end).

Definition sql_insert_configuration (device : bytes) (version : N) (row : ConfigurationRow) (l : Lite) :
    option (unit * Lite) :=
  guarded (has "signed_configurations" l && (0 <? version) && (cw_schema_version row =? 1)
           && text_column (cw_key_id row) && (0 <? len (cw_canonical_bundle row)) && (len (cw_signature row) =? 64)
           && bool_decide (is_Some (li_allowlist l !! device))
           && bool_decide (li_configurations l !! (device, version) = None))
    (tt, lite_set_configurations (<[(device, version) := row]> (li_configurations l)) l).

Definition sql_count_configurations (device : bytes) (l : Lite) : option (N * Lite) :=
  guarded (has "signed_configurations" l)
    (len (filter (fun x => x.1.1 = device) (map_to_list (li_configurations l))), l).

Definition MIGRATION_VERSION : N := 202608070001.

(** The statements of the script migrations-sqlite/202608070001_walking_skeleton.sql. *)
Definition sqlite_script : list string :=
  ["device_allowlist"; "enrollment_tokens"; "signed_configurations"; "health_reports";
   "health_reports_device_reported_at_idx"]%string.

Definition initialize_sqlite_ledger : lab unit :=
  _ ← fold_m (fun _ name => statement SmokeMigrationFailed (sql_create name)) tt sqlite_script;
  _ ← statement SmokeMigrationFailed (sql_create_if_not_exists "_sqlx_migrations");
  statement SmokeMigrationFailed (sql_insert_or_ignore_migration MIGRATION_VERSION).

(** [SqlitePoolOptions::connect]. *)
Definition connect : lab unit := statement SmokeDatabaseUnavailable (fun l => Some (tt, l)).

Definition enroll_once (device : bytes) : lab unit :=
  _ ← statement SmokeEnrollmentRejected (sql_insert_device device (repeat x01 32));
  _ ← statement SmokeEnrollmentRejected (sql_insert_token (repeat x02 32) device);
  n ← statement SmokeEnrollmentRejected (sql_consume_token (repeat x02 32));
  ensure (n =? 1) SmokeEnrollmentRejected.

Definition consume_token : lab bool :=
  n ← statement SmokeEnrollmentRejected (sql_consume_token (repeat x04 32));
  mret (n =? 1).

(** ** Configurations *)

Section Configurations.
Context `{Ed25519} `{Sha256}.

Definition rejected {E A} (r : result E A) : result SmokeError A := map_err (fun _ => SmokeConfigurationRejected) r.

Definition signed_configuration (signer : ConfigurationSigner) (device version : bytes) :
    result SmokeError SignedConfigurationV1 :=
  version ← rejected (BundleVersion_parse version);
  envelope ← rejected (ConfigurationEnvelopeV1_new 1 device version 1700000000 (lit "encrypted-store-required"));
  rejected (SignedConfigurationV1_new envelope (s_key_id signer) (signer_sign signer (envelope_bytes envelope))).

(** [str::parse::<i64>]: a leading minus sign is accepted, so a negative version
    reaches the database, whose check refuses it; 0 stands for those here. *)
Definition parse_i64 (s : bytes) : option N :=
  match s with
  | [x2d] => None
  | x2d :: digits => (fun _ => 0) <$> parse_digits (2 ^ 63) 0 digits
  | _ => parse_uint (2 ^ 63 - 1) s
  end.

Definition persist_configuration (device : bytes) (c : SignedConfigurationV1) : lab unit :=
  version ← lift (ok_or SmokeConfigurationRejected (parse_i64 (ce_bundle_version (sc_envelope c))));
  _ ← statement SmokeConfigurationRejected (sql_insert_configuration device version
        (mkConfigurationRow (ce_schema_version (sc_envelope c)) (sc_key_id c) (envelope_bytes (sc_envelope c))
           (sc_signature c)));
  count ← statement SmokeConfigurationRejected (sql_count_configurations device);
  ensure (1 <=? count) SmokeConfigurationRejected.
End Configurations.

(** ** Scans *)

(** [stable_hash]: the shape of FNV-1a at 64 bits, with the multiplier of the source,
    [0x1000_0000_01b3], which is not the FNV prime [0x100_0000_01b3]. *)
Definition stable_hash (b : bytes) : N :=
  foldl (fun hash byte => (N.lxor hash (Byte.to_N byte) * 0x1000000001b3) mod 2 ^ 64) 0xcbf29ce484222325 b.

Definition disk {A} (m : io A) : lab A := fun s =>
  let '(r, w) := m (lb_world s) in (map_err (fun _ => SmokeStorageRejected) r, mkLab w (lb_db s)).

(** [contains_marker], for a marker that is not empty: [windows(0)] panics, and every
    marker of the runs begins with [phase1-marker-]. *)
Definition contains_marker (d : Disk) (path : fspath) (marker : bytes) : result SmokeError bool :=
  b ← map_err (fun _ => SmokeStorageRejected) (fs_read d path);
  Ok (contains marker b).

(** The [for] loop over the entries of one directory: the directories to visit, or
    [None] when a file with the marker ended the search. *)
Fixpoint scan_entries (d : Disk) (marker : bytes) (pending : list fspath) (entries : list fspath) :
    result SmokeError (option (list fspath)) :=
  match entries with
  | [] => Ok (Some pending)
  | entry :: rest =>
      if fs_is_dir d entry then scan_entries d marker (entry :: pending) rest
      else
        found ← contains_marker d entry marker;
        if found : bool then Ok None else scan_entries d marker pending rest
  end.

(** The [while] loop: [pending] is the vector with its last element first. *)
Fixpoint scan_pending (fuel : nat) (d : Disk) (marker : bytes) (pending : list fspath) :
    option (result SmokeError bool) :=
  match fuel, pending with
  | _, [] => Some (Ok false)
  | O, _ => None
  | S f, path :: rest =>
      match fs_read_dir d path with
      | Err _ => Some (Err SmokeStorageRejected)
      | Ok entries =>
          match scan_entries d marker rest entries with
          | Err e => Some (Err e)
          | Ok None => Some (Ok true)
          | Ok (Some pending) => scan_pending f d marker pending
          end
      end
  end.

(** Every round visits another directory. *)
Definition scan_fuel (d : Disk) : nat := 2 + size (dk_dirs d).

Definition tree_contains_marker (d : Disk) (root : fspath) (marker : bytes) : result SmokeError bool :=
  default (Err SmokeStorageRejected) (scan_pending (scan_fuel d) d marker [root]).

(** ** The runs *)

Section Runs.
Context `{Ed25519} `{Sha256} `{Aead}.

Definition storage {E A} (r : result E A) : result SmokeError A := map_err (fun _ => SmokeStorageRejected) r.

(** A call of an open store, with the store it leaves. *)
Definition with_store {A} (t : LocalEncryptedStore) (m : store_m A) : lab (A * LocalEncryptedStore) := fun s =>
  let '(r, st) := m (mkSt t (lb_world s)) in
  (a ← storage r; Ok (a, s_store st), mkLab (s_world st) (lb_db s)).

Definition open_store (root : fspath) (identity : CapturedStoreIdentity) (key : bytes) : lab LocalEncryptedStore :=
  fun s => let '(r, w) := open root identity key (lb_world s) in (storage r, mkLab w (lb_db s)).

Definition reopen_store (t : LocalEncryptedStore) : lab LocalEncryptedStore :=
  fun s => let '(r, w) := reopen (mkSt t (lb_world s)) in (storage r, mkLab w (lb_db s)).

Definition read_store (t : LocalEncryptedStore) (file : bytes) : lab bytes :=
  d ← gets (fun s => w_disk (lb_world s));
  lift (storage (read t d file)).

(** [SystemTime::now().duration_since(UNIX_EPOCH)] in nanoseconds. *)
Definition now_nanos : lab N := fun s =>
  let w := lb_world s in (Ok (w_clock w (w_ticks w)), mkLab (set_ticks (w_ticks w + 1) w) (lb_db s)).

Definition fs_write_file (p : fspath) (b : bytes) : lab unit :=
  _ ← disk (fs_create p);
  disk (fs_write_all p b).

(** [verify_bound_router]: only a build with debug assertions has the tracer, which
    [trace] answers for, [None] when the connection fails. *)
Definition verify_bound_router (debug_assertions : bool) (trace : option bytes) : result SmokeError unit :=
  if negb debug_assertions then Err SmokeServerUnavailable
  else
    response ← ok_or SmokeServerUnavailable trace;
    if starts_with (lit "HTTP/1.1 204") response then Ok tt else Err SmokeServerUnavailable.

Definition phase1_signer (seed : byte) : ConfigurationSigner := mkSigner (lit "phase1-key") (repeat seed 32).

Definition smoke_file : bytes := lit "file-00000000000000000001".
Definition smoke_identity : CapturedStoreIdentity := mkIdentity (lit "S-1-5-21-1000") (lit "store-1000").
Definition smoke_key : bytes := repeat x07 32.

(** The part that stores [source] and reads it back in a store opened anew. *)
Definition smoke_store (backing : fspath) (source : bytes) : lab bytes :=
  sid ← lift (storage (UserSid_parse (lit "S-1-5-21-1000")));
  store_id ← lift (storage (StoreId_parse (lit "store-1000")));
  file ← lift (storage (FileId_parse smoke_file));
  store ← open_store backing (mkIdentity sid store_id) smoke_key;
  path ← lift (storage (parse (lit "protected.txt")));
  '(handle, store) ← with_store store (create_or_open path true false);
  '(_, store) ← with_store store (write_handle handle 0 source);
  '(_, store) ← with_store store (flush_handle handle);
  '(_, store) ← with_store store (close_handle handle);
  reopened ← reopen_store store;
  read_store reopened file.

(** One operand of the conjunction of scans. *)
Definition scan_next (d : Disk) (marker : bytes) (found : bool) (p : fspath) : lab bool :=
  if found then mret true else lift (tree_contains_marker d p marker).

(** The scans at the end, and the report. *)
Definition smoke_scan (root backing : fspath) (marker : bytes) (input_hash output_hash : N) : lab SmokeReport :=
  let control := root ++ [lit "control-marker.txt"] in
  _ ← fs_write_file control marker;
  d ← gets (fun s => w_disk (lb_world s));
  non_vacuous ← lift (contains_marker d control marker);
  let cache := root ++ [lit "cache"] in
  let logs := root ++ [lit "logs"] in
  let evidence := root ++ [lit "evidence"] in
  _ ← fold_m (fun _ p => disk (fs_create_dir_all p)) tt [cache; logs; evidence];
  _ ← fs_write_file (evidence ++ [lit "tracer.txt"]) (lit "phase1 smoke complete");
  d ← gets (fun s => w_disk (lb_world s));
  leak ← (if non_vacuous : bool
          then fold_m (scan_next d marker) false [backing; cache; logs; evidence]
          else mret true);
  _ ← ensure (negb leak) SmokePlaintextLeak;
  mret (mkSmokeReport input_hash output_hash non_vacuous true).

(** The run up to its scans: the marker, what was written and what was read back. *)
Definition smoke_session (debug_assertions : bool) (trace : option bytes) (root : fspath) :
    lab (bytes * bytes * bytes) :=
  _ ← disk (fs_create_dir_all root);
  _ ← connect;
  _ ← initialize_sqlite_ledger;
  _ ← lift (verify_bound_router debug_assertions trace);
  device ← lift (map_err (fun _ => SmokeEnrollmentRejected) (DeviceId_parse (lit "device-01")));
  _ ← enroll_once device;
  let signer := phase1_signer x09 in
  verifier ← lift (rejected (from_public_key_bytes (lit "phase1-key") (signer_public_key_bytes signer)));
  first ← lift (signed_configuration signer device (lit "1"));
  second ← lift (signed_configuration signer device (lit "2"));
  _ ← persist_configuration device first;
  _ ← persist_configuration device second;
  let '(r1, active) := activate first verifier (mkActive None None) in
  _ ← lift (rejected r1);
  let '(r2, active) := activate second verifier active in
  _ ← lift (rejected r2);
  _ ← ensure (bool_decide (is_Some (ac_current active)) && bool_decide (is_Some (ac_last_known_good active)))
        SmokeConfigurationRejected;
  nanos ← now_nanos;
  let marker := lit "phase1-marker-" ++ dec nanos in
  let source := lit "confidential:" ++ marker in
  output ← smoke_store (root ++ [lit "backing"]) source;
  mret (marker, source, output).

Definition run_phase1_smoke_async (debug_assertions : bool) (trace : option bytes) (root : fspath) :
    lab SmokeReport :=
  '(marker, source, output) ← smoke_session debug_assertions trace root;
  smoke_scan root (root ++ [lit "backing"]) marker (stable_hash source) (stable_hash output).

(** The two public entries; [runtime] says whether a Tokio runtime starts. *)
Definition run_phase1_smoke (runtime debug_assertions : bool) (trace : option bytes) (database_url : bytes)
    (root : fspath) : lab SmokeReport :=
  _ ← ensure (starts_with (lit "sqlite:") database_url) SmokeInvalidDatabaseUrl;
  _ ← ensure runtime SmokeServerUnavailable;
  run_phase1_smoke_async debug_assertions trace root.

(** The two workers of the hardening check on the locked set; [three_first] says
    whose turn comes first.  Their results are dropped. *)
Definition race (verifier : ConfigurationVerifier) (three four : SignedConfigurationV1) (three_first : bool)
    (active : ActiveConfigurationSet) : ActiveConfigurationSet :=
  if three_first then snd (activate four verifier (snd (activate three verifier active)))
  else snd (activate three verifier (snd (activate four verifier active))).

#[local] Instance ActiveConfigurationSet_eq_dec : EqDecision ActiveConfigurationSet.
Proof. solve_decision. Defined.

Definition refuse_invalid (verifier : ConfigurationVerifier) (before : ActiveConfigurationSet)
    (locked : ActiveConfigurationSet) (invalid : SignedConfigurationV1) : result SmokeError ActiveConfigurationSet :=
  let '(r, locked) := activate invalid verifier locked in
  if is_ok r || negb (bool_decide (locked = before)) then Err SmokeConfigurationRejected else Ok locked.

Definition hardening_configurations (device : bytes) (three_first : bool) : result SmokeError ActiveConfigurationSet :=
  let signer := phase1_signer x09 in
  verifier ← rejected (from_public_key_bytes (lit "phase1-key") (signer_public_key_bytes signer));
  initial ← signed_configuration signer device (lit "2");
  let '(r, active) := activate initial verifier (mkActive None None) in
  _ ← rejected r;
  three ← signed_configuration signer device (lit "3");
  four ← signed_configuration signer device (lit "4");
  let before := race verifier three four three_first active in
  wrong_signature ← signed_configuration (phase1_signer x08) device (lit "5");
  replay ← signed_configuration signer device (lit "1");
  five ← rejected (BundleVersion_parse (lit "5"));
  envelope ← rejected (ConfigurationEnvelopeV1_new 1 device five 1700000000 (lit "encrypted-store-required"));
  truncated ← rejected (SignedConfigurationV1_new envelope (lit "phase1-key") (repeat x00 63));
  locked ← refuse_invalid verifier before before wrong_signature;
  locked ← refuse_invalid verifier before locked replay;
  locked ← refuse_invalid verifier before locked truncated;
  current ← ok_or SmokeConfigurationRejected (ac_current locked);
  if negb (bool_decide (ce_bundle_version (sc_envelope current) = lit "4"))
     || bool_decide (ac_last_known_good locked = None)
  then Err SmokeConfigurationRejected else Ok locked.

Definition hardening_store (root : fspath) : lab unit :=
  sid ← lift (storage (UserSid_parse (lit "S-1-5-21-2000")));
  store_id ← lift (storage (StoreId_parse (lit "store-2000")));
  file ← lift (storage (FileId_parse (lit "file-hardening")));
  store ← open_store (root ++ [lit "integrity"]) (mkIdentity sid store_id) (repeat x06 32);
  '(_, store) ← with_store store (write file (lit "protected payload"));
  '(_, store) ← with_store store (flush_file file);
  corrupted ← reopen_store store;
  '(_, corrupted) ← with_store corrupted (tamper_selected_record_for_test file "tag");
  d ← gets (fun s => w_disk (lb_world s));
  _ ← ensure (negb (is_ok (read corrupted d file))) SmokeStorageRejected;
  duplicate ← lift (storage (FileId_parse (lit "file-duplicate")));
  '(_, store) ← with_store store (write duplicate (lit "protected payload"));
  '(_, store) ← with_store store (inject_duplicate_nonce_for_test duplicate);
  '(flushed, store) ← with_store store (try (flush_file duplicate));
  ensure (negb (is_ok flushed)) SmokeStorageRejected.

(** [left_first] says which of the two consumptions reaches the database first. *)
Definition verify_tracer_hardening_async (root : fspath) (left_first three_first : bool) : lab unit :=
  _ ← disk (fs_create_dir_all root);
  _ ← connect;
  _ ← initialize_sqlite_ledger;
  device ← lift (map_err (fun _ => SmokeEnrollmentRejected) (DeviceId_parse (lit "device-hardening")));
  _ ← statement SmokeEnrollmentRejected (sql_insert_device device (repeat x03 32));
  _ ← statement SmokeEnrollmentRejected (sql_insert_token (repeat x04 32) device);
  one ← try consume_token;
  other ← try consume_token;
  let '(l, r) := if left_first : bool then (one, other) else (other, one) in
  l ← lift l;
  r ← lift r;
  _ ← ensure (N.b2n l + N.b2n r =? 1) SmokeEnrollmentRejected;
  _ ← lift (hardening_configurations device three_first);
  hardening_store root.
End Runs.

(** ** The scan is exact *)

(** The file [q] is in the tree of [root]: every directory between them exists. *)
Inductive in_tree (d : Disk) : fspath -> fspath -> Prop :=
| in_tree_here p n :
    is_Some (dk_files d !! (p ++ [n])) -> dir_exists d (p ++ [n]) = false -> in_tree d p (p ++ [n])
| in_tree_below p n q : dir_exists d (p ++ [n]) = true -> in_tree d (p ++ [n]) q -> in_tree d p q.

Definition marked (d : Disk) (marker : bytes) (q : fspath) : Prop :=
  exists c, dk_files d !! q = Some c /\ contains marker c = true.

Lemma child_name_spec p q n : child_name p q = Some n <-> q = p ++ [n].
Proof.
  unfold child_name. split.
  - destruct (drop (length p) q) as [|m []] eqn:E; [done| |done].
    case_bool_decide as Ht; [|done]. intros [= ->]. by rewrite <- (take_drop (length p) q), Ht, E.
  - intros ->. rewrite drop_app_length, take_app_length. by rewrite bool_decide_eq_true_2.
Qed.

Lemma child_names_spec d p n :
  n ∈ child_names d p <-> is_Some (dk_files d !! (p ++ [n])) \/ p ++ [n] ∈ dk_dirs d.
Proof.
  unfold child_names. rewrite (merge_sort_Permutation bytes_le), elem_of_remove_dups, list_elem_of_omap.
  setoid_rewrite child_name_spec. setoid_rewrite elem_of_app. setoid_rewrite elem_of_elements. split.
  - intros (q & [Hq|Hq] & ->); [left|by right].
    apply list_elem_of_fmap in Hq as ([k c] & -> & Hq). apply elem_of_map_to_list in Hq. by exists c.
  - intros [[c Hc]|Hd]; exists (p ++ [n]); (split; [|done]); [left|by right].
    apply list_elem_of_fmap. exists (p ++ [n], c). split; [done|]. by apply elem_of_map_to_list.
Qed.

Lemma read_dir_spec d p entries q :
  fs_read_dir d p = Ok entries ->
  q ∈ entries <-> exists n, q = p ++ [n] /\ (is_Some (dk_files d !! q) \/ dir_exists d q = true).
Proof.
  unfold fs_read_dir. case_bool_decide; [done|]. destruct (dir_exists d p); [|done]. intros [= <-].
  rewrite list_elem_of_fmap. unfold dir_exists. setoid_rewrite bool_decide_eq_true. split.
  - intros (n & -> & Hn%child_names_spec). exists n. split; [done|]. destruct Hn; [by left|by right; right].
  - intros (n & -> & Hn). exists n. split; [done|]. apply child_names_spec.
    destruct Hn as [Hn|[Hn|Hn]]; [by left| |by right]. by destruct p.
Qed.

Lemma scan_entries_spec d marker entries pending r :
  scan_entries d marker pending entries = Ok r ->
  match r with
  | Some pending' =>
      pending' = reverse (filter (fun e => dir_exists d e = true) entries) ++ pending /\
      forall e, e ∈ entries -> dir_exists d e = false -> ~ marked d marker e
  | None => exists e, e ∈ entries /\ dir_exists d e = false /\ marked d marker e
  end.
Proof.
  revert pending. induction entries as [|e entries IH]; intros pending; cbn [scan_entries].
  - intros [= <-]. split; [done|]. by intros e ?%not_elem_of_nil.
  - unfold fs_is_dir. destruct (dir_exists d e) eqn:Ed.
    + intros Hr. apply IH in Hr. destruct r as [pending'|].
      * destruct Hr as [-> Hr]. rewrite filter_cons, decide_True, reverse_cons, <- app_assoc by done. split; [done|].
        intros x [->|Hx]%elem_of_cons Hn; [congruence|by apply Hr].
      * destruct Hr as (x & Hx & Hm). exists x. split; [by right|done].
    + unfold contains_marker. destruct (fs_read d e) as [c|k] eqn:Ec; [|done]. cbn.
      apply fs_read_file in Ec. destruct (contains marker c) eqn:Em.
      * intros [= <-]. exists e. split; [by left|]. split; [done|]. by exists c.
      * intros Hr. apply IH in Hr. destruct r as [pending'|].
        -- destruct Hr as [-> Hr]. rewrite decide_False by congruence. split; [done|].
           intros x [->|Hx]%elem_of_cons Hn; [|by apply Hr]. intros (c' & Hc & Hm). congruence.
        -- destruct Hr as (x & Hx & Hm). exists x. split; [by right|done].
Qed.

(** What is in the tree of a directory, by its entries. *)
Lemma in_tree_entries d p entries q :
  fs_read_dir d p = Ok entries ->
  in_tree d p q <->
  q ∈ entries /\ dir_exists d q = false \/ exists e, e ∈ entries /\ dir_exists d e = true /\ in_tree d e q.
Proof.
  intros Hr. pose proof (fun x => read_dir_spec d p entries x Hr) as Hs. split.
  - destruct 1 as [p n Hf Hd|p n q Hd Ht].
    + left. split; [|done]. apply Hs. exists n. auto.
    + right. exists (p ++ [n]). split; [|done]. apply Hs. exists n. auto.
  - intros [[(n & -> & Hn)%Hs Hd]|(e & (n & -> & _)%Hs & Hd & Ht)].
    + destruct Hn as [Hn|Hn]; [by constructor|congruence].
    + by eapply in_tree_below.
Qed.

Lemma scan_pending_spec d marker fuel pending b :
  scan_pending fuel d marker pending = Some (Ok b) ->
  b = true <-> exists p q, p ∈ pending /\ in_tree d p q /\ marked d marker q.
Proof.
  revert pending. induction fuel as [|fuel IH]; intros [|p rest]; cbn [scan_pending]; try done;
    try (intros [= <-]; split; [done|]; by intros (p & q & ?%not_elem_of_nil & _)).
  destruct (fs_read_dir d p) as [entries|] eqn:Er; [|done]. pose proof (in_tree_entries d p entries) as Ht.
  destruct (scan_entries d marker rest entries) as [[pending|]|] eqn:Es; [| |done];
    apply scan_entries_spec in Es.
  - destruct Es as [-> Hn]. intros Hb%IH. rewrite Hb. setoid_rewrite elem_of_app. setoid_rewrite elem_of_cons.
    setoid_rewrite elem_of_reverse. setoid_rewrite list_elem_of_filter. split.
    + intros (e & q & [[He Hin]|He] & Hq & Hm); [|by exists e, q; auto].
      exists p, q. split; [by left|]. split; [|done]. apply (Ht q Er). right. by exists e.
    + intros (e & q & [->|He] & Hq & Hm); [|by exists e, q; auto].
      apply (Ht q Er) in Hq as [[Hin Hd]|(e & Hin & Hd & Hq)]; [by apply Hn in Hm|].
      exists e, q. auto.
  - intros [= <-]. split; [|done]. intros _. destruct Es as (e & Hin & Hd & Hm).
    exists p, e. split; [by left|]. split; [|done]. apply (Ht e Er). by left.
Qed.

(** ** The scan ends *)

(** No path is listed twice or under another. *)
Definition separate (pending : list fspath) : Prop :=
  NoDup pending /\ forall p q, p ∈ pending -> q ∈ pending -> p `prefix_of` q -> p = q.

(** The directories that are still to be visited. *)
Definition todo (d : Disk) (pending : list fspath) : gset fspath :=
  filter (fun x => Exists (fun p => p `prefix_of` x) pending) (dk_dirs d).

Lemma read_dir_NoDup d p entries : fs_read_dir d p = Ok entries -> NoDup entries.
Proof.
  unfold fs_read_dir. case_bool_decide; [done|]. destruct (dir_exists d p); [|done]. intros [= <-].
  apply NoDup_fmap; [by intros ? ? [= ->]%app_inv_head|].
  unfold child_names. rewrite (merge_sort_Permutation bytes_le). apply NoDup_remove_dups.
Qed.

Lemma prefix_snoc_cases (q p : fspath) n : q `prefix_of` p ++ [n] -> q = p ++ [n] \/ q `prefix_of` p.
Proof.
  intros [t Ht]. destruct t as [|m t _] using rev_ind; [rewrite app_nil_r in Ht; by left|right].
  rewrite app_assoc in Ht. apply app_inj_2 in Ht as [-> _]; [|done]. by exists t.
Qed.

(** The directories among the entries take the place of their parent. *)
Lemma separate_step d p rest entries :
  fs_read_dir d p = Ok entries -> separate (p :: rest) ->
  separate (reverse (filter (fun e => dir_exists d e = true) entries) ++ rest).
Proof.
  intros Hr [[Hp Hd]%NoDup_cons Hs].
  assert (forall e, e ∈ reverse (filter (fun e => dir_exists d e = true) entries) -> exists n, e = p ++ [n]) as He.
  { intros e [_ He]%elem_of_reverse%list_elem_of_filter. apply (read_dir_spec _ _ _ _ Hr) in He as (n & -> & _). by exists n. }
  assert (forall q, q ∈ rest -> ~ p `prefix_of` q) as Hnot.
  { intros q Hq Hpre. apply Hp. rewrite (Hs p q); [done|by left|by right|done]. }
  assert (forall q n, q ∈ rest -> ~ q `prefix_of` p ++ [n]) as Hparent.
  { intros q n Hq [->|Hpre]%prefix_snoc_cases; [apply (Hnot _ Hq); by apply prefix_app_r|].
    apply Hp. rewrite <- (Hs q p); [done|by right|by left|done]. }
  split.
  - apply NoDup_app. split; [|split; [|done]].
    + rewrite reverse_Permutation. apply NoDup_filter, (read_dir_NoDup _ _ _ Hr).
    + intros e [n ->]%He Hin. by apply (Hparent _ n Hin).
  - intros x y [[n ->]%He|Hx]%elem_of_app [[m ->]%He|Hy]%elem_of_app Hpre.
    + by apply prefix_length_eq in Hpre; [|rewrite !length_app].
    + apply prefix_app_l in Hpre. by apply Hnot in Hpre.
    + by apply Hparent in Hpre.
    + by apply Hs; [right..|].
Qed.

Lemma todo_step d p rest entries :
  fs_read_dir d p = Ok entries -> separate (p :: rest) -> p ∈ dk_dirs d ->
  (size (todo d (reverse (filter (fun e => dir_exists d e = true) entries) ++ rest)) < size (todo d (p :: rest)))%nat.
Proof.
  intros Hr [[Hp _]%NoDup_cons Hs] Hin.
  assert (forall e, e ∈ entries -> exists n, e = p ++ [n]) as He.
  { intros e He. apply (read_dir_spec _ _ _ _ Hr) in He as (n & -> & _). by exists n. }
  apply subset_size. unfold todo. split.
  - intros x [Hx Hd]%elem_of_filter. apply elem_of_filter. split; [|done].
    apply Exists_exists in Hx as (q & [[_ [n ->]%He]%elem_of_reverse%list_elem_of_filter|Hq]%elem_of_app & Hpre);
      apply Exists_exists.
    + exists p. split; [by left|]. by eapply prefix_app_l.
    + exists q. split; [by right|done].
  - intros Hsub. assert (p ∈ todo d (p :: rest)) as Hmem.
    { apply elem_of_filter. split; [|done]. by left. }
    apply Hsub, elem_of_filter in Hmem as [Hx _].
    apply Exists_exists in Hx as (q & [[_ [n ->]%He]%elem_of_reverse%list_elem_of_filter|Hq]%elem_of_app & Hpre).
    + by apply prefix_snoc_not in Hpre.
    + apply Hp. rewrite <- (Hs q p); [done|by right|by left|done].
Qed.

Lemma scan_pending_ends d marker fuel pending :
  separate pending -> Forall (fun p => p ∈ dk_dirs d) pending -> (size (todo d pending) <= fuel)%nat ->
  is_Some (scan_pending fuel d marker pending).
Proof.
  revert pending. induction fuel as [|fuel IH]; intros [|p rest] Hs Hd Hf; cbn [scan_pending]; try done.
  - apply Forall_cons in Hd as [Hp _].
    assert (p ∈ todo d (p :: rest)) as Hin by (apply elem_of_filter; split; [by left|done]).
    assert (size (todo d (p :: rest)) <> 0%nat) as Hn by (intros E%size_empty_inv; set_solver). lia.
  - apply Forall_cons in Hd as [Hp Hd]. destruct (fs_read_dir d p) as [entries|] eqn:Er; [|done].
    destruct (scan_entries d marker rest entries) as [[pending|]|] eqn:Es; [|done..].
    apply scan_entries_spec in Es as [-> _]. apply IH; [by eapply separate_step| |].
    + apply Forall_app. split; [|done]. apply Forall_forall.
      intros e [He Hin]%elem_of_reverse%list_elem_of_filter.
      apply (read_dir_spec _ _ _ _ Er) in Hin as (n & -> & _). unfold dir_exists in He.
      apply bool_decide_eq_true in He as [He|He]; [by destruct p|done].
    + pose proof (todo_step d p rest entries Er Hs Hp). lia.
Qed.

Lemma scan_pending_step d marker n path rest :
  scan_pending (2 + n) d marker (path :: rest) =
  match fs_read_dir d path with
  | Err _ => Some (Err SmokeStorageRejected)
  | Ok entries =>
      match scan_entries d marker rest entries with
      | Err e => Some (Err e)
      | Ok None => Some (Ok true)
      | Ok (Some pending) => scan_pending (1 + n) d marker pending
      end
  end.
Proof. done. Qed.

Lemma scan_entries_error d marker entries pending x :
  (forall e, e ∈ entries -> is_Some (dk_files d !! e) \/ dir_exists d e = true) ->
  scan_entries d marker pending entries = Err x -> x = SmokeStorageRejected /\ dk_unreadable d <> ∅.
Proof.
  revert pending. induction entries as [|e entries IH]; intros pending He; cbn [scan_entries]; [done|].
  assert (forall e, e ∈ entries -> is_Some (dk_files d !! e) \/ dir_exists d e = true) as He'
    by (intros q Hq; apply He; by right).
  unfold fs_is_dir. destruct (dir_exists d e) eqn:Ed; [by apply IH|].
  unfold contains_marker, fs_read. case_bool_decide as Hu; cbn; [intros [= <-]; set_solver|].
  rewrite Ed. destruct (He e ltac:(by left)) as [[c ->]|?]; [|congruence]. cbn.
  destruct (contains marker c); [done|]. by apply IH.
Qed.

Lemma scan_pending_error d marker fuel pending x :
  Forall (fun p => dir_exists d p = true) pending ->
  scan_pending fuel d marker pending = Some (Err x) -> x = SmokeStorageRejected /\ dk_unreadable d <> ∅.
Proof.
  revert pending. induction fuel as [|fuel IH]; intros [|p rest] Hd; cbn [scan_pending]; try done.
  apply Forall_cons in Hd as [Hp Hd]. destruct (fs_read_dir d p) as [entries|] eqn:Er.
  - destruct (scan_entries d marker rest entries) as [[pending|]|] eqn:Es; [|done|].
    + apply scan_entries_spec in Es as [-> _]. apply IH, Forall_app. split; [|done]. apply Forall_forall.
      by intros e [He _]%elem_of_reverse%list_elem_of_filter.
    + intros [= <-]. eapply scan_entries_error; [|exact Es].
      intros q (n & _ & He)%(read_dir_spec _ _ _ _ Er). exact He.
  - intros [= <-]. unfold fs_read_dir in Er. case_bool_decide; [set_solver|]. by rewrite Hp in Er.
Qed.

(** C36.  The search for a marker in a tree ends and is exact.  The loop over the
    pending directories never runs out of the directories of the disk; when it
    answers, the answer is whether a file of the tree contains the marker; and it
    fails only when the root is no directory or something on the disk cannot be
    read. *)
Theorem tree_scan_exact d root marker :
  is_Some (scan_pending (scan_fuel d) d marker [root]) /\
  match tree_contains_marker d root marker with
  | Ok b => b = true <-> exists q, in_tree d root q /\ marked d marker q
  | Err e => e = SmokeStorageRejected /\ (dir_exists d root = false \/ dk_unreadable d <> ∅)
  end.
Proof.
  assert (is_Some (scan_pending (scan_fuel d) d marker [root])) as Hsome.
  { unfold scan_fuel. rewrite scan_pending_step. destruct (fs_read_dir d root) as [entries|] eqn:Er; [|done].
    destruct (scan_entries d marker [] entries) as [[pending|]|] eqn:Es; [|done..].
    apply scan_entries_spec in Es as [-> _].
    assert (separate [root]) as Hs.
    { split; [apply NoDup_singleton|]. by intros p q ->%list_elem_of_singleton ->%list_elem_of_singleton. }
    apply scan_pending_ends; [by eapply separate_step| |].
    - rewrite app_nil_r. apply Forall_forall. intros e [He Hin]%elem_of_reverse%list_elem_of_filter.
      apply (read_dir_spec _ _ _ _ Er) in Hin as (n & -> & _). unfold dir_exists in He.
      apply bool_decide_eq_true in He as [He|He]; [by destruct root|done].
    - etrans; [apply (subseteq_size _ (dk_dirs d)); unfold todo; by intros x [_ Hx]%elem_of_filter|]. lia. }
  split; [done|]. unfold tree_contains_marker. destruct Hsome as [[b|e] E]; rewrite E; cbn.
  - rewrite (scan_pending_spec _ _ _ _ _ E). split.
    + intros (p & q & ->%list_elem_of_singleton & Hq). by exists q.
    + intros (q & Hq). exists root, q. by split; [apply list_elem_of_singleton|].
  - destruct (dir_exists d root) eqn:Ed.
    + apply scan_pending_error in E as [-> ?]; [by auto|]. by apply Forall_singleton.
    + unfold scan_fuel in E. rewrite scan_pending_step in E. unfold fs_read_dir in E.
      rewrite Ed in E. case_bool_decide; injection E as <-; auto.
Qed.
