(* ===== verification/SmokeProps.v ===== *)
(** * SmokeProps

    What the smoke run and the hardening check of Smoke establish: the report of a
    run is truthful, and the race of two configurations ends the same way in either
    order. *)

From S2P Require Import Prelude Bytes Text Effects Domain Crypto Format VPath Fs Protocol ConfigCache.
From S2P Require Import Store Durability Namespace NamespaceInv NamespacePersist DriveProps Smoke.

(** ** Loading names leaves the files alone *)

Section Loading.
Context `{HA : Aead} `{HS : Sha256} (d : Disk) (b : LocalEncryptedStore).

Definition same_files (s : St) : Prop := s_disk s = d /\ bare (s_store s) = b.

(** [m] leaves the files alone when it succeeds. *)
Definition leaves_files {A} (m : store_m A) : Prop := triple same_files m (fun _ => same_files) (fun _ _ => True).

Lemma integrity_failure_leaves {A} : leaves_files (integrity_failure (A := A)).
Proof.
  intros s _. unfold integrity_failure, mbind, M_bind, try.
  by destruct (preserve_namespace_integrity_evidence s) as [[] ?].
Qed.

Lemma leaves_lift {A B} (r : result StorageError A) (k : A -> store_m B) :
  (forall a, leaves_files (k a)) -> leaves_files (a ← lift r; k a).
Proof. intros Hk. apply (triple_bind _ _ _ (fun _ => same_files)); [by apply triple_lift|done]. Qed.

Lemma insert_directory_leaves key e : leaves_files (insert_directory key e).
Proof.
  unfold insert_directory. apply triple_gets_bind. intros t.
  apply (triple_bind _ _ _ (fun _ => same_files)); [by intros s [Hs _]|intros _].
  case_bool_decide; [apply integrity_failure_leaves|by apply triple_ret].
Qed.

Lemma insert_file_leaves key e : leaves_files (insert_file key e).
Proof.
  unfold insert_file. apply triple_gets_bind. intros t.
  apply (triple_bind _ _ _ (fun _ => same_files)); [by intros s [Hs _]|intros _].
  case_bool_decide; [apply integrity_failure_leaves|by apply triple_ret].
Qed.

Lemma load_line_v2_leaves line : leaves_files (load_line_v2 line).
Proof.
  unfold load_line_v2. repeat case_match; try apply integrity_failure_leaves.
  - apply leaves_lift. intros m. apply insert_directory_leaves.
  - do 2 (apply leaves_lift; intros ?). apply insert_file_leaves.
Qed.

Lemma load_line_v1_leaves m line : leaves_files (load_line_v1 m line).
Proof.
  unfold load_line_v1. repeat case_match; try apply integrity_failure_leaves.
  - apply insert_directory_leaves.
  - apply leaves_lift. intros ?. apply insert_file_leaves.
Qed.

Lemma fold_leaves (f : unit -> bytes -> store_m unit) ls :
  (forall u l, leaves_files (f u l)) -> leaves_files (fold_m f tt ls).
Proof.
  intros Hf. eapply triple_conseq;
    [apply (triple_fold f (fun _ _ => same_files) (fun _ _ => True) ls) with (done := [])|done..].
  intros _ l u. apply Hf.
Qed.

Lemma load_namespace_leaves : leaves_files load_namespace.
Proof.
  unfold load_namespace. apply triple_gets_bind. intros s. eapply (triple_conseq _ same_files); [|by intros t []|intros ? ? Ht; exact Ht|done].
  destruct (negb _); [by apply triple_ret|]. apply leaves_lift. intros raw.
  destruct (record_decode raw) as [record|]; [|apply integrity_failure_leaves].
  destruct (_ || _); [apply integrity_failure_leaves|].
  destruct (record_open _ record) as [plain|]; [|apply integrity_failure_leaves].
  apply (triple_bind _ _ _ (fun _ => same_files)); [by apply triple_ensure|intros _].
  apply (triple_bind _ _ _ (fun _ => same_files)); [|by intros _ t []].
  destruct (lines plain) as [|header ls]; [apply integrity_failure_leaves|].
  repeat case_bool_decide; [| |apply integrity_failure_leaves].
  - apply fold_leaves. intros _ l. apply load_line_v2_leaves.
  - apply (triple_bind _ _ _ (fun _ => same_files)); [by intros t []|intros now].
    apply fold_leaves. intros _ l. apply load_line_v1_leaves.
Qed.
End Loading.

(** ** A store opened, used and opened again *)

(** The paths a creation of the store's directories may touch. *)
Definition store_prefix (t : LocalEncryptedStore) (q : fspath) : Prop := q ∈ prefixes (store_dir t ++ [lit "files"]).

Lemma store_prefix_short t q : store_prefix t q -> (length q <= S (length (store_dir t)))%nat.
Proof. intros [n ->]%elem_of_prefixes. rewrite length_take, length_app. cbn. lia. Qed.

Lemma create_dir_all_Ok p w w' :
  fs_create_dir_all p w = (Ok tt, w') -> touches (fun q => q ∈ prefixes p) w w' /\ w_next_file w' = w_next_file w.
Proof.
  intros E. pose proof (fs_create_dir_all_within p w) as Ht. rewrite E in Ht. split; [exact Ht|].
  unfold fs_create_dir_all, consult in E. repeat case_match; simplify_eq/=; done.
Qed.

Section Stores.
Context `{HA : Aead, !AeadLaws HA} `{HS : Sha256}.

Lemma open_run root identity key w t w' :
  open root identity key w = (Ok t, w') ->
  bare t = new_store root identity key /\
  exists w1, touches (store_prefix t) w w1 /\ w_next_file w1 = w_next_file w /\ w_disk w' = w_disk w1 /\
    (fs_exists (w_disk w) (namespace_path t) = false -> t = new_store root identity key /\ w' = w1).
Proof.
  unfold open. intros E. match type of E with (let '(_, _) := ?run in _) = _ => destruct run as [r s] eqn:Er end.
  apply pair_eq in E as [-> <-]. apply bind_Ok in Er as ([] & s1 & E1 & Er).
  apply bind_Ok in Er as ([] & s2 & E2 & E3). apply pair_eq in E3 as [<-%Ok_inj <-].
  pose proof (lift_io_Ok _ _ _ _ E1) as (w1 & Hw1 & ->). cbn [s_world s_store] in Hw1, E2.
  set (t0 := new_store root identity key) in *.
  assert (store_dir t0 ++ [lit "files"] = root ++ [lit "stores"; ci_store_id identity; lit "files"]) as Ep
    by (unfold store_dir; by rewrite <- app_assoc).
  rewrite <- Ep in Hw1. apply create_dir_all_Ok in Hw1 as [Ht Hn].
  pose proof (load_namespace_leaves (w_disk w1) t0 (mkSt t0 w1) ltac:(done)) as Hl. rewrite E2 in Hl.
  destruct Hl as [Hd Hb]. change (store_prefix (s_store s2)) with (store_prefix (bare (s_store s2))).
  change (namespace_path (s_store s2)) with (namespace_path (bare (s_store s2))). rewrite Hb.
  split; [done|]. exists w1. split; [done|]. split; [done|]. split; [done|]. intros Hex.
  rewrite <- (proj2 (to_agree _ _ _ Ht _ (files_dir_not_record t0))) in Hex.
  unfold load_namespace in E2. erewrite bind_step in E2 by reflexivity. cbv zeta in E2. cbn [s_store s_disk s_world] in E2.
  unfold s_disk in E2. cbn [s_world] in E2. rewrite Hex in E2. by apply pair_eq in E2 as [_ <-].
Qed.

Lemma persist_or_persists rollback s s' : persist_or rollback s = (Ok tt, s') -> persist_namespace s = (Ok tt, s').
Proof.
  unfold persist_or. intros (x & s1 & H1 & H)%bind_Ok. unfold try in H1.
  destruct (persist_namespace s) as [[[]|e] s2]; injection H1 as <- <-.
  - by apply pair_eq in H as [_ <-].
  - by apply bind_Ok in H as (u & s3 & _ & ?).
Qed.

Lemma persist_staged s : st_staged (s_store (snd (persist_namespace s))) = st_staged (s_store s).
Proof.
  assert (keeps (fun s => st_staged (s_store s)) persist_namespace) as Hk; [|apply Hk].
  unfold persist_namespace. apply keeps_bind; [apply keeps_gets|intros t].
  apply keeps_bind; [apply keeps_lift|intros g]. apply keeps_bind; [done|intros n].
  apply keeps_bind; [apply keeps_lift|intros [r ns]].
  apply keeps_bind; [apply (keeps_write_record st_staged)|intros _].
  apply keeps_bind; [apply (keeps_io st_staged)|intros _].
  apply keeps_bind; [apply (keeps_marker st_staged)|intros _]. done.
Qed.

(** A new file is open under its handle; nothing but the names changed on disk. *)
Lemma create_run path allow s h s' :
  st_files (s_store s) !! lookup_key path = None -> create_or_open path true allow s = (Ok h, s') ->
  handle_file (s_store s') h = Ok (lit "file-" ++ dec_pad 20 (w_next_file (s_world s))) /\
  bare (s_store s') = bare (s_store s) /\ st_staged (s_store s') = st_staged (s_store s) /\
  touches (in_store_dir (s_store s)) (s_world s) (s_world s').
Proof.
  intros Hn H. unfold create_or_open in H. erewrite bind_step in H by reflexivity. cbv zeta in H. rewrite Hn in H.
  cbn [negb] in H. apply bind_Ok in H as ([] & s1 & E1 & H). apply pair_eq in E1 as [_ <-].
  apply bind_Ok in H as (id & s1 & E1 & H). apply pair_eq in E1 as [<-%Ok_inj <-].
  apply bind_Ok in H as (f & s1 & E1 & H). apply pair_eq in E1 as [Ef <-].
  apply bind_Ok in H as (now & s1 & E1 & H). apply pair_eq in E1 as [_ <-].
  apply bind_Ok in H as ([] & s1 & E1 & H). apply pair_eq in E1 as [_ <-].
  cbn [s_world s_store] in H.
  apply bind_Ok in H as ([] & s2 & E2%persist_or_persists & H).
  match type of E2 with persist_namespace ?x = _ =>
    pose proof (persist_touches x) as Ht; pose proof (persist_bare x) as Hb; pose proof (persist_staged x) as Hst;
    pose proof (keeps_run s_names _ _ _ _ keeps_persist E2) as Hnm end.
  rewrite E2 in Ht, Hb, Hst. cbn [snd] in Ht, Hb, Hst.
  unfold open_handle in H. apply bind_Ok in H as (h' & s3 & E3 & H). apply pair_eq in E3 as [<-%Ok_inj <-].
  apply bind_Ok in H as ([] & s3 & E3 & H). apply pair_eq in E3 as [_ <-]. apply pair_eq in H as [<-%Ok_inj <-].
  split; [|split; [exact Hb|split; [exact Hst|]]].
  - unfold handle_file. cbn [s_store set_handles st_handles st_files]. rewrite lookup_insert_eq. cbn [ok_or mbind result_bind hs_path_key].
    injection Hnm as _ Hf _. cbn in Hf. rewrite Hf, lookup_insert_eq. cbn.
    apply map_err_Ok in Ef. by apply parse_identifier_Ok in Ef as [-> _].
  - eapply touches_trans; [|eapply touches_trans; [exact Ht|]]; by split.
Qed.

(** Closing a handle leaves what a pointer reads. *)
Lemma close_keeps_pointer h s s' file g data :
  close_handle h s = (Ok tt, s') ->
  pointer_reads (s_store s) (s_disk s) (selected_path (s_store s) file) file g data ->
  pointer_reads (s_store s') (s_disk s') (selected_path (s_store s') file) file g data /\
  bare (s_store s') = bare (s_store s).
Proof.
  intros H Hp. unfold close_handle in H. erewrite bind_step in H by reflexivity.
  apply bind_Ok in H as (st & s1 & E1 & H). apply pair_eq in E1 as [_ <-].
  apply bind_Ok in H as ([] & s1 & E1 & H). apply pair_eq in E1 as [_ <-].
  erewrite bind_step in H by reflexivity. cbv zeta in H. destruct (_ && _).
  - apply bind_Ok in H as ([] & s1 & E1 & H%persist_or_persists). apply pair_eq in E1 as [_ <-].
    match type of H with persist_namespace ?x = _ =>
      pose proof (persist_bare x) as Hb; pose proof (persist_keeps_pointer x file g data) as Hk end.
    rewrite H in Hb, Hk. split; [|exact Hb]. apply Hk.
    apply (pointer_reads_bare (s_store s)); [reflexivity|exact Hp].
  - apply pair_eq in H as [_ <-]. split; [|done]. apply (pointer_reads_bare (s_store s)); [reflexivity|exact Hp].
Qed.

(** The selected pointer of [file] leads to a generation with [data]. *)
Definition published (t : LocalEncryptedStore) (d : Disk) (file data : bytes) : Prop :=
  exists g, pointer_reads t d (selected_path t file) file g data.

Lemma published_reads t d file data : published t d file data -> read t d file = Ok data.
Proof. intros [g [_ Hr]]. exact Hr. Qed.

Lemma published_bare t t' d file data : bare t = bare t' -> published t d file data -> published t' d file data.
Proof.
  intros E [g Hp]. exists g. change (selected_path t' file) with (selected_path (bare t') file). rewrite <- E.
  by apply (pointer_reads_bare t).
Qed.

(** What was published reads the same in a store opened anew. *)
Lemma reopen_reads s t' w' file data :
  reopen s = (Ok t', w') -> published (s_store s) (s_disk s) file data ->
  bare t' = bare (s_store s) /\ published t' (w_disk w') file data.
Proof.
  intros H [g Hp]. unfold reopen in H. apply open_run in H as (Hb & w1 & Ht & _ & -> & _).
  assert (bare t' = bare (s_store s)) as Hbare by (by rewrite Hb).
  split; [done|]. apply (published_bare (s_store s)); [done|]. exists g.
  assert (forall x y z l, ~ store_prefix t' (store_dir (s_store s) ++ x :: y :: z :: l)) as Hn.
  { intros x y z l Hq%store_prefix_short. change (store_dir t') with (store_dir (bare t')) in Hq.
    rewrite Hbare in Hq. change (store_dir (bare (s_store s))) with (store_dir (s_store s)) in Hq.
    rewrite length_app in Hq. cbn in Hq. lia. }
  eapply pointer_reads_move; [|exact (to_agree _ _ _ Ht)| |exact Hp].
  - apply (read_record_agree _ _ _ _ (to_agree _ _ _ Ht)). unfold selected_path, file_dir. rewrite <- !app_assoc. apply Hn.
  - intros n. unfold generation_dir, file_dir. rewrite <- !app_assoc. apply Hn.
Qed.

(** A file without a pointer has no content. *)
Lemma current_empty s file :
  st_staged (s_store s) !! file = None -> is_ok (fs_read (s_disk s) (selected_path (s_store s) file)) = false ->
  current s file = [].
Proof.
  intros Hs Hr. unfold current. rewrite Hs. cbn. unfold read, read_from_pointer, read_record.
  by destruct (fs_read _ _).
Qed.

Lemma patched_whole b : patched 0 b [] = b.
Proof.
  unfold patched, overwrite, resize. rewrite !split_at_spec. cbn [fst snd N.to_nat take].
  assert (forall e : bytes, (length e <= length b)%nat -> drop (N.to_nat (0 + len b)) e = []) as Hd.
  { intros e He. apply drop_ge. unfold len. lia. }
  cbn [app]. rewrite Hd; [apply app_nil_r|]. repeat case_match; rewrite ?length_take, ?length_app, ?length_replicate;
    cbn; unfold len; cbn; lia.
Qed.

Lemma healthy_touched (W : fspath -> Prop) s s' file :
  touches W (s_world s) (s_world s') -> bare (s_store s') = bare (s_store s) -> healthy s file -> healthy s' file.
Proof.
  intros [_ Hu Hg Hr] Hb (H1 & H2 & H3 & H4 & H5).
  split; [change (store_wire_id (s_store s')) with (store_wire_id (bare (s_store s'))); by rewrite Hb|].
  split; [done|]. split; [unfold readable, s_disk in *; congruence|].
  split; [intros i; rewrite Hr; apply H4|by rewrite Hg].
Qed.

(** A file created, written, flushed and closed reads back in a store opened anew. *)
Lemma session_reads path b s0 h s1 s2 s3 s4 t' w' :
  let file := lit "file-" ++ dec_pad 20 (w_next_file (s_world s0)) in
  healthy s0 file -> len b <= u64_max ->
  st_files (s_store s0) !! lookup_key path = None -> st_staged (s_store s0) !! file = None ->
  is_ok (fs_read (s_disk s0) (selected_path (s_store s0) file)) = false ->
  create_or_open path true false s0 = (Ok h, s1) -> write_handle h 0 b s1 = (Ok tt, s2) ->
  flush_handle h s2 = (Ok tt, s3) -> close_handle h s3 = (Ok tt, s4) -> reopen s4 = (Ok t', w') ->
  bare t' = bare (s_store s0) /\ published t' (w_disk w') file b.
Proof.
  intros file Hh Hl Hn Hst Hr Hc Hw Hf Hx Ho.
  apply create_run in Hc as (Hhf & Hb & Hs & Ht); [|done]. fold file in Hhf.
  assert (is_ok (fs_read (s_disk s1) (selected_path (s_store s1) file)) = false) as Hr1.
  { change (selected_path (s_store s1)) with (selected_path (bare (s_store s1))). rewrite Hb.
    change (selected_path (bare (s_store s0))) with (selected_path (s_store s0)). unfold s_disk.
    rewrite (proj1 (to_agree _ _ _ Ht (selected_path (s_store s0) file) ltac:(
      intros [n E]; unfold selected_path, file_dir in E; rewrite <- app_assoc in E; by apply app_inv_head in E))).
    exact Hr. }
  pose proof (healthy_touched _ s0 s1 file Ht Hb Hh) as Hh1.
  apply (write_handle_run _ _ _ _ _ file) in Hw as (Hst2 & Hh2 & Hhf2 & Hb2 & _); [|done..].
  rewrite (current_empty s1 file), patched_whole in Hst2 by (done || by rewrite Hs).
  apply (flush_handle_pointer _ _ _ file b) in Hf as (Hp & _ & Hb3); [|done..].
  apply (close_keeps_pointer _ _ _ file _ b Hx) in Hp as [Hp Hb4].
  destruct (reopen_reads s4 t' w' file b Ho) as [Hb5 Hp']; [by eexists|].
  split; [congruence|exact Hp'].
Qed.
End Stores.

(** ** The smoke run reports the truth *)

(** A first run under [root]: nothing is in the backing directory, everything on the
    disk can be read, and the process has just started. *)
Record first_run (root : fspath) (w : World) : Prop := {
  fr_backing : forall q, under (root ++ [lit "backing"]) q = true -> fs_exists (w_disk w) q = false;
  fr_readable : readable (w_disk w);
  fr_rng : forall i, len (w_rng w i) = NONCE_LENGTH;
  fr_generation : w_next_generation w <= u64_max;
  fr_file : w_next_file w = 1;
  (** [as_nanos] is a [u128] *)
  fr_clock : forall i, w_clock w i < 2 ^ 128;
}.

Section Smoke.
Context `{HE : Ed25519} `{HS : Sha256} `{HA : Aead, !AeadLaws HA}.

Lemma with_store_Ok {A} t (m : store_m A) s a t' s' :
  with_store t m s = (Ok (a, t'), s') -> m (mkSt t (lb_world s)) = (Ok a, mkSt t' (lb_world s')).
Proof.
  unfold with_store. destruct (m _) as [[x|e] st] eqn:E; intros H; apply pair_eq in H as [H <-]; [|done].
  apply Ok_inj, pair_eq in H as [<- <-]. cbn. by destruct st.
Qed.

Lemma under_app p l : under p (p ++ l) = true.
Proof. unfold under. apply bool_decide_eq_true. by rewrite take_app_length. Qed.

Lemma reopen_store_Ok t s t' s' :
  reopen_store t s = (Ok t', s') -> reopen (mkSt t (lb_world s)) = (Ok t', lb_world s').
Proof.
  unfold reopen_store. destruct (reopen _) as [[x|e] w] eqn:E; intros H; apply pair_eq in H as [H <-]; [|done].
  by apply Ok_inj in H as <-.
Qed.

Lemma smoke_store_Ok root source s output s' :
  first_run root (lb_world s) -> len source <= u64_max ->
  smoke_store (root ++ [lit "backing"]) source s = (Ok output, s') ->
  output = source /\
  published (new_store (root ++ [lit "backing"]) smoke_identity smoke_key) (w_disk (lb_world s')) smoke_file source.
Proof.
  intros [Hback Hread Hrng Hgen Hfile _] Hlen H. unfold smoke_store in H. set (backing := root ++ [lit "backing"]) in *.
  do 3 (erewrite bind_step in H by reflexivity). change (mkIdentity _ _) with smoke_identity in H.
  set (identity := smoke_identity) in *. set (key := smoke_key) in *.
  apply bind_Ok in H as (t & s1 & E1 & H). unfold open_store in E1.
  destruct (open backing identity key (lb_world s)) as [[t0|e] w1] eqn:Eo; [|done].
  apply pair_eq in E1 as [E1 <-]. apply Ok_inj in E1 as <-.
  apply open_run in Eo as (Hb & w0 & Ht0 & Hf0 & Hd0 & Hnew).
  assert (forall l, fs_exists (w_disk (lb_world s)) (backing ++ l) = false) as Hno by (intros l; apply Hback, under_app).
  destruct Hnew as [-> ->].
  { change (namespace_path t0) with (namespace_path (bare t0)). rewrite Hb.
    unfold namespace_path, store_dir. rewrite <- app_assoc. apply Hno. }
  apply bind_Ok in H as (path & s1 & Ep & H). apply pair_eq in Ep as [_ <-].
  apply bind_Ok in H as ([h t1] & s2 & E2%with_store_Ok & H).
  apply bind_Ok in H as ([[] t2] & s3 & E3%with_store_Ok & H).
  apply bind_Ok in H as ([[] t3] & s4 & E4%with_store_Ok & H).
  apply bind_Ok in H as ([[] t4] & s5 & E5%with_store_Ok & H).
  apply bind_Ok in H as (t5 & s6 & E6%reopen_store_Ok & H).
  unfold read_store in H. erewrite bind_step in H by reflexivity. apply pair_eq in H as [H <-].
  cbn [lb_world] in E2. set (s0 := mkSt (new_store backing identity key) w0) in *.
  assert (lit "file-" ++ dec_pad 20 (w_next_file (s_world s0)) = smoke_file) as Ef
    by (cbn [s_world s0]; rewrite Hf0, Hfile; vm_compute; reflexivity).
  assert (healthy s0 smoke_file) as Hh.
  { destruct Ht0 as [_ Hu Hg Hr]. split; [vm_compute; reflexivity|].
    split; [vm_compute; reflexivity|].
    split; [unfold readable, s_disk in *; cbn [s_world s0]; congruence|].
    split; [intros i; cbn [s_world s0]; rewrite Hr; apply Hrng|cbn [s_world s0]; by rewrite Hg]. }
  assert (is_ok (fs_read (s_disk s0) (selected_path (s_store s0) smoke_file)) = false) as Hr.
  { unfold s_disk. cbn [s_world s_store s0].
    rewrite (proj1 (to_agree _ _ _ Ht0 (selected_path (new_store backing identity key) smoke_file) ltac:(
      intros Hq%store_prefix_short; unfold selected_path, file_dir in Hq; rewrite !length_app in Hq; cbn in Hq; lia))).
    destruct (fs_read _ _) as [c|] eqn:Er; [|done]. apply fs_read_exists in Er.
    unfold selected_path, file_dir, store_dir in Er. rewrite <- !app_assoc in Er. cbn [st_root new_store app] in Er.
    by rewrite Hno in Er. }
  rewrite <- Ef in Hh, Hr, H |- *.
  pose proof (session_reads path source s0 _ _ _ _ _ _ _ Hh Hlen (lookup_empty _) (lookup_empty _) Hr E2 E3 E4 E5 E6) as [Hbare Hp].
  rewrite (published_reads _ _ _ _ Hp) in H. apply Ok_inj in H. split; [done|].
  apply (published_bare t5); [exact Hbare|exact Hp].
Qed.

Lemma size_nat_least n k : n < 2 ^ N.of_nat k -> (N.size_nat n <= k)%nat.
Proof.
  destruct n as [|p]; [cbn; lia|]. cbn [N.size_nat]. revert k. induction p as [p IH|p IH|]; intros k Hk; cbn [Pos.size_nat].
  - destruct k as [|k]; [cbn in Hk; lia|]. apply le_n_S, IH. rewrite Nat2N.inj_succ, N.pow_succ_r' in Hk. lia.
  - destruct k as [|k]; [cbn in Hk; lia|]. apply le_n_S, IH. rewrite Nat2N.inj_succ, N.pow_succ_r' in Hk. lia.
  - destruct k as [|k]; [cbn in Hk; lia|lia].
Qed.

Lemma length_dec_go fuel n acc : (length (dec_go fuel n acc) <= fuel + length acc)%nat.
Proof.
  revert n acc. induction fuel as [|f IH]; intros n acc; cbn [dec_go]; [lia|]. case_match; [cbn; lia|].
  etrans; [apply IH|]. cbn. lia.
Qed.

Lemma len_dec n : n < 2 ^ 128 -> len (dec n) <= 129.
Proof.
  intros Hn. pose proof (size_nat_least n 128 Hn). pose proof (length_dec_go (S (N.size_nat n)) n []) as Hl.
  unfold len, dec. cbn [length] in Hl. lia.
Qed.

Lemma disk_Ok {A} (m : io A) s a s' :
  disk m s = (Ok a, s') -> m (lb_world s) = (Ok a, lb_world s') /\ lb_db s' = lb_db s.
Proof.
  unfold disk. destruct (m (lb_world s)) as [[x|e] w]; intros H; apply pair_eq in H as [H <-]; [|done].
  by apply Ok_inj in H as <-.
Qed.

Lemma statement_Ok {A} e (f : Lite -> option (A * Lite)) s a s' :
  statement e f s = (Ok a, s') ->
  lb_world s' = lb_world s /\ exists db, f (lb_db s) = Some (a, db) /\ lb_db s' = lite_next db.
Proof.
  unfold statement. destruct (li_plan _ _); [|done]. destruct (f (lb_db s)) as [[x db]|]; [|done].
  intros H. apply pair_eq in H as [H <-]. apply Ok_inj in H as <-. split; [done|]. by exists db.
Qed.

(** Statements leave the disk alone. *)
Lemma keeps_statement {A} e (f : Lite -> option (A * Lite)) : keeps lb_world (statement e f).
Proof. intros s. unfold statement. by repeat case_match. Qed.

Lemma first_run_same root w w' : w_disk w' = w_disk w -> w_rng w' = w_rng w ->
  w_next_generation w' = w_next_generation w -> w_next_file w' = w_next_file w -> w_clock w' = w_clock w ->
  first_run root w -> first_run root w'.
Proof. intros Hd Hr Hg Hf Hc []. split; rewrite ?Hd, ?Hr, ?Hg, ?Hf, ?Hc; done. Qed.

Lemma first_run_root root w w' : fs_create_dir_all root w = (Ok tt, w') -> first_run root w -> first_run root w'.
Proof.
  intros E [Hb Hr Hn Hg Hf Hc]. pose proof E as E'. apply create_dir_all_Ok in E as [[Ha Hu Hg' Hr'] Hf'].
  split; [|unfold readable in *; congruence|intros i; rewrite Hr'; apply Hn|by rewrite Hg'|congruence|].
  - intros q Hq. destruct (Ha q) as [_ ->]; [|by apply Hb].
    intros [n E]%elem_of_prefixes. unfold under in Hq. apply bool_decide_eq_true in Hq.
    apply (f_equal length) in Hq. rewrite E, !length_take, !length_app in Hq. cbn in Hq. lia.
  - unfold fs_create_dir_all, consult in E'. by repeat case_match; simplify_eq/=.
Qed.

Lemma create_dir_clock p w w' :
  fs_create_dir_all p w = (Ok tt, w') -> w_clock w' = w_clock w /\ w_ticks w' = w_ticks w.
Proof. unfold fs_create_dir_all, consult. intros E. by repeat case_match; simplify_eq/=. Qed.

Lemma keeps_initialize : keeps lb_world initialize_sqlite_ledger.
Proof.
  unfold initialize_sqlite_ledger. apply keeps_bind; [|intros []; apply keeps_bind; [|intros []]; apply keeps_statement].
  apply keeps_fold. intros u a. apply keeps_statement.
Qed.

Lemma keeps_enroll device : keeps lb_world (enroll_once device).
Proof.
  unfold enroll_once. do 3 (apply keeps_bind; [apply keeps_statement|intros ?]). apply keeps_ensure.
Qed.

Lemma keeps_persist_configuration device c : keeps lb_world (persist_configuration device c).
Proof.
  unfold persist_configuration. apply keeps_bind; [apply keeps_lift|intros v].
  do 2 (apply keeps_bind; [apply keeps_statement|intros ?]). apply keeps_ensure.
Qed.

(** The loop of the four scans. *)
Lemma scans_clean d marker ps s s' :
  fold_m (scan_next d marker) false ps s = (Ok false, s') ->
  s' = s /\ forall p q, p ∈ ps -> in_tree d p q -> ~ marked d marker q.
Proof.
  assert (forall ps s b s', fold_m (scan_next d marker) true ps s = (Ok b, s') -> b = true) as Htrue.
  { clear. induction ps as [|p ps IH]; intros s b s'; cbn [fold_m]; [by intros [<-%Ok_inj _]%pair_eq|].
    erewrite bind_step by reflexivity. apply IH. }
  revert s. induction ps as [|p ps IH]; intros s H; cbn [fold_m] in H.
  - apply pair_eq in H as [_ <-]. split; [done|]. by intros p q ?%not_elem_of_nil.
  - apply bind_Ok in H as (b & s1 & E & H). apply pair_eq in E as [E <-]. destruct b; [by apply Htrue in H|].
    apply IH in H as [-> Hps]. split; [done|]. intros p' q [->|Hp]%elem_of_cons Hq; [|by eapply Hps].
    destruct (tree_scan_exact d p marker) as [_ Hx]. rewrite E in Hx. intros Hm.
    by assert (false = true) by (apply Hx; eauto).
Qed.

Lemma disk_touches {A} W (m : io A) s a s' :
  io_within W m -> disk m s = (Ok a, s') -> touches W (lb_world s) (lb_world s').
Proof. intros Hw [E _]%disk_Ok. specialize (Hw (lb_world s)). by rewrite E in Hw. Qed.

Lemma write_file_touches p b s s' : fs_write_file p b s = (Ok tt, s') -> touches (eq p) (lb_world s) (lb_world s').
Proof.
  unfold fs_write_file. intros ([] & s1 & H1 & H2)%bind_Ok. eapply touches_trans.
  - exact (disk_touches _ _ _ _ _ (fs_create_within p) H1).
  - exact (disk_touches _ _ _ _ _ (fs_write_all_within p b) H2).
Qed.

Lemma create_dirs_touch ps s s' :
  fold_m (fun (_ : unit) p => disk (fs_create_dir_all p)) tt ps s = (Ok tt, s') ->
  touches (fun q => exists p, p ∈ ps /\ q ∈ prefixes p) (lb_world s) (lb_world s').
Proof.
  revert s. induction ps as [|p ps IH]; intros s H; cbn [fold_m] in H.
  - apply pair_eq in H as [_ <-]. apply touches_refl.
  - apply bind_Ok in H as ([] & s1 & H1 & H2). apply (disk_touches _ _ _ _ _ (fs_create_dir_all_within p)) in H1.
    apply IH in H2. eapply touches_trans; (eapply touches_mono; [|eassumption]); set_solver.
Qed.

(** A directory and what is below its siblings are apart. *)
Lemma not_under_sibling root a b l : a <> b -> under (root ++ [a]) (root ++ b :: l) = false.
Proof.
  intros Hab. unfold under. apply bool_decide_eq_false. rewrite length_app. cbn [length].
  rewrite take_app_add. cbn. intros E%app_inv_head. congruence.
Qed.

Lemma not_under_prefix root a b q : a <> b -> q ∈ prefixes (root ++ [b]) -> under (root ++ [a]) q = false.
Proof.
  intros Hab [n ->]%elem_of_prefixes. unfold under. apply bool_decide_eq_false. intros E.
  pose proof (f_equal length E) as El. rewrite !length_take, !length_app in El. cbn in El.
  rewrite (take_ge (root ++ [b])) in E by (rewrite length_app; cbn; lia).
  rewrite take_ge in E by (rewrite !length_app; cbn; lia). apply app_inv_head in E. congruence.
Qed.

Lemma contains_marker_true d p marker c :
  fs_read d p = Ok c -> contains marker c = true -> marked d marker p.
Proof.
  unfold fs_read. case_match; [done|]. destruct (dk_files d !! p) as [x|] eqn:E; [|done]. intros [= ->] Hc. by exists c.
Qed.

Abbreviation control_of root := (root ++ [lit "control-marker.txt"]).
Abbreviation backing_of root := (root ++ [lit "backing"]).

(** The scans touch neither the backing directory nor, once it is written, the
    control file. *)
Lemma smoke_scan_Ok root marker i o s report s' :
  smoke_scan root (backing_of root) marker i o s = (Ok report, s') ->
  report = mkSmokeReport i o true true /\
  touches (fun q => under (backing_of root) q = false) (lb_world s) (lb_world s') /\
  marked (w_disk (lb_world s')) marker (control_of root) /\
  forall p q, p ∈ [backing_of root; root ++ [lit "cache"]; root ++ [lit "logs"]; root ++ [lit "evidence"]] ->
    in_tree (w_disk (lb_world s')) p q -> ~ marked (w_disk (lb_world s')) marker q.
Proof.
  unfold smoke_scan. intros H. apply bind_Ok in H as ([] & s1 & E1%write_file_touches & H).
  erewrite bind_step in H by reflexivity.
  apply bind_Ok in H as (found & s2 & E2 & H). apply pair_eq in E2 as [E2 <-]. cbv zeta in H.
  apply bind_Ok in H as ([] & s3 & E3%create_dirs_touch & H).
  apply bind_Ok in H as ([] & s4 & E4%write_file_touches & H). erewrite bind_step in H by reflexivity.
  apply bind_Ok in H as (leak & s5 & E5 & H). rewrite bind_ensure in H. destruct leak; [done|]. cbn [negb] in H.
  apply pair_eq in H as [<-%Ok_inj <-]. destruct found; [|by apply pair_eq in E5 as [? _]].
  split; [done|]. apply scans_clean in E5 as [-> Hc].
  assert (touches (fun q => under (backing_of root) q = false /\ q <> control_of root) (lb_world s1) (lb_world s4)) as Ht.
  { eapply touches_trans; (eapply touches_mono; [|eassumption]).
    - intros q (p & Hp & Hq). rewrite !elem_of_cons in Hp.
      assert (exists b, b <> lit "backing" /\ b <> lit "control-marker.txt" /\ p = root ++ [b]) as (b & Hb & Hc' & ->)
        by (destruct Hp as [->|[->|[->|[]%not_elem_of_nil]]]; (eexists; split; [|split; [|reflexivity]]); done).
      split; [by apply (not_under_prefix root _ b)|]. intros ->.
      apply (not_under_prefix root (lit "control-marker.txt")) in Hq; [|done].
      pose proof (under_app (control_of root) []) as Hu. rewrite app_nil_r in Hu. congruence.
    - intros q <-. rewrite <- app_assoc. split; [by apply not_under_sibling|]. by intros E%app_inv_head. }
  split; [|split; [|exact Hc]].
  - eapply touches_trans; (eapply touches_mono; [|eassumption]).
    + intros q <-. by apply not_under_sibling.
    + by intros q [? _].
  - unfold contains_marker in E2. destruct (fs_read _ _) as [c|] eqn:Er; [|done]. apply Ok_inj in E2.
    apply (contains_marker_true _ _ _ c); [|exact E2]. rewrite <- Er. apply (to_agree _ _ _ Ht). by intros [_ []].
Qed.

(** The part before the scans: the marker is that of the clock at the start, and
    what was read is what was written and is published in the store. *)
Lemma smoke_session_Ok debug trace root s marker source output s' :
  first_run root (lb_world s) -> smoke_session debug trace root s = (Ok (marker, source, output), s') ->
  marker = lit "phase1-marker-" ++ dec (w_clock (lb_world s) (w_ticks (lb_world s))) /\
  source = lit "confidential:" ++ marker /\ output = source /\
  published (new_store (backing_of root) smoke_identity smoke_key) (w_disk (lb_world s')) smoke_file source.
Proof.
  intros Hfirst H. unfold smoke_session in H.
  apply bind_Ok in H as ([] & s1 & [E1 _]%disk_Ok & H). pose proof (first_run_root _ _ _ E1 Hfirst) as Hf1.
  apply create_dir_clock in E1 as [Hc Ht].
  apply bind_Ok in H as ([] & s2 & E2%(keeps_run lb_world _ _ _ _ (keeps_statement _ _)) & H).
  apply bind_Ok in H as ([] & s3 & E3%(keeps_run lb_world _ _ _ _ keeps_initialize) & H).
  apply bind_Ok in H as ([] & s4 & E4 & H). apply pair_eq in E4 as [_ <-].
  apply bind_Ok in H as (device & s4 & E4 & H). apply pair_eq in E4 as [_ <-].
  apply bind_Ok in H as ([] & s4 & E4%(keeps_run lb_world _ _ _ _ (keeps_enroll _)) & H). cbv zeta in H.
  do 3 (apply bind_Ok in H as (? & s5 & E5 & H); apply pair_eq in E5 as [_ <-]).
  do 2 (apply bind_Ok in H as ([] & ? & ?E%(keeps_run lb_world _ _ _ _ (keeps_persist_configuration _ _)) & H)).
  destruct (activate _ _ _) as [r1 a1]. apply bind_Ok in H as ([] & s7 & E7 & H). apply pair_eq in E7 as [_ <-].
  destruct (activate _ _ _) as [r2 a2]. apply bind_Ok in H as ([] & s7 & E7 & H). apply pair_eq in E7 as [_ <-].
  rewrite bind_ensure in H. destruct (_ && _); [|done]. erewrite bind_step in H by reflexivity.
  assert (lb_world x3 = lb_world s1) as Hw by congruence. rewrite Hw, Hc, Ht in H.
  set (nanos := w_clock _ _) in *. apply bind_Ok in H as (out & s8 & E8 & H).
  apply pair_eq in H as [H <-]. apply Ok_inj in H. apply pair_eq in H as [H <-]. apply pair_eq in H as [<- <-].
  split; [done|]. split; [done|]. apply (smoke_store_Ok root) in E8; [exact E8| |].
  - eapply first_run_same; [..|exact Hf1]; done.
  - pose proof (len_dec nanos (fr_clock _ _ Hfirst _)). rewrite !len_app.
    change (len (lit "confidential:")) with 13. change (len (lit "phase1-marker-")) with 14. unfold u64_max. lia.
Qed.

(** C37.  The report of a smoke run is truthful.  Let the marker be the text of the
    clock at the start of a first run under a directory, and the source that marker
    after [confidential:].  When the run reports, whatever disk operations or
    statements failed before and for every cipher that inverts itself: the bytes it
    read back from the store opened anew are the source, byte for byte, and both
    hashes of the report are the hash of the source; the store still reads the source
    on the disk the run leaves; the control file has the marker in the clear; and no
    file in the trees of the store, the cache, the logs and the evidence contains that
    marker. *)
Theorem smoke_report_true debug trace root s report s' :
  first_run root (lb_world s) -> run_phase1_smoke_async debug trace root s = (Ok report, s') ->
  let marker := lit "phase1-marker-" ++ dec (w_clock (lb_world s) (w_ticks (lb_world s))) in
  let source := lit "confidential:" ++ marker in
  (exists s1, smoke_session debug trace root s = (Ok (marker, source, source), s1)) /\
  report = mkSmokeReport (stable_hash source) (stable_hash source) true true /\
  read (new_store (root ++ [lit "backing"]) smoke_identity smoke_key) (w_disk (lb_world s')) smoke_file = Ok source /\
  marked (w_disk (lb_world s')) marker (root ++ [lit "control-marker.txt"]) /\
  forall name q, name ∈ [lit "backing"; lit "cache"; lit "logs"; lit "evidence"] ->
    in_tree (w_disk (lb_world s')) (root ++ [name]) q -> ~ marked (w_disk (lb_world s')) marker q.
Proof.
  intros Hfirst H marker source. unfold run_phase1_smoke_async in H.
  apply bind_Ok in H as ([[m b] o] & s1 & E1 & H).
  pose proof (smoke_session_Ok _ _ _ _ _ _ _ _ Hfirst E1) as (-> & -> & -> & [g Hp]).
  fold marker source in E1, H, Hp. apply smoke_scan_Ok in H as (-> & Ht & Hm & Hclean).
  split; [by exists s1|]. split; [done|]. split.
  - set (t := new_store _ _ _) in *.
    assert (forall l, ~ under (backing_of root) (store_dir t ++ l) = false) as Hn.
    { intros l. unfold store_dir. cbn [t new_store st_root]. rewrite <- app_assoc, under_app. done. }
    apply published_reads. exists g. eapply pointer_reads_move; [|exact (to_agree _ _ _ Ht)| |exact Hp].
    + apply (read_record_agree _ _ _ _ (to_agree _ _ _ Ht)). unfold selected_path, file_dir. rewrite <- !app_assoc. apply Hn.
    + intros n. unfold generation_dir, file_dir. rewrite <- !app_assoc. apply Hn.
  - split; [exact Hm|]. intros name q Hname. apply Hclean, (list_elem_of_fmap_2 (fun n => root ++ [n]) _ _ Hname).
Qed.
End Smoke.

(** ** The race of two configurations *)

Section Race.
Context `{HE : Ed25519} `{HS : Sha256}.

Definition verified (v : ConfigurationVerifier) (c : SignedConfigurationV1) (version : N) : Prop :=
  verify v (ce_schema_version (sc_envelope c)) (sc_key_id c) (envelope_bytes (sc_envelope c)) (sc_signature c) = Ok tt /\
  configuration_version c = Ok version.

Lemma activate_verified_run v c n active :
  verified v c n ->
  activate c v active =
    if not_newer n (ac_current active) then (Err ConfigurationRejected, active) else (Ok tt, mkActive (Some c) (ac_current active)).
Proof. intros [Hv Hn]. unfold activate. by rewrite Hv, Hn. Qed.

(** The newest wins whoever is first, and what it replaced stays at hand. *)
Lemma race_newest v lo hi m n first active :
  verified v lo m -> verified v hi n -> m < n -> not_newer m (ac_current active) = false ->
  race v lo hi first active = mkActive (Some hi) (if first then Some lo else ac_current active).
Proof.
  intros Hlo Hhi Hlt Hnew. unfold race.
  assert (not_newer n (ac_current active) = false) as Hnew'.
  { unfold not_newer in *. repeat case_match; try done. apply N.leb_gt. apply N.leb_gt in Hnew. lia. }
  pose proof (proj2 Hlo) as Hm. pose proof (proj2 Hhi) as Hn. destruct first.
  - rewrite (activate_verified_run v lo m) by done. rewrite Hnew. cbn [snd].
    rewrite (activate_verified_run v hi n) by done. cbn [ac_current not_newer]. rewrite Hm.
    by rewrite (proj2 (N.leb_gt n m) Hlt).
  - rewrite (activate_verified_run v hi n) by done. rewrite Hnew'. cbn [snd].
    rewrite (activate_verified_run v lo m) by done. cbn [ac_current not_newer]. rewrite Hn.
    by rewrite (proj2 (N.leb_le m n)) by lia.
Qed.
End Race.

(** ** The hardening check accepts what is right *)

Section Hardening.
Context `{HE : Ed25519, !Ed25519Laws HE} `{HS : Sha256}.

Definition smoke_envelope (device version : bytes) : ConfigurationEnvelopeV1 :=
  mkEnvelope 1 1 device version 1700000000 (lit "encrypted-store-required").

Definition smoke_bundle (seed : byte) (device version : bytes) : SignedConfigurationV1 :=
  let e := smoke_envelope device version in
  mkSigned 1 e (lit "phase1-key") (sign_with_seed (repeat seed 32) (envelope_bytes e)) (sha256 (envelope_bytes e)) device.

Lemma signed_bundle seed device version :
  BundleVersion_parse version = Ok version ->
  signed_configuration (phase1_signer seed) device version = Ok (smoke_bundle seed device version).
Proof.
  intros Hv. unfold signed_configuration. rewrite Hv. cbn [rejected map_err mbind result_bind].
  change (ConfigurationEnvelopeV1_new 1 device version 1700000000 (lit "encrypted-store-required"))
    with (@Ok ProtocolError _ (smoke_envelope device version)).
  cbn [rejected map_err mbind result_bind]. unfold SignedConfigurationV1_new, signer_sign. cbn [s_key_id s_seed phase1_signer].
  set (sig := sign_with_seed _ _). assert (sig <> []) as Hs.
  { intros E. pose proof (signature_length (repeat seed 32) (envelope_bytes (smoke_envelope device version))) as Hl.
    fold sig in Hl. by rewrite E in Hl. }
  by rewrite bool_decide_eq_false_2.
Qed.

Lemma verified_bundle vk device version n :
  verifying_key_from_bytes (public_of_seed (repeat x09 32)) = Some vk -> is_weak vk = false ->
  parse_uint u64_max version = Some n ->
  verified (mkVerifier (lit "phase1-key") vk) (smoke_bundle x09 device version) n.
Proof.
  intros Hk Hw Hn. split; [|unfold configuration_version; cbn [smoke_bundle sc_envelope smoke_envelope ce_bundle_version]; by rewrite Hn].
  unfold verify. cbn [smoke_bundle sc_envelope smoke_envelope ce_schema_version sc_key_id sc_signature v_key_id v_verifying_key].
  rewrite bool_decide_eq_true_2, signature_length by done. cbn [N.eqb negb ED25519_SIGNATURE_LENGTH].
  by rewrite (verify_strict_sign _ _ _ Hk Hw).
Qed.

(** A configuration that is not verified, or not newer, changes nothing. *)
Lemma refuse_invalid_Ok v active c :
  is_ok (fst (activate c v active)) = false -> refuse_invalid v active active c = Ok active.
Proof.
  unfold refuse_invalid. intros Hr. destruct (activate c v active) as [r a] eqn:E. cbn [fst] in Hr. rewrite Hr.
  assert (a = active) as -> by (unfold activate in E; by repeat case_match; simplify_eq).
  cbn [orb]. by rewrite bool_decide_eq_true_2.
Qed.

(** The hardening check of configurations passes in either order of its two
    workers: the set ends with version 4 and keeps what it replaced; the bundle of
    another key, the replay and the truncated signature are refused without a trace.
    It needs that the key of the run is not weak and does not verify what another
    seed signed. *)
Theorem hardening_race device three_first vk :
  verifying_key_from_bytes (public_of_seed (repeat x09 32)) = Some vk -> is_weak vk = false ->
  (forall m, verify_strict vk m (sign_with_seed (repeat x08 32) m) = false) ->
  hardening_configurations device three_first =
    Ok (mkActive (Some (smoke_bundle x09 device (lit "4")))
          (Some (smoke_bundle x09 device (lit (if three_first then "3" else "2"))))).
Proof.
  intros Hk Hw Hother. set (v := mkVerifier (lit "phase1-key") vk).
  pose proof (fun x n => verified_bundle vk device x n Hk Hw) as Hver. fold v in Hver.
  assert (from_public_key_bytes (lit "phase1-key") (signer_public_key_bytes (phase1_signer x09)) = Ok v) as Hv.
  { unfold from_public_key_bytes, signer_public_key_bytes. cbn [s_seed phase1_signer]. rewrite Hk.
    cbn [ok_or mbind result_bind]. by rewrite Hw. }
  unfold hardening_configurations. rewrite Hv. cbn [rejected map_err mbind result_bind].
  rewrite (signed_bundle x09 device (lit "1") eq_refl), (signed_bundle x09 device (lit "2") eq_refl),
    (signed_bundle x09 device (lit "3") eq_refl), (signed_bundle x09 device (lit "4") eq_refl),
    (signed_bundle x08 device (lit "5") eq_refl). cbn [mbind result_bind].
  rewrite (activate_verified_run v _ 2) by (apply Hver; reflexivity). cbn [not_newer ac_current map_err mbind result_bind].
  rewrite (race_newest v _ _ 3 4) by first [apply Hver; reflexivity|reflexivity]. cbn [ac_current].
  set (active := mkActive _ _).
  change (BundleVersion_parse (lit "5")) with (@Ok DomainErrorKind _ (lit "5")). cbn [rejected map_err mbind result_bind].
  change (ConfigurationEnvelopeV1_new 1 device (lit "5") 1700000000 (lit "encrypted-store-required"))
    with (@Ok ProtocolError _ (smoke_envelope device (lit "5"))). cbn [rejected map_err mbind result_bind].
  change (SignedConfigurationV1_new (smoke_envelope device (lit "5")) (lit "phase1-key") (repeat x00 63))
    with (@Ok ProtocolError _ (mkSigned 1 (smoke_envelope device (lit "5")) (lit "phase1-key") (repeat x00 63)
      (sha256 (envelope_bytes (smoke_envelope device (lit "5")))) device)).
  cbn [rejected map_err mbind result_bind].
  rewrite refuse_invalid_Ok. 2: {
    unfold activate, verify. cbn [smoke_bundle sc_envelope smoke_envelope ce_schema_version sc_key_id sc_signature v_key_id v v_verifying_key].
    rewrite signature_length, Hother. reflexivity. }
  cbn [mbind result_bind]. rewrite refuse_invalid_Ok. 2: {
    rewrite (activate_verified_run v _ 1) by (apply Hver; reflexivity). reflexivity. }
  cbn [mbind result_bind]. rewrite refuse_invalid_Ok by reflexivity.
  cbn [mbind result_bind]. by destruct three_first.
Qed.
End Hardening.

(** ** Concrete runs *)

From S2P Require Import Toy.

Module ToySmoke.

(** The toy cipher of Toy hides nothing: here the bytes are complemented. *)
Definition mask (b : bytes) : bytes := map (fun c => byte_of (255 - Byte.to_N c)) b.

Definition masked_aead : Aead := {|
  aead_encrypt k n a p := mask <$> @aead_encrypt toy_aead k n a p;
  aead_decrypt k n a c := @aead_decrypt toy_aead k n a (mask c);
|}.

Lemma mask_mask b : mask (mask b) = b.
Proof. unfold mask. induction b as [|c b IH]; [done|]. cbn [map]. rewrite IH. f_equal. by destruct c. Qed.

Lemma len_mask b : len (mask b) = len b.
Proof. unfold len, mask. by rewrite length_map. Qed.

Lemma masked_laws : AeadLaws masked_aead.
Proof.
  split; cbn [aead_encrypt aead_decrypt masked_aead]; intros k n a p c (x & Hx & ->)%fmap_Some.
  - rewrite mask_mask. by apply (@aead_decrypt_encrypt toy_aead _).
  - rewrite len_mask. by apply (@aead_tag_length toy_aead _ k n a).
Qed.

Definition clean : Lab :=
  mkLab (mkWorld (mkDisk ∅ ∅ ∅) (fun _ => Done) 0 (fun n => to_le 12 (n + 1)) 0 (fun n => 1700000000000000000 + n mod 2) 0 1 1 1 1)
    (mkLite ∅ ∅ ∅ ∅ ∅ (fun _ => true) 0).
Definition root : fspath := [lit "smoke"].
Definition run : result SmokeError SmokeReport * Lab :=
  @run_phase1_smoke_async toy_ed25519 toy_sha256 masked_aead true (Some (lit "HTTP/1.1 204 No Content")) root clean.

Lemma clean_first : first_run root (lb_world clean).
Proof.
  split; [|done|by intros i; apply len_to_le|done|done|].
  - intros q Hq. cbn [clean lb_world w_disk]. unfold fs_exists, dir_exists. cbn [dk_files dk_dirs].
    apply orb_false_iff. split; apply bool_decide_eq_false.
    + by intros [c Hc%lookup_empty_Some].
    + intros [->|Hd]; [done|by apply (not_elem_of_empty (C := gset fspath)) in Hd].
  - intros i. cbn [clean lb_world w_clock]. pose proof (N.mod_lt i 2). lia.
Qed.
End ToySmoke.

Lemma smoke_report_true_witness :
  let source := lit "confidential:phase1-marker-1700000000000000000" in
  fst ToySmoke.run = Ok (mkSmokeReport (stable_hash source) (stable_hash source) true true) /\
  exists s1, @smoke_session toy_ed25519 toy_sha256 ToySmoke.masked_aead true (Some (lit "HTTP/1.1 204 No Content"))
    ToySmoke.root ToySmoke.clean = (Ok (lit "phase1-marker-1700000000000000000", source, source), s1).
Proof.
  assert (exists report, fst ToySmoke.run = Ok report) as [report Hr] by (eexists; vm_compute; reflexivity).
  pose proof (@smoke_report_true toy_ed25519 toy_sha256 ToySmoke.masked_aead ToySmoke.masked_laws true
    (Some (lit "HTTP/1.1 204 No Content")) ToySmoke.root ToySmoke.clean report (snd ToySmoke.run) ToySmoke.clean_first
    (eq_trans (surjective_pairing ToySmoke.run) (f_equal (fun r => (r, snd ToySmoke.run)) Hr))) as (Hs & Hrep & _).
  rewrite Hr, Hrep. split; [reflexivity|exact Hs].
Defined.

Module ToySigner.

Definition tag (b : bytes) : bytes := to_le 32 (checksum (2 ^ 256) b).

Lemma len_tag b : len (tag b) = 32.
Proof. unfold tag. by rewrite len_to_le. Qed.

(** A signature names its key in the clear. *)
Definition named_keys : Ed25519 := {|
  verifying_key := bytes;
  verifying_key_from_bytes b := if len b =? 32 then Some b else None;
  is_weak _ := false;
  verify_strict vk m s := bool_decide (s = vk ++ tag m);
  public_of_seed seed := tag seed;
  sign_with_seed seed m := tag seed ++ tag m;
|}.

Lemma named_keys_laws : Ed25519Laws named_keys.
Proof.
  split; cbn [named_keys sign_with_seed public_of_seed verify_strict verifying_key_from_bytes is_weak].
  - intros seed m. by rewrite len_app, !len_tag.
  - intros seed m vk. rewrite len_tag. intros [= <-] _. by apply bool_decide_eq_true.
Qed.
End ToySigner.

Lemma hardening_race_witness :
  is_ok (@hardening_configurations ToySigner.named_keys toy_sha256 (lit "device-hardening") true) = true /\
  is_ok (@hardening_configurations ToySigner.named_keys toy_sha256 (lit "device-hardening") false) = true.
Proof.
  assert (forall m, @verify_strict ToySigner.named_keys (ToySigner.tag (repeat x09 32)) m
    (@sign_with_seed ToySigner.named_keys (repeat x08 32) m) = false) as Hother.
  { intros m. cbn [ToySigner.named_keys sign_with_seed verify_strict]. apply bool_decide_eq_false. intros E%app_inv_tail. vm_compute in E. discriminate. }
  assert (@verifying_key_from_bytes ToySigner.named_keys (@public_of_seed ToySigner.named_keys (repeat x09 32)) =
    Some (ToySigner.tag (repeat x09 32))) as Hk.
  { cbn [ToySigner.named_keys verifying_key_from_bytes public_of_seed]. by rewrite ToySigner.len_tag. }
  pose proof (fun first => @hardening_race ToySigner.named_keys ToySigner.named_keys_laws toy_sha256
    (lit "device-hardening") first (ToySigner.tag (repeat x09 32)) Hk eq_refl Hother) as Hrun.
  split; rewrite Hrun; exact eq_refl.
Defined.
