(* ===== verification/Station.v ===== *)
(** * Station

    The administrator's command line of Dlpctl against the composed server of
    Production: what a provisioning that succeeds leaves on the server and in the
    handoff file.  The network between them is a class, as in EndToEnd. *)

From S2P Require Import Prelude Bytes Text Effects Fs Store Durability Crypto Protocol Fingerprint Tls Directory Ledger Authority Enrollment Client Agent Issuance RouteStore Routes Server Production Dlpctl Smoke.

(** ** The command line *)

Section Main.
Context {S : Type} `{ProvisioningHttp S} `{TrustedStation} `{Sha256} `{Ed25519} `{MigrationDatabase} `{Aead} (h : Host).

Definition smoke_root : fspath := [lit "target"; lit "phase1-smoke"].

(** [main] without its program name: what it prints, if anything, over the disk, the
    network and the database of a smoke run, with its build and its tracer. *)
Definition dlpctl_main (debug_assertions : bool) (trace : option bytes) (arguments : list bytes)
    (p : Endpoint S) (db : Lite) : may_panic (result CliError (option bytes) * Endpoint S * Lite) :=
  match Command_parse arguments with
  | Err e => Returns (Err e, p, db)
  | Ok MigrationStatus =>
      Returns (_ ← migration_status h; Ok (Some (lit "migration 202608070001: applied")), p, db)
  | Ok ConfigurationPublicKey =>
      match configuration_public_key h with
      | Panics => Panics
      | Returns r => Returns (key ← r; Ok (Some key), p, db)
      end
  | Ok (Phase1Smoke _) =>
      let '(r, l) := run_phase1_smoke_async debug_assertions trace smoke_root (mkLab (ep_world p) db) in
      Returns (_ ← map_err (fun _ => CliDatabaseUnavailable) r; Ok (Some (lit "phase1-smoke: passed")),
               mkEndpoint (lb_world l) (ep_net p), lb_db l)
  | Ok (ProvisionDevice computer recovery) =>
      match provision_device h computer recovery p with
      | Panics => Panics
      | Returns (r, p') => Returns (_ ← r; Ok None, p', db)
      end
  | Ok (EnrollmentTokenCreate _) => Returns (Err TrustedStationRequired, p, db)
  end.

(** The smoke run of a release build always fails: [verify_bound_router] does. *)
Theorem release_smoke_fails trace arguments url p db :
  Command_parse arguments = Ok (Phase1Smoke url) ->
  exists p' db', dlpctl_main false trace arguments p db = Returns (Err CliDatabaseUnavailable, p', db').
Proof.
  intros Hc. unfold dlpctl_main. rewrite Hc.
  destruct (run_phase1_smoke_async false trace smoke_root (mkLab (ep_world p) db)) as [[r|e] l] eqn:E; [exfalso|by eauto].
  unfold run_phase1_smoke_async in E. apply bind_Ok in E as (? & ? & E & _). unfold smoke_session in E. do 3 apply bind_Ok in E as ([] & ? & _ & E). by rewrite bind_lift in E.
Qed.
End Main.

(** ** Two fingerprints *)

(** The trusted station and the service never hash the same bytes, whatever they
    observe: the one writes lengths in two bytes, the other in four. *)
Theorem station_fingerprint_differs s t : station_bytes s <> fingerprint_bytes t.
Proof.
  intros E%app_inv_head. apply (f_equal (fun l => nth 1 l x00)) in E. cbv [station_field digest_field] in E.
  rewrite <- !app_assoc in E. discriminate.
Qed.

(** ** Provisioning against the server *)

(** The fields of a request, as the server reads them. *)
Definition administrator_request (r : ProvisioningRequest) : AdministratorProvisioningRequest :=
  mkAdminRequest (pq_version r) (pq_device_id r) (pq_fingerprint_digest r) (pq_ad_object_guid r)
    (pq_ad_object_sid r) (pq_preferred_drive_letter r) (pq_recovery r).

(** The form of requests and responses on the wire: serde writes the fields under the
    names the server reads them by, and a client finds a payload only in the body of a
    provisioning response. *)
Class ProvisioningWire `{RouteJson} := {
  wire_provisioning : ProvisioningRequest -> Request;
  wire_payload : Body -> option ProvisioningResponseJson;
  wire_administrator : TlsClient -> TlsConnectionInfo;
  wire_provisioning_path r : rq_path (wire_provisioning r) = PROVISIONING_PATH;
  wire_provisioning_fields r q : json_provisioning (wire_provisioning r) = Ok q -> q = administrator_request r;
  wire_payload_fields body v d t :
    wire_payload body = Some (mkProvisioningResponse v d t) -> body = ProvisioningBody v d t;
}.

Lemma ProvisionDeviceRequestV1_new_fields v d fv fd guid sid dns dom letter q :
  ProvisionDeviceRequestV1_new v d fv fd guid sid dns dom letter = Ok q ->
  pr_device_id q = d /\ pr_fingerprint_digest q = fd.
Proof.
  unfold ProvisionDeviceRequestV1_new. intros Hq.
  repeat apply result_bind_Ok in Hq as (? & _ & Hq). destruct (_ || _); [done|]. by injection Hq as <-.
Qed.

Lemma agent_disk_Ok {S E F A} (f : E -> F) (m : M World E A) (p p' : Endpoint S) a :
  on_disk f m p = (Ok a, p') -> m (ep_world p) = (Ok a, ep_world p') /\ ep_net p' = ep_net p.
Proof.
  unfold on_disk. destruct (m (ep_world p)) as [[x|e] w]; intros E1; apply pair_eq in E1 as [E1 <-]; [|done].
  by apply Ok_inj in E1 as <-.
Qed.

(** The file of a handoff that succeeded. *)
Lemma handed_token {S} path token (p p' : Endpoint S) :
  handoff_token_to_runtime path token p = (Ok tt, p') ->
  dk_files (w_disk (ep_world p')) !! [path] = Some token /\ ep_net p' = ep_net p /\
  token <> [] /\ len token <= 512 /\ forallb is_ascii_alphanumeric token = true.
Proof.
  unfold handoff_token_to_runtime, handoff_enrollment_token. rewrite bind_ensure.
  destruct (bool_decide_reflect (token = [])); [done|]. cbn [orb].
  destruct (N.ltb_spec 512 (len token)); [done|]. cbn [orb].
  destruct (forallb is_ascii_alphanumeric token); [|done]. cbn [negb].
  intros ([] & p1 & [E1 N1]%agent_disk_Ok & [E2 N2]%agent_disk_Ok)%bind_Ok.
  split; [|split; [congruence|done]].
  apply io_create_Ok in E1 as [E1 _]. apply io_write_all_Ok in E2 as [E2 _]. unfold file_of in E2. by rewrite E1 in E2.
Qed.

Section Provisioned.
Context `{Sha256, !Sha256Laws _} `{Ed25519} `{RouteJson} `{Rcgen} `{Ldap} `{StrLower} `{ProvisioningHttp Pool}.
Context `{!ProvisioningWire} (deployment : Deployment) (client : ProvisioningClient).

(** The server handles what is sent to the endpoint, with its clocks and a fresh UUID. *)
Context (server_now : N) (clock : Z * Z) (uuid : bytes).
Hypothesis network : forall request p,
  post_provisioning (pc_client client) (pc_endpoint client) request p =
    let '(response, p') :=
      production_app deployment server_now clock uuid (wire_administrator (pc_client client))
        (wire_provisioning request) p in
    (Some (rp_status response, wire_payload (rp_body response)), p').

Lemma admin_provision_Ok now u q p response p' :
  ledger_wf (pl_ledger p) -> admin_provision now u q p = (Ok response, p') ->
  ps_enrollment_token response = to_hex u /\ ps_device_id response = pr_device_id q /\
  provisioned now q (sha256 (to_hex u)) (pl_ledger p) (pl_ledger p').
Proof.
  intros Hw. unfold admin_provision. rewrite bind_with_error.
  destruct (provision now u q p) as [[token|e] p1] eqn:Hp; [|done]. apply provision_effect in Hp as [-> Hp]; [|done].
  intros Hr. apply pair_eq in Hr as [Hr <-]. apply map_err_Ok in Hr.
  unfold ProvisionDeviceResponseV1_new in Hr. do 3 apply result_bind_Ok in Hr as ([] & _ & Hr).
  by injection Hr as <-.
Qed.

(** A response that carries a token is one to a provisioning that was done. *)
Lemma provisioning_accepted request p response p' v d token :
  ledger_wf (pl_ledger p) ->
  production_app deployment server_now clock uuid (wire_administrator (pc_client client))
    (wire_provisioning request) p = (response, p') ->
  rp_body response = ProvisioningBody v d token ->
  token = to_hex uuid /\
  exists q, provisioned server_now q (sha256 token) (pl_ledger p) (pl_ledger p') /\
    pr_device_id q = pq_device_id request /\ pr_fingerprint_digest q = pq_fingerprint_digest request.
Proof.
  intros Hw. unfold production_app, build_app, api_v1_router. rewrite wire_provisioning_path.
  vm_compute bool_decide. cbv iota.
  intros [(_ & ->)|(r & Hrun & _ & Hbody)]%post_route_run Hresp; [done|].
  destruct Hbody as [Hbody|Hbody]; [|congruence]. rewrite Hresp in Hbody.
  apply bind_run in Hrun as [(admin & p1 & Hreq & Hrun)|(e & Hreq & ->)]; [|done].
  apply require_administrator_run in Hreq as [-> _]. revert Hrun.
  rewrite bind_lift. destruct (extract _ _ _) as [q|e] eqn:Hq; [|intros [= <- _]; done].
  unfold extract in Hq. destruct (_ <? _) in Hq; [done|]. apply wire_provisioning_fields in Hq as ->.
  unfold admin_provisioning_contract. rewrite bind_ensure. destruct (negb _); [|intros [= <- _]; done]. rewrite bind_lift.
  destruct (ProvisionDeviceRequestV1_new _ _ _ _ _ _ _ _ _) as [w|] eqn:Hw1; cbn [map_err]; [|intros [= <- _]; done].
  apply ProvisionDeviceRequestV1_new_fields in Hw1 as [Hd Hf]. cbv zeta.
  set (w' := if ap_recovery _ then authorize_recovery w else w).
  assert (pr_device_id w' = pq_device_id request /\ pr_fingerprint_digest w' = pq_fingerprint_digest request) as Hw'
    by (unfold w'; destruct (ap_recovery _); by split).
  rewrite bind_with_error. destruct (rs_provision _ w' p) as [[a|e] p2] eqn:Hp; [|intros [= <- _]; done].
  cbn in Hp. intros [= <- <-]. apply admin_provision_Ok in Hp as (Ht & _ & Hp); [|done].
  injection Hbody as _ _ ->. split; [done|]. exists w'. split; [by rewrite Ht|done].
Qed.

(** C15.  What the command line hands over opens an enrollment.  When [provision]
    reports success, the handoff file holds exactly the token the server drew, of at
    most 512 alphanumeric characters, and in the server's ledger the row of the
    requested device has the digest of that token, unspent, for ten minutes from now,
    with the fingerprint of the request. *)
Theorem handed_token_opens request path p p' :
  ledger_wf (pl_ledger (ep_net p)) -> client_provision client request path p = (Ok tt, p') ->
  exists token r,
    dk_files (w_disk (ep_world p')) !! [path] = Some token /\
    token <> [] /\ len token <= 512 /\ forallb is_ascii_alphanumeric token = true /\
    open_token server_now (pq_device_id request) (sha256 token) r (pl_ledger (ep_net p')) /\
    au_token_expires_at r = server_now + ten_minutes /\
    au_fingerprint_digest r = pq_fingerprint_digest request /\
    ledger_wf (pl_ledger (ep_net p')).
Proof.
  intros Hw Hrun. unfold client_provision in Hrun.
  apply bind_Ok in Hrun as ([status payload] & p1 & E1 & Hrun). rewrite network in E1.
  destruct (production_app _ _ _ _ _ _ _) as [response pool] eqn:Happ. cbn in E1.
  apply pair_eq in E1 as [E1 <-]. apply Ok_inj, pair_eq in E1 as [<- <-].
  rewrite bind_ensure in Hrun. destruct (_ && _); [|done]. rewrite bind_lift in Hrun.
  destruct (wire_payload _) as [[v d token]|] eqn:Hpay; [|done]. cbn [ok_or] in Hrun.
  apply wire_payload_fields in Hpay. rewrite bind_lift in Hrun. unfold validate_provisioning_response in Hrun.
  destruct (_ || _); [done|]. cbn [pj_enrollment_token] in Hrun.
  destruct (provisioning_accepted _ _ _ _ _ _ _ Hw Happ Hpay) as (Ht & q & Hp & Hd & Hf).
  apply handed_token in Hrun as (Hfile & Hnet & Hne & Hlen & Halnum). rewrite Hnet. cbn [ep_net].
  pose proof (provisioned_wf _ _ _ _ _ Hw Hp) as Hw'. destruct Hp as (r & Hl & Hdg & Hc & Hx & Hfp & _).
  exists token, r. do 4 (split; [done|]). split; [|split; [done|split; [congruence|done]]]. rewrite <- Hd.
  split; [rewrite Hl; cbn; apply lookup_insert_eq|]. split; [done|]. split; [rewrite Hx; apply N.lt_add_pos_r; reflexivity|done].
Qed.
End Provisioned.

(** ** A concrete station *)

From S2P Require Import Toy ServerToy EndToEnd.

Module Desk.
Import Certs.
#[local] Existing Instances toy_ldap toy_lower.

Definition fields (r : ProvisioningRequest) : N * bytes * bytes * bytes * bytes * N * bool :=
  (pq_version r, pq_device_id r, pq_fingerprint_digest r, pq_ad_object_guid r, pq_ad_object_sid r,
   pq_preferred_drive_letter r, pq_recovery r).

Definition desk_provisioning (rq : Request) : result N AdministratorProvisioningRequest :=
  match (read_bits (rq_body rq) ≫= decode) : option (N * bytes * bytes * bytes * bytes * N * bool) with
  | Some (v, d, f, guid, sid, letter, recovery) => Ok (mkAdminRequest v d f guid sid letter recovery)
  | None => Err BAD_REQUEST
  end.

#[local] Instance desk_json : RouteJson := {|
  json_bootstrap := @json_bootstrap toy_json;
  json_provisioning := desk_provisioning;
  json_health := @json_health toy_json;
|}.

Definition desk_request (r : ProvisioningRequest) : Request :=
  toy_post PROVISIONING_PATH (write_bits (encode (fields r))).

Definition desk_payload (b : Body) : option ProvisioningResponseJson :=
  match b with ProvisioningBody v d t => Some (mkProvisioningResponse v d t) | _ => None end.

#[local] Program Instance desk_wire : ProvisioningWire := {|
  wire_provisioning := desk_request;
  wire_payload := desk_payload;
  wire_administrator _ := toy_admin;
|}.
Next Obligation. done. Qed.
Next Obligation.
  intros r q. cbn. unfold desk_provisioning. cbn [rq_body toy_post desk_request].
  rewrite read_write_bits. cbn [mbind option_bind]. rewrite decode_encode. by intros [= <-].
Qed.
Next Obligation. intros [] v d t; try done. by intros [= -> -> ->]. Qed.

#[local] Instance desk_http : ProvisioningHttp Pool := {|
  url_parse _ := Some (lit "https", Some (lit "dlp.lab"));
  root_from_pem _ := true;
  admin_identity_from_pem _ := true;
  provisioning_client_builds _ := true;
  post_provisioning c _ request p :=
    let '(response, p') := production_app Lab.lab 50 (50, 50)%Z (toy_uuid x11) toy_admin (desk_request request) p in
    (Some (rp_status response, desk_payload (rp_body response)), p');
|}.

Definition client : ProvisioningClient := mkProvisioningClient (mkTlsClient [] None) (lit "https://dlp.lab/").
Definition request : ProvisioningRequest :=
  mkProvisioningRequest 1 toy_device (repeat x07 32) (repeat x01 16) (repeat x02 16) 80 false.
Definition before : Endpoint Pool := mkEndpoint Credential.Machine.world (fresh_pool (fun _ => Answered)).
Definition run : result ProvisioningError unit * Endpoint Pool := client_provision client request (lit "token") before.

Lemma fresh_wf : ledger_wf (pl_ledger (ep_net before)).
Proof. exact (proj1 (served_good Lab.lab (fun _ => Answered) [] _ (served_none Lab.lab _))). Qed.
End Desk.

Lemma handed_token_opens_witness :
  exists token r,
    dk_files (w_disk (ep_world (snd Desk.run))) !! [lit "token"] = Some token /\
    open_token 50 toy_device (sha256 token) r (pl_ledger (ep_net (snd Desk.run))).
Proof.
  assert (fst Desk.run = Ok tt) as E by (vm_compute; reflexivity).
  destruct (@handed_token_opens toy_sha256 toy_ed25519 Desk.desk_json Certs.toy_rcgen toy_ldap toy_lower Desk.desk_http
    Desk.desk_wire Lab.lab Desk.client 50 (50, 50)%Z (toy_uuid x11) (fun _ _ => eq_refl) Desk.request (lit "token")
    Desk.before (snd Desk.run) Desk.fresh_wf
    (eq_trans (surjective_pairing Desk.run) (f_equal (fun r => (r, snd Desk.run)) E)))
    as (token & r & Hfile & _ & _ & _ & Ho & _).
  exists token, r. split; [exact Hfile|exact Ho].
Defined.
