(* ===== verification/Mount.v ===== *)
(** * Mount

    The drive host process from its command line to the removal of its drive
    (crates/dlp-windows-drive/src/bin/dlp-drive-host.rs, function [main]) and the
    WinFsp host it mounts (crates/dlp-windows-drive/src/host.rs).  Its parts up to
    the choice of a letter are those of Drive, its messages those of Pipe, its calls
    those of Win32; the service at the other end is the one of Endpoint.

    The crate winfsp documents that a [FileSystemHost] owns its drive: dropping it
    removes the drive.  Lines printed for a person are left out. *)

From S2P Require Import Prelude Bytes Text Reader Effects Domain Crypto Format Fs Store.
From S2P Require Import Durability Namespace Drive Pipe Win32 Endpoint SmokeProps.

(** ** State *)

(** [MountError]. *)
Inductive MountError :=
| HostUnavailable
| HostStatus (status : N)
| StorageUnavailable.

(** The parameters [start] sets; the others keep their defaults. *)
Record VolumeParams := mkVolumeParams {
  vp_filesystem_name : bytes;
  vp_case_sensitive_search : bool;
  vp_case_preserved_names : bool;
  vp_unicode_on_disk : bool;
  vp_reparse_points : bool;
  vp_named_streams : bool;
  vp_extended_attributes : bool;
}.

Definition volume_params : VolumeParams :=
  mkVolumeParams (lit "DLPDrive") false true true false false false.

(** [WinFspMountedVolume]: the identity, and the host with its parameters, its
    mount point and the store it was given. *)
Record WinFspMountedVolume := mkVolume {
  vo_identity : CapturedStoreIdentity;
  vo_host : N;
  vo_params : VolumeParams;
  vo_point : bytes;
  vo_store : LocalEncryptedStore;
}.

(** The process: its calls, the machine's disk, the drives it shows now and every
    drive it has shown, the last one first. *)
Record Process := mkProcess {
  pr_kernel : Kernel;
  pr_world : World;
  pr_drives : list WinFspMountedVolume;
  pr_shown : list WinFspMountedVolume;
}.

Definition set_kernel (k : Kernel) (p : Process) : Process :=
  mkProcess k (pr_world p) (pr_drives p) (pr_shown p).
Definition set_world (w : World) (p : Process) : Process :=
  mkProcess (pr_kernel p) w (pr_drives p) (pr_shown p).
Definition show (v : WinFspMountedVolume) (p : Process) : Process :=
  mkProcess (pr_kernel p) (pr_world p) (v :: pr_drives p) (v :: pr_shown p).
Definition hide (v : WinFspMountedVolume) (p : Process) : Process :=
  mkProcess (pr_kernel p) (pr_world p)
    (List.filter (fun x => negb (vo_host x =? vo_host v)) (pr_drives p)) (pr_shown p).

(** Calls of the process. *)
Definition calls {E A} (m : M Kernel E A) : M Process E A := fun p =>
  let '(r, k) := m (pr_kernel p) in (r, set_kernel k p).

(** ** The WinFsp host *)

(** [WinFspMountHost::new]. *)
Definition WinFspMountHost_new (mount_point : bytes) : result MountError bytes :=
  if bool_decide (mount_point = []) then Err HostUnavailable else Ok mount_point.

Section Volume.
Context `{Win32}.

(** Dropping a [FileSystemHost]. *)
Definition drop_host {E} (host : N) : M Process E unit :=
  calls (release "FileSystemHost::drop" (Handle host)).

(** [WinFspMountHost::start]: an early return drops the host. *)
Definition WinFspMountHost_start (mount_point : bytes) (context : Dr) :
    M Process MountError WinFspMountedVolume :=
  n ← calls (invoke "winfsp_init" []);
  _ ← ensure (succeeds n) (HostStatus (reported n));
  let identity := st_identity (store_of context) in
  host ← calls (obtain Handle "FileSystemHost::new_with_timer" [] HostUnavailable);
  _ ← on_error (drop_host host) (
    _ ← calls (must "FileSystemHost::start" [] HostUnavailable);
    calls (must "FileSystemHost::mount" mount_point HostUnavailable));
  let volume := mkVolume identity host volume_params mount_point (store_of context) in
  _ ← modify (show volume);
  mret volume.

(** Dropping a [WinFspMountedVolume]. *)
Definition drop_volume {E} (v : WinFspMountedVolume) : M Process E unit :=
  _ ← modify (hide v);
  drop_host (vo_host v).

(** [MountedVolume::unmount]: it takes the volume, which is dropped at its end. *)
Definition unmount (v : WinFspMountedVolume) : M Process MountError unit :=
  _ ← calls (invoke "FileSystemHost::unmount" []);
  _ ← modify (hide v);
  _ ← calls (invoke "FileSystemHost::stop" []);
  drop_host (vo_host v).
End Volume.

(** ** The process *)

Definition ERROR_PIPE_BUSY : N := 231.

(** [format!("{target}:")] of a letter. *)
Definition letter_point (letter : N) : bytes := [byte_of letter; x3a].

Section Host.
Context `{Aead} `{Sha256} `{Win32} `{PipeJson}.
(** The identifier of the process, [try_exists] of the roots, [exists] of a file
    given as text, and what the callbacks of Drive make of the mounted context
    until the drive is removed. *)
Context (process_id : N) (probe : N -> option bool) (exists_path : bytes -> bool) (serve : Dr -> Dr).

(** [write_all] of a length and then of the bytes. *)
Definition write_frame {E} (b : bytes) (e : E) : M Kernel E unit :=
  _ ← must "WriteFile" (to_be 4 (len b)) e;
  _ ← must "WriteFile" b e;
  mret tt.

(** [authenticate_to_service]: [input] is what the service sends until it closes
    the pipe; the pipe and what is still in it are returned. *)
Definition authenticate_to_service (pipe_name : bytes) (session_id generation : N) (input : bytes) :
    M Kernel string (HostBootstrap * (N * bytes)) :=
  busy ← invoke "WaitNamedPipeW" pipe_name;
  _ ← ensure (succeeds busy || (reported busy =? ERROR_PIPE_BUSY)) "pipe_wait_timeout"%string;
  file ← obtain Handle "CreateFileW" pipe_name "pipe_open_failed"%string;
  on_error (release "CloseHandle" (Handle file)) (
    _ ← write_frame (host_request_to_vec
           (mkRequest BOOTSTRAP_PROTOCOL_VERSION session_id process_id generation []))
          "pipe_write_failed"%string;
    '(bootstrap, rest) ← lift (read_answer input);
    mret (bootstrap, (file, rest))).

(** [send_drive_letter_ack]. *)
Definition send_drive_letter_ack (letter : N) : M Kernel string unit :=
  write_frame (ack_to_vec letter) "ack_write_failed"%string.

Definition dll_candidates : list bytes :=
  [lit "C:\Program Files (x86)\WinFsp\bin"; lit "C:\Program Files\WinFsp\bin"].

(** [ensure_winfsp_dll_path]. *)
Definition ensure_winfsp_dll_path {E} : M Kernel E unit :=
  match List.find (fun path => exists_path (path ++ lit "\winfsp-x64.dll")) dll_candidates with
  | Some path => _ ← invoke "SetDllDirectoryW" path; mret tt
  | None => mret tt
  end.

(** The part of [main] that opens the store and chooses a letter. *)
Definition start_store (args : HostArgs) (b : HostBootstrap) : M Process N (Dr * N) := fun p =>
  let '(r, w) := host_start args b probe (pr_world p) in (r, set_world w p).

(** [run_control_loop], which owns the pipe and closes it; there is fuel for every
    message of the input. *)
Definition control {E} (out_of_fuel : E) (file : N) (input : bytes) : M Process E (result string unit) :=
  match run_control_loop input with
  | Some r => _ ← calls (release "CloseHandle" (Handle file)); mret r
  | None => throw out_of_fuel
  end.

(** [main]: an error is the code given to [std::process::exit], which runs no
    destructor. *)
Definition main (arguments : list bytes) (input : bytes) : M Process N unit :=
  args ← lift (ok_or 1 (parse_args arguments));
  '(bootstrap, (file, rest)) ← with_error (fun _ => 2) (calls
     (authenticate_to_service (ha_pipe_name args) (ha_session_id args) (ha_generation args) input));
  '(context, target) ← start_store args bootstrap;
  _ ← calls ensure_winfsp_dll_path;
  point ← lift (map_err (fun _ => 6) (WinFspMountHost_new (letter_point target)));
  volume ← with_error (fun _ => 7) (WinFspMountHost_start point context);
  _ ← with_error (fun _ => 9) (calls (send_drive_letter_ack target));
  _ ← modify (set_world (s_world (dr_st (serve context))));
  _ ← control 0 file rest;
  drop_volume volume.
End Host.

(** ** What the process does, part by part *)

Lemma triple_keeps {S E A X} (f : S -> X) (x : X) P (m : M S E A) Q R :
  triple P m Q R -> keeps f m ->
  triple (fun s => P s /\ f s = x) m (fun a s => Q a s /\ f s = x) (fun e s => R e s /\ f s = x).
Proof.
  intros Hm Hf s [Hs Hx]. specialize (Hm s Hs). specialize (Hf s).
  destruct (m s) as [[a|e] s']; cbn in *; by rewrite Hf.
Qed.

(** A whole frame, or what a failed write left of it. *)
Definition partly `{Win32} (w b : bytes) (k : Kernel) : Prop :=
  exists x, x `prefix_of` encode_frame b /\ written k = w ++ x.

Section Parts.
Context `{Win32} (k0 : Kernel).

(** The process holds [L] and has written [w]. *)
Definition at_call (L : gset resource) (w : bytes) (k : Kernel) : Prop :=
  holds k0 L k /\ written k = w.

Lemma must_write L w argument {E} (e : E) :
  triple (at_call L w) (must "WriteFile" argument e) (fun _ => at_call L (w ++ argument))
    (fun _ k => exists x, x `prefix_of` argument /\ at_call L (w ++ x) k).
Proof.
  intros k [Hk Hw]. rewrite must_run. cbv zeta.
  pose proof (written_write argument (succeeds (len (kn_trace k))) k) as Ew. rewrite Hw in Ew.
  destruct (succeeds (len (kn_trace k))); [split; [by apply holds_trace|exact Ew]|].
  eexists. split; [apply prefix_take|]. split; [by apply holds_trace|exact Ew].
Qed.

Lemma write_frame_spec L w b {E} (e : E) :
  triple (at_call L w) (write_frame b e) (fun _ => at_call L (w ++ encode_frame b))
    (fun _ k => holds k0 L k /\ partly w b k).
Proof.
  unfold write_frame. eapply triple_bind.
  { eapply triple_conseq; [apply must_write|done|intros n k Hk; exact Hk|].
    intros _ k (x & Hx & Hk & Hw). split; [done|]. exists x. split; [by apply prefix_app_r|done]. }
  intros n. eapply triple_bind; [|intros m; apply triple_ret; intros k Hk; exact Hk].
  eapply triple_conseq; [apply must_write|done| |].
  - intros _ k [Hk Hw]. split; [done|]. by rewrite Hw, <- app_assoc.
  - intros _ k (x & Hx & Hk & Hw). split; [done|]. exists (to_be 4 (len b) ++ x).
    split; [by apply prefix_app|by rewrite app_assoc].
Qed.

Context `{PipeJson} (process_id : N).

Definition request_vec (session_id generation : N) : bytes :=
  host_request_to_vec (mkRequest BOOTSTRAP_PROTOCOL_VERSION session_id process_id generation []).

Lemma authenticate_spec L w name session generation input :
  triple (at_call L w) (authenticate_to_service process_id name session generation input)
    (fun x k => let '(b, (file, rest)) := x in
       at_call ({[ Handle file ]} ∪ L) (w ++ encode_frame (request_vec session generation)) k /\
       Handle file ∉ L /\ read_answer input = Ok (b, rest))
    (fun _ k => holds k0 L k /\ partly w (request_vec session generation) k).
Proof.
  assert (forall k, at_call L w k -> holds k0 L k /\ partly w (request_vec session generation) k) as Hnone.
  { intros k [Hk Hw]. split; [done|]. exists []. rewrite app_nil_r. split; [apply prefix_nil|done]. }
  unfold authenticate_to_service. eapply triple_bind.
  { eapply triple_conseq; [apply (triple_keeps written w); [apply (invoke_holds k0 L _ _ (fun _ _ => False))|by apply keeps_written_invoke]|done| |].
    - intros n k Hk. exact Hk.
    - by intros e k []. }
  intros n. apply step_ensure; [intros _|by intros; apply Hnone]. eapply triple_bind.
  { eapply triple_conseq; [apply (triple_keeps written w); [by apply (obtain_holds k0 L)|by apply keeps_written_obtain]|done| |].
    - intros f k Hk. exact Hk.
    - intros e k [(_ & Hk & _) Hw]. by apply Hnone. }
  intros file. intros k [[Hk Hf] Hw].
  eapply (triple_on_error (at_call ({[ Handle file ]} ∪ L) w) _ _ _ _
            (fun _ k => holds k0 ({[ Handle file ]} ∪ L) k /\ partly w (request_vec session generation) k)); [| |done].
  - eapply triple_bind; [apply write_frame_spec|]. intros []. apply step_lift.
    + intros [b rest] Hb. apply triple_ret. intros k1 Hk1. done.
    + intros e k1 [Hk1 Hw1] _. split; [done|]. by exists (encode_frame (request_vec session generation)).
  - intros e k1 [Hk1 (x & Hx & Hw1)]. split; [by apply release_run|]. exists x. split; [done|].
    by rewrite keeps_written_release.
Qed.
End Parts.

(** The choice of a letter and the opening of the store. *)
Lemma all_letters_range l : l ∈ all_letters -> 67 <= l <= 90.
Proof. intros (n & -> & Hn%elem_of_seq)%list_elem_of_fmap. lia. Qed.

Lemma candidate_letter preferred l : l ∈ drive_letter_candidates preferred -> l ∈ all_letters.
Proof.
  intros (n & -> & _)%list_elem_of_fmap. set (i := (_ mod 24)%nat).
  assert (i < length all_letters)%nat as Hi by (change (length all_letters) with 24%nat; apply Nat.mod_upper_bound; lia).
  apply lookup_lt_is_Some in Hi as [x Hx]. rewrite Hx. by eapply list_elem_of_lookup_2.
Qed.

Lemma select_drive_letter_Some probe preferred l :
  select_drive_letter probe preferred = Some l -> l ∈ all_letters /\ probe l = Some false.
Proof.
  unfold select_drive_letter. intros ([i x] & Hf & ->)%fmap_Some.
  apply list_find_Some in Hf as (Hx & Hp & _). split; [|done]. by eapply candidate_letter, list_elem_of_lookup_2.
Qed.

Lemma admit_bootstrap_Ok args b identity key :
  admit_bootstrap args b = Ok (identity, key) ->
  identity = mkIdentity (hb_user_sid b) (hb_store_id b) /\ key = hb_store_key b.
Proof.
  unfold admit_bootstrap, mbind, result_bind. intros E.
  destruct (negb (hb_version b =? _)); [done|]. destruct (_ || _); [done|].
  destruct (UserSid_parse (hb_user_sid b)) as [u|] eqn:EU; [|done]. cbn [map_err] in E.
  destruct (StoreId_parse (hb_store_id b)) as [t|] eqn:ET; [|done]. cbn [map_err] in E.
  apply parse_identifier_Ok in EU as [-> _]. apply parse_identifier_Ok in ET as [-> _].
  destruct (negb _); [done|]. destruct (forallb _ _); [done|]. by apply Ok_inj, pair_eq in E as [<- <-].
Qed.

Lemma admit_bootstrap_Err args b code : admit_bootstrap args b = Err code -> code = 2.
Proof.
  unfold admit_bootstrap, mbind, result_bind.
  destruct (negb (hb_version b =? _)); [congruence|]. destruct (_ || _); [congruence|].
  destruct (UserSid_parse _); [|cbn; congruence]. cbn [map_err].
  destruct (StoreId_parse _); [|cbn; congruence]. cbn [map_err].
  destruct (negb _); [congruence|]. destruct (forallb _ _); congruence.
Qed.

Section Start.
Context `{Aead} `{Sha256}.

(** The store the host serves. *)
Definition serves (b : HostBootstrap) (t : LocalEncryptedStore) : Prop :=
  bare t = new_store (hb_store_root b) (mkIdentity (hb_user_sid b) (hb_store_id b)) (hb_store_key b).

Lemma host_start_run args b probe w r w' :
  host_start args b probe w = (r, w') ->
  match r with
  | Ok (d, letter) => serves b (store_of d) /\ letter ∈ all_letters /\ probe letter = Some false
  | Err code => code ∈ [2; 4; 8]
  end.
Proof.
  unfold host_start. destruct (admit_bootstrap args b) as [[identity key]|code] eqn:EA.
  2: { intros [<- <-]%pair_eq. apply admit_bootstrap_Err in EA as ->. set_solver. }
  apply admit_bootstrap_Ok in EA as [-> ->].
  destruct (open _ _ _ w) as [[t|e] w1] eqn:EO; [|intros [<- <-]%pair_eq; set_solver].
  apply open_run in EO as [Hb _]. unfold new_context. cbn [s_store].
  assert (st_identity t = mkIdentity (hb_user_sid b) (hb_store_id b)) as Hi
    by (change (st_identity t) with (st_identity (bare t)); by rewrite Hb).
  rewrite bool_decide_eq_true_2 by done.
  destruct (select_drive_letter _ _) as [l|] eqn:ES; intros [<- <-]%pair_eq; [|set_solver].
  apply select_drive_letter_Some in ES. done.
Qed.
End Start.

(** ** The process as a whole *)

Section Frames.
Context (drives shown : list WinFspMountedVolume).

(** [P] of the calls, with the drives given. *)
Definition framed (P : Kernel -> Prop) (p : Process) : Prop :=
  P (pr_kernel p) /\ pr_drives p = drives /\ pr_shown p = shown.

Lemma triple_calls {E A} P (m : M Kernel E A) Q R :
  triple P m Q R -> triple (framed P) (calls m) (fun a => framed (Q a)) (fun e => framed (R e)).
Proof.
  intros Hm p (Hp & Hd & Hs). specialize (Hm _ Hp). unfold calls.
  destruct (m (pr_kernel p)) as [[a|e] k]; done.
Qed.
End Frames.

Section Volumes.
Context `{Win32} (k0 : Kernel) (L : gset resource) (w : bytes) (shown : list WinFspMountedVolume).

Lemma drop_host_calls {E} host drives p :
  Handle host ∉ L -> framed drives shown (at_call k0 ({[ Handle host ]} ∪ L) w) p ->
  framed drives shown (at_call k0 L w) (snd (drop_host (E := E) host p)).
Proof.
  intros Hh ([Hk Hw] & Hd & Hs). unfold drop_host, calls.
  pose proof (release_run (E := E) k0 L "FileSystemHost::drop" (Handle host) _ Hh Hk) as Hr.
  pose proof (keeps_written_release (E := E) "FileSystemHost::drop" (Handle host) eq_refl (pr_kernel p)) as Hq.
  destruct (release _ _ (pr_kernel p)) as [r k]. cbn [snd] in *.
  split; [|done]. split; [done|]. cbn [pr_kernel set_kernel]. congruence.
Qed.

Lemma calls_must {E} name argument (e : E) L' drives :
  String.eqb name "WriteFile" = false ->
  triple (framed drives shown (at_call k0 L' w)) (calls (must name argument e))
    (fun _ => framed drives shown (at_call k0 L' w)) (fun _ => framed drives shown (at_call k0 L' w)).
Proof.
  intros Hn. apply triple_calls. eapply triple_conseq.
  - apply (triple_keeps written w); [apply (must_holds k0 L')|by apply keeps_written_must].
  - done.
  - by intros n k [[Hk _] Hw].
  - by intros e' k [(_ & Hk & _) Hw].
Qed.

Lemma mount_start_spec point context :
  triple (framed [] shown (at_call k0 L w)) (WinFspMountHost_start point context)
    (fun v p => framed [v] (v :: shown) (at_call k0 ({[ Handle (vo_host v) ]} ∪ L) w) p /\
       Handle (vo_host v) ∉ L /\
       v = mkVolume (st_identity (store_of context)) (vo_host v) volume_params point (store_of context))
    (fun _ => framed [] shown (at_call k0 L w)).
Proof.
  unfold WinFspMountHost_start. eapply triple_bind.
  { eapply triple_conseq; [apply triple_calls, (triple_keeps written w);
      [apply (invoke_holds k0 L _ _ (fun _ _ => False))|by apply keeps_written_invoke]|done| |].
    - intros n p Hp. exact Hp.
    - by intros e p [[[] _] _]. }
  intros n. apply step_ensure; [intros _|done]. cbv zeta. eapply triple_bind.
  { eapply triple_conseq; [apply triple_calls, (triple_keeps written w);
      [by apply (obtain_holds k0 L)|by apply keeps_written_obtain]|done| |].
    - intros host p ([[Hk Hh] Hw] & Hd & Hs).
      exact (conj (conj (conj Hk Hw) (conj Hd Hs)) Hh : framed [] shown (at_call k0 ({[ Handle host ]} ∪ L) w) p /\ _).
    - by intros e p ([(_ & Hk & _) Hw] & Hd & Hs). }
  intros host. apply triple_pure. intros Hh.
  eapply triple_bind.
  { eapply triple_on_error; [eapply triple_bind; [by apply calls_must|intros ?; by apply calls_must]|].
    intros e p Hp. by apply drop_host_calls. }
  intros ? p (Hk & Hd & Hs). unfold modify, mbind, M_bind, framed, show.
  cbn [mret M_ret pr_kernel pr_drives pr_shown vo_host]. by rewrite Hd, Hs.
Qed.
End Volumes.

Section Main.
Context `{Aead} `{Sha256} `{Win32} `{PipeJson}.
Context (process_id : N) (probe : N -> option bool) (exists_path : bytes -> bool) (serve : Dr -> Dr).

(** The drive of a bootstrap at a letter that was free. *)
Record drive_of (b : HostBootstrap) (letter : N) (v : WinFspMountedVolume) : Prop := {
  do_store : serves b (vo_store v);
  do_identity : vo_identity v = mkIdentity (hb_user_sid b) (hb_store_id b);
  do_params : vo_params v = volume_params;
  do_point : vo_point v = letter_point letter;
  do_letter : letter ∈ all_letters;
  do_free : probe letter = Some false;
}.

(** What the process may have told the service, of which [x] is the last part:
    its request while it has shown no drive, a letter when it has shown the drive
    of the bootstrap at that letter. *)
Inductive told (args : HostArgs) (input w : bytes) (shown : list WinFspMountedVolume) (x : bytes)
    (p : Process) : Prop :=
| told_request :
    x `prefix_of` host_request (ha_session_id args) (ha_generation args) process_id ->
    written (pr_kernel p) = w ++ x -> pr_shown p = shown -> told args input w shown x p
| told_letter b rest v letter :
    read_answer input = Ok (b, rest) -> drive_of b letter v -> pr_shown p = v :: shown ->
    x `prefix_of` drive_letter_ack letter ->
    written (pr_kernel p) = w ++ host_request (ha_session_id args) (ha_generation args) process_id ++ x ->
    told args input w shown x p.

Context (k0 : Kernel) (L : gset resource) (w : bytes) (shown : list WinFspMountedVolume).
Context (args : HostArgs) (input : bytes).

Definition stopped (code : N) (p : Process) : Prop :=
  moved k0 (pr_kernel p) /\ code ∈ [2; 4; 7; 8; 9] /\ (pr_drives p <> [] -> code = 9) /\
  exists x, told args input w shown x p.

Lemma stopped_early code p :
  code ∈ [2; 4; 7; 8; 9] -> moved k0 (pr_kernel p) -> pr_drives p = [] -> pr_shown p = shown ->
  partly w (request_vec process_id (ha_session_id args) (ha_generation args)) (pr_kernel p) -> stopped code p.
Proof.
  intros Hc Hm Hd Hs (x & Hx & Hw). split; [done|]. split; [done|]. split; [by rewrite Hd|].
  exists x. by apply told_request.
Qed.

Lemma dll_path_calls {E} L' w' :
  triple (at_call k0 L' w') (ensure_winfsp_dll_path (E := E) exists_path) (fun _ => at_call k0 L' w')
    (fun _ _ => False).
Proof.
  unfold ensure_winfsp_dll_path. destruct (List.find _ _) as [path|]; [|by apply triple_ret].
  eapply triple_bind; [|intros n; apply triple_ret; intros k Hk; exact Hk].
  eapply triple_conseq; [apply (triple_keeps written w');
    [apply (invoke_holds k0 L' _ _ (fun _ _ => False))|by apply keeps_written_invoke]|done|done|by intros e k []].
Qed.

(** The loop ends and the drive is removed. *)
Lemma finish v file rest context sh w' :
  Handle file ∉ L -> Handle (vo_host v) ∉ {[ Handle file ]} ∪ L ->
  triple (framed [v] sh (at_call k0 ({[ Handle (vo_host v) ]} ∪ ({[ Handle file ]} ∪ L)) w'))
    (_ ← modify (set_world (s_world (dr_st (serve context))));
     _ ← control 0 file rest;
     drop_volume v)
    (fun _ => framed [] sh (at_call k0 L w')) (fun _ _ => False).
Proof.
  intros Hf Hv. destruct (run_control_loop_total rest) as [r Er]. unfold control. rewrite Er.
  apply (triple_bind _ _ _ (fun _ => framed [v] sh (at_call k0 ({[ Handle file ]} ∪ ({[ Handle (vo_host v) ]} ∪ L)) w'))).
  { apply triple_modify. intros p ([Hk Hw] & Hd & Hs). split; [|done]. split; [|done].
    eapply holds_same; [exact Hk|set_solver]. }
  intros ?. apply (triple_bind _ _ _ (fun _ => framed [v] sh (at_call k0 ({[ Handle (vo_host v) ]} ∪ L) w'))).
  { apply (triple_bind _ _ _ (fun _ => framed [v] sh (at_call k0 ({[ Handle (vo_host v) ]} ∪ L) w')));
      [|intros ?; by apply triple_ret].
    eapply triple_conseq; [apply triple_calls, (triple_keeps written w');
      [apply (release_holds k0 ({[ Handle (vo_host v) ]} ∪ L) _ _ (fun _ _ => False)); set_solver|by apply keeps_written_release]|done|done|].
    by intros e p [[[] _] _]. }
  intros ? p ([Hk Hw] & Hd & Hs). unfold drop_volume, modify, mbind, M_bind.
  pose proof (drop_host_calls (E := N) k0 L w' sh (vo_host v) [] (hide v p) ltac:(set_solver)) as Hdrop.
  destruct (drop_host (vo_host v) (hide v p)) as [[[]|e] p'] eqn:Ed; [|by unfold drop_host, calls, release in Ed].
  apply Hdrop. split; [done|]. split; [|done]. unfold hide. cbn [pr_drives]. rewrite Hd. cbn [List.filter].
  by rewrite N.eqb_refl.
Qed.

(** The end of [main]: the letter is told, the loop ends, the drive is removed. *)
Lemma main_tail b rest letter context file :
  let W := w ++ host_request (ha_session_id args) (ha_generation args) process_id in
  read_answer input = Ok (b, rest) -> Handle file ∉ L -> serves b (store_of context) ->
  letter ∈ all_letters -> probe letter = Some false ->
  triple (framed [] shown (at_call k0 ({[ Handle file ]} ∪ L) W))
    (volume ← with_error (fun _ => 7) (WinFspMountHost_start (letter_point letter) context);
     _ ← with_error (fun _ => 9) (calls (send_drive_letter_ack letter));
     _ ← modify (set_world (s_world (dr_st (serve context))));
     _ ← control 0 file rest;
     drop_volume volume)
    (fun _ p => exists v, holds k0 L (pr_kernel p) /\ pr_drives p = [] /\ pr_shown p = v :: shown /\
       drive_of b letter v /\ written (pr_kernel p) = W ++ drive_letter_ack letter)
    stopped.
Proof.
  cbv zeta. intros Hb Hf Hst Hl Hfree. set (W := w ++ _).
  assert (st_identity (store_of context) = mkIdentity (hb_user_sid b) (hb_store_id b)) as Hid
    by (change (st_identity (store_of context)) with (st_identity (bare (store_of context))); by rewrite Hst).
  eapply triple_bind.
  { apply triple_with_error. eapply triple_conseq; [apply mount_start_spec|done| |].
    - intros v p Hv. exact Hv.
    - intros e p ([Hk Hw] & Hd & Hs). apply stopped_early; [set_solver|by eapply holds_moved|done|done|].
      by exists (host_request (ha_session_id args) (ha_generation args) process_id). }
  intros v. apply triple_pure. intros [Hv Ev].
  assert (drive_of b letter v) as Hdv by (rewrite Ev; by split).
  eapply triple_bind.
  { apply triple_with_error. eapply triple_conseq; [apply triple_calls, write_frame_spec|done| |].
    - intros u p Hp. exact Hp.
    - intros e p ((Hk & x & Hx & Hw) & Hd & Hs). split; [by eapply holds_moved|]. split; [set_solver|].
      split; [done|]. exists x. eapply told_letter; try done. rewrite Hw. unfold W. by rewrite <- app_assoc. }
  intros u. eapply triple_conseq; [by apply (finish v file rest context (v :: shown))|done| |done].
  intros _ p ([Hk Hw] & Hd & Hs). by exists v.
Qed.

Lemma main_spec arguments :
  parse_args arguments = Some args ->
  triple (framed [] shown (at_call k0 L w)) (main process_id probe exists_path serve arguments input)
    (fun _ p => exists b rest letter v, read_answer input = Ok (b, rest) /\
       holds k0 L (pr_kernel p) /\ pr_drives p = [] /\ pr_shown p = v :: shown /\ drive_of b letter v /\
       written (pr_kernel p) =
         (w ++ host_request (ha_session_id args) (ha_generation args) process_id) ++ drive_letter_ack letter)
    stopped.
Proof.
  intros Ha. unfold main. rewrite Ha. cbn [ok_or]. apply step_lift; [|done]. intros a <-%Ok_inj.
  eapply triple_bind.
  { apply triple_with_error. eapply triple_conseq; [apply triple_calls, authenticate_spec|done| |].
    - intros x p Hp. exact Hp.
    - intros e p ([Hk Hp] & Hd & Hs). apply stopped_early; try done; [set_solver|by eapply holds_moved]. }
  intros [b [file rest]] p ((Hk & Hf & Hb) & Hd & Hs). unfold start_store, mbind at 1, M_bind at 1.
  destruct (host_start args b probe (pr_world p)) as [r w'] eqn:ES. apply host_start_run in ES.
  destruct r as [[context target]|code].
  2: { apply stopped_early; [set_solver|by eapply holds_moved, (proj1 Hk)|done|done|].
       exists (host_request (ha_session_id args) (ha_generation args) process_id). by split; [|apply Hk]. }
  destruct ES as (Hst & Hl & Hfree).
  assert (framed [] shown (at_call k0 ({[ Handle file ]} ∪ L)
    (w ++ host_request (ha_session_id args) (ha_generation args) process_id)) (set_world w' p)) as Hp by done.
  revert Hp. generalize (set_world w' p). clear p Hk Hd Hs.
  eapply triple_bind.
  { eapply triple_conseq; [apply triple_calls, dll_path_calls|done|intros u p Hp; exact Hp|by intros e p [[] _]]. }
  intros u. unfold WinFspMountHost_new. rewrite bool_decide_eq_false_2 by done. cbn [map_err].
  apply step_lift; [|done]. intros point <-%Ok_inj.
  eapply triple_conseq; [by eapply (main_tail b rest target context file)|done| |done].
  intros _ p (v & Hp). by exists b, rest, target, v.
Qed.
End Main.

(** ** With the service at the other end *)

Section Agreement.
Context `{Aead} `{Sha256} `{Sids} `{WindowsErrors} `{PipeJson}.

Lemma read_frame_Ok {E} (e1 e2 e3 : E) s b rest :
  read_frame e1 e2 e3 s = Ok (b, rest) -> len b <= MAX_MESSAGE_BYTES /\ s = encode_frame b ++ rest.
Proof.
  unfold read_frame. intros. inv_reader. unfold encode_frame. rewrite <- app_assoc. split; [|done].
  match goal with H : negb _ = true |- _ => by apply negb_true_iff, N.ltb_ge in H end.
Qed.

(** A frame read from part of what was sent is the one that was sent. *)
Lemma read_frame_prefix {E} (e1 e2 e3 : E) s x tail b rest :
  read_frame e1 e2 e3 s = Ok (b, rest) -> s `prefix_of` encode_frame x ++ tail ->
  len x <= MAX_MESSAGE_BYTES -> b = x /\ rest `prefix_of` tail.
Proof.
  intros [Hb ->]%read_frame_Ok [more Hm] Hx.
  pose proof (read_frame_encode tt tt tt b (rest ++ more) Hb) as R1. rewrite app_assoc, <- Hm in R1.
  rewrite read_frame_encode in R1 by done. apply Ok_inj, pair_eq in R1 as [-> Ht].
  split; [done|]. by exists more.
Qed.

(** The service reads a letter only from an acknowledgement of it. *)
Lemma letter_read e request tail s rest letter :
  read_request e s = Ok rest -> read_ack rest = Ok letter -> len request <= MAX_MESSAGE_BYTES ->
  s `prefix_of` encode_frame request ++ tail -> rest `prefix_of` tail /\ tail <> [].
Proof.
  intros Hr Ha Hl Hs. unfold read_request, mbind, result_bind in Hr.
  destruct (read_frame _ _ _ s) as [[v rest']|] eqn:EF; [|done].
  destruct (request_from_slice v) as [q|]; [|done]. cbn [ok_or] in Hr.
  destruct (validate_request _ _ _ q); [|done]. apply Ok_inj in Hr as ->.
  destruct (read_frame_prefix _ _ _ _ _ _ _ _ EF Hs Hl) as [_ Hp]. split; [done|].
  intros ->. apply prefix_nil_inv in Hp as ->. done.
Qed.

Context `{Win32}.

Lemma accept_client_Ok h e b input k h' letter k' :
  accept_client h e b input k = (Ok (h', letter), k') ->
  exists rest v, read_request e input = Ok rest /\ bootstrap_to_vec b = Some v /\
    read_ack rest = Ok letter /\
    written k' = written k ++ encode_frame (response_to_vec accepted_response) ++ encode_frame v.
Proof.
  unfold accept_client. intros ([] & k1 & E1 & (l & k2 & E2 & E3)%bind_Ok)%bind_Ok.
  apply pair_eq in E3 as [[_ ->]%Ok_inj%pair_eq <-]. unfold on_error in E1, E2.
  pose proof (keeps_written_identify e k) as Hw.
  destruct (identify_client e k) as [[[]|x] k3]; [|done]. apply pair_eq in E1 as [_ ->]. cbn [snd] in Hw.
  destruct (exchange e b input k1) as [[l'|x] k4] eqn:Ex; [|done]. apply pair_eq in E2 as [->%Ok_inj ->].
  unfold exchange in Ex. rewrite bind_lift in Ex. destruct (read_request e input) as [rest|]; [|done].
  apply bind_Ok in Ex as (n & k5 & E5 & Ex). rewrite bind_lift in Ex.
  destruct (bootstrap_to_vec b) as [v|]; [|done]. cbn [ok_or] in Ex.
  apply bind_Ok in Ex as (m & k6 & E6 & [Hack <-]%pair_eq). rewrite must_run in E5, E6. cbv zeta in E5, E6.
  exists rest, v. split; [done|]. split; [done|]. split; [done|]. rewrite <- Hw.
  destruct (succeeds (len (kn_trace k1))) eqn:S1; [|done].
  destruct (succeeds (len (kn_trace k5))) eqn:S2; [|done].
  apply pair_eq in E5 as [_ <-]. apply pair_eq in E6 as [_ <-].
  by rewrite !written_write, <- app_assoc.
Qed.
End Agreement.

Lemma char_upper_letter l : l ∈ all_letters -> char_upper l = l.
Proof. intros Hl%all_letters_range. unfold char_upper. by rewrite (proj2 (N.leb_gt _ _)) by lia. Qed.

Lemma ack_read `{PipeJson} (Hlaws : PipeJsonLaws _) s l letter :
  read_ack s = Ok letter -> s `prefix_of` drive_letter_ack l -> len (ack_to_vec l) <= MAX_MESSAGE_BYTES ->
  l ∈ all_letters -> letter = l.
Proof.
  intros Ha Hs Hl Hin. unfold read_ack, mbind, result_bind in Ha.
  destruct (read_frame _ _ _ s) as [[v rest]|] eqn:EF; [|done].
  destruct (read_frame_prefix _ _ _ s (ack_to_vec l) [] v rest EF) as [-> _]; [by rewrite app_nil_r|done|].
  rewrite ack_roundtrip in Ha. cbn [ok_or] in Ha. apply Ok_inj in Ha as <-. by apply char_upper_letter.
Qed.

(** [x] is the last thing the process told, whatever came of it. *)
Lemma main_told `{Aead} `{Sha256} `{Win32} `{PipeJson} process_id probe exists_path serve arguments args input p r p' :
  parse_args arguments = Some args -> kernel_wf (pr_kernel p) -> pr_drives p = [] ->
  main process_id probe exists_path serve arguments input p = (r, p') ->
  exists x, told process_id probe args input (written (pr_kernel p)) (pr_shown p) x p'.
Proof.
  intros Ha Hk Hd Em.
  pose proof (main_spec process_id probe exists_path serve (pr_kernel p) (kn_live (pr_kernel p))
    (written (pr_kernel p)) (pr_shown p) args input arguments Ha p) as Hm.
  rewrite Em in Hm. specialize (Hm ltac:(split; [split; [by apply holds_start|done]|done])).
  destruct r as [[]|code].
  - destruct Hm as (b & rest & letter & v & Hb & _ & _ & Hs & Hv & Hw).
    exists (drive_letter_ack letter). eapply told_letter; try done. by rewrite Hw, <- app_assoc.
  - by destruct Hm as (_ & _ & _ & Hx).
Qed.

Section Theorems.
Context `{Aead} `{Sha256} `{PipeJson}.

(** C22.  The drive host, whatever calls fail and whatever it is sent: it never gives
    back what it does not hold; it exits with one of the codes 1, 2, 4, 7, 8 and 9,
    and only the last of them, when the letter could not be told to the service,
    with its drive in place; it returns only when the control channel ended, and
    then its drive is removed and every handle it took is closed, it has shown one
    drive, the store of the bootstrap at a letter that was free, and has written
    its request and then that letter. *)
Theorem host_lifecycle `{Win32} process_id probe exists_path serve arguments input p :
  kernel_wf (pr_kernel p) -> pr_drives p = [] ->
  let '(r, p') := main process_id probe exists_path serve arguments input p in
  kn_faults (pr_kernel p') = kn_faults (pr_kernel p) /\
  match r with
  | Ok _ =>
      pr_drives p' = [] /\ kn_live (pr_kernel p') = kn_live (pr_kernel p) /\
      exists args b rest letter v,
        parse_args arguments = Some args /\ read_answer input = Ok (b, rest) /\
        drive_of probe b letter v /\ pr_shown p' = v :: pr_shown p /\
        written (pr_kernel p') = written (pr_kernel p) ++
          host_request (ha_session_id args) (ha_generation args) process_id ++ drive_letter_ack letter
  | Err code => code ∈ [1; 2; 4; 7; 8; 9] /\ (pr_drives p' <> [] -> code = 9)
  end.
Proof.
  intros Hk Hd. destruct (parse_args arguments) as [args|] eqn:Ha.
  2: { unfold main. rewrite Ha. cbn. split; [done|]. split; [set_solver|by rewrite Hd]. }
  pose proof (main_spec process_id probe exists_path serve (pr_kernel p) (kn_live (pr_kernel p))
    (written (pr_kernel p)) (pr_shown p) args input arguments Ha p) as Hm.
  specialize (Hm ltac:(split; [split; [by apply holds_start|done]|done])).
  destruct (main _ _ _ _ arguments input p) as [[[]|code] p'].
  - destruct Hm as (b & rest & letter & v & Hb & Hh & Hd' & Hs & Hv & Hw). destruct Hh as [Hl Hf _ _ _].
    split; [done|]. split; [done|]. split; [done|]. exists args, b, rest, letter, v.
    by rewrite Hw, <- app_assoc.
  - destruct Hm as ([Hf _] & Hc & H9 & _). split; [done|]. split; [set_solver|done].
Qed.

(** C10.  The service and the host agree on the drive.  Let the two talk over one
    pipe, each with calls of its own that may fail: what the service writes is what
    the host reads first, what the host writes is what the service reads.  When the
    service comes to hold a letter, the host has shown a drive at that letter, which
    was free, and the drive is the store the service named, under its root, for its
    user, with its key. *)
Theorem reported_letter_mounted (service_calls host_calls : Win32) `{Sids} `{WindowsErrors}
    (Hlaws : PipeJsonLaws _) process_id probe exists_path serve arguments args control p r p'
    h e b ks h' letter ks' out sent :
  main (H1 := host_calls) process_id probe exists_path serve arguments (sent ++ control) p = (r, p') ->
  accept_client (H := service_calls) h e b out ks = (Ok (h', letter), ks') ->
  written (H := host_calls) (pr_kernel p') = written (H := host_calls) (pr_kernel p) ++ out ->
  written (H := service_calls) ks' = written (H := service_calls) ks ++ sent ->
  parse_args arguments = Some args -> kernel_wf (pr_kernel p) -> pr_drives p = [] ->
  len (request_vec process_id (ha_session_id args) (ha_generation args)) <= MAX_MESSAGE_BYTES ->
  len (response_to_vec accepted_response) <= MAX_MESSAGE_BYTES ->
  (forall v, bootstrap_to_vec b = Some v -> len v <= MAX_MESSAGE_BYTES) ->
  (forall l, l ∈ all_letters -> len (ack_to_vec l) <= MAX_MESSAGE_BYTES) ->
  exists v, pr_shown p' = v :: pr_shown p /\ vo_point v = letter_point letter /\
    probe letter = Some false /\ vo_identity v = mkIdentity (sb_user_sid b) (sb_store_id b) /\
    st_root (vo_store v) = sb_store_root b /\ st_key (vo_store v) = sb_store_key b.
Proof.
  intros Em Es Hout Hsent Ha Hk Hd Lq Lr Lb La.
  apply accept_client_Ok in Es as (rest & v & Hreq & Hv & Hack & Hw).
  rewrite Hsent in Hw. apply app_inv_head in Hw as ->.
  destruct (main_told _ _ _ _ _ _ _ _ _ _ Ha Hk Hd Em) as (x & Ht). destruct Ht as [Hx Hw Hs|b' rest' d l Hb Hv' Hs Hx Hw].
  - rewrite Hw in Hout. apply app_inv_head in Hout as ->.
    destruct (letter_read e _ [] _ _ _ Hreq Hack Lq) as [_ []]; [|done]. by rewrite app_nil_r.
  - rewrite Hw in Hout. apply app_inv_head in Hout as <-.
    rewrite <- app_assoc, (read_answer_Ok b v control Hv (Lb v Hv) Lr) in Hb.
    apply Ok_inj, pair_eq in Hb as [<- _]. destruct Hv' as [Hst Hid _ Hp Hl Hfree].
    destruct (letter_read e _ (drive_letter_ack l) _ _ _ Hreq Hack Lq) as [Hrest _]; [by apply prefix_app|].
    pose proof (ack_read Hlaws _ _ _ Hack Hrest (La l Hl) Hl) as ->.
    exists d. split; [done|]. split; [done|]. split; [done|]. split; [done|].
    change (st_root (vo_store d)) with (st_root (bare (vo_store d))).
    change (st_key (vo_store d)) with (st_key (bare (vo_store d))). by rewrite Hst.
Qed.
End Theorems.

(** ** A service and its host *)

From S2P Require Import Toy.
Import ToyJson ToyKernel ToySids.

Module ToyHost.
Definition world : World :=
  mkWorld (mkDisk ∅ ∅ ∅) (fun _ => Done) 0 (fun n => to_le 12 (n + 1)) 0 (fun n => n) 0 1 1 1 1.
Definition process : Process := mkProcess kernel world [] [].
(** The drives C to P are taken. *)
Definition taken (letter : N) : option bool := Some (letter <=? 80).
Definition arguments : list bytes :=
  [lit "--pipe-name"; lit "\\.\pipe\dlp-actor-9"; lit "--session-id"; lit "2"; lit "--generation"; lit "9"].
Definition parsed : HostArgs := mkHostArgs (lit "\\.\pipe\dlp-actor-9") 2 9.
Definition frames : bytes :=
  encode_frame (response_to_vec accepted_response) ++ encode_frame (default [] (bootstrap_to_vec store)).
Definition told_service : bytes := host_request 2 9 2 ++ drive_letter_ack 81.

(** The two of them, by evaluation. *)
Abbreviation run := (main 2 taken (fun _ => false) (fun d => d) arguments (frames ++ [x00]) process).
Abbreviation served := (accept_client 0 host store told_service listening).

Lemma run_ok : bool_decide (fst run = Ok tt) = true.
Proof. vm_compute. reflexivity. Qed.
Lemma run_tells : bool_decide (written (pr_kernel (snd run)) = told_service) = true.
Proof. vm_compute. reflexivity. Qed.
Lemma served_ok : bool_decide (fst served = Ok (0, 81)) = true.
Proof. vm_compute. reflexivity. Qed.
Lemma served_tells : bool_decide (written (snd served) = frames) = true.
Proof. vm_compute. reflexivity. Qed.

Lemma run_ends : exists p', run = (Ok tt, p') /\ written (pr_kernel p') = written (pr_kernel process) ++ told_service.
Proof.
  pose proof (bool_decide_eq_true_1 _ run_ok) as Hr. pose proof (bool_decide_eq_true_1 _ run_tells) as Hw.
  destruct run as [r p']. cbn [fst snd] in Hr, Hw. subst r. exists p'. split; [done|]. by rewrite Hw.
Qed.

Lemma served_ends : exists ks', served = (Ok (0, 81), ks') /\ written ks' = written listening ++ frames.
Proof.
  pose proof (bool_decide_eq_true_1 _ served_ok) as Hr. pose proof (bool_decide_eq_true_1 _ served_tells) as Hw.
  destruct served as [r ks']. cbn [fst snd] in Hr, Hw. subst r. exists ks'. split; [done|]. by rewrite Hw.
Qed.

Lemma sizes :
  forallb (fun l => len (ack_to_vec l) <=? MAX_MESSAGE_BYTES) all_letters = true /\
  (len (request_vec 2 2 9) <=? MAX_MESSAGE_BYTES) = true /\
  (len (response_to_vec accepted_response) <=? MAX_MESSAGE_BYTES) = true /\
  (len (default [] (bootstrap_to_vec store)) <=? MAX_MESSAGE_BYTES) = true.
Proof. vm_compute. done. Qed.
End ToyHost.

Import ToyHost.

Lemma host_lifecycle_witness :
  exists p', run = (Ok tt, p') /\ pr_drives p' = [] /\ kn_live (pr_kernel p') = ∅.
Proof.
  destruct run_ends as (p' & Er & _). exists p'. split; [exact Er|].
  pose proof (host_lifecycle 2 taken (fun _ => false) (fun d => d) arguments (frames ++ [x00]) process
    kernel_wf_empty eq_refl) as Ht.
  rewrite Er in Ht. destruct Ht as (_ & Hd & Hl & _). exact (conj Hd Hl).
Defined.

Lemma reported_letter_mounted_witness :
  exists p' v, run = (Ok tt, p') /\ pr_shown p' = [v] /\ vo_point v = letter_point 81 /\
    vo_identity v = mkIdentity (sb_user_sid store) (sb_store_id store) /\
    st_key (vo_store v) = sb_store_key store.
Proof.
  destruct run_ends as (p' & Er & Hw), served_ends as (ks' & Es & Hs), sizes as (La & Lq & Lr & Lb).
  destruct (reported_letter_mounted toy_win32 toy_win32 toy_json_laws 2 taken (fun _ => false) (fun d => d)
    arguments parsed [x00] process (Ok tt) p' 0 host store listening 0 81 ks' told_service frames Er Es Hw Hs)
    as (v & Hv & Hp & _ & Hi & _ & Hk).
  - reflexivity.
  - exact kernel_wf_empty.
  - reflexivity.
  - exact (proj1 (N.leb_le _ _) Lq).
  - exact (proj1 (N.leb_le _ _) Lr).
  - intros v Hv. assert (v = default [] (bootstrap_to_vec store)) as -> by (by rewrite Hv).
    exact (proj1 (N.leb_le _ _) Lb).
  - intros l Hl. apply N.leb_le. exact (proj1 (forallb_forall _ _) La l (proj1 (list_elem_of_In _ _) Hl)).
  - exists p', v. exact (conj Er (conj Hv (conj Hp (conj Hi Hk)))).
Defined.
