(* ===== verification/Lifetime.v ===== *)
(** * Lifetime

    The running service (function [service_main] of
    crates/dlp-windows-service/src/service.rs, from the thread it spawns to the last
    status it reports): the handler of the service manager's controls, the session
    thread, the service loop and the main thread, interleaved.  They share two
    channels, one of session events and one of shutdown signals, and the snapshot of
    the mounts behind its mutex.

    Service describes the session thread and the loop each by itself, over the
    inputs it receives; the refinement here shows, over the steps of a run, that the
    interleaved system is those two, that nothing sent to them is lost, and which
    snapshots the loop sees. *)

From S2P Require Import Prelude Bytes Text Effects Domain Crypto Fs Protocol ConfigCache Session Credential Tls Directory Enrollment Client Agent Service.

(** ** State *)

(** The session thread: in its loop, past the [break], ended. *)
Inductive ThreadPhase := ThreadLooping | ThreadStopping | ThreadDone.

(** The service loop: not spawned yet, at the test of the shutdown signal, between
    the poll and the health report, ended. *)
Inductive LoopPhase := LoopUnborn | LoopTop | LoopPolled (now epoch_seconds : N) | LoopDone.

(** The main thread: sending a logon for each session that was active, waiting for
    the loop, joining the session thread, returned. *)
Inductive MainPhase := Reconciling (sessions : list N) | AwaitingLoop | JoiningThread | MainDone.

Record System (S : Type) := mkSystem {
  sy_events : list SessionEvent;
  sy_signals : nat;
  sy_thread : ThreadPhase;
  sy_monitor : Monitor;
  sy_mounts : list MountAttempt;
  sy_phase : LoopPhase;
  sy_loop : LoopState S;
  sy_main : MainPhase;
  sy_statuses : list ScmStatus;
}.
Arguments mkSystem {S} _ _ _ _ _ _ _ _ _.
Arguments sy_events {S} _.
Arguments sy_signals {S} _.
Arguments sy_thread {S} _.
Arguments sy_monitor {S} _.
Arguments sy_mounts {S} _.
Arguments sy_phase {S} _.
Arguments sy_loop {S} _.
Arguments sy_main {S} _.
Arguments sy_statuses {S} _.

Section Lifetime.
Context {S : Type} `{HttpClient S} `{Sha256} `{Ed25519} `{Providers}.
Context (config : ServiceConfig) (client : AgentHttpClient) (pkg_version : bytes).

(** ** Operations *)

(** [Sender::send], its failure ignored: nothing is kept once the receiver is gone. *)
Definition send_event (e : SessionEvent) (r : System S) : System S :=
  mkSystem (match sy_thread r with ThreadDone => sy_events r | _ => sy_events r ++ [e] end)
    (sy_signals r) (sy_thread r) (sy_monitor r) (sy_mounts r) (sy_phase r) (sy_loop r) (sy_main r) (sy_statuses r).
Definition send_signal (r : System S) : System S :=
  mkSystem (sy_events r) (match sy_phase r with LoopDone => sy_signals r | _ => 1 + sy_signals r end)%nat
    (sy_thread r) (sy_monitor r) (sy_mounts r) (sy_phase r) (sy_loop r) (sy_main r) (sy_statuses r).

(** The control handler. *)
Definition handle_control (c : ServiceControl) (r : System S) : System S :=
  match on_control c with
  | None => r
  | Some (event, signal) =>
      let r := match event with Some e => send_event e r | None => r end in
      if signal then send_signal r else r
  end.

(** The session thread after an event or a timeout: the monitor is [m], and the
    snapshot is taken of its actors in the order [order]. *)
Definition thread_goes_on (events : list SessionEvent) (m : Monitor) (order : list MountActor)
    (r : System S) : System S :=
  mkSystem events (sy_signals r) ThreadLooping m (snapshot order) (sy_phase r) (sy_loop r)
    (sy_main r) (sy_statuses r).

Definition thread_breaks (events : list SessionEvent) (r : System S) : System S :=
  mkSystem events (sy_signals r) ThreadStopping (sy_monitor r) (sy_mounts r) (sy_phase r) (sy_loop r)
    (sy_main r) (sy_statuses r).

(** [stop_all] and the last snapshot. *)
Definition thread_ends (order : list MountActor) (r : System S) : System S :=
  mkSystem [] (sy_signals r) ThreadDone (stop_all (sy_monitor r)) (snapshot order) (sy_phase r) (sy_loop r)
    (sy_main r) (sy_statuses r).

Definition set_loop (signals : nat) (phase : LoopPhase) (l : LoopState S) (r : System S) : System S :=
  mkSystem (sy_events r) signals (sy_thread r) (sy_monitor r) (sy_mounts r) phase l (sy_main r) (sy_statuses r).

(** The main thread goes to the phase [p], with the statuses it then reports. *)
Definition set_main (p : MainPhase) (reported : list ScmStatus) (r : System S) : System S :=
  mkSystem (sy_events r) (sy_signals r) (sy_thread r) (sy_monitor r) (sy_mounts r) (sy_phase r) (sy_loop r)
    p (sy_statuses r ++ reported).

Definition loop_transport : option AgentConfigurationTransport :=
  match AgentConfigurationTransport_new client with Ok t => Some t | Err _ => None end.

(** An order in which the map of the actors may be iterated. *)
Definition iteration (m : Monitor) (order : list MountActor) : Prop :=
  order ≡ₚ (map_to_list (mo_actors m)).*2.

(** The monitor after the event, unless it is the stop. *)
Definition after_event (e : SessionEvent) (m : Monitor) : Monitor :=
  match e with
  | Logon id => snd (session_logon id m)
  | Logoff id => snd (session_logoff id m)
  | StopEvent => m
  end.

(** What a step of one of the three threads does: the session thread takes an event,
    finds none in time and looks at its hosts, takes the stop, or ends; the loop
    exits, polls, or ends a turn, the one described by its input; the main thread
    sends the logon of an active session, spawns the loop, sees it end, or joins the
    session thread. *)
Inductive Move :=
| EventTaken (e : SessionEvent)
| HostsChecked (exited : N -> bool) (order : list MountActor)
| StopTaken
| ThreadEnded
| LoopExited
| Polled (now epoch_seconds : N)
| TurnEnded (i : LoopInput)
| LogonSent (session_id : N)
| LoopSpawned (start : N)
| LoopJoined
| ThreadJoined.

Inductive thread_move : Move -> System S -> System S -> Prop :=
| thread_event r e events order :
    sy_thread r = ThreadLooping -> sy_events r = e :: events -> e <> StopEvent ->
    iteration (after_event e (sy_monitor r)) order ->
    thread_move (EventTaken e) r (thread_goes_on events (after_event e (sy_monitor r)) order r)
| thread_timeout r exited order order' :
    sy_thread r = ThreadLooping -> sy_events r = [] -> iteration (sy_monitor r) order ->
    iteration (check_host_health exited order (sy_monitor r)) order' ->
    thread_move (HostsChecked exited order) r (thread_goes_on [] (check_host_health exited order (sy_monitor r)) order' r)
| thread_break r events :
    sy_thread r = ThreadLooping -> sy_events r = StopEvent :: events ->
    thread_move StopTaken r (thread_breaks events r)
| thread_end r order :
    sy_thread r = ThreadStopping -> iteration (stop_all (sy_monitor r)) order ->
    thread_move ThreadEnded r (thread_ends order r)
| loop_exit r n :
    sy_phase r = LoopTop -> sy_signals r = Datatypes.S n ->
    thread_move LoopExited r (set_loop n LoopDone (sy_loop r) r)
| loop_poll r now epoch :
    sy_phase r = LoopTop -> sy_signals r = O ->
    thread_move (Polled now epoch) r (set_loop O (LoopPolled now epoch)
      (poll_turn config client pkg_version loop_transport (configuration_verifier config)
         (mkLoopInput false now 0 epoch []) (sy_loop r)) r)
| loop_health r now epoch now' :
    sy_phase r = LoopPolled now epoch ->
    thread_move (TurnEnded (mkLoopInput false now now' epoch (sy_mounts r))) r (set_loop (sy_signals r) LoopTop
      (health_turn config client pkg_version (mkLoopInput false now now' epoch (sy_mounts r)) (sy_loop r)) r)
| main_reconcile r id rest :
    sy_main r = Reconciling (id :: rest) ->
    thread_move (LogonSent id) r (set_main (Reconciling rest) [] (send_event (Logon id) r))
| main_spawn r start :
    sy_main r = Reconciling [] ->
    thread_move (LoopSpawned start) r (set_main AwaitingLoop [Running] (set_loop (sy_signals r) LoopTop
      (run_service_loop config client pkg_version start (lp_cache (sy_loop r)) [] (lp_net (sy_loop r))) r))
| main_loop_ended r :
    sy_main r = AwaitingLoop -> sy_phase r = LoopDone -> thread_move LoopJoined r (set_main JoiningThread [] r)
| main_joined r :
    sy_main r = JoiningThread -> sy_thread r = ThreadDone ->
    thread_move ThreadJoined r (set_main MainDone [ScmStopped 0] r).

(** One step of one of the three threads. *)
Definition internal (r r' : System S) : Prop := exists x, thread_move x r r'.

(** A step of the service, or a control, which may come at any time. *)
Inductive turn : System S -> System S -> Prop :=
| turn_internal r r' : internal r r' -> turn r r'
| turn_control r c : turn r (handle_control c r).

(** The state in which the session thread is spawned, with the sessions that are
    active then. *)
Definition launched (session_config : SessionConfig) (cache : Cache) (net : S) (sessions : list N) : System S :=
  mkSystem [] 0 ThreadLooping (monitor_new session_config) [] LoopUnborn (mkLoopState cache net None 0 0)
    (Reconciling sessions) [StartPending 0; StartPending 1; StartPending 2].
End Lifetime.

(** ** Safety *)

Section Safety.
Context {S : Type} `{HttpClient S} `{Sha256} `{Ed25519} `{Providers}.
Context (config : ServiceConfig) (client : AgentHttpClient) (pkg_version : bytes).

Abbreviation internal := (internal config client pkg_version).
Abbreviation turn := (turn config client pkg_version).

(** A control changes only what is in the channels. *)
Lemma control_keeps {X} (f : System S -> X) c r :
  (forall r e, f (send_event e r) = f r) -> (forall r, f (send_signal r) = f r) ->
  f (handle_control c r) = f r.
Proof.
  intros He Hs. unfold handle_control.
  destruct (on_control c) as [[[e|] []]|]; rewrite ?Hs, ?He; done.
Qed.

Lemma turns_keep (P : System S -> Prop) r r' :
  (forall r r', internal r r' -> P r -> P r') -> (forall r c, P r -> P (handle_control c r)) ->
  rtc turn r r' -> P r -> P r'.
Proof.
  intros Hi Hc Hr. induction Hr as [|x y z Hxy _ IH]; [done|]. intros Hp. apply IH. destruct Hxy; eauto.
Qed.

(** How far the main thread is goes with the other two and with what it reported. *)
Definition pending : list ScmStatus := [StartPending 0; StartPending 1; StartPending 2].

Definition main_inv (r : System S) : Prop :=
  match sy_main r with
  | Reconciling _ => sy_phase r = LoopUnborn /\ sy_statuses r = pending
  | AwaitingLoop => sy_phase r <> LoopUnborn /\ sy_statuses r = pending ++ [Running]
  | JoiningThread => sy_phase r = LoopDone /\ sy_statuses r = pending ++ [Running]
  | MainDone =>
      sy_phase r = LoopDone /\ sy_thread r = ThreadDone /\ sy_statuses r = pending ++ [Running; ScmStopped 0]
  end.

Definition stopped_monitor (m : Monitor) : Prop :=
  mo_runtimes m = ∅ /\
  forall k a, mo_actors m !! k = Some a -> ma_state a = Stopped /\ ma_drive_letter a = None.

Definition thread_inv (r : System S) : Prop :=
  sy_thread r = ThreadDone ->
  stopped_monitor (sy_monitor r) /\ exists order, iteration (sy_monitor r) order /\ sy_mounts r = snapshot order.

Lemma stop_all_stopped m : stopped_monitor (stop_all m).
Proof.
  split; [done|]. intros k a Ha. cbn in Ha. rewrite lookup_fmap in Ha.
  apply fmap_Some in Ha as (b & _ & ->). done.
Qed.

Lemma main_inv_internal r r' : internal r r' -> main_inv r -> main_inv r'.
Proof.
  intros [x Hr] Hi. unfold main_inv in *. destruct Hr; cbn [sy_main sy_phase sy_thread sy_statuses
    thread_goes_on thread_breaks thread_ends set_loop set_main send_event] in *;
    try match goal with E : sy_main _ = _ |- _ => rewrite E in Hi end;
    try (destruct (sy_main r)); rewrite ?app_nil_r; intuition (try congruence);
    match goal with E : sy_statuses _ = _ |- _ => by rewrite E end.
Qed.

Lemma thread_inv_internal r r' : internal r r' -> thread_inv r -> thread_inv r'.
Proof.
  intros [x Hr] Hi. unfold thread_inv in *. destruct Hr; cbn [sy_main sy_phase sy_thread sy_statuses sy_monitor sy_mounts
    thread_goes_on thread_breaks thread_ends set_loop set_main send_event] in *; try done.
  intros _. split; [apply stop_all_stopped|]. by eexists.
Qed.

Lemma launched_inv session_config cache net sessions :
  main_inv (launched session_config cache net sessions) /\ thread_inv (launched session_config cache net sessions).
Proof. done. Qed.

Lemma inv_control c r : main_inv r -> main_inv (handle_control c r).
Proof.
  intros Hi. unfold main_inv in *.
  rewrite (control_keeps sy_main), (control_keeps sy_phase), (control_keeps sy_statuses), (control_keeps sy_thread) by done.
  done.
Qed.

Lemma thread_inv_control c r : thread_inv r -> thread_inv (handle_control c r).
Proof.
  intros Hi. unfold thread_inv in *.
  rewrite (control_keeps sy_thread), (control_keeps sy_monitor), (control_keeps sy_mounts) by done. done.
Qed.

(** C21.  The service says it has stopped only when it has: however the controls, the
    session thread, the loop and the main thread interleave, once the status
    [Stopped] was reported the loop and the thread have ended, no host is kept, every
    actor is stopped and shows no drive, the published snapshot is one of them, and
    the statuses reported are the three of the start, [Running] and that one. *)
Theorem stopped_when_reported session_config cache net sessions r :
  rtc turn (launched session_config cache net sessions) r -> ScmStopped 0 ∈ sy_statuses r ->
  sy_phase r = LoopDone /\ sy_thread r = ThreadDone /\ stopped_monitor (sy_monitor r) /\
  (exists order, iteration (sy_monitor r) order /\ sy_mounts r = snapshot order) /\
  sy_statuses r = [StartPending 0; StartPending 1; StartPending 2; Running; ScmStopped 0].
Proof.
  intros Hr Hin. destruct (launched_inv session_config cache net sessions) as [Hm Ht].
  assert (main_inv r) as Hm' by (eapply turns_keep; [apply main_inv_internal|intros; by apply inv_control|exact Hr|exact Hm]).
  assert (thread_inv r) as Ht' by (eapply turns_keep; [apply thread_inv_internal|intros; by apply thread_inv_control|exact Hr|exact Ht]).
  unfold main_inv in Hm'. destruct (sy_main r).
  1-3: destruct Hm' as [_ E]; rewrite E in Hin; unfold pending in Hin; set_solver.
  destruct Hm' as (Hp & Hd & E). destruct (Ht' Hd) as [Hs Ho]. by rewrite E.
Qed.

(** ** Stopping *)

(** The stop reached both channels, or what reads them has ended. *)
Definition stop_requested (r : System S) : Prop :=
  (sy_thread r = ThreadLooping -> StopEvent ∈ sy_events r) /\
  (sy_phase r <> LoopDone -> sy_signals r <> O).

(** The steps left before the end, at most. *)
Definition steps_left (r : System S) : nat :=
  (match sy_main r with
   | Reconciling l => 3 + 2 * length l
   | AwaitingLoop => 2
   | JoiningThread => 1
   | MainDone => 0
   end +
   match sy_phase r with LoopUnborn | LoopTop => 1 | LoopPolled _ _ => 2 | LoopDone => 0 end +
   match sy_thread r with ThreadLooping => 2 + length (sy_events r) | ThreadStopping => 1 | ThreadDone => 0 end)%nat.

Lemma stop_requested_control c r :
  c = ControlStop \/ c = ControlShutdown -> stop_requested (handle_control c r).
Proof.
  intros Hc. assert (handle_control c r = send_signal (send_event StopEvent r)) as -> by by destruct Hc as [->| ->].
  unfold stop_requested, send_signal, send_event. cbn.
  split; [intros ->; set_solver|]. by destruct (sy_phase r).
Qed.

Lemma stop_requested_step r r' :
  main_inv r -> internal r r' -> stop_requested r -> stop_requested r' /\ (steps_left r' < steps_left r)%nat.
Proof.
  intros Hi [x Hr] [Ht Hl]. unfold stop_requested, steps_left, main_inv in *.
  destruct Hr as [r e events order E1 E2 Hne|r exited order order' E1 E2|r events E1 E2|r order E1
    |r n E1 E2|r now epoch E1 E2|r now epoch now' E1|r id rest E1|r start E1|r E1 E2|r E1 E2];
    cbn [sy_main sy_phase sy_thread sy_statuses sy_monitor sy_mounts sy_events sy_signals
      thread_goes_on thread_breaks thread_ends set_loop set_main send_event] in *;
    rewrite ?E1, ?E2 in *; cbn [length] in *.
  - split; [split; [intros _; set_solver|done]|lia].
  - exfalso. specialize (Ht eq_refl). set_solver.
  - split; [done|lia].
  - split; [done|lia].
  - split; [by split|lia].
  - exfalso. by apply Hl.
  - split; [split; [done|intros _; by apply Hl]|lia].
  - split; [split; [intros E; rewrite E in *; set_solver|done]|].
    destruct (sy_thread r); rewrite ?length_app; cbn [length]; lia.
  - destruct Hi as [Hp _]. rewrite Hp in *. split; [split; [done|intros _; by apply Hl]|lia].
  - split; [done|lia].
  - split; [done|lia].
Qed.

Lemma iteration_map m : iteration m (map_to_list (mo_actors m)).*2.
Proof. unfold iteration. reflexivity. Qed.

(** Unless the main thread has returned, some thread can go on. *)
Lemma stop_requested_progress r :
  main_inv r -> stop_requested r -> sy_main r = MainDone \/ exists r', internal r r'.
Proof.
  intros Hi [Ht Hl]. unfold main_inv in Hi. destruct (sy_main r) as [[|id rest]| | |] eqn:Em; [| | | |by left]; right.
  - eexists _, _. by apply (main_spawn _ _ _ _ 0).
  - eexists _, _. by apply main_reconcile.
  - destruct Hi as [Hp _]. destruct (sy_phase r) as [| |now epoch|] eqn:Ep; [done| | |].
    + destruct (sy_signals r) as [|n] eqn:Es; [by destruct Hl|]. eexists _, _. by apply loop_exit.
    + eexists _, _. by apply (loop_health _ _ _ _ now epoch 0).
    + eexists _, _. by apply main_loop_ended.
  - destruct (sy_thread r) eqn:Et.
    + specialize (Ht eq_refl). destruct (sy_events r) as [|e events] eqn:Ee; [set_solver|].
      destruct e; [eexists _, _; eapply thread_event; try done; apply iteration_map..|eexists _, _; by apply thread_break].
    + eexists _, _. eapply thread_end; [done|apply iteration_map].
    + eexists _, _. by apply main_joined.
Qed.

(** C12.  A stop or a shutdown is answered: from any state the service may be in when
    the control comes, whatever the threads then do in whatever order, they make
    finitely many steps, bounded by the work that is queued, and they cannot all be
    stuck before the main thread has returned and [Stopped] was reported. *)
Theorem service_stops session_config cache net sessions r c n r' :
  rtc turn (launched session_config cache net sessions) r -> c = ControlStop \/ c = ControlShutdown ->
  nsteps internal n (handle_control c r) r' ->
  (n <= steps_left (handle_control c r))%nat /\
  ((forall r'', ~ internal r' r'') -> sy_main r' = MainDone /\ ScmStopped 0 ∈ sy_statuses r').
Proof.
  intros Hr Hc Hn. destruct (launched_inv session_config cache net sessions) as [Hm _].
  assert (main_inv (handle_control c r)) as Hi.
  { apply inv_control. eapply turns_keep; [apply main_inv_internal|intros; by apply inv_control|exact Hr|exact Hm]. }
  apply (stop_requested_control c r) in Hc. revert Hn Hi Hc. generalize (handle_control c r). clear Hr.
  induction n as [|n IH]; intros r0 Hn Hi Hs.
  - inversion Hn; subst. split; [lia|]. intros Hend.
    destruct (stop_requested_progress _ Hi Hs) as [E|[r'' Hr]]; [|by destruct (Hend r'')].
    split; [done|]. unfold main_inv in Hi. rewrite E in Hi. destruct Hi as (_ & _ & ->). set_solver.
  - inversion Hn as [|? ? r1 ? Hstep Hrest]; subst.
    destruct (stop_requested_step r0 r1 Hi Hstep Hs) as [Hs1 Hlt].
    destruct (IH r1 Hrest (main_inv_internal _ _ Hstep Hi) Hs1) as [Hle Hend]. split; [lia|exact Hend].
Qed.
End Safety.

(** ** Runs *)

(** A step of a run: a control, or a move of one of the threads. *)
Inductive RunStep := Control (c : ServiceControl) | Moved (x : Move).

Section Runs.
Context {S : Type} `{HttpClient S} `{Sha256} `{Ed25519} `{Providers}.
Context (config : ServiceConfig) (client : AgentHttpClient) (pkg_version : bytes).

Definition taken_step (x : RunStep) (r r' : System S) : Prop :=
  match x with
  | Control c => r' = handle_control c r
  | Moved x => thread_move config client pkg_version x r r'
  end.

(** [run r0 t r]: from [r0] the steps [t], in this order, lead to [r]. *)
Inductive run (r0 : System S) : list RunStep -> System S -> Prop :=
| run_start : run r0 [] r0
| run_next t r x r' : run r0 t r -> taken_step x r r' -> run r0 (t ++ [x]) r'.

(** The runs are the sequences of turns. *)
Lemma turns_run r0 r : rtc (turn config client pkg_version) r0 r <-> exists t, run r0 t r.
Proof.
  split.
  - revert r. apply (rtc_ind_r (fun r => exists t, run r0 t r)); [exists []; constructor|].
    intros x y _ Hxy [t Ht]. destruct Hxy as [x y [m Hm]|x c].
    + exists (t ++ [Moved m]). by econstructor.
    + exists (t ++ [Control c]). by econstructor.
  - intros [t Ht]. induction Ht as [|t x s y Hx IH Hs]; [done|]. eapply rtc_r; [exact IH|].
    destruct s as [c|m]; cbn in Hs; [subst; apply turn_control|apply turn_internal; by exists m].
Qed.
End Runs.

(** What the steps of a run say, one after the other. *)
Definition noted {A} (f : RunStep -> list A) (t : list RunStep) : list A := concat (map f t).

Lemma noted_snoc {A} (f : RunStep -> list A) t x : noted f (t ++ [x]) = noted f t ++ f x.
Proof. unfold noted. rewrite map_app, concat_app. cbn. by rewrite app_nil_r. Qed.

(** The inputs of the session thread; its end is that of [session_thread] on a stop. *)
Definition inputs (x : RunStep) : list ThreadInput :=
  match x with
  | Moved (EventTaken e) => [Received e]
  | Moved (HostsChecked exited order) => [TimedOut exited order]
  | Moved ThreadEnded => [Received StopEvent]
  | _ => []
  end.

(** The events it took from its channel. *)
Definition events_taken (x : RunStep) : list SessionEvent :=
  match x with
  | Moved (EventTaken e) => [e]
  | Moved StopTaken => [StopEvent]
  | _ => []
  end.

(** The logons the main thread sent. *)
Definition logons (x : RunStep) : list N := match x with Moved (LogonSent id) => [id] | _ => [] end.

(** The events the controls and the main thread mean for it. *)
Definition events_meant (x : RunStep) : list SessionEvent :=
  match x with
  | Control (ControlStop | ControlShutdown) => [StopEvent]
  | Control (SessionLogon id) => [Logon id]
  | Control (SessionLogoff id) => [Logoff id]
  | Moved (LogonSent id) => [Logon id]
  | _ => []
  end.

(** The controls that stop the service. *)
Definition stops (x : RunStep) : list ServiceControl :=
  match x with Control ((ControlStop | ControlShutdown) as c) => [c] | _ => [] end.

(** The turns of the loop. *)
Definition loop_inputs (x : RunStep) : list LoopInput := match x with Moved (TurnEnded i) => [i] | _ => [] end.

Lemma snoc_split {A} (t t1 t2 : list A) x y :
  t ++ [x] = t1 ++ y :: t2 -> (t = t1 /\ x = y) \/ exists t3, t = t1 ++ y :: t3.
Proof.
  destruct t2 as [|z t2 _] using rev_ind; [intros [-> [= ->]]%app_inj_2; auto|].
  rewrite app_comm_cons, app_assoc. intros [-> _]%app_inj_2; [|done]. right. by exists t2.
Qed.

(** ** Refinement *)

Section Refinement.
Context {S : Type} `{HttpClient S} `{Sha256} `{Ed25519} `{Providers}.
Context (config : ServiceConfig) (client : AgentHttpClient) (pkg_version : bytes).
Context (m0 : Monitor) (cache : Cache) (net : S) (sessions : list N).

Abbreviation taken_step := (taken_step config client pkg_version).
Abbreviation goes_on := (fun x : ThreadInput => x <> Received StopEvent).

Lemma session_thread_app l l' m :
  Forall goes_on l -> session_thread (l ++ l') m = session_thread l' (session_thread l m).
Proof.
  intros Hl. revert m. induction Hl as [|x l Hx Hl IH]; intros m; [done|].
  destruct x as [[id|id|]|exited order]; [..|apply IH]; [apply IH|apply IH|done].
Qed.

Lemma loop_turns_snoc t v inputs i st :
  Forall (fun i => li_shutdown i = false) inputs -> li_shutdown i = false ->
  loop_turns config client pkg_version t v (inputs ++ [i]) st =
  health_turn config client pkg_version i (poll_turn config client pkg_version t v i
    (loop_turns config client pkg_version t v inputs st)).
Proof.
  intros Hl Hi. revert st. induction Hl as [|x l Hx Hl IH]; intros st; cbn [app loop_turns]; rewrite ?Hx, ?Hi; [done|].
  apply IH.
Qed.

(** [mounts] is a snapshot of the monitor [m]. *)
Definition published (m : Monitor) (mounts : list MountAttempt) : Prop :=
  exists order, iteration m order /\ mounts = snapshot order.

(** The monitor is what the thread made of its inputs, and the mounts that are
    published are those of the monitor. *)
Record thread_tracked (t : list RunStep) (r : System S) : Prop := {
  tt_goes_on : sy_thread r <> ThreadDone -> Forall goes_on (noted inputs t);
  tt_monitor : sy_monitor r = session_thread (noted inputs t) m0;
  tt_reached : rtc step m0 (sy_monitor r);
  tt_mounts : published (sy_monitor r) (sy_mounts r);
}.

(** The thread took one more input. *)
Lemma tracked_input t s x m order events thread r :
  thread_tracked t r -> inputs s = [x] -> sy_thread r <> ThreadDone -> m = session_thread [x] (sy_monitor r) ->
  step (sy_monitor r) m -> iteration m order -> (thread <> ThreadDone -> goes_on x) ->
  thread_tracked (t ++ [s])
    (mkSystem events (sy_signals r) thread m (snapshot order) (sy_phase r) (sy_loop r) (sy_main r) (sy_statuses r)).
Proof.
  intros [Hg Hm Hs _] Es Ht Ex Hstep Ho Hx. specialize (Hg Ht).
  split; rewrite ?noted_snoc, ?Es; cbn [sy_thread sy_monitor sy_mounts].
  - intros Hn. apply Forall_app. split; [done|]. by apply Forall_singleton, Hx.
  - by rewrite session_thread_app, <- Hm.
  - by eapply rtc_r.
  - by exists order.
Qed.

(** Another thread, or a control, made the step. *)
Lemma tracked_same t s r r' :
  inputs s = [] -> sy_thread r' = sy_thread r \/ sy_thread r' = ThreadStopping /\ sy_thread r = ThreadLooping ->
  sy_monitor r' = sy_monitor r -> sy_mounts r' = sy_mounts r ->
  thread_tracked t r -> thread_tracked (t ++ [s]) r'.
Proof.
  intros Es Ht Em Ep [Hg Hm Hs Hp]. split; rewrite ?noted_snoc, ?Es, ?app_nil_r, ?Em, ?Ep; try done.
  intros Hn. apply Hg. destruct Ht as [<-|[_ ->]]; done.
Qed.

Local Ltac elsewhere r := eapply (tracked_same _ _ r); [|left| | |]; done.

Lemma thread_tracked_step t s r r' : taken_step s r r' -> thread_tracked t r -> thread_tracked (t ++ [s]) r'.
Proof.
  destruct s as [c|x]; cbn; intros Hr Hk.
  { subst r'. eapply tracked_same; [done|left; by apply (control_keeps sy_thread)|by apply (control_keeps sy_monitor)
      |by apply (control_keeps sy_mounts)|exact Hk]. }
  destruct Hr as [r e events order E1 E2 Hne Ho|r exited order order' E1 E2 Ho Ho'|r events E1 E2|r order E1 Ho
    |r n E1 E2|r now epoch E1 E2|r now epoch now' E1|r id rest E1|r start E1|r E1 E2|r E1 E2].
  - destruct e as [id|id|]; [| |done];
      (eapply tracked_input; [exact Hk|reflexivity|by rewrite E1|reflexivity|constructor|exact Ho|done]).
  - eapply tracked_input; [exact Hk|reflexivity|by rewrite E1|reflexivity|by constructor|exact Ho'|done].
  - eapply tracked_same; [done|right; split; [reflexivity|exact E1]|done..|exact Hk].
  - eapply tracked_input; [exact Hk|reflexivity|by rewrite E1|reflexivity|constructor|exact Ho|done].
  - by elsewhere r.
  - by elsewhere r.
  - by elsewhere r.
  - by elsewhere r.
  - by elsewhere r.
  - by elsewhere r.
  - by elsewhere r.
Qed.

(** Nothing is lost on the way to the thread and to the loop, nothing is added and
    nothing overtakes: what the thread took and what is in its channel is what was
    meant for it, as long as it receives. *)
Definition delivered (t : list RunStep) (r : System S) : Prop :=
  match sy_thread r with
  | ThreadDone => noted events_taken t `prefix_of` noted events_meant t
  | _ => noted events_taken t ++ sy_events r = noted events_meant t
  end.

Lemma delivered_send t s e r :
  events_taken s = [] -> events_meant s = [e] -> delivered t r -> delivered (t ++ [s]) (send_event e r).
Proof.
  intros E1 E2. unfold delivered. rewrite !noted_snoc, E1, E2, app_nil_r. cbn [send_event sy_thread sy_events].
  destruct (sy_thread r); intros Hd; [by rewrite app_assoc, Hd..|by apply prefix_app_r].
Qed.

Lemma delivered_same t s r r' :
  events_taken s = [] -> events_meant s = [] -> sy_thread r' = sy_thread r -> sy_events r' = sy_events r ->
  delivered t r -> delivered (t ++ [s]) r'.
Proof. intros E1 E2 Et Ee. unfold delivered. by rewrite !noted_snoc, E1, E2, !app_nil_r, Et, Ee. Qed.

Lemma delivered_take t s e r r' :
  events_taken s = [e] -> events_meant s = [] -> sy_thread r = ThreadLooping -> sy_thread r' <> ThreadDone ->
  sy_events r = e :: sy_events r' -> delivered t r -> delivered (t ++ [s]) r'.
Proof.
  intros E1 E2 Et Et' Ee. unfold delivered. rewrite !noted_snoc, E1, E2, Et, Ee, app_nil_r. intros <-.
  by destruct (sy_thread r'); rewrite <- ?app_assoc.
Qed.

Record channels_tracked (t : list RunStep) (r : System S) : Prop := {
  ch_events : delivered t r;
  ch_signals : sy_phase r <> LoopDone -> sy_signals r = length (noted stops t);
  ch_logons : noted logons t ++ match sy_main r with Reconciling l => l | _ => [] end = sessions;
}.

Lemma channels_control t c r : channels_tracked t r -> channels_tracked (t ++ [Control c]) (handle_control c r).
Proof.
  intros [He Hs Hl]. split.
  - destruct c as [| |id|id|id|]; unfold handle_control; cbn [on_control].
    1-2: by apply (delivered_send t _ StopEvent r).
    1-2: by apply delivered_send.
    all: by eapply delivered_same.
  - rewrite (control_keeps sy_phase), noted_snoc, length_app by done. intros Hn. specialize (Hs Hn).
    unfold handle_control. destruct c; cbn [on_control send_event send_signal sy_phase sy_signals stops length];
      try (destruct (sy_phase r); [..|done]); lia.
  - rewrite (control_keeps sy_main), noted_snoc, app_nil_r by done. exact Hl.
Qed.

Lemma channels_tracked_step t s r r' :
  main_inv r -> taken_step s r r' -> channels_tracked t r -> channels_tracked (t ++ [s]) r'.
Proof.
  destruct s as [c|x]; cbn; [intros _ -> Hk; by apply channels_control|]. intros Hi Hr [He Hs Hl].
  destruct Hr as [r e events order E1 E2 Hne Ho|r exited order order' E1 E2 Ho Ho'|r events E1 E2|r order E1 Ho
    |r n E1 E2|r now epoch E1 E2|r now epoch now' E1|r id rest E1|r start E1|r E1 E2|r E1 E2];
    split; rewrite ?noted_snoc, ?app_nil_r;
    try (by eapply delivered_take); try (by eapply delivered_send); try (by eapply (delivered_same _ _ r));
    cbn [sy_main sy_phase sy_signals stops logons
      thread_goes_on thread_breaks thread_ends set_loop set_main send_event] in *;
    rewrite ?E1, ?E2, ?app_nil_r in *; try done.
  - unfold delivered in *. rewrite E1 in He. cbn [thread_ends sy_thread]. rewrite !noted_snoc, !app_nil_r, <- He.
    by apply prefix_app_r.
  - intros _. by apply Hs.
  - intros _. by apply Hs.
  - by rewrite <- app_assoc.
  - intros _. apply Hs. unfold main_inv in Hi. rewrite E1 in Hi. by destruct Hi as [-> _].
Qed.

(** The loop's state is what [run_service_loop] made of the turns. *)
Definition loop_of (turns : list LoopInput) (phase : LoopPhase) (l : LoopState S) : Prop :=
  Forall (fun i => li_shutdown i = false) turns /\
  match phase with
  | LoopUnborn => turns = [] /\ l = mkLoopState cache net None 0 0
  | LoopTop | LoopDone => exists start, l = run_service_loop config client pkg_version start cache turns net
  | LoopPolled now epoch => exists start,
      l = poll_turn config client pkg_version (loop_transport client) (configuration_verifier config)
            (mkLoopInput false now 0 epoch []) (run_service_loop config client pkg_version start cache turns net)
  end.

Lemma loop_tracked_step t s r r' :
  main_inv r -> taken_step s r r' -> loop_of (noted loop_inputs t) (sy_phase r) (sy_loop r) ->
  loop_of (noted loop_inputs (t ++ [s])) (sy_phase r') (sy_loop r').
Proof.
  intros Hi Hr [Hf Hl]. destruct s as [c|x]; cbn in Hr.
  { subst r'. rewrite noted_snoc, app_nil_r, (control_keeps sy_phase), (control_keeps sy_loop) by done. done. }
  destruct Hr as [r e events order E1 E2 Hne Ho|r exited order order' E1 E2 Ho Ho'|r events E1 E2|r order E1 Ho
    |r n E1 E2|r now epoch E1 E2|r now epoch now' E1|r id rest E1|r start E1|r E1 E2|r E1 E2];
    rewrite noted_snoc; cbn [loop_inputs]; rewrite ?app_nil_r; try done.
  - split; [done|]. by rewrite E1 in Hl.
  - split; [done|]. rewrite E1 in Hl. destruct Hl as [start ->]. by exists start.
  - rewrite E1 in Hl. destruct Hl as [start Hl]. split; [apply Forall_app; by split; [|apply Forall_singleton]|].
    exists start. cbn [set_loop sy_loop]. rewrite Hl. unfold run_service_loop. by rewrite loop_turns_snoc.
  - unfold main_inv in Hi. rewrite E1 in Hi. destruct Hi as [Hp _]. rewrite Hp in Hl. destruct Hl as [E Hl].
    split; [done|]. exists start. cbn [set_main set_loop sy_loop]. by rewrite Hl, E.
Qed.

(** Each turn of the loop saw the mounts of the monitor as it then was. *)
Definition turns_tracked (t : list RunStep) : Prop :=
  forall t1 i t2, t = t1 ++ Moved (TurnEnded i) :: t2 -> published (session_thread (noted inputs t1) m0) (li_mounts i).

Lemma turns_tracked_step t s r r' :
  taken_step s r r' -> thread_tracked t r -> turns_tracked t -> turns_tracked (t ++ [s]).
Proof.
  intros Hr [_ Hm _ Hp] Ht t1 i t2 [[-> ->]|[t3 E]]%snoc_split; [|by eapply Ht].
  cbn in Hr. rewrite <- Hm. by inversion Hr; subst.
Qed.

Record tracked (t : list RunStep) (r : System S) : Prop := {
  tk_main : main_inv r;
  tk_thread : thread_tracked t r;
  tk_channels : channels_tracked t r;
  tk_loop : loop_of (noted loop_inputs t) (sy_phase r) (sy_loop r);
  tk_turns : turns_tracked t;
}.

Lemma run_tracked r0 t r : tracked [] r0 -> run config client pkg_version r0 t r -> tracked t r.
Proof.
  intros H3 Hr. induction Hr as [|t r s r' Hr [Hi Ht Hc Hl Hs] Hx]; [done|]. split.
  - destruct s as [c|x]; cbn in Hx; [subst; by apply inv_control|].
    eapply (main_inv_internal config client pkg_version); [by exists x|done].
  - by eapply thread_tracked_step.
  - by eapply channels_tracked_step.
  - by eapply loop_tracked_step.
  - by eapply turns_tracked_step.
Qed.
End Refinement.

Section Composition.
Context {S : Type} `{HttpClient S} `{Sha256} `{Ed25519} `{Providers}.
Context (config : ServiceConfig) (client : AgentHttpClient) (pkg_version : bytes).

Lemma launched_tracked session_config cache net sessions :
  tracked config client pkg_version (monitor_new session_config) cache net sessions []
    (launched session_config cache net sessions).
Proof.
  split; [done| | |done|].
  - split; [by intros _|done|apply rtc_refl|]. exists []. split; [|done].
    unfold iteration. cbn. by rewrite map_to_list_empty.
  - by split.
  - by intros [] ? ?.
Qed.

(** C11.  The interleaved service is the session thread and the service loop of
    Service, each run by itself on what reaches it.  In every run, whatever the order
    of the controls and of the threads' moves:
    - the monitor is what [session_thread] makes of the events and timeouts the
      thread took in this run, and a state the monitor can reach;
    - those events are the ones the controls and the reconciliation of the active
      sessions meant for it, in their order, and the rest of them is still in the
      channel, as long as the thread receives; and as many shutdown signals are
      waiting as there were stop and shutdown controls, until the loop takes one;
    - the logons sent and those still to be sent are the active sessions;
    - the published mounts are those of the monitor as it is;
    - between two turns the loop's state is what [run_service_loop] makes of the turns
      of this run;
    - the mounts that each of those turns has for its health report are those of the
      monitor at that point of the run.
    The report that follows a failed poll has no mounts: it always says that nothing
    is mounted. *)
Theorem service_interleaving session_config cache net sessions t r :
  run config client pkg_version (launched session_config cache net sessions) t r ->
  let m0 := monitor_new session_config in
  (sy_monitor r = session_thread (noted inputs t) m0 /\ rtc step m0 (sy_monitor r)) /\
  (match sy_thread r with
   | ThreadDone => noted events_taken t `prefix_of` noted events_meant t
   | _ => noted events_taken t ++ sy_events r = noted events_meant t
   end /\
   (sy_phase r <> LoopDone -> sy_signals r = length (noted stops t))) /\
  noted logons t ++ match sy_main r with Reconciling l => l | _ => [] end = sessions /\
  published (sy_monitor r) (sy_mounts r) /\
  (sy_phase r = LoopTop \/ sy_phase r = LoopDone ->
   exists start, sy_loop r = run_service_loop config client pkg_version start cache (noted loop_inputs t) net) /\
  (forall t1 i t2, t = t1 ++ Moved (TurnEnded i) :: t2 ->
   published (session_thread (noted inputs t1) m0) (li_mounts i)).
Proof.
  intros Hr. destruct (run_tracked config client pkg_version _ cache net sessions _ t r
    (launched_tracked session_config cache net sessions) Hr) as [_ [_ Hm Hs Hp] [He Hg Hl] [_ Hloop] Ht].
  split; [done|]. split; [done|]. split; [done|]. split; [done|]. split; [|exact Ht].
  intros [E|E]; by rewrite E in Hloop.
Qed.
End Composition.

(** ** A run *)

Section Sample.
Context {S : Type} `{HttpClient S} `{Sha256} `{Ed25519} `{Providers}.
Context (config : ServiceConfig) (client : AgentHttpClient) (pkg_version : bytes).
Context (session_config : SessionConfig) (cache : Cache) (net : S).

Tactic Notation "go" uconstr(rule) :=
  eapply rtc_l; [apply turn_internal; eexists; eapply rule; try reflexivity; try apply iteration_map; done|].
Tactic Notation "steps" uconstr(rule) :=
  eapply nsteps_l; [eexists; eapply rule; try reflexivity; try apply iteration_map; done|].

(** A session that was active is reconciled and the loop makes a turn. *)
Lemma sample_working :
  exists r, rtc (turn config client pkg_version) (launched session_config cache net [3]) r /\
    sy_monitor r = snd (session_logon 3 (monitor_new session_config)) /\
    sy_phase r = LoopTop /\ sy_thread r = ThreadLooping /\ sy_main r = AwaitingLoop /\
    sy_events r = [] /\ sy_statuses r = [StartPending 0; StartPending 1; StartPending 2; Running].
Proof.
  eexists. split.
  - go (main_reconcile _ _ _ _ 3). go (thread_event _ _ _). go (main_spawn _ _ _ _ 1000).
    go (loop_poll _ _ _ _ 1000 1700000000). go (loop_health _ _ _ _ 1000 1700000000 1001). apply rtc_refl.
  - done.
Qed.

(** Then it is stopped. *)
Lemma sample_stopped r :
  sy_thread r = ThreadLooping -> sy_phase r = LoopTop -> sy_main r = AwaitingLoop -> sy_events r = [] ->
  exists r', nsteps (internal config client pkg_version) 5 (handle_control ControlStop r) r' /\
    sy_main r' = MainDone /\ sy_thread r' = ThreadDone /\ sy_phase r' = LoopDone /\ ScmStopped 0 ∈ sy_statuses r'.
Proof.
  destruct r as [events signals thread m mounts phase l main statuses]. cbn. intros -> -> -> ->. eexists. split.
  - steps (thread_break _ _ _). steps (thread_end _ _ _). steps (loop_exit _ _ _). steps (main_loop_ended _ _ _).
    steps (main_joined _ _ _). apply nsteps_O.
  - cbn. set_solver.
Qed.

Lemma final_stuck r r' :
  sy_main r = MainDone -> sy_thread r = ThreadDone -> sy_phase r = LoopDone ->
  ~ internal config client pkg_version r r'.
Proof. intros Em Et Ep [x Hr]. destruct Hr; congruence. Qed.
End Sample.

From S2P Require Import Toy.

Module Watch.
(** The loop of Rounds over the sessions of Session. *)
#[export] Existing Instance Session.Service.providers.
#[export] Existing Instance Rounds.http.
Definition watched := launched Session.Service.config Bundles.cache tt [3].
Definition version : bytes := lit "0.1".
End Watch.

Import Watch.

Lemma service_interleaving_witness :
  exists t r, run Rounds.config Rounds.client version watched t r /\
    sy_monitor r = session_thread (noted inputs t) (monitor_new Session.Service.config) /\
    noted logons t ++ match sy_main r with Reconciling l => l | _ => [] end = [3].
Proof.
  destruct (sample_working Rounds.config Rounds.client version Session.Service.config Bundles.cache tt) as (r & Hr & _).
  apply turns_run in Hr as [t Hr].
  destruct (service_interleaving _ _ _ _ _ _ _ t r Hr) as ((Hm & _) & _ & Hl & _).
  exists t, r. exact (conj Hr (conj Hm Hl)).
Defined.

Lemma service_stops_witness :
  exists r r', rtc (turn Rounds.config Rounds.client version) watched r /\
    nsteps (internal Rounds.config Rounds.client version) 5 (handle_control ControlStop r) r' /\
    (5 <= steps_left (handle_control ControlStop r))%nat /\ ScmStopped 0 ∈ sy_statuses r'.
Proof.
  destruct (sample_working Rounds.config Rounds.client version Session.Service.config Bundles.cache tt)
    as (r & Hr & _ & Hp & Ht & Hm & He & _).
  destruct (sample_stopped Rounds.config Rounds.client version r Ht Hp Hm He) as (r' & Hn & Em & Et & Ep & _).
  destruct (service_stops _ _ _ _ _ _ _ r ControlStop 5 r' Hr (or_introl eq_refl) Hn) as [Hle Hend].
  exists r, r'. refine (conj Hr (conj Hn (conj Hle (proj2 (Hend _))))).
  intros r''. exact (final_stuck Rounds.config Rounds.client version r' r'' Em Et Ep).
Defined.

Lemma stopped_when_reported_witness :
  exists r, rtc (turn Rounds.config Rounds.client version) watched r /\
    ScmStopped 0 ∈ sy_statuses r /\ stopped_monitor (sy_monitor r).
Proof.
  destruct (sample_working Rounds.config Rounds.client version Session.Service.config Bundles.cache tt)
    as (r & Hr & _ & Hp & Ht & Hm & He & _).
  destruct (sample_stopped Rounds.config Rounds.client version r Ht Hp Hm He) as (r' & Hn & _ & _ & _ & Hin).
  assert (rtc (turn Rounds.config Rounds.client version) watched r') as Hr'.
  { etrans; [exact Hr|]. eapply rtc_l; [apply turn_control|].
    apply (rtc_subrel (internal Rounds.config Rounds.client version)); [apply turn_internal|by eapply rtc_nsteps_2]. }
  destruct (stopped_when_reported _ _ _ _ _ _ _ r' Hr' Hin) as (_ & _ & Hs & _).
  exists r'. exact (conj Hr' (conj Hin Hs)).
Defined.
